(* ===== verification/_CoqProject ===== *)
-Q . S2P
Prelude.v
Bytes.v
Strconv.v
Credit.v
Wire.v
Proto.v
StorageWAL.v
RaftWAL.v
Raft.v
RaftVote.v
Cluster.v
Heartbeat.v
RaftLog.v
Rpc.v
LogMatch.v
LogSlice.v
LogShare.v
SkipList.v
SkipDelete.v
Bloom.v
SSTable.v
Merge.v
MemTable.v
Compaction.v
MemSystem.v
MemLife.v
LockFree.v
Json.v
JsonText.v
Predicate.v
Engine.v
Network.v
Pool.v
Connection.v
Listen.v
Service.v
Recovery.v
Grpc.v
Client.v
Session.v
Deadline.v
Torn.v
Ingest.v
Metrics.v
Main.v
Shipped.v
Console.v
Bench.v
BenchRun.v
Latency.v
IngestBench.v
GrpcBench.v
Config.v
ConfigFile.v
