(* ===== verification/Prelude.v ===== *)
(** * BanDB: a verification library for the storage engine and its replication layer

    The program is a key-value store in Go.  A client sends framed requests over
    TCP; a server dispatches them through a pool of workers to a router; the
    router reads and writes a key-value server, which logs each write (to a log
    of its own, or through Raft) and puts it into a memtable; the memtable is
    flushed to sorted tables on disk, which are merged from time to time.  The
    library follows that path from the bytes upwards.  This file holds what all
    parts share: byte strings, machine integers, results of fallible code, list
    lemmas and tactics.

    ** Conventions

    - A byte string is [list byte]; [int], [uint32] and [uint64] are [Z], with the
      wrap-around written out where the code can reach it.  A nil slice that the
      code tells apart from an empty one is [None].
    - [result A] is Go's pair of a value and an error.  [option] around it is a
      run-time panic, or a call that blocks for good; theorems that end in
      [Some _] say that neither happens.
    - A critical section ([mu.Lock] to [mu.Unlock]) is one function on the state.
      Where goroutines interleave, the sections are the steps of a relation and
      theorems hold for every reachable state.
    - Loops that are not structural take fuel.  Table and log readers get one
      unit per byte and a final one, and every turn reads at least one byte; the
      JSON scanner gets two units per byte ([Json.v] shows that more changes
      nothing); walks of the skip list get one unit per node and a binary search one per
      block; the votes of an election are bounded by the peers.  The theorems state results, never
      results under the hypothesis that the fuel lasts.
    - A file is its bytes, a directory a finite map from names to contents.
      Reads fail where the bytes end; a failing write leaves any prefix behind it.

    ** The parts, from the bottom up

    Encodings.
    - [Bytes.v], [Strconv.v]: [bytes.Compare], [encoding/binary], sequential
      readers, decimal numbers, cutting of strings.
    - [Wire.v]: [pkg/utils] ([Utils]) and the frame of [DataPack.go] with the
      reader loop of [connection.go] ([BanNet]); [IMessage] is the interface
      both message types implement.  Framing round trip, and a reader that ends
      on every input and never dispatches part of a frame.
    - [Proto.v]: the payloads of PUT, GET, DEL and SCAN ([pkg/proto], [router.go],
      [filter.go], [client.go]).  Round trips; no input makes a decoder panic.
    - [Json.v], [JsonText.v]: the parts of [encoding/json] the program uses, with
      the round trips of string literals and of compacted values.

    Storage.
    - [StorageWAL.v]: [storage/wal.go]; replay after any torn append.
    - [Credit.v]: [pkg/credit] with the callers that share a pool, asleep until a
      broadcast; the pool never exceeds its bound by more than one oversized
      request, and no wake-up is lost.
    - [SkipList.v]: the skip list of [memtable.go] on a heap of nodes, refining a
      finite map; [OrderedTable] is the interface the memtable uses, whose laws
      the skip list satisfies.
    - [SkipDelete.v]: deletion in the skip list, and inserts and deletes together.
    - [Bloom.v]: both filters and their codecs; no stored key is ever denied.
    - [SSTable.v]: tables on disk ([SSTable.go], [Entry.go]): writing, block index,
      lookups, caches, metadata and the scan at restart.
    - [Merge.v]: [iterator.go], [merge_iterator.go] and [MergeSSTable]: the merge
      of tables is the union in which the newest version wins.
    - [MemTable.v], [Compaction.v], [MemSystem.v]: [memtable.go].  The operations
      one by one; a compaction pass, invisible to readers; writers, readers and
      the flush worker interleaved: memory is bounded.  A [view] is the abstract
      state: active, dirty and flushed entries.
    - [MemLife.v]: the memtable from its start to [Close], with writers, the flush
      worker between any two of their sections, and whole compaction passes and
      reads: a read returns the last write ([reads_return_last_write]); what a read
      that overlaps a compaction sees instead, the list that is loaded late, and
      writers after [Close].  [LockFree.v]: the search of [Get], which holds no
      lock, read by read: what a write in between makes of it.
    - [Engine.v]: [storage/engine.go] over [istorage.IMemTable] as a class
      ([IMemTable]) whose laws ([IMemTableLaws]) are what the service relies on;
      [Live] discharges them with the memtable.

    Replication.
    - [RaftWAL.v]: state file, log file and snapshots of [raft_wal.go] and the
      snapshot payload of [raft.go]; recovery of the log after a crash.
    - [Raft.v]: every critical section of [raft.go] and [rpc.go].
    - [RaftVote.v]: elections of one node under interleaving and crashes;
      [Cluster.v]: all nodes, with vote requests and replies in flight, and when
      two of them can lead the same term; [RaftLog.v]: append, commit, apply,
      replicate, snapshot and restart.
    - [LogMatch.v]: all nodes with the messages of replication in flight: their
      logs match while no term has two leaders and messages are copies
      ([net_log_matching]).  [LogSlice.v]: the log as the slice it is, which
      messages share until they are encoded: it refines the lists of [Raft.v], and
      when a message is not what was sent.  [LogShare.v]: the cluster with these
      slices: logs match as long as no node cuts its log before its messages are
      encoded ([log_matching]), and a run in which one does.
    - [Rpc.v]: the senders of [rpc.go]: a call that fails before or after the peer
      handled it.  Repeated calls change nothing; a snapshot whose reply is lost
      stalls the peer.
    - [Heartbeat.v]: the election loop of [raft.go] with its timer, its channels and
      the clock; the ticker and the heartbeat goroutines, with the lock free
      between two peers: a leader keeps beating, which does not keep it a leader.

    Service.
    - [Predicate.v]: [pkg/predicate], with [strconv.ParseFloat] on binary64.
    - [Network.v]: requests, dispatch and the worker pool ([msgHandle.go]);
      [IRouter] is the interface of handlers, by which a router is shared between
      message ids as one object in a store.  [Pool.v]: the life of the pool, from
      [StartWorkerPool] to [Stop].
    - [Connection.v]: the goroutines of a connection and its queues, the table of
      connections, accepting and shutting down.  [Listen.v]: the life of the
      server of [server.go] round it: binding, the accept loop, [Stop].
    - [Service.v]: commands, [KVServer] ([fsm.go]) and [Router] ([router.go]) with
      its counters.
    - [Recovery.v]: acknowledged writes survive a crash; entries committed in the
      Raft log reach the store, directly and by snapshot.
    - [Client.v], [Session.v]: the client, and several clients, one request after
      the other, over frames, dispatch, router, log and memtable, with flushes and
      compactions in between: behind a hook that changes nothing they see one map.
    - [Deadline.v]: the deadlines of [client.go]: what a late reply does to the
      requests after it.  [Torn.v]: its [Close] and write deadline: what a request
      that was written in part does to the next one on the same connection.
    - [Grpc.v]: the other door, [test_grpc]: where it agrees with the router.
    - [Ingest.v]: the hook of [filter.go] installed in the router.
    - [Metrics.v]: [pkg/metrics]: gauges, snapshots, and that the router's counters
      account for the requests.
    - [Main.v]: [Server/server.go]: hook, router and store as [main] joins them; the
      health check of [ha.go].  [Shipped.v]: sessions with that server: a map
      behind the filter, and private fields that do not reach the store.
    - [Console.v]: the console and the command line of the client ([interactive.go],
      [client/main.go]), over [Client.v] and the server of [Main.v]: what is typed,
      and what the map behind the filter answers.
    - [Bench.v]: the load generators ([benchmark/runner.go], [stats.go],
      [ingest/main.go]): the same protocol as the client's, a filling phase that
      leaves every key in the store, and counts that add up.  [BenchRun.v]: a whole
      run with its workers interleaved.  [Latency.v]: the statistics, in binary64.
      [IngestBench.v]: the engine at full speed and at a fixed rate, and what the
      results say about its contents.  [GrpcBench.v]: the generator of the gRPC service
      ([grpc_benchmark/runner.go], [stats.go]).
    - [Config.v], [ConfigFile.v]: mode and index of a node, the file that is read
      over the defaults and where it is looked for ([config/global.go]).

    ** Parameters and hypotheses

    - [BloomMath]: the two floating-point formulas for the size of a filter; the
      laws are the bounds the code enforces behind them.
    - [StorageConfig], [RaftConfig]: the settings those parts read.
    - The outcomes of the level coins, the time stamps in file names and the
      iteration order of Go maps are arguments.
    - A write fits in the byte credit ([mt_Fits]) where a theorem says it returns;
      sessions are serial, and their frames fit their length fields and the limit.
    - Samples instantiate each of these with a concrete function.

    ** What the model showed

    Definitions follow the code where it is wrong, and such behaviour is a lemma
    next to the theorem it limits: the absolute index 0 of a log without snapshot
    ([single_node_apply_lag], [first_entry_panics]), the second snapshot
    ([second_snapshot_loses_entry]), commits of what no follower has
    ([heartbeat_commits_unreplicated]), the own vote counted twice
    ([election_counts_own_vote_twice]), the largest key after a restart
    ([restart_hides_table]), a writer that waits for ever
    ([waiting_writer_stranded]), a flush overtaken by a compaction
    ([compaction_overtakes_flush]), writes logged in one order and stored in the
    other ([recovery_reorders_writes]), the shutdown ([shutdown_deadlocks], and
    [server_life] for when it returns), a
    retry taken for a replay ([retry_is_dropped]), a misspelt index
    ([bad_flag_takes_node_zero]), heartbeats that do not hold off elections
    ([heartbeats_do_not_hold_elections]), a deposed leader that goes on in the new
    term ([deposed_leader_speaks_for_new_term]), goroutines left waiting
    ([heartbeat_goroutine_leaks]), the gRPC service without Raft and its empty
    values ([grpc_agrees_with_router], [empty_put_has_no_value]), an address taken
    for a command ([address_argument_is_no_command]), answers read one request late
    ([late_answers_shift], [torn_reply]), a request swallowed by the rest of a
    torn one ([torn_put_swallows_request]), a read that overlaps a merge and misses
    what was merged ([overlapping_read_misses_merged]), a read that overlaps a write
    and misses another key ([lock_free_read_loses_key]), tables listed late that hide a
    flush ([late_list_hides_flush]), writers left waiting by [Close]
    ([closed_memtable_starves_writers]), a generator that panics without keys
    ([no_keys_panics]), a follower that gets nothing more after a lost reply
    ([lost_snapshot_reply_stalls_follower]), a message that changes before it is
    encoded ([messages_follow_the_log], [late_message_breaks_matching]), a response
    that asks for room it does not fill ([five_bytes_ask_for_room]).

    ** Not modelled

    Sockets and [net/rpc] (messages are values that steps return or find in
    flight); real time: what a timer, ticker or deadline does next is a step that
    may happen, and measured latencies are arguments; generated gRPC code, the
    gRPC executable, profiling, the flags of the generators and the printing of
    their reports, which are no part of the store; data races
    beyond the order of single reads and writes of memory ([LockFree.v] has one
    reader of the skip list with a write between two of its reads; elsewhere a read
    is one step); the goroutine that loads the list of tables beside others
    ([late_list_hides_flush] has its effect); memory that runs out; in Raft, failing
    system calls.  In [Cluster.v] the
    messages of replication are arbitrary, in [LogMatch.v] the votes and the replies
    to replication are, all nodes start from one snapshot and none takes another. *)
From Stdlib Require Export ZArith Lia Strings.Byte.
From stdpp Require Export base tactics list gmap strings sorting.
#[global] Open Scope Z_scope.

(** ** Automation *)

(** Lengths of encoders and of list operations. *)
Create Rewrite HintDb len.
(** Facts about the order of keys. *)
Create HintDb key_order discriminated.

(** Split the innermost [match] of the goal (or of [H]), keeping the equation. *)
Ltac case_match_eq :=
  match goal with
  | |- context [match ?x with _ => _ end] =>
      lazymatch x with context [match _ with _ => _ end] => fail | _ => destruct x eqn:? end
  end.

(** ** Byte strings *)

Abbreviation bytes := (list byte).

Definition zlen {A} (l : list A) : Z := Z.of_nat (length l).

Lemma zlen_nil {A} : zlen (@nil A) = 0.
Proof. reflexivity. Qed.
Lemma zlen_cons {A} (x : A) l : zlen (x :: l) = 1 + zlen l.
Proof. unfold zlen. simpl. lia. Qed.
Lemma zlen_app {A} (l k : list A) : zlen (l ++ k) = zlen l + zlen k.
Proof. unfold zlen. rewrite length_app. lia. Qed.
Lemma zlen_nonneg {A} (l : list A) : 0 <= zlen l.
Proof. unfold zlen. lia. Qed.
Lemma zlen_to_nat {A} (l : list A) : Z.to_nat (zlen l) = length l.
Proof. unfold zlen. lia. Qed.
#[export] Hint Rewrite @zlen_nil @zlen_cons @zlen_app @length_app : len.
#[export] Hint Resolve zlen_nonneg : core.

Lemma elem_of_fst {A B} (l : list (A * B)) a b : (a, b) ∈ l -> a ∈ l.*1.
Proof. intros H. by apply (list_elem_of_fmap_2' fst l (a, b)). Qed.

Lemma filter_all {A} (P : A -> Prop) `{!forall x, Decision (P x)} (l : list A) :
  (forall x, x ∈ l -> P x) -> filter P l = l.
Proof.
  induction l as [|x l IH]; intros Hl; [done|]. rewrite filter_cons, decide_True by (apply Hl; left).
  f_equal. apply IH. intros y ?. apply Hl. by right.
Qed.

Lemma filter_none {A} (P : A -> Prop) `{!forall x, Decision (P x)} (l : list A) :
  (forall x, x ∈ l -> ~ P x) -> filter P l = [].
Proof.
  induction l as [|x l IH]; intros Hl; [done|]. rewrite filter_cons, decide_False by (apply Hl; left).
  apply IH. intros y ?. apply Hl. by right.
Qed.

(** What every step preserves holds wherever steps lead. *)
Lemma rtc_invariant {A} (R : A -> A -> Prop) (P : A -> Prop) x y :
  (forall a b, R a b -> P a -> P b) -> rtc R x y -> P x -> P y.
Proof. intros Hstep. induction 1; eauto. Qed.

(** ** Machine integers *)

Definition wrap64 (z : Z) : Z := z mod 2 ^ 64.

(** [int(x)] / [int64(x)] of a [uint64]: two's complement reinterpretation. *)
Definition int64_of (z : Z) : Z :=
  let u := wrap64 z in if u <? 2 ^ 63 then u else u - 2 ^ 64.

Lemma wrap64_small z : 0 <= z < 2 ^ 64 -> wrap64 z = z.
Proof. apply Z.mod_small. Qed.

Lemma int64_of_wrap z : int64_of (wrap64 z) = int64_of z.
Proof. unfold int64_of, wrap64. rewrite Zmod_mod. reflexivity. Qed.

Lemma int64_of_small z : - 2 ^ 63 <= z < 2 ^ 63 -> int64_of z = z.
Proof.
  intros Hz. unfold int64_of, wrap64.
  destruct (Z.ltb_spec z 0).
  - assert (z mod 2 ^ 64 = z + 2 ^ 64) as ->.
    { rewrite <- (Z_mod_plus_full z 1 (2 ^ 64)).
      replace (z + 1 * 2 ^ 64) with (z + 2 ^ 64) by lia. apply Z.mod_small. lia. }
    destruct (Z.ltb_spec (z + 2 ^ 64) (2 ^ 63)); lia.
  - rewrite Z.mod_small by lia. destruct (Z.ltb_spec z (2 ^ 63)); lia.
Qed.

(** ** Results of fallible Go code *)

Inductive goerr : Type :=
  | EOF
  | UnexpectedEOF
  | Err (msg : string).

Inductive result (A : Type) : Type :=
  | Ok (a : A)
  | Error (e : goerr).
Arguments Ok {A} a.
Arguments Error {A} e.

Definition rbind {A B} (m : result A) (k : A -> result B) : result B :=
  match m with Ok a => k a | Error e => Error e end.

Declare Scope go_scope.
Delimit Scope go_scope with go.
Notation "'let?' x ':=' m 'in' k" := (rbind m (fun x => k))
  (at level 10, x pattern, m at level 100, k at level 200) : go_scope.
#[global] Open Scope go_scope.


(** Close a goal about lengths of concatenations. *)
Ltac len_lia := autorewrite with len in *; lia.

(** Evaluate a closed conjunction of equalities and integer bounds. *)
Ltac eval_closed :=
  lazymatch goal with
  | |- _ /\ _ => split; eval_closed
  | |- Forall _ _ => constructor; eval_closed
  | |- Forall2 _ _ _ => constructor; eval_closed
  | |- _ = _ => vm_compute; reflexivity
  | |- Z.le _ _ => vm_compute; let H := fresh in intros H; discriminate H
  | |- Z.lt _ _ => vm_compute; reflexivity
  | |- _ -> _ => let H := fresh in intros H; vm_compute in H; discriminate H
  | |- _ => progress hnf; eval_closed
  end.
