(* ===== verification/Bytes.v ===== *)
(** Byte strings as the program uses them: [bytes.Compare], the fixed-width
    integers of [encoding/binary], and sequential readers with Go's two
    end-of-file errors. *)
From S2P Require Import Prelude.

(** ** Single bytes *)

Definition bval (b : byte) : Z := Z.of_N (Byte.to_N b).
Definition byte_of (z : Z) : byte :=
  default Byte.x00 (Byte.of_N (Z.to_N (z mod 256))).

Lemma bval_range b : 0 <= bval b < 256.
Proof. unfold bval. pose proof (Byte.to_N_bounded b). lia. Qed.

Lemma byte_of_bval b : byte_of (bval b) = b.
Proof.
  unfold byte_of. rewrite Z.mod_small by apply bval_range.
  unfold bval. rewrite N2Z.id, Byte.of_to_N. reflexivity.
Qed.

Lemma bval_byte_of z : bval (byte_of z) = z mod 256.
Proof.
  unfold byte_of. pose proof (Z.mod_pos_bound z 256 ltac:(lia)) as Hz.
  destruct (Byte.of_N (Z.to_N (z mod 256))) as [b|] eqn:E; simpl.
  - apply Byte.to_of_N in E. unfold bval. rewrite E. lia.
  - apply Byte.of_N_None_iff in E. lia.
Qed.

#[global] Instance bval_inj : Inj eq eq bval.
Proof. intros a b H. rewrite <- (byte_of_bval a), H. apply byte_of_bval. Qed.

#[global] Instance byte_eq_decision : EqDecision byte := Byte.byte_eq_dec.
#[global] Instance byte_countable : Countable byte.
Proof. apply (inj_countable Byte.to_N Byte.of_N), Byte.of_to_N. Defined.

Definition of_string (s : string) : bytes := String.list_byte_of_string s.

(** ** [bytes.Compare]: lexicographic, a proper prefix is smaller *)

Fixpoint bcompare (a b : bytes) : comparison :=
  match a, b with
  | [], [] => Eq
  | [], _ :: _ => Lt
  | _ :: _, [] => Gt
  | x :: a', y :: b' =>
      match Z.compare (bval x) (bval y) with Eq => bcompare a' b' | c => c end
  end.

Definition blt (a b : bytes) : Prop := bcompare a b = Lt.
Definition ble (a b : bytes) : Prop := bcompare a b <> Gt.

#[global] Instance blt_dec a b : Decision (blt a b).
Proof. unfold blt. solve_decision. Defined.
#[global] Instance ble_dec a b : Decision (ble a b).
Proof. unfold ble. destruct (bcompare a b); [by left|by left|right; naive_solver]. Defined.

Lemma bcompare_refl a : bcompare a a = Eq.
Proof. induction a as [|x a IH]; simpl; [done|]. by rewrite Z.compare_refl. Qed.

Lemma bcompare_eq a b : bcompare a b = Eq <-> a = b.
Proof.
  split; [|intros ->; apply bcompare_refl].
  revert b; induction a as [|x a IH]; intros [|y b]; simpl; try done.
  destruct (Z.compare_spec (bval x) (bval y)); try done.
  intros ?%IH. f_equal; [by apply (inj bval)|done].
Qed.

Lemma bcompare_antisym a b : bcompare b a = CompOpp (bcompare a b).
Proof.
  revert b; induction a as [|x a IH]; intros [|y b]; simpl; try done.
  rewrite (Z.compare_antisym (bval x)).
  destruct (Z.compare (bval x) (bval y)); simpl; auto.
Qed.

#[global] Instance blt_trans : Transitive blt.
Proof.
  unfold blt. intros a; induction a as [|x a IH]; intros [|y b] [|z c]; simpl; try done.
  destruct (Z.compare_spec (bval x) (bval y)), (Z.compare_spec (bval y) (bval z)),
    (Z.compare_spec (bval x) (bval z)); try done; try lia. apply IH.
Qed.

#[global] Instance blt_irrefl : Irreflexive blt.
Proof. intros a. unfold blt, complement. by rewrite bcompare_refl. Qed.

#[global] Instance blt_strict : StrictOrder blt := Build_StrictOrder blt _ _.

Lemma bcompare_spec a b : CompareSpec (a = b) (blt a b) (blt b a) (bcompare a b).
Proof.
  destruct (bcompare a b) eqn:E; constructor.
  - by apply bcompare_eq.
  - done.
  - unfold blt. by rewrite bcompare_antisym, E.
Qed.

Lemma blt_asym a b : blt a b -> blt b a -> False.
Proof. intros H1 H2. apply (irreflexivity blt a). by trans b. Qed.

Lemma blt_neq a b : blt a b -> a <> b.
Proof. intros H ->. by apply (irreflexivity blt b). Qed.

Lemma not_blt a b : ~ blt a b <-> ble b a.
Proof.
  unfold blt, ble. rewrite (bcompare_antisym a b). destruct (bcompare a b); simpl; naive_solver.
Qed.

Lemma ble_lteq a b : ble a b <-> blt a b \/ a = b.
Proof.
  unfold ble. destruct (bcompare_spec a b) as [->|H|H]; split; auto; try done.
  intros [Hlt| ->]; [by destruct (blt_asym a b)|by destruct (irreflexivity blt b)].
Qed.

Lemma ble_refl a : ble a a.
Proof. apply ble_lteq. auto. Qed.

Lemma ble_blt_trans a b c : ble a b -> blt b c -> blt a c.
Proof. rewrite ble_lteq. intros [?| ->] ?; [by trans b|done]. Qed.
Lemma blt_ble_trans a b c : blt a b -> ble b c -> blt a c.
Proof. rewrite ble_lteq. intros ? [?| ->]; [by trans b|done]. Qed.
Lemma ble_trans a b c : ble a b -> ble b c -> ble a c.
Proof. rewrite !ble_lteq. intros [?| ->] [?| ->]; auto. left. by trans b. Qed.
Lemma blt_ble a b : blt a b -> ble a b.
Proof. rewrite ble_lteq. auto. Qed.

Lemma ble_nil a : ble [] a.
Proof. by destruct a. Qed.
Lemma not_blt_nil a : ~ blt a [].
Proof. by destruct a. Qed.

#[export] Hint Resolve ble_refl blt_ble ble_nil : key_order.
#[export] Hint Extern 1 (blt _ _) => (eapply ble_blt_trans; eassumption) : key_order.
#[export] Hint Extern 1 (blt _ _) => (eapply blt_ble_trans; eassumption) : key_order.
#[export] Hint Extern 1 (blt _ _) => (etransitivity; eassumption) : key_order.
#[export] Hint Extern 2 (False) => (eapply blt_asym; eassumption) : key_order.

(** Case analysis on the comparison the goal performs. *)
Ltac cmp_cases a b :=
  let H := fresh "Hcmp" in destruct (bcompare_spec a b) as [H|H|H].

(** ** Fixed-width unsigned integers *)

Fixpoint le_enc (n : nat) (z : Z) : bytes :=
  match n with
  | O => []
  | S n' => byte_of z :: le_enc n' (z / 256)
  end.

Fixpoint le_dec (bs : bytes) : Z :=
  match bs with
  | [] => 0
  | b :: bs' => bval b + 256 * le_dec bs'
  end.

Definition be_enc (n : nat) (z : Z) : bytes := reverse (le_enc n z).
Definition be_dec (bs : bytes) : Z := le_dec (reverse bs).

Lemma length_le_enc n z : length (le_enc n z) = n.
Proof. revert z; induction n; intros; simpl; auto. Qed.
Lemma length_be_enc n z : length (be_enc n z) = n.
Proof. unfold be_enc. rewrite length_reverse. apply length_le_enc. Qed.
Lemma zlen_le_enc n z : zlen (le_enc n z) = Z.of_nat n.
Proof. unfold zlen. by rewrite length_le_enc. Qed.
Lemma zlen_be_enc n z : zlen (be_enc n z) = Z.of_nat n.
Proof. unfold zlen. by rewrite length_be_enc. Qed.
#[export] Hint Rewrite length_le_enc length_be_enc zlen_le_enc zlen_be_enc : len.

Lemma le_dec_enc n z : le_dec (le_enc n z) = z mod 256 ^ Z.of_nat n.
Proof.
  revert z; induction n as [|n IH]; intros z; [simpl; by rewrite Z.mod_1_r|].
  cbn [le_enc le_dec]. rewrite IH, bval_byte_of, Nat2Z.inj_succ, Z.pow_succ_r by lia.
  rewrite (Z.rem_mul_r z 256) by (try apply Z.pow_pos_nonneg; lia). reflexivity.
Qed.

Lemma le_enc_dec bs : le_enc (length bs) (le_dec bs) = bs.
Proof.
  induction bs as [|b bs IH]; [done|]. cbn [length le_enc le_dec].
  rewrite (Z.mul_comm 256), Z_div_plus_full by lia.
  rewrite (Z.div_small (bval b)) by apply bval_range. rewrite Z.add_0_l, IH. f_equal.
  apply (inj bval). rewrite bval_byte_of, Z_mod_plus_full, Z.mod_small; [done|apply bval_range].
Qed.

Lemma le_dec_range bs : 0 <= le_dec bs < 256 ^ zlen bs.
Proof.
  induction bs as [|b bs IH]; [change (0 <= 0 < 1); lia|].
  cbn [le_dec]. rewrite zlen_cons, Z.pow_add_r, Z.pow_1_r by (try apply zlen_nonneg; lia).
  pose proof (bval_range b). lia.
Qed.

Lemma le_dec_byte z : 0 <= z < 256 -> le_dec [byte_of z] = z.
Proof. intros Hz. simpl. rewrite bval_byte_of, Z.mod_small by done. lia. Qed.

Lemma be_dec_enc n z : be_dec (be_enc n z) = z mod 256 ^ Z.of_nat n.
Proof. unfold be_dec, be_enc. rewrite reverse_involutive. apply le_dec_enc. Qed.

Lemma be_enc_dec bs : be_enc (length bs) (be_dec bs) = bs.
Proof.
  unfold be_dec, be_enc. pose proof (le_enc_dec (reverse bs)) as H.
  rewrite length_reverse in H. rewrite H. apply reverse_involutive.
Qed.

Lemma be_dec_range bs : 0 <= be_dec bs < 256 ^ zlen bs.
Proof.
  unfold be_dec. pose proof (le_dec_range (reverse bs)) as H.
  unfold zlen in *. by rewrite length_reverse in H.
Qed.

Definition u16 : Z -> Prop := fun z => 0 <= z < 2 ^ 16.
Definition u32 : Z -> Prop := fun z => 0 <= z < 2 ^ 32.
Definition u64 : Z -> Prop := fun z => 0 <= z < 2 ^ 64.
Definition i64 : Z -> Prop := fun z => - 2 ^ 63 <= z < 2 ^ 63.

Lemma le_dec_enc4 z : u32 z -> le_dec (le_enc 4 z) = z.
Proof. unfold u32. intros. rewrite le_dec_enc. apply Z.mod_small. lia. Qed.
Lemma le_dec_enc2 z : u16 z -> le_dec (le_enc 2 z) = z.
Proof. unfold u16. intros. rewrite le_dec_enc. apply Z.mod_small. lia. Qed.
Lemma be_dec_enc4 z : u32 z -> be_dec (be_enc 4 z) = z.
Proof. unfold u32. intros. rewrite be_dec_enc. apply Z.mod_small. lia. Qed.
Lemma be_dec_enc8 z : u64 z -> be_dec (be_enc 8 z) = z.
Proof. unfold u64. intros. rewrite be_dec_enc. apply Z.mod_small. lia. Qed.
Lemma int64_be_dec_enc8 z : i64 z -> int64_of (be_dec (be_enc 8 z)) = z.
Proof.
  unfold i64. intros. rewrite be_dec_enc. change (256 ^ Z.of_nat 8) with (2 ^ 64).
  fold (wrap64 z). rewrite int64_of_wrap. by apply int64_of_small.
Qed.

(** The encoders stay folded under [simpl]; their equations are the lemmas above. *)
#[global] Opaque le_enc be_enc.

(** ** Sequential readers

    [io.ReadFull] of [n] bytes: [EOF] when nothing is left, [UnexpectedEOF] when
    the input stops in the middle.  [n] is compared as an integer, so a corrupt
    length is never expanded. *)
Definition read_full (n : Z) (s : bytes) : result (bytes * bytes) :=
  if n <=? zlen s then Ok (take (Z.to_nat n) s, drop (Z.to_nat n) s)
  else match s with [] => Error EOF | _ => Error UnexpectedEOF end.

(** [binary.Read] of a big-endian unsigned integer of [n] bytes. *)
Definition read_be (n : nat) (s : bytes) : result (Z * bytes) :=
  let? (h, t) := read_full (Z.of_nat n) s in Ok (be_dec h, t).

(** [binary.Read] of a big-endian [int64]. *)
Definition read_i64 (s : bytes) : result (Z * bytes) :=
  let? (z, t) := read_be 8 s in Ok (int64_of z, t).

Lemma take_zlen_app {A} (a t : list A) : take (Z.to_nat (zlen a)) (a ++ t) = a.
Proof. by rewrite zlen_to_nat, take_app_length. Qed.
Lemma drop_zlen_app {A} (a t : list A) : drop (Z.to_nat (zlen a)) (a ++ t) = t.
Proof. by rewrite zlen_to_nat, drop_app_length. Qed.

Lemma read_full_app n a t : n = zlen a -> read_full n (a ++ t) = Ok (a, t).
Proof.
  intros ->. unfold read_full. rewrite zlen_app, take_zlen_app, drop_zlen_app.
  pose proof (zlen_nonneg t). by destruct (Z.leb_spec (zlen a) (zlen a + zlen t)); [|lia].
Qed.

Lemma read_full_short n s : zlen s < n -> exists e, read_full n s = Error e.
Proof.
  intros H. unfold read_full. destruct (Z.leb_spec n (zlen s)); [lia|]. destruct s; eauto.
Qed.

Lemma read_full_inv n s h t :
  0 <= n -> read_full n s = Ok (h, t) -> s = h ++ t /\ zlen h = n.
Proof.
  unfold read_full. intros Hn. destruct (Z.leb_spec n (zlen s)) as [Hle|]; [|by destruct s].
  intros [= <- <-]. rewrite take_drop. split; [done|].
  unfold zlen in *. rewrite length_take. lia.
Qed.

Lemma read_full_extend n s h t u :
  0 <= n -> read_full n s = Ok (h, t) -> read_full n (s ++ u) = Ok (h, t ++ u).
Proof.
  intros Hn (-> & Hh)%read_full_inv; [|done]. rewrite <- app_assoc. by apply read_full_app.
Qed.

Lemma read_full_length n s h t :
  0 <= n -> read_full n s = Ok (h, t) -> zlen s = n + zlen t.
Proof. intros Hn (-> & Hh)%read_full_inv; [|done]. rewrite zlen_app. lia. Qed.

Lemma read_be_app n z t :
  0 <= z < 256 ^ Z.of_nat n -> read_be n (be_enc n z ++ t) = Ok (z, t).
Proof.
  intros Hz. unfold read_be. rewrite read_full_app by by rewrite zlen_be_enc.
  simpl. by rewrite be_dec_enc, Z.mod_small.
Qed.

Lemma read_be4_app z t : u32 z -> read_be 4 (be_enc 4 z ++ t) = Ok (z, t).
Proof. unfold u32. intros. apply read_be_app. simpl. lia. Qed.
Lemma read_be8_app z t : u64 z -> read_be 8 (be_enc 8 z ++ t) = Ok (z, t).
Proof. unfold u64. intros. apply read_be_app. simpl. lia. Qed.

Lemma read_i64_app z t : i64 z -> read_i64 (be_enc 8 z ++ t) = Ok (z, t).
Proof.
  intros Hz. unfold read_i64, read_be.
  rewrite read_full_app by by rewrite zlen_be_enc. simpl. by rewrite int64_be_dec_enc8.
Qed.

Lemma read_be_short n s : zlen s < Z.of_nat n -> exists e, read_be n s = Error e.
Proof. intros H. unfold read_be. destruct (read_full_short _ _ H) as [e ->]. by exists e. Qed.
Lemma read_i64_short s : zlen s < 8 -> exists e, read_i64 s = Error e.
Proof. intros H. unfold read_i64. destruct (read_be_short 8 s H) as [e ->]. by exists e. Qed.

Lemma read_be_inv n s z t :
  read_be n s = Ok (z, t) -> s = be_enc n z ++ t /\ 0 <= z < 256 ^ Z.of_nat n.
Proof.
  unfold read_be. destruct (read_full (Z.of_nat n) s) as [[h t']|] eqn:E; [|done]. simpl.
  intros [= <- <-]. apply read_full_inv in E as [-> Hh]; [|lia].
  assert (length h = n) as <- by (unfold zlen in Hh; lia).
  rewrite be_enc_dec. split; [done|]. rewrite <- Hh. apply be_dec_range.
Qed.

(** ** Slicing

    [s[lo:hi]]; [None] is the out-of-range panic. *)
Definition slice {A} (lo hi : Z) (s : list A) : option (list A) :=
  if (0 <=? lo) && (lo <=? hi) && (hi <=? zlen s)
  then Some (take (Z.to_nat (hi - lo)) (drop (Z.to_nat lo) s)) else None.

Lemma slice_Some {A} lo hi (s : list A) :
  0 <= lo <= hi -> hi <= zlen s -> exists t, slice lo hi s = Some t /\ zlen t = hi - lo.
Proof.
  intros H1 H2. unfold slice.
  destruct (Z.leb_spec 0 lo), (Z.leb_spec lo hi), (Z.leb_spec hi (zlen s)); try lia. simpl.
  eexists. split; [done|]. unfold zlen in *. rewrite length_take, length_drop. lia.
Qed.

Lemma slice_app {A} lo hi (a b c : list A) :
  lo = zlen a -> hi = zlen a + zlen b -> slice lo hi (a ++ b ++ c) = Some b.
Proof.
  intros -> ->. unfold slice. rewrite !zlen_app.
  pose proof (zlen_nonneg a). pose proof (zlen_nonneg b). pose proof (zlen_nonneg c).
  destruct (Z.leb_spec 0 (zlen a)), (Z.leb_spec (zlen a) (zlen a + zlen b)),
    (Z.leb_spec (zlen a + zlen b) (zlen a + (zlen b + zlen c))); try lia. simpl.
  rewrite drop_zlen_app. replace (zlen a + zlen b - zlen a) with (zlen b) by lia.
  by rewrite take_zlen_app.
Qed.

Lemma slice_prefix {A} hi (a b : list A) : hi = zlen a -> slice 0 hi (a ++ b) = Some a.
Proof. intros ->. by apply (slice_app 0 (zlen a) [] a b). Qed.

Lemma slice_suffix {A} lo hi (a b : list A) :
  lo = zlen a -> hi = zlen (a ++ b) -> slice lo hi (a ++ b) = Some b.
Proof.
  intros -> ->. pose proof (slice_app (zlen a) (zlen a + zlen b) a b []) as H.
  rewrite app_nil_r in H. rewrite zlen_app. auto.
Qed.

(** The little-endian [uint32] at offset [o]. *)
Definition le32_at (o : Z) (s : bytes) : option Z := le_dec <$> slice o (o + 4) s.

Lemma le32_at_app a z c o : u32 z -> o = zlen a -> le32_at o (a ++ le_enc 4 z ++ c) = Some z.
Proof.
  intros Hz ->. unfold le32_at.
  rewrite (slice_app _ _ a (le_enc 4 z) c); [|done|rewrite zlen_le_enc; lia].
  simpl. f_equal. by apply le_dec_enc4.
Qed.

Lemma le32_at_head z c : u32 z -> le32_at 0 (le_enc 4 z ++ c) = Some z.
Proof. intros Hz. by apply (le32_at_app [] z c). Qed.

Lemma le32_at_Some o s : 0 <= o -> o + 4 <= zlen s -> exists z, le32_at o s = Some z /\ u32 z.
Proof.
  intros H1 H2. destruct (slice_Some o (o + 4) s) as (t & Ht & Hl); [lia|lia|].
  unfold le32_at. rewrite Ht. eexists. split; [done|]. unfold u32.
  pose proof (le_dec_range t) as Hr. rewrite Hl in Hr. replace (o + 4 - o) with 4 in Hr by lia.
  simpl in Hr. lia.
Qed.

Lemma slice_inv {A} lo hi (s t : list A) :
  slice lo hi s = Some t ->
  exists a c, s = a ++ t ++ c /\ zlen a = lo /\ zlen t = hi - lo.
Proof.
  unfold slice.
  destruct (Z.leb_spec 0 lo), (Z.leb_spec lo hi), (Z.leb_spec hi (zlen s)); try done. intros [= <-].
  exists (take (Z.to_nat lo) s), (drop (Z.to_nat hi) s). split; [|split].
  - replace (Z.to_nat hi) with (Z.to_nat lo + Z.to_nat (hi - lo))%nat by lia.
    by rewrite <- drop_drop, !take_drop.
  - unfold zlen in *. rewrite length_take. lia.
  - unfold zlen in *. rewrite length_take, length_drop. lia.
Qed.

Lemma le32_at_inv o s z :
  le32_at o s = Some z -> exists a c, s = a ++ le_enc 4 z ++ c /\ zlen a = o /\ u32 z.
Proof.
  unfold le32_at. destruct (slice o (o + 4) s) as [t|] eqn:E; [|done]. simpl. intros [= <-].
  apply slice_inv in E as (a & c & -> & Ha & Ht). exists a, c.
  assert (length t = 4%nat) as Hl by (unfold zlen in *; lia).
  pose proof (le_enc_dec t) as Hd. rewrite Hl in Hd. rewrite Hd.
  pose proof (le_dec_range t) as Hr. rewrite Ht in Hr. replace (o + 4 - o) with 4 in Hr by lia.
  repeat split; auto; [apply Hr|apply Hr].
Qed.

Lemma app_inj_zlen {A} (a b c d : list A) : a ++ b = c ++ d -> zlen a = zlen c -> a = c /\ b = d.
Proof. intros H Hl. apply app_inj_1; [|done]. unfold zlen in Hl. lia. Qed.

#[global] Arguments zlen : simpl never.
#[global] Arguments le_enc : simpl never.
#[global] Arguments be_enc : simpl never.
#[global] Arguments le_dec : simpl never.
#[global] Arguments be_dec : simpl never.
#[global] Arguments read_full : simpl never.
#[global] Arguments read_be : simpl never.
#[global] Arguments read_i64 : simpl never.
#[global] Arguments slice : simpl never.
#[global] Arguments le32_at : simpl never.
#[global] Arguments bcompare : simpl nomatch.
