(* ===== verification/Strconv.v ===== *)
(** The parts of Go's [strconv], [strings], [bytes] and [fmt] the program uses on
    keys and file names: [%d], [ParseInt(s, 10, 64)], [IndexByte],
    [LastIndexByte], [Split] on one byte and [HasSuffix]. *)
From S2P Require Import Prelude Bytes.

(** ** Decimal printing and parsing *)

Definition digit (d : Z) : byte := byte_of (48 + d).

(** [fuel] decimal digits at most; 20 are enough for 64 bits. *)
Fixpoint digits (fuel : nat) (n : Z) : bytes :=
  match fuel with
  | O => []
  | S f => if n <? 10 then [digit n] else digits f (n / 10) ++ [digit (n mod 10)]
  end.

(** [fmt.Sprintf("%d", z)] of an [int64]. *)
Definition FormatInt (z : Z) : bytes :=
  if z <? 0 then byte_of 45 :: digits 20 (- z) else digits 20 z.

Definition digit_value (b : byte) : option Z :=
  let v := bval b in if (48 <=? v) && (v <=? 57) then Some (v - 48) else None.

Fixpoint parse_digits (acc : Z) (s : bytes) : option Z :=
  match s with
  | [] => Some acc
  | b :: s' => match digit_value b with Some d => parse_digits (10 * acc + d) s' | None => None end
  end.

(** [strconv.ParseInt(s, 10, 64)]; [None] is a syntax or range error. *)
Definition ParseInt (s : bytes) : option Z :=
  let '(neg, body) :=
    match s with
    | b :: s' => if bval b =? 45 then (true, s') else if bval b =? 43 then (false, s') else (false, s)
    | [] => (false, [])
    end in
  match body with
  | [] => None
  | _ =>
      match parse_digits 0 body with
      | None => None
      | Some n =>
          let z := if neg : bool then - n else n in
          if (- 2 ^ 63 <=? z) && (z <? 2 ^ 63) then Some z else None
      end
  end.

Lemma digit_value_digit d : 0 <= d < 10 -> digit_value (digit d) = Some d.
Proof.
  intros Hd. unfold digit_value, digit. rewrite bval_byte_of, Z.mod_small by lia.
  destruct (Z.leb_spec 48 (48 + d)), (Z.leb_spec (48 + d) 57); try lia. simpl. f_equal. lia.
Qed.

Lemma parse_digits_app acc a b :
  parse_digits acc (a ++ b) =
    match parse_digits acc a with Some n => parse_digits n b | None => None end.
Proof. revert acc; induction a as [|x a IH]; intros acc; simpl; [done|]. by destruct (digit_value x). Qed.

Lemma parse_digits_digits fuel n :
  0 <= n < 10 ^ Z.of_nat fuel -> parse_digits 0 (digits fuel n) = Some n.
Proof.
  revert n; induction fuel as [|f IH]; intros n Hn; [simpl in *; f_equal; lia|].
  cbn [digits]. rewrite Nat2Z.inj_succ, Z.pow_succ_r in Hn by lia.
  destruct (Z.ltb_spec n 10).
  - simpl. rewrite digit_value_digit by lia. done.
  - rewrite parse_digits_app, IH.
    + simpl. rewrite digit_value_digit by (apply Z.mod_pos_bound; lia). f_equal.
      rewrite (Z.div_mod n 10) at 3 by lia. lia.
    + split; [apply Z.div_pos; lia|]. apply Z.div_lt_upper_bound; lia.
Qed.

Lemma digits_shape fuel n :
  0 <= n < 10 ^ Z.of_nat fuel -> (0 < fuel)%nat ->
  Forall (fun b => 48 <= bval b <= 57) (digits fuel n) /\ digits fuel n <> [].
Proof.
  revert n; induction fuel as [|f IH]; intros n Hn Hf; [lia|].
  cbn [digits]. rewrite Nat2Z.inj_succ, Z.pow_succ_r in Hn by lia.
  assert (forall d, 0 <= d < 10 -> 48 <= bval (digit d) <= 57) as Hd.
  { intros d Hd. unfold digit. rewrite bval_byte_of, Z.mod_small by lia. lia. }
  destruct (Z.ltb_spec n 10).
  - split; [|done]. constructor; [apply Hd; lia|done].
  - destruct f as [|f]; [simpl in Hn; lia|].
    destruct (IH (n / 10)) as [H1 H2]; [|lia|].
    { split; [apply Z.div_pos; lia|]. apply Z.div_lt_upper_bound; lia. }
    split; [|by destruct (digits (S f) (n / 10))]. apply Forall_app. split; [done|].
    constructor; [|done]. apply Hd, Z.mod_pos_bound. lia.
Qed.

Lemma FormatInt_shape z :
  i64 z -> Forall (fun b => bval b = 45 \/ 48 <= bval b <= 57) (FormatInt z) /\ FormatInt z <> [].
Proof.
  unfold i64, FormatInt. intros Hz. destruct (Z.ltb_spec z 0).
  - destruct (digits_shape 20 (- z)) as [H1 _]; [simpl; lia|lia|]. split; [|done].
    constructor; [by left; rewrite bval_byte_of|]. eapply Forall_impl; [done|]. auto.
  - destruct (digits_shape 20 z) as [H1 H2]; [simpl; lia|lia|]. split; [|done].
    eapply Forall_impl; [done|]. auto.
Qed.

Lemma ParseInt_FormatInt z : i64 z -> ParseInt (FormatInt z) = Some z.
Proof.
  unfold i64, FormatInt. intros Hz. destruct (Z.ltb_spec z 0) as [Hn|Hn].
  - destruct (digits_shape 20 (- z)) as [_ H2]; [simpl; lia|lia|].
    unfold ParseInt. rewrite bval_byte_of. change (45 mod 256 =? 45) with true. cbn iota.
    destruct (digits 20 (- z)) as [|d ds] eqn:E; [done|]. rewrite <- E.
    rewrite parse_digits_digits by (simpl; lia).
    destruct (Z.leb_spec (- 2 ^ 63) (- - z)), (Z.ltb_spec (- - z) (2 ^ 63)); try lia.
    simpl. f_equal. lia.
  - destruct (digits_shape 20 z) as [H1 H2]; [simpl; lia|lia|].
    unfold ParseInt. destruct (digits 20 z) as [|d ds] eqn:E; [done|].
    apply Forall_cons in H1 as [Hd _].
    destruct (Z.eqb_spec (bval d) 45), (Z.eqb_spec (bval d) 43); try lia.
    rewrite <- E, parse_digits_digits by (simpl; lia).
    by destruct (Z.leb_spec (- 2 ^ 63) z), (Z.ltb_spec z (2 ^ 63)); try lia.
Qed.

(** ** Searching in byte strings *)

(** [bytes.IndexByte]: the prefix before and the suffix after the first [c]. *)
Fixpoint cut_byte (c : byte) (s : bytes) : option (bytes * bytes) :=
  match s with
  | [] => None
  | b :: s' =>
      if decide (b = c) then Some ([], s')
      else match cut_byte c s' with Some (x, y) => Some (b :: x, y) | None => None end
  end.

(** [strings.LastIndexByte], as the cut at the last [c]. *)
Fixpoint cut_last_byte (c : byte) (s : bytes) : option (bytes * bytes) :=
  match s with
  | [] => None
  | b :: s' =>
      match cut_last_byte c s' with
      | Some (x, y) => Some (b :: x, y)
      | None => if decide (b = c) then Some ([], s') else None
      end
  end.

Lemma cut_byte_spec c s x y : cut_byte c s = Some (x, y) -> s = x ++ c :: y /\ c ∉ x.
Proof.
  revert x; induction s as [|b s IH]; intros x; simpl; [done|].
  destruct (decide (b = c)) as [->|Hb].
  - intros [= <- <-]. split; [done|]. apply not_elem_of_nil.
  - destruct (cut_byte c s) as [[x' y']|]; [|done]. intros [= <- <-].
    destruct (IH x' eq_refl) as [-> Hn]. split; [done|]. rewrite not_elem_of_cons. auto.
Qed.

Lemma cut_byte_None c s : cut_byte c s = None <-> c ∉ s.
Proof.
  induction s as [|b s IH]; simpl; [split; auto using not_elem_of_nil|].
  rewrite not_elem_of_cons. destruct (decide (b = c)) as [->|Hb]; [split; [done|by intros [[] _]]|].
  destruct (cut_byte c s) as [[x y]|].
  - split; [done|]. intros [_ Hx]. by apply IH in Hx.
  - split; [|done]. intros _. split; [auto|]. by apply IH.
Qed.

Lemma cut_byte_app c x y : c ∉ x -> cut_byte c (x ++ c :: y) = Some (x, y).
Proof.
  induction x as [|b x IH]; simpl; [by rewrite decide_True|].
  rewrite not_elem_of_cons. intros [Hb Hx]. rewrite decide_False by auto. by rewrite IH.
Qed.

(** [strings.Split(s, c)] for a one-byte separator. *)
Fixpoint Split_go (c : byte) (s cur : bytes) : list bytes :=
  match s with
  | [] => [cur]
  | b :: s' => if decide (b = c) then cur :: Split_go c s' [] else Split_go c s' (cur ++ [b])
  end.
Definition Split (c : byte) (s : bytes) : list bytes := Split_go c s [].

Lemma Split_go_app c x y cur : c ∉ x -> Split_go c (x ++ c :: y) cur = (cur ++ x) :: Split_go c y [].
Proof.
  revert cur; induction x as [|b x IH]; intros cur; simpl.
  - intros _. by rewrite decide_True, app_nil_r.
  - rewrite not_elem_of_cons. intros [Hb Hx]. rewrite decide_False by auto.
    rewrite IH by done. by rewrite <- app_assoc.
Qed.

Lemma Split_go_last c x cur : c ∉ x -> Split_go c x cur = [cur ++ x].
Proof.
  revert cur; induction x as [|b x IH]; intros cur; simpl.
  - intros _. by rewrite app_nil_r.
  - rewrite not_elem_of_cons. intros [Hb Hx]. rewrite decide_False by auto.
    rewrite IH by done. by rewrite <- app_assoc.
Qed.

Lemma Split_two c x y : c ∉ x -> c ∉ y -> Split c (x ++ c :: y) = [x; y].
Proof. intros Hx Hy. unfold Split. by rewrite Split_go_app, Split_go_last by done. Qed.

(** [strings.HasSuffix(s, suf)] and the text before the suffix. *)
Definition trim_suffix (suf s : bytes) : option bytes :=
  let n := (length s - length suf)%nat in
  if decide (length suf <= length s)%nat then
    if decide (drop n s = suf) then Some (take n s) else None
  else None.

Lemma trim_suffix_app suf s : trim_suffix suf (s ++ suf) = Some s.
Proof.
  unfold trim_suffix. rewrite length_app. rewrite decide_True by lia.
  replace (length s + length suf - length suf)%nat with (length s) by lia.
  by rewrite drop_app_length, decide_True, take_app_length.
Qed.

Lemma trim_suffix_inv suf s p : trim_suffix suf s = Some p -> s = p ++ suf.
Proof.
  unfold trim_suffix. do 2 (case_decide; [|done]). intros [= <-].
  rewrite <- (take_drop (length s - length suf) s) at 1. by f_equal.
Qed.
