(* ===== verification/Credit.v ===== *)
(** The byte-credit pool of [pkg/credit]: the guard that lets a writer take
    credit, the non-blocking and the blocking acquisition, the clamped release,
    and the system of writers that share one pool. *)
From S2P Require Import Prelude.

Module Credits.

(** [type Pool struct]; the mutex and the condition variable are the atomicity
    of the steps below. *)
Record Pool := mkPool { budget : Z; used : Z }.

Definition New (budget : Z) : Pool := mkPool budget 0.

Definition fits (p : Pool) (n : Z) : bool :=
  (budget p <=? 0) || (used p =? 0) || (used p + n <=? budget p).

Definition TryAcquire (p : Pool) (n : Z) : bool * Pool :=
  if fits p n then (true, mkPool (budget p) (used p + n)) else (false, p).

(** One turn of the loop of [Acquire]: [None] is [cond.Wait]. *)
Definition Acquire (p : Pool) (n : Z) : option Pool :=
  if fits p n then Some (mkPool (budget p) (used p + n)) else None.

Definition Release (p : Pool) (n : Z) : Pool :=
  let used' := used p - n in
  mkPool (budget p) (if used' <? 0 then 0 else used').

Definition Used (p : Pool) : Z := used p.

(** ** Sequential facts the clients use *)

Lemma fits_used_zero p n : used p = 0 -> fits p n = true.
Proof. unfold fits. intros ->. simpl. by rewrite orb_true_r. Qed.

Lemma Release_exact p n : 0 <= n <= used p -> Release p n = mkPool (budget p) (used p - n).
Proof. unfold Release. intros ?. by destruct (Z.ltb_spec (used p - n) 0); [lia|]. Qed.

Lemma Release_nonneg p n : 0 <= used (Release p n).
Proof. unfold Release. simpl. destruct (Z.ltb_spec (used p - n) 0); lia. Qed.

Lemma TryAcquire_Acquire p n :
  Acquire p n = if (TryAcquire p n).1 then Some (TryAcquire p n).2 else None.
Proof. unfold Acquire, TryAcquire. by destruct (fits p n). Qed.

(** ** Writers sharing a pool

    [held] lists the credit each writer owns, [waiters] the requests inside the
    loop of [Acquire].  A waiter is [asleep] from the moment [cond.Wait] gave the
    mutex up until a broadcast; awake, it takes the mutex again and turns the
    loop once more.  [Release] gives the mutex up before it broadcasts
    (credit.go:57-58), so [broadcasts] counts the calls that stand between the
    two lines, and the other goroutines run in between. *)
Record waiter := mkWaiter { wants : Z; asleep : bool }.

Record system := mkSystem
  { pool : Pool; held : list Z; waiters : list waiter; broadcasts : nat }.

(** [p.cond.Broadcast()]: every sleeper wakes. *)
Definition Broadcast (ws : list waiter) : list waiter :=
  map (fun w => mkWaiter (wants w) false) ws.

(** [Release] as a writer that owns [n] runs it, with [r] bytes given back: the
    lines under the mutex, then the broadcast is still to come. *)
Definition release_unlock (s : system) (h1 : list Z) (n : Z) (h2 : list Z) (r : Z) : system :=
  mkSystem (Release (pool s) r) (h1 ++ (n - r) :: h2) (waiters s) (S (broadcasts s)).

Definition zsum (l : list Z) : Z := foldr Z.add 0 l.

Lemma zsum_app l k : zsum (l ++ k) = zsum l + zsum k.
Proof. unfold zsum. induction l; simpl; lia. Qed.

Inductive step (bound : Z) : system -> system -> Prop :=
  | step_try_ok p p' h ws k n :
      0 <= n <= bound -> TryAcquire p n = (true, p') ->
      step bound (mkSystem p h ws k) (mkSystem p' (n :: h) ws k)
  | step_wait p h ws k n :
      0 <= n <= bound -> Acquire p n = None ->
      step bound (mkSystem p h ws k) (mkSystem p h (mkWaiter n true :: ws) k)
  | step_retry_ok p p' h w1 n w2 k :
      Acquire p n = Some p' ->
      step bound (mkSystem p h (w1 ++ mkWaiter n false :: w2) k)
                 (mkSystem p' (n :: h) (w1 ++ w2) k)
  | step_retry_wait p h w1 n w2 k :
      Acquire p n = None ->
      step bound (mkSystem p h (w1 ++ mkWaiter n false :: w2) k)
                 (mkSystem p h (w1 ++ mkWaiter n true :: w2) k)
  | step_release s h1 n h2 r :
      held s = h1 ++ n :: h2 -> 0 <= r <= n ->
      step bound s (release_unlock s h1 n h2 r)
  | step_broadcast p h ws k :
      step bound (mkSystem p h ws (S k)) (mkSystem p h (Broadcast ws) k).

Definition init (budget : Z) : system := mkSystem (New budget) [] [] 0.

Definition reachable (bound bud : Z) : system -> Prop := rtc (step bound) (init bud).

(** A sleeper whom nobody is about to wake has no room. *)
Definition sleeps_rightly (p : Pool) (w : waiter) : Prop :=
  asleep w = true -> fits p (wants w) = false.

Record inv (bound bud : Z) (s : system) : Prop := {
  inv_budget : budget (pool s) = bud;
  inv_held : Forall (Z.le 0) (held s);
  inv_waiters : Forall (fun w => 0 <= wants w <= bound) (waiters s);
  inv_used : used (pool s) = zsum (held s);
  inv_bound : 0 < bud -> used (pool s) <= Z.max bud bound;
  inv_asleep : broadcasts s = 0%nat -> Forall (sleeps_rightly (pool s)) (waiters s);
}.

Lemma zsum_nonneg l : Forall (Z.le 0) l -> 0 <= zsum l.
Proof. induction 1; simpl; lia. Qed.

Lemma zsum_zero l : Forall (eq 0) l -> zsum l = 0.
Proof. induction 1; simpl; lia. Qed.

Lemma fits_false p n :
  fits p n = false <-> 0 < budget p /\ used p <> 0 /\ budget p < used p + n.
Proof. unfold fits. rewrite !orb_false_iff, !Z.leb_gt, Z.eqb_neq. lia. Qed.

Lemma Acquire_fits p n : Acquire p n = None <-> fits p n = false.
Proof. unfold Acquire. by destruct (fits p n). Qed.

Lemma Acquire_Some p p' n :
  Acquire p n = Some p' ->
  budget p' = budget p /\ used p' = used p + n /\
  (0 < budget p -> used p' = n \/ used p' <= budget p).
Proof.
  unfold Acquire, fits. destruct ((_ || _) || _) eqn:E; intros [= <-]. simpl.
  repeat split. intros Hb. rewrite !orb_true_iff, !Z.leb_le, Z.eqb_eq in E. lia.
Qed.

(** Credit taken makes no room for those who sleep. *)
Lemma sleeps_acquire p p' n ws :
  0 <= used p -> 0 <= n -> Acquire p n = Some p' ->
  Forall (sleeps_rightly p) ws -> Forall (sleeps_rightly p') ws.
Proof.
  intros Hu Hn (Hb & Hu' & _)%Acquire_Some Hs. eapply Forall_impl; [done|].
  intros w Hw Ha. specialize (Hw Ha). rewrite fits_false in *. lia.
Qed.

Lemma Broadcast_awake ws : Forall (fun w => asleep w = false) (Broadcast ws).
Proof. apply Forall_map, Forall_true. done. Qed.

Lemma inv_acquire bound bud p p' h ws k n :
  0 <= n <= bound -> Acquire p n = Some p' ->
  inv bound bud (mkSystem p h ws k) -> inv bound bud (mkSystem p' (n :: h) ws k).
Proof.
  intros Hn Ha [I1 I2 I3 I4 I5 I6]. pose proof Ha as (Hb & Hu & Hx)%Acquire_Some. simpl in *.
  pose proof (zsum_nonneg _ I2).
  split; simpl; [congruence|constructor; [lia|done]|done|lia| |].
  - intros Hbud. specialize (I5 Hbud). rewrite I1 in Hx. specialize (Hx Hbud). lia.
  - intros Hk. eapply sleeps_acquire; [|by apply Hn|done|auto]. lia.
Qed.

Lemma inv_waiters_sub bound bud p h ws ws' k :
  Forall (fun w => 0 <= wants w <= bound) ws' ->
  (k = 0%nat -> Forall (sleeps_rightly p) ws') ->
  inv bound bud (mkSystem p h ws k) -> inv bound bud (mkSystem p h ws' k).
Proof. intros ? ? [I1 I2 I3 I4 I5 I6]; split; simpl in *; auto. Qed.

Lemma inv_release bound bud s h1 n h2 r :
  held s = h1 ++ n :: h2 -> 0 <= r <= n ->
  inv bound bud s -> inv bound bud (release_unlock s h1 n h2 r).
Proof.
  intros Hh Hr [I1 I2 I3 I4 I5 I6]. rewrite Hh in *. unfold release_unlock.
  rewrite Forall_app, Forall_cons in I2. destruct I2 as (P1 & Hn & P2).
  rewrite zsum_app in I4. change (zsum (n :: h2)) with (n + zsum h2) in I4.
  pose proof (zsum_nonneg _ P1). pose proof (zsum_nonneg _ P2).
  rewrite Release_exact by lia. split; simpl; auto.
  - rewrite Forall_app, Forall_cons. repeat split; auto. lia.
  - rewrite zsum_app. simpl. fold (zsum h2). lia.
  - intros Hb. specialize (I5 Hb). lia.
  - discriminate.
Qed.

Lemma inv_step bound bud s s' : step bound s s' -> inv bound bud s -> inv bound bud s'.
Proof.
  intros Hs Hi. destruct Hs as [p p' h ws k n Hn Ht|p h ws k n Hn Ha|p p' h w1 n w2 k Ha
    |p h w1 n w2 k Ha|s h1 n h2 r Hh Hr|p h ws k].
  - apply (inv_acquire _ _ p p'); auto. rewrite TryAcquire_Acquire. by rewrite Ht.
  - eapply inv_waiters_sub; [| |done]; destruct Hi; simpl in *; [auto|].
    intros Hk. constructor; [|auto]. intros _. by apply Acquire_fits.
  - pose proof (inv_waiters _ _ _ Hi) as Hw. pose proof (inv_asleep _ _ _ Hi) as Hs.
    simpl in *. rewrite Forall_app, Forall_cons in Hw. destruct Hw as (? & ? & ?).
    apply (inv_acquire _ _ p p'); [done|done|]. eapply inv_waiters_sub; [| |done].
    + by rewrite Forall_app.
    + intros Hk. specialize (Hs Hk). rewrite Forall_app, Forall_cons in Hs.
      rewrite Forall_app. tauto.
  - pose proof (inv_waiters _ _ _ Hi) as Hw. pose proof (inv_asleep _ _ _ Hi) as Hs.
    simpl in *. rewrite Forall_app, Forall_cons in Hw. eapply inv_waiters_sub; [| |done].
    + by rewrite Forall_app, Forall_cons.
    + intros Hk. specialize (Hs Hk). rewrite Forall_app, Forall_cons in *.
      split_and!; try tauto. intros _. by apply Acquire_fits.
  - by apply inv_release.
  - destruct Hi as [I1 I2 I3 I4 I5 I6]; split; simpl in *; auto.
    + unfold Broadcast. by rewrite Forall_map.
    + intros _. eapply Forall_impl; [apply Broadcast_awake|]. intros w Hw Ha. congruence.
Qed.

Lemma pool_reachable_inv bound bud s : reachable bound bud s -> inv bound bud s.
Proof.
  intros Hr. assert (inv bound bud (init bud)) as Hi by (split; simpl; auto; lia).
  induction Hr as [|x y z Hxy _ IH]; [done|]. apply IH. by eapply inv_step.
Qed.

(** however acquisitions, waits, wake-ups and partial releases
    interleave, the pool's counter is exactly the credit the writers hold and,
    when back-pressure is on, never exceeds the budget except for one oversized
    request admitted into an empty pool. *)
Theorem credit_bounded (bound bud : Z) (s : system) (Hr : reachable bound bud s) :
  Used (pool s) = zsum (held s) /\ 0 <= Used (pool s) /\
  (0 < bud -> Used (pool s) <= Z.max bud bound).
Proof.
  apply pool_reachable_inv in Hr as [I1 I2 I3 I4 I5 I6]; unfold Used.
  repeat split; auto. rewrite I4. by apply zsum_nonneg.
Qed.

Lemma credit_bounded_witness :
  Used (mkPool 10 0) = zsum [] /\ 0 <= Used (mkPool 10 0) /\
  (0 < 10 -> Used (mkPool 10 0) <= Z.max 10 5).
Proof. apply (credit_bounded 5 10 (init 10)). apply rtc_refl. Defined.

(** C33: no wake-up is lost. Whatever writers take, wait for, retry and give
    back, and although [Release] broadcasts only after it has given the mutex
    up, so that others acquire in between: once no broadcast is outstanding,
    every request that sleeps in [cond.Wait] is one the pool has no room for.
    So when in addition all credit has been given back nobody sleeps at all,
    and each waiter, however large its request, is admitted by its next turn
    of the loop. *)
Theorem credit_no_lost_wakeup (bound bud : Z) (s : system)
    (Hr : reachable bound bud s) (Hb : broadcasts s = 0%nat) :
  (forall w, w ∈ waiters s -> asleep w = true -> Acquire (pool s) (wants w) = None) /\
  (Forall (eq 0) (held s) ->
     forall w1 w w2, waiters s = w1 ++ w :: w2 ->
       asleep w = false /\
       exists p', Acquire (pool s) (wants w) = Some p' /\ used p' = wants w /\
         step bound s (mkSystem p' (wants w :: held s) (w1 ++ w2) 0)).
Proof.
  apply pool_reachable_inv in Hr as [I1 I2 I3 I4 I5 I6]. specialize (I6 Hb).
  rewrite Forall_forall in I6. split.
  { intros w Hw Ha. apply Acquire_fits. by apply I6. }
  intros Hidle w1 w w2 Hw. assert (used (pool s) = 0) as Hu by (rewrite I4; by apply zsum_zero).
  pose proof (fits_used_zero (pool s) (wants w) Hu) as Hf.
  assert (asleep w = false) as Ha.
  { destruct (asleep w) eqn:Ha; [|done].
    assert (fits (pool s) (wants w) = false) by (apply I6; [rewrite Hw; set_solver|done]).
    congruence. }
  split; [done|]. exists (mkPool (budget (pool s)) (wants w)).
  assert (Acquire (pool s) (wants w) = Some (mkPool (budget (pool s)) (wants w))) as HA.
  { unfold Acquire. by rewrite Hf, Hu. }
  split_and!; [done|done|]. destruct s as [p h ws k], w as [n a]; simpl in *; subst.
  by constructor.
Qed.

(** A writer fills the pool, another waits; the first gives its credit back and
    broadcasts. *)
Lemma credit_no_lost_wakeup_witness :
  exists p', Acquire (mkPool 10 0) 7 = Some p' /\ used p' = 7 /\
    step 8 (mkSystem (mkPool 10 0) [0] [mkWaiter 7 false] 0) (mkSystem p' [7; 0] [] 0).
Proof.
  refine (proj2 (proj2 (credit_no_lost_wakeup 8 10
    (mkSystem (mkPool 10 0) [0] [mkWaiter 7 false] 0) _ eq_refl)
    _ [] (mkWaiter 7 false) [] eq_refl)); [|repeat constructor].
  eapply rtc_l; [apply (step_try_ok 8 (New 10) (mkPool 10 8) [] [] 0 8); [lia|reflexivity]|].
  eapply rtc_l; [apply (step_wait 8 (mkPool 10 8) [8] [] 0 7); [lia|reflexivity]|].
  eapply rtc_l; [apply (step_release 8 (mkSystem (mkPool 10 8) [8] [mkWaiter 7 true] 0) [] 8 [] 8);
    [reflexivity|lia]|].
  eapply rtc_l; [apply (step_broadcast 8 (mkPool 10 0) [0] [mkWaiter 7 true] 0)|]. apply rtc_refl.
Defined.

End Credits.
