(* ===== verification/Wire.v ===== *)
(** The wire format: the helpers of [pkg/utils] and the frame of
    [network/banNet/DataPack.go] with the reader loop of [connection.go]. *)
From S2P Require Import Prelude Bytes.

(** [banIface.IMessage], read side: what [Pack] asks of a message. *)
Class IMessage (M : Type) := {
  GetMsgID : M -> bytes;
  GetMsgLen : M -> Z;
  GetData : M -> bytes;
}.

(** ** pkg/utils *)
Module Utils.

(** [make([]byte, total)] followed by one [copy] per argument. *)
Fixpoint ByteBuilder (data : list bytes) : bytes :=
  match data with [] => [] | b :: rest => b ++ ByteBuilder rest end.

Definition NewKVData (key value : bytes) : bytes :=
  let Keylen := le_enc 4 (zlen key) in
  let valuelen := le_enc 4 (zlen value) in
  ByteBuilder [Keylen; valuelen; key; value].

Record Message := mkMessage { Id : bytes; DataLen : Z; Data : bytes }.

(** [uint32(len(data))] *)
Definition NewMessage2 (id data : bytes) : Message :=
  mkMessage id (zlen data mod 2 ^ 32) data.
Definition NewMessage (id key value : bytes) : Message :=
  let data := NewKVData key value in mkMessage id (zlen data mod 2 ^ 32) data.

#[export] Instance Message_IMessage : IMessage Message :=
  { GetMsgID := Id; GetMsgLen := DataLen; GetData := Data }.

End Utils.

(** ** network/banNet: messages and frames *)
Module BanNet.

Record Message := mkMessage { Id : bytes; IDLen : Z; DataLen : Z; Data : bytes }.

Definition NewMessage (id data : bytes) : Message :=
  mkMessage id 0 (zlen data mod 2 ^ 32) data.

#[export] Instance Message_IMessage : IMessage Message :=
  { GetMsgID := Id; GetMsgLen := DataLen; GetData := Data }.

Definition SetMsgID (m : Message) (id : bytes) : Message :=
  mkMessage id (IDLen m) (DataLen m) (Data m).
Definition SetData (m : Message) (data : bytes) : Message :=
  mkMessage (Id m) (IDLen m) (DataLen m) data.
Definition SetMsgLen (m : Message) (n : Z) : Message :=
  mkMessage (Id m) (IDLen m) n (Data m).

Definition GetHeadLen : Z := 6.

Definition Pack {M} `{IMessage M} (msg : M) : result bytes :=
  let dataBuff := le_enc 4 (GetMsgLen msg) in
  let id := GetMsgID msg in
  if 65535 <? zlen id then Error (Err "msgID too long") else
  Ok (dataBuff ++ le_enc 2 (zlen id) ++ id ++ GetData msg).

(** [MaxPackageSize] is [config.G.MaxPackageSize]. *)
Definition UnPack (MaxPackageSize : Z) (data : bytes) : result Message :=
  let? (d4, rest) := read_full 4 data in
  let? (d2, _) := read_full 2 rest in
  let dataLen := le_dec d4 in
  let idLen := le_dec d2 in
  if (0 <? MaxPackageSize) && (MaxPackageSize <? dataLen)
  then Error (Err "data too large")
  else Ok (mkMessage [] idLen dataLen []).

(** One turn of the loop of [StartReader] (and the body of the clients'
    [readResponse]): header, then [IDLen] bytes, then [DataLen] bytes. *)
Definition readFrame (MaxPackageSize : Z) (conn : bytes) : result (Message * bytes) :=
  let? (headData, conn) := read_full GetHeadLen conn in
  let? msg := UnPack MaxPackageSize headData in
  let? (msg, conn) :=
    if 0 <? IDLen msg
    then let? (idBuf, conn) := read_full (IDLen msg) conn in Ok (SetMsgID msg idBuf, conn)
    else Ok (msg, conn) in
  let? (data, conn) :=
    if 0 <? DataLen msg then read_full (DataLen msg) conn else Ok ([], conn) in
  Ok (SetData msg data, conn).

(** The loop: the messages handed to the dispatcher, in order, and the error
    that ended the connection.  Every frame consumes at least its header, so
    [length conn] turns are enough ([StartReader_fuel]). *)
Fixpoint StartReader_loop (fuel : nat) (MaxPackageSize : Z) (conn : bytes)
    : list Message * option goerr :=
  match fuel with
  | O => ([], None)
  | S fuel' =>
      match readFrame MaxPackageSize conn with
      | Error e => ([], Some e)
      | Ok (msg, conn') =>
          let (msgs, e) := StartReader_loop fuel' MaxPackageSize conn' in (msg :: msgs, e)
      end
  end.

Definition StartReader (MaxPackageSize : Z) (conn : bytes) : list Message * option goerr :=
  StartReader_loop (S (length conn)) MaxPackageSize conn.

(** ** Properties *)

(** A message whose length fields are truthful and acceptable to the peer. *)
Definition sendable (max : Z) {M} `{IMessage M} (m : M) : Prop :=
  zlen (GetMsgID m) <= 65535 /\ GetMsgLen m = zlen (GetData m) /\ u32 (zlen (GetData m)) /\
  (0 < max -> zlen (GetData m) <= max).

(** What the receiver reconstructs from [m]. *)
Definition received {M} `{IMessage M} (m : M) : Message :=
  mkMessage (GetMsgID m) (zlen (GetMsgID m)) (zlen (GetData m)) (GetData m).

Lemma UnPack_header max i d rest :
  u16 i -> u32 d -> (0 < max -> d <= max) ->
  UnPack max (le_enc 4 d ++ le_enc 2 i ++ rest) = Ok (mkMessage [] i d []).
Proof.
  intros Hi Hd Hm. unfold UnPack.
  rewrite read_full_app by (by rewrite zlen_le_enc). simpl rbind.
  rewrite read_full_app by (by rewrite zlen_le_enc). simpl rbind.
  rewrite le_dec_enc4, le_dec_enc2 by done.
  destruct (Z.ltb_spec 0 max), (Z.ltb_spec max d); simpl; auto. lia.
Qed.

Lemma readFrame_Pack max {M} `{IMessage M} (m : M) p rest :
  sendable max m -> Pack m = Ok p -> readFrame max (p ++ rest) = Ok (received m, rest).
Proof.
  intros (Hi & Hl & Hd & Hm) Hp. unfold Pack in Hp.
  destruct (Z.ltb_spec 65535 (zlen (GetMsgID m))) as [|_]; [lia|]. injection Hp as <-.
  rewrite Hl. pose proof (zlen_nonneg (GetMsgID m)). pose proof (zlen_nonneg (GetData m)).
  assert (u16 (zlen (GetMsgID m))) as Hu by (unfold u16; lia).
  unfold readFrame. rewrite <- !app_assoc, (app_assoc (le_enc 4 _)).
  rewrite read_full_app by (by autorewrite with len). simpl rbind.
  rewrite <- (app_nil_r (le_enc 2 _)), UnPack_header by done. simpl.
  set (i := GetMsgID m) in *. set (d := GetData m) in *.
  destruct (Z.ltb_spec 0 (zlen i)) as [|Hi0].
  - rewrite (read_full_app (zlen i) i) by done. simpl.
    destruct (Z.ltb_spec 0 (zlen d)) as [|Hd0].
    + rewrite (read_full_app (zlen d) d) by done. done.
    + assert (d = []) as Hdn by (destruct d; [done|rewrite zlen_cons in *; pose proof (zlen_nonneg d); lia]).
      unfold received. fold i d. by rewrite Hdn.
  - assert (i = []) as Hin by (destruct i; [done|rewrite zlen_cons in *; pose proof (zlen_nonneg i); lia]).
    unfold received. fold i d. rewrite Hin. simpl.
    destruct (Z.ltb_spec 0 (zlen d)) as [|Hd0].
    + rewrite (read_full_app (zlen d) d) by done. done.
    + assert (d = []) as Hdn by (destruct d; [done|rewrite zlen_cons in *; pose proof (zlen_nonneg d); lia]).
      by rewrite Hdn.
Qed.

(** Everything [readFrame] does, as one successful run. *)
Lemma readFrame_inv max s m s' :
  readFrame max s = Ok (m, s') ->
  exists head h d,
    read_full 6 s = Ok (head, h) /\
    exists m0 i, UnPack max head = Ok m0 /\ Id m0 = [] /\ 0 <= IDLen m0 /\ 0 <= DataLen m0 /\
      read_full (IDLen m0) h = Ok (i, d) /\
      exists x, read_full (DataLen m0) d = Ok (x, s') /\ m = mkMessage i (IDLen m0) (DataLen m0) x.
Proof.
  unfold readFrame. intros Hr.
  destruct (read_full GetHeadLen s) as [[head h]|] eqn:E1; [|done]. simpl in Hr.
  destruct (UnPack max head) as [m0|] eqn:E2; [|done]. simpl in Hr.
  assert (Id m0 = [] /\ 0 <= IDLen m0 /\ 0 <= DataLen m0) as (Hid & Hi & Hd).
  { unfold UnPack in E2. destruct (read_full 4 head) as [[d4 r]|]; [|done]. simpl in E2.
    destruct (read_full 2 r) as [[d2 r2]|]; [|done]. simpl in E2.
    destruct (_ && _); [done|]. injection E2 as <-. simpl.
    pose proof (le_dec_range d2). pose proof (le_dec_range d4). auto with lia. }
  assert (forall t, read_full 0 t = Ok ([], t)) as H0.
  { intros t. apply (read_full_app 0 [] t). done. }
  assert (exists i d, read_full (IDLen m0) h = Ok (i, d) /\
    (let? (data, conn) := if 0 <? DataLen m0 then read_full (DataLen m0) d else Ok ([], d) in
     Ok (mkMessage i (IDLen m0) (DataLen m0) data, conn)) = Ok (m, s')) as (i & d & Hi' & Hr').
  { destruct (Z.ltb_spec 0 (IDLen m0)).
    - destruct (read_full (IDLen m0) h) as [[i d]|]; [|done]. eauto.
    - replace (IDLen m0) with 0 by lia. exists [], h. split; [done|].
      destruct m0; simpl in *. subst. replace IDLen0 with 0 in Hr by lia. done. }
  exists head, h, d. split; [done|]. exists m0, i. repeat split; auto.
  destruct (Z.ltb_spec 0 (DataLen m0)).
  - destruct (read_full (DataLen m0) d) as [[x y]|]; [|done]. simpl in Hr'. naive_solver.
  - replace (DataLen m0) with 0 in * by lia. exists []. rewrite H0. simpl in Hr'. naive_solver.
Qed.

Lemma readFrame_of max s head h m0 i d x s' :
  read_full 6 s = Ok (head, h) -> UnPack max head = Ok m0 -> Id m0 = [] ->
  read_full (IDLen m0) h = Ok (i, d) -> read_full (DataLen m0) d = Ok (x, s') ->
  0 <= IDLen m0 -> 0 <= DataLen m0 ->
  readFrame max s = Ok (mkMessage i (IDLen m0) (DataLen m0) x, s').
Proof.
  intros E1 E2 Hid E3 E4 Hi Hd. unfold readFrame, GetHeadLen. rewrite E1. simpl. rewrite E2. simpl.
  assert ((if 0 <? IDLen m0
           then let? (idBuf, conn) := read_full (IDLen m0) h in Ok (SetMsgID m0 idBuf, conn)
           else Ok (m0, h)) = Ok (SetMsgID m0 i, d)) as ->.
  { destruct (Z.ltb_spec 0 (IDLen m0)); [by rewrite E3|].
    apply read_full_inv in E3 as [-> Hl]; [|done]. assert (i = []) as ->.
    { destruct i; [done|rewrite zlen_cons in Hl; pose proof (zlen_nonneg i); lia]. }
    destruct m0; simpl in *; by subst. }
  simpl. destruct (Z.ltb_spec 0 (DataLen m0)); [by rewrite E4|].
  apply read_full_inv in E4 as [-> Hl]; [|done]. assert (x = []) as ->; [|done].
  destruct x; [done|rewrite zlen_cons in Hl; pose proof (zlen_nonneg x); lia].
Qed.

Lemma readFrame_extend max s m s' t :
  readFrame max s = Ok (m, s') -> readFrame max (s ++ t) = Ok (m, s' ++ t).
Proof.
  intros (head & h & d & E1 & m0 & i & E2 & Hid & Hi & Hd & E3 & x & E4 & ->)%readFrame_inv.
  apply (readFrame_of max (s ++ t) head (h ++ t) m0 i (d ++ t) x (s' ++ t)); auto;
    (apply read_full_extend; [lia|done]).
Qed.

Lemma readFrame_shorter max s m s' :
  readFrame max s = Ok (m, s') -> (length s' < length s)%nat.
Proof.
  intros (head & h & d & E1 & m0 & i & E2 & Hid & Hi & Hd & E3 & x & E4 & ->)%readFrame_inv.
  apply read_full_length in E1, E3, E4; [|lia..]. unfold zlen in *. lia.
Qed.

Lemma StartReader_fuel max fuel s :
  (length s < fuel)%nat -> StartReader_loop fuel max s = StartReader max s.
Proof.
  unfold StartReader. assert (length s < S (length s))%nat as H by lia. revert H.
  generalize (S (length s)) as f2. revert s.
  induction fuel as [|fuel IH]; intros s f2 H2 H1; [lia|].
  destruct f2 as [|f2]; [lia|]. cbn [StartReader_loop].
  destruct (readFrame max s) as [[m s']|] eqn:E; [|done].
  apply readFrame_shorter in E. by rewrite (IH s' f2) by lia.
Qed.

Lemma StartReader_unfold max s :
  StartReader max s =
    match readFrame max s with
    | Error e => ([], Some e)
    | Ok (m, s') => let (ms, e) := StartReader max s' in (m :: ms, e)
    end.
Proof.
  unfold StartReader at 1. cbn [StartReader_loop].
  destruct (readFrame max s) as [[m s']|] eqn:E; [|done].
  apply readFrame_shorter in E. by rewrite StartReader_fuel by lia.
Qed.

(** C28: the reader loop of a connection always ends with an error that closes
    the connection (there is no input on which it spins), and what it dispatches
    from a stream that is cut anywhere is a prefix of what it dispatches from the
    whole stream: a torn last frame never reaches a handler. *)
Theorem StartReader_prefix (max : Z) (s t : bytes) :
  is_Some (StartReader max s).2 /\
  (StartReader max s).1 `prefix_of` (StartReader max (s ++ t)).1.
Proof.
  revert t. induction (Nat.lt_wf_0_projected (@length byte) s) as [s _ IH]; intros t.
  rewrite (StartReader_unfold max s), (StartReader_unfold max (s ++ t)).
  destruct (readFrame max s) as [[m s']|] eqn:E; simpl.
  - rewrite (readFrame_extend _ _ _ _ t E). apply readFrame_shorter in E.
    destruct (IH s' E t) as [H1 H2].
    destruct (StartReader max s') as [ms e], (StartReader max (s' ++ t)) as [ms' e'].
    simpl in *. split; [done|]. by apply prefix_cons.
  - split; [done|]. apply prefix_nil.
Qed.

(** C29: framing round trip: the concatenation of packed messages, whatever their
    type and number, is read back by the peer as exactly those messages in
    order, with ids and payloads unchanged, and then ends cleanly at EOF. *)
Theorem frames_roundtrip (max : Z) {M : Type} (I : IMessage M) (ms : list M) (ps : list bytes)
    (Hs : Forall (sendable max) ms) (Hp : Forall2 (fun m p => Pack m = Ok p) ms ps) :
  StartReader max (concat ps) = (received <$> ms, Some EOF).
Proof.
  induction Hp as [|m p ms ps Hm Hp IH]; simpl.
  - rewrite StartReader_unfold. done.
  - apply Forall_cons in Hs as [Hm' Hs]. rewrite StartReader_unfold.
    rewrite (readFrame_Pack max m p) by done. by rewrite IH.
Qed.

Lemma frames_roundtrip_witness :
  StartReader 100 (concat [match Pack (NewMessage (of_string "GET") (of_string "k")) with
                           Ok p => p | Error _ => [] end])
  = ([mkMessage (of_string "GET") 3 1 (of_string "k")], Some EOF).
Proof.
  apply (frames_roundtrip 100 Message_IMessage [NewMessage (of_string "GET") (of_string "k")]).
  - constructor; [|constructor]. vm_compute. repeat split; try done; intros; discriminate.
  - constructor; [|constructor]. vm_compute. reflexivity.
Defined.

End BanNet.
