(* ===== verification/Proto.v ===== *)
(** The payloads inside frames: status bytes, PUT/GET payloads as the service
    and the clients build and parse them ([service/router.go],
    [service/ingesthook/filter.go], [client/client.go]) and the SCAN request and
    response of [pkg/proto/scan.go].  A Go slice expression that may be out of
    range is [slice], whose [None] is the run-time panic; decoders therefore
    return [option (result _)] and are proved never to be [None]. *)
From S2P Require Import Prelude Bytes Wire.

(** ** Status bytes and KV payloads *)
Module KV.

Definition StatusOK : bytes := of_string "ok".
Definition StatusError : bytes := of_string "error".
Definition StatusDropped : bytes := of_string "dropped".

(** [byte(len(status))] followed by the status. *)
Definition statusPayload (status : bytes) : bytes := byte_of (zlen status) :: status.

(** [parseStatus] of the clients. *)
Definition parseStatus (payload : bytes) : option (result (bytes * bytes)) :=
  match payload with
  | [] => Some (Error (Err "invalid response: empty payload"))
  | b :: _ =>
      let statusLen := bval b in
      if zlen payload <? 1 + statusLen then Some (Error (Err "invalid response: truncated status"))
      else
        status ← slice 1 (1 + statusLen) payload;
        rest ← slice (1 + statusLen) (zlen payload) payload;
        Some (Ok (status, rest))
  end.

(** [parsePut] of the ingest hook; the inner [None] is [ok = false]. *)
Definition parsePut (data : bytes) : option (option (bytes * bytes)) :=
  if zlen data <? 8 then Some None else
  keyLen ← le32_at 0 data;
  valueLen ← le32_at 4 data;
  if (keyLen <? 0) || (valueLen <? 0) || (zlen data <? 8 + keyLen + valueLen) then Some None else
  key ← slice 8 (8 + keyLen) data;
  value ← slice (8 + keyLen) (8 + keyLen + valueLen) data;
  Some (Some (key, value)).

(** [encodePut]: the same bytes as the clients' [NewKVData]. *)
Definition encodePut (key value : bytes) : bytes :=
  le_enc 4 (zlen key) ++ le_enc 4 (zlen value) ++ key ++ value.

(** GET and DEL requests: [keyLen u32 LE][key], as [SendGet] and [SendDelete]
    build them and as [handleGet] and [handleDelete] parse them. *)
Definition encodeKey (key : bytes) : bytes := Utils.ByteBuilder [le_enc 4 (zlen key); key].

Definition parseKeyed (data : bytes) : option (option bytes) :=
  if zlen data <? 4 then Some None else
  keyLen ← le32_at 0 data;
  if zlen data <? 4 + keyLen then Some None else
  key ← slice 4 (4 + keyLen) data;
  Some (Some key).

(** The GET response [handleGet] builds. *)
Definition getResponse (value : bytes) : bytes :=
  statusPayload StatusOK ++ le_enc 4 (zlen value) ++ value.

(** The tail of [SendGet]: what the client returns from a response payload; the
    upper bound [4+valueLen] of the last slice is a [uint32]. *)
Definition parseGetResponse (payload : bytes) : option (result bytes) :=
  r ← parseStatus payload;
  match r with
  | Error e => Some (Error e)
  | Ok (status, rest) =>
      if negb (bool_decide (status = StatusOK))
      then Some (Error (Err "key not found or server error")) else
      if zlen rest <? 4 then Some (Error (Err "invalid response format")) else
      valueLen ← le32_at 0 rest;
      if zlen rest <? 4 + valueLen then Some (Error (Err "incomplete response")) else
      v ← slice 4 ((4 + valueLen) mod 2 ^ 32) rest;
      Some (Ok v)
  end.

Lemma encodePut_NewKVData key value : encodePut key value = Utils.NewKVData key value.
Proof. unfold encodePut, Utils.NewKVData. simpl. by rewrite app_nil_r. Qed.

Lemma parseStatus_statusPayload s rest :
  zlen s < 256 -> parseStatus (statusPayload s ++ rest) = Some (Ok (s, rest)).
Proof.
  intros Hs. pose proof (zlen_nonneg s). pose proof (zlen_nonneg rest).
  unfold parseStatus, statusPayload. simpl.
  rewrite bval_byte_of, Z.mod_small by lia.
  rewrite zlen_cons, zlen_app. destruct (Z.ltb_spec (1 + (zlen s + zlen rest)) (1 + zlen s)); [lia|].
  assert (zlen [byte_of (zlen s)] = 1) as Hone by done.
  pose proof (slice_app 1 (1 + zlen s) [byte_of (zlen s)] s rest ltac:(lia) ltac:(lia)) as Hsl.
  simpl in Hsl. rewrite Hsl. simpl.
  pose proof (slice_suffix (1 + zlen s) (1 + (zlen s + zlen rest)) (byte_of (zlen s) :: s) rest) as Hsr.
  simpl in Hsr. rewrite Hsr; [done|rewrite zlen_cons; lia|len_lia].
Qed.

Lemma parseStatus_total p : exists r, parseStatus p = Some r.
Proof.
  unfold parseStatus. destruct p as [|b p]; [eauto|].
  destruct (Z.ltb_spec (zlen (b :: p)) (1 + bval b)); [eauto|].
  pose proof (bval_range b).
  destruct (slice_Some 1 (1 + bval b) (b :: p)) as (s & -> & _); [lia|lia|]. simpl.
  destruct (slice_Some (1 + bval b) (zlen (b :: p)) (b :: p)) as (r & -> & _); [lia|lia|]. simpl. eauto.
Qed.

Lemma parsePut_encodePut k v :
  u32 (zlen k) -> u32 (zlen v) -> parsePut (encodePut k v) = Some (Some (k, v)).
Proof.
  intros Hk Hv. unfold parsePut, encodePut.
  pose proof (zlen_nonneg k). pose proof (zlen_nonneg v).
  assert (zlen (le_enc 4 (zlen k) ++ le_enc 4 (zlen v) ++ k ++ v) = 8 + zlen k + zlen v) as Hl
    by len_lia.
  rewrite Hl. destruct (Z.ltb_spec (8 + zlen k + zlen v) 8); [lia|].
  rewrite le32_at_head by done. simpl.
  rewrite (le32_at_app (le_enc 4 (zlen k)) (zlen v)) by (try done; len_lia). simpl.
  destruct (Z.ltb_spec (zlen k) 0), (Z.ltb_spec (zlen v) 0); try lia. simpl.
  rewrite Z.ltb_irrefl, (app_assoc (le_enc 4 _)).
  rewrite (slice_app 8 (8 + zlen k) (le_enc 4 (zlen k) ++ le_enc 4 (zlen v)) k v) by len_lia. simpl.
  rewrite (app_assoc _ k v).
  rewrite (slice_suffix (8 + zlen k) (8 + zlen k + zlen v) ((le_enc 4 (zlen k) ++ le_enc 4 (zlen v)) ++ k) v)
    by len_lia.
  done.
Qed.

Lemma parsePut_sound data k v :
  parsePut data = Some (Some (k, v)) -> exists rest, data = encodePut k v ++ rest.
Proof.
  unfold parsePut. destruct (Z.ltb_spec (zlen data) 8); [done|].
  destruct (le32_at 0 data) as [kl|] eqn:E1; [|done].
  destruct (le32_at 4 data) as [vl|] eqn:E2; [|done]. simpl.
  destruct ((_ || _) || _); [done|].
  destruct (slice 8 (8 + kl) data) as [k'|] eqn:E3; [|done].
  destruct (slice (8 + kl) (8 + kl + vl) data) as [v'|] eqn:E4; [|done]. simpl. intros [= -> ->].
  apply le32_at_inv in E1 as (a1 & c1 & -> & Ha1 & Hk).
  assert (a1 = []) as -> by (destruct a1; [done|rewrite zlen_cons in Ha1; pose proof (zlen_nonneg a1); lia]).
  simpl in *.
  apply le32_at_inv in E2 as (a2 & c2 & E2 & Ha2 & Hv).
  apply app_inj_zlen in E2 as [<- ->]; [|by rewrite Ha2, zlen_le_enc].
  apply slice_inv in E3 as (a3 & c3 & E3 & Ha3 & Hk3). rewrite app_assoc in E3.
  apply app_inj_zlen in E3 as [<- ->]; [|len_lia].
  apply slice_inv in E4 as (a4 & c4 & E4 & Ha4 & Hv4). rewrite !app_assoc in E4.
  rewrite <- (app_assoc a4 v c4) in E4.
  apply app_inj_zlen in E4 as [<- ->]; [|len_lia].
  exists c4. unfold encodePut. replace kl with (zlen k) by lia. replace vl with (zlen v) by lia.
  by rewrite <- !app_assoc.
Qed.

Lemma parseKeyed_encodeKey k : u32 (zlen k) -> parseKeyed (encodeKey k) = Some (Some k).
Proof.
  intros Hk. unfold parseKeyed, encodeKey. simpl. rewrite app_nil_r.
  pose proof (zlen_nonneg k).
  assert (zlen (le_enc 4 (zlen k) ++ k) = 4 + zlen k) as Hl by len_lia.
  rewrite Hl. destruct (Z.ltb_spec (4 + zlen k) 4); [lia|].
  rewrite le32_at_head by done. simpl. rewrite Z.ltb_irrefl.
  rewrite (slice_suffix 4 (4 + zlen k) (le_enc 4 (zlen k)) k) by len_lia. done.
Qed.

Lemma parsePut_total data : exists r, parsePut data = Some r.
Proof.
  unfold parsePut. destruct (Z.ltb_spec (zlen data) 8); [eauto|].
  destruct (le32_at_Some 0 data) as (k & -> & Hk); [lia|lia|].
  destruct (le32_at_Some 4 data) as (v & -> & Hv); [lia|lia|]. simpl. unfold u32 in *.
  destruct (Z.ltb_spec k 0), (Z.ltb_spec v 0), (Z.ltb_spec (zlen data) (8 + k + v)); simpl; eauto.
  destruct (slice_Some 8 (8 + k) data) as (? & -> & _); [lia|lia|]. simpl.
  destruct (slice_Some (8 + k) (8 + k + v) data) as (? & -> & _); [lia|lia|]. simpl. eauto.
Qed.

Lemma parseKeyed_total data : exists r, parseKeyed data = Some r.
Proof.
  unfold parseKeyed. destruct (Z.ltb_spec (zlen data) 4); [eauto|].
  destruct (le32_at_Some 0 data) as (k & -> & Hk); [lia|lia|]. simpl. unfold u32 in *.
  destruct (Z.ltb_spec (zlen data) (4 + k)); simpl; eauto.
  destruct (slice_Some 4 (4 + k) data) as (? & -> & _); [lia|lia|]. simpl. eauto.
Qed.

(** GET end to end on the wire: whatever value the server stores under a
    key, the payload [handleGet] sends is parsed by [SendGet] to exactly that
    value; and the status [ok] is what separates it from an error response,
    which every client parser reports as an error and never as a value.  (The
    client's slice bound wraps for the last four lengths a [uint32] holds.) *)
Lemma parseGetResponse_getResponse (v : bytes) (Hv : zlen v < 2 ^ 32 - 4) :
  parseGetResponse (getResponse v) = Some (Ok v) /\
  parseGetResponse (statusPayload StatusError)
    = Some (Error (Err "key not found or server error")).
Proof.
  split; [|by vm_compute].
  pose proof (zlen_nonneg v). assert (u32 (zlen v)) as Hu by (unfold u32; lia).
  unfold parseGetResponse, getResponse.
  rewrite parseStatus_statusPayload by done. cbn [mbind option_bind negb bool_decide decide].
  rewrite bool_decide_true by done. cbn [negb].
  assert (zlen (le_enc 4 (zlen v) ++ v) = 4 + zlen v) as -> by len_lia.
  destruct (Z.ltb_spec (4 + zlen v) 4); [lia|].
  rewrite le32_at_head by done. cbn [mbind option_bind]. rewrite Z.ltb_irrefl, Z.mod_small by lia.
  rewrite (slice_suffix 4 (4 + zlen v) (le_enc 4 (zlen v)) v) by len_lia. done.
Qed.

(** A payload of a frame is too short for the slice bound to wrap. *)
Lemma parseGetResponse_total payload : zlen payload < 2 ^ 32 -> is_Some (parseGetResponse payload).
Proof.
  intros Hl. unfold parseGetResponse. destruct (parseStatus_total payload) as [r Hr]. rewrite Hr. cbn [mbind option_bind].
  destruct r as [[status rest]|e]; [|eauto]. destruct (negb _); [eauto|]. destruct (Z.ltb_spec (zlen rest) 4); [eauto|].
  assert (zlen rest <= zlen payload) as Hle.
  { unfold parseStatus in Hr. destruct payload as [|b d]; [done|]. destruct (_ <? _); [done|].
    destruct (slice 1 (1 + bval b) (b :: d)) as [st|]; [|done]. cbn [mbind option_bind] in Hr.
    destruct (slice (1 + bval b) (zlen (b :: d)) (b :: d)) as [x|] eqn:E; [|done]. injection Hr as _ <-.
    unfold slice in E. destruct (_ && _); [|done]. injection E as <-. unfold zlen. rewrite length_take, length_drop. lia. }
  destruct (le32_at_Some 0 rest) as (v & -> & Hv); [lia|lia|]. cbn [mbind option_bind]. unfold u32 in Hv.
  destruct (Z.ltb_spec (zlen rest) (4 + v)); [eauto|]. rewrite Z.mod_small by lia.
  destruct (slice_Some 4 (4 + v) rest) as (x & -> & _); [lia|lia|]. eauto.
Qed.

End KV.

(** ** The predicate of an edge query ([pkg/predicate]), as data *)
Module Predicate.

(** [type Op uint8]: an integer below 256. *)
Definition OpNone : Z := 0.
Definition OpGT : Z := 1.
Definition OpGTE : Z := 2.
Definition OpLT : Z := 3.
Definition OpLTE : Z := 4.
Definition OpEQ : Z := 5.
Definition OpNE : Z := 6.

Record Predicate := mkPredicate { Field : bytes; OpOf : Z; Operand : bytes }.

End Predicate.

(** ** pkg/proto/scan.go *)
Module Scan.
Import Predicate.

Definition scanReqHeaderLen : Z := 13.

Record ScanRequest := mkScanRequest { Start : bytes; End_ : bytes; Pred : Predicate }.
Record ScanEntry := mkScanEntry { Key : bytes; Value : bytes }.

Definition EncodeScanRequest (r : ScanRequest) : bytes :=
  le_enc 4 (zlen (Start r)) ++ le_enc 4 (zlen (End_ r)) ++ le_enc 4 (zlen (Field (Pred r))) ++
  [byte_of (OpOf (Pred r))] ++
  Start r ++ End_ r ++ Field (Pred r) ++ Operand (Pred r).

Definition DecodeScanRequest (data : bytes) : option (result ScanRequest) :=
  if zlen data <? scanReqHeaderLen then Some (Error (Err "scan request too short")) else
  startLen ← le32_at 0 data;
  endLen ← le32_at 4 data;
  fieldLen ← le32_at 8 data;
  op ← slice 12 13 data;
  let off := scanReqHeaderLen in
  if (startLen <? 0) || (endLen <? 0) || (fieldLen <? 0) ||
     (zlen data <? off + startLen + endLen + fieldLen)
  then Some (Error (Err "scan request length fields exceed payload")) else
  start ← slice off (off + startLen) data;
  let off := off + startLen in
  end_ ← slice off (off + endLen) data;
  let off := off + endLen in
  field ← slice off (off + fieldLen) data;
  let off := off + fieldLen in
  operand ← slice off (zlen data) data;
  Some (Ok (mkScanRequest start end_ (mkPredicate field (le_dec op) operand))).

Definition encodeEntry (e : ScanEntry) : bytes :=
  le_enc 4 (zlen (Key e)) ++ le_enc 4 (zlen (Value e)) ++ Key e ++ Value e.

Definition EncodeScanResponse (status : bytes) (entries : list ScanEntry) : bytes :=
  [byte_of (zlen status)] ++ status ++ le_enc 4 (zlen entries) ++ concat (encodeEntry <$> entries).

(** The entry loop of [DecodeScanResponse]; [count] is the number of turns left. *)
Fixpoint decodeEntries (count : nat) (off : Z) (payload : bytes) (entries : list ScanEntry)
    : option (result (list ScanEntry)) :=
  match count with
  | O => Some (Ok entries)
  | S count' =>
      if zlen payload <? off + 8 then Some (Error (Err "scan response truncated at entry header")) else
      keyLen ← le32_at off payload;
      valueLen ← le32_at (off + 4) payload;
      let off := off + 8 in
      if (keyLen <? 0) || (valueLen <? 0) || (zlen payload <? off + keyLen + valueLen)
      then Some (Error (Err "scan response truncated at entry body")) else
      key ← slice off (off + keyLen) payload;
      let off := off + keyLen in
      value ← slice off (off + valueLen) payload;
      let off := off + valueLen in
      decodeEntries count' off payload (entries ++ [mkScanEntry key value])
  end.

Definition DecodeScanResponse (payload : bytes) : option (result (bytes * list ScanEntry)) :=
  match payload with
  | [] => Some (Error (Err "scan response empty"))
  | b :: _ =>
      let statusLen := bval b in
      let off := 1 in
      if zlen payload <? off + statusLen + 4
      then Some (Error (Err "scan response too short for status+count")) else
      status ← slice off (off + statusLen) payload;
      let off := off + statusLen in
      count ← le32_at off payload;
      let off := off + 4 in
      r ← decodeEntries (Z.to_nat count) off payload [];
      match r with
      | Error e => Some (Error e)
      | Ok entries => Some (Ok (status, entries))
      end
  end.

(** The entries [make([]ScanEntry, 0, count)] makes room for before it has read one:
    the count is not held against the payload's length. Memory is not modelled, so
    [DecodeScanResponse] takes this room as granted. *)
Definition room_made (payload : bytes) : option Z :=
  match payload with
  | [] => None
  | b :: _ => if zlen payload <? 1 + bval b + 4 then None else le32_at (1 + bval b) payload
  end.

(** Five bytes ask for room for 2^32 - 1 entries, and are no response. *)
Example five_bytes_ask_for_room :
  let payload := byte_of 0 :: replicate 4 (byte_of 255) in
  room_made payload = Some (2 ^ 32 - 1) /\ zlen payload = 5.
Proof. vm_compute. split; reflexivity. Qed.

(** *** Properties *)

Definition request_ok (r : ScanRequest) : Prop :=
  u32 (zlen (Start r)) /\ u32 (zlen (End_ r)) /\ u32 (zlen (Field (Pred r))) /\
  0 <= OpOf (Pred r) < 256.

Definition entry_ok (e : ScanEntry) : Prop := u32 (zlen (Key e)) /\ u32 (zlen (Value e)).

(** SCAN requests round trip: the server decodes from the client's payload
    the same bounds, field, operator and operand, for every request whose
    variable parts fit their [uint32] length fields. *)
Lemma DecodeScanRequest_Encode (r : ScanRequest) (Hr : request_ok r) :
  DecodeScanRequest (EncodeScanRequest r) = Some (Ok r).
Proof.
  destruct r as [s e [f o p]]. destruct Hr as (Hs & He & Hf & Ho). simpl in *.
  unfold DecodeScanRequest, EncodeScanRequest, scanReqHeaderLen. simpl.
  set (hs := le_enc 4 (zlen s)). set (he := le_enc 4 (zlen e)). set (hf := le_enc 4 (zlen f)).
  assert (zlen hs = 4 /\ zlen he = 4 /\ zlen hf = 4) as (H4s & H4e & H4f)
    by (unfold hs, he, hf; by autorewrite with len).
  set (data := hs ++ he ++ hf ++ byte_of o :: s ++ e ++ f ++ p).
  assert (zlen data = 13 + zlen s + zlen e + zlen f + zlen p) as Hl by (unfold data; len_lia).
  pose proof (zlen_nonneg s). pose proof (zlen_nonneg e). pose proof (zlen_nonneg f).
  pose proof (zlen_nonneg p).
  destruct (Z.ltb_spec (zlen data) 13); [lia|].
  assert (le32_at 0 data = Some (zlen s)) as -> by (by apply le32_at_head).
  assert (le32_at 4 data = Some (zlen e)) as -> by (apply le32_at_app; [done|lia]).
  assert (le32_at 8 data = Some (zlen f)) as ->.
  { unfold data. rewrite app_assoc. apply le32_at_app; [done|len_lia]. }
  assert (slice 12 13 data = Some [byte_of o]) as ->.
  { unfold data. rewrite !app_assoc, <- (app_assoc hs). apply (slice_app _ _ _ [byte_of o]); len_lia. }
  simpl. destruct (Z.ltb_spec (zlen s) 0), (Z.ltb_spec (zlen e) 0), (Z.ltb_spec (zlen f) 0),
    (Z.ltb_spec (zlen data) (13 + zlen s + zlen e + zlen f)); try lia. simpl.
  set (hd := hs ++ he ++ hf ++ [byte_of o]).
  assert (zlen hd = 13) as Hhd by (unfold hd; len_lia).
  assert (data = hd ++ s ++ e ++ f ++ p) as Hd by (unfold data, hd; by rewrite <- !app_assoc).
  assert (slice 13 (13 + zlen s) data = Some s) as ->
    by (rewrite Hd; apply slice_app; lia).
  assert (slice (13 + zlen s) (13 + zlen s + zlen e) data = Some e) as ->
    by (rewrite Hd, app_assoc; apply slice_app; len_lia).
  assert (slice (13 + zlen s + zlen e) (13 + zlen s + zlen e + zlen f) data = Some f) as ->
    by (rewrite Hd, !app_assoc, <- (app_assoc _ f p); apply slice_app; len_lia).
  assert (slice (13 + zlen s + zlen e + zlen f) (zlen data) data = Some p) as ->
    by (rewrite Hd, !app_assoc; apply slice_suffix; len_lia).
  simpl. by rewrite le_dec_byte.
Qed.

Lemma decodeEntries_app pre es tail acc :
  Forall entry_ok es ->
  decodeEntries (length es) (zlen pre) (pre ++ concat (encodeEntry <$> es) ++ tail) acc
    = Some (Ok (acc ++ es)).
Proof.
  revert pre acc. induction es as [|[k v] es IH]; intros pre acc Hes.
  { simpl. by rewrite app_nil_r. }
  apply Forall_cons in Hes as [[Hk Hv] Hes]. simpl in Hk, Hv.
  rewrite fmap_cons. cbn [length decodeEntries concat].
  pose proof (zlen_nonneg k). pose proof (zlen_nonneg v). pose proof (zlen_nonneg pre).
  set (body := concat (encodeEntry <$> es)) in *.
  set (data := pre ++ (encodeEntry (mkScanEntry k v) ++ body) ++ tail).
  assert (data = pre ++ le_enc 4 (zlen k) ++ le_enc 4 (zlen v) ++ k ++ v ++ body ++ tail) as Hd.
  { unfold data, encodeEntry. simpl. by rewrite <- !app_assoc. }
  pose proof (zlen_nonneg (body ++ tail)).
  assert (zlen data = zlen pre + 8 + zlen k + zlen v + zlen (body ++ tail)) as Hl
    by (rewrite Hd; len_lia).
  destruct (Z.ltb_spec (zlen data) (zlen pre + 8)); [lia|].
  assert (le32_at (zlen pre) data = Some (zlen k)) as ->
    by (rewrite Hd; by apply le32_at_app).
  assert (le32_at (zlen pre + 4) data = Some (zlen v)) as ->.
  { rewrite Hd, app_assoc. apply le32_at_app; [done|len_lia]. }
  simpl. destruct (Z.ltb_spec (zlen k) 0), (Z.ltb_spec (zlen v) 0),
    (Z.ltb_spec (zlen data) (zlen pre + 8 + zlen k + zlen v)); try lia. simpl.
  assert (slice (zlen pre + 8) (zlen pre + 8 + zlen k) data = Some k) as ->.
  { rewrite Hd, !app_assoc, <- !(app_assoc _ _ tail), <- (app_assoc _ v), <- (app_assoc _ k).
    apply slice_app; len_lia. }
  simpl.
  assert (slice (zlen pre + 8 + zlen k) (zlen pre + 8 + zlen k + zlen v) data = Some v) as ->.
  { rewrite Hd, !app_assoc, <- !(app_assoc _ _ tail), <- (app_assoc _ v).
    apply slice_app; len_lia. }
  simpl. set (pre' := pre ++ le_enc 4 (zlen k) ++ le_enc 4 (zlen v) ++ k ++ v).
  cbn [Key Value]. replace (zlen pre + 8 + zlen k + zlen v) with (zlen pre') by (unfold pre'; len_lia).
  replace data with (pre' ++ body ++ tail) by (rewrite Hd; unfold pre'; by rewrite <- !app_assoc).
  rewrite IH by done. by rewrite <- app_assoc.
Qed.

(** SCAN responses round trip: the client recovers the status and every hit,
    in order, for every list of entries whose keys and values fit their length
    fields and every status of fewer than 256 bytes. *)
Lemma DecodeScanResponse_Encode (status : bytes) (es : list ScanEntry)
    (Hs : zlen status < 256) (Hn : u32 (zlen es)) (He : Forall entry_ok es) :
  DecodeScanResponse (EncodeScanResponse status es) = Some (Ok (status, es)).
Proof.
  unfold EncodeScanResponse. cbn [app].
  pose proof (zlen_nonneg status). pose proof (zlen_nonneg es).
  set (body := concat (encodeEntry <$> es)). pose proof (zlen_nonneg body).
  unfold DecodeScanResponse. rewrite bval_byte_of, Z.mod_small by lia.
  set (data := byte_of (zlen status) :: status ++ le_enc 4 (zlen es) ++ body).
  assert (zlen data = 5 + zlen status + zlen body) as Hl by (unfold data; len_lia).
  destruct (Z.ltb_spec (zlen data) (1 + zlen status + 4)); [lia|].
  assert (data = [byte_of (zlen status)] ++ status ++ le_enc 4 (zlen es) ++ body) as Hd by done.
  assert (slice 1 (1 + zlen status) data = Some status) as -> by (rewrite Hd; apply slice_app; len_lia).
  simpl.
  assert (le32_at (1 + zlen status) data = Some (zlen es)) as ->.
  { rewrite Hd, app_assoc. apply le32_at_app; [done|len_lia]. }
  simpl. set (pre := [byte_of (zlen status)] ++ status ++ le_enc 4 (zlen es)).
  replace (1 + zlen status + 4) with (zlen pre) by (unfold pre; len_lia).
  replace data with (pre ++ body ++ []) by (rewrite Hd, app_nil_r; unfold pre; by rewrite <- !app_assoc).
  unfold body. rewrite zlen_to_nat, decodeEntries_app by done. done.
Qed.

Lemma decodeEntries_total n off p acc : 0 <= off -> exists r, decodeEntries n off p acc = Some r.
Proof.
  revert off acc. induction n as [|n IH]; intros off acc Ho; simpl; [eauto|].
  destruct (Z.ltb_spec (zlen p) (off + 8)); [eauto|].
  destruct (le32_at_Some off p) as (k & -> & Hk); [lia|lia|].
  destruct (le32_at_Some (off + 4) p) as (v & -> & Hv); [lia|lia|]. simpl. unfold u32 in *.
  destruct (Z.ltb_spec k 0), (Z.ltb_spec v 0), (Z.ltb_spec (zlen p) (off + 8 + k + v)); simpl; eauto.
  destruct (slice_Some (off + 8) (off + 8 + k) p) as (? & -> & _); [lia|lia|]. simpl.
  destruct (slice_Some (off + 8 + k) (off + 8 + k + v) p) as (? & -> & _); [lia|lia|]. simpl.
  apply IH. lia.
Qed.

Lemma DecodeScanResponse_total data : is_Some (DecodeScanResponse data).
Proof.
  unfold DecodeScanResponse. destruct data as [|b d]; [eauto|]. pose proof (bval_range b).
  destruct (Z.ltb_spec (zlen (b :: d)) (1 + bval b + 4)); [eauto|].
  destruct (slice_Some 1 (1 + bval b) (b :: d)) as (? & -> & _); [lia|lia|]. simpl.
  destruct (le32_at_Some (1 + bval b) (b :: d)) as (c & -> & _); [lia|lia|]. simpl.
  destruct (decodeEntries_total (Z.to_nat c) (1 + bval b + 4) (b :: d) []) as [[?|?] ->];
    [lia|eauto|eauto].
Qed.

(** C30: no input makes a decoder index out of range: the two SCAN decoders, the
    PUT and the keyed payload parsers and the status parser return (a value or an
    error) on every byte string, so a malformed frame cannot crash a worker. *)
Theorem decoders_never_panic (data : bytes) :
  is_Some (DecodeScanRequest data) /\ is_Some (DecodeScanResponse data) /\
  is_Some (KV.parsePut data) /\ is_Some (KV.parseKeyed data) /\ is_Some (KV.parseStatus data).
Proof.
  split; [|split; [|split; [|split]]].
  - unfold DecodeScanRequest, scanReqHeaderLen. destruct (Z.ltb_spec (zlen data) 13); [eauto|].
    destruct (le32_at_Some 0 data) as (s & -> & Hs); [lia|lia|].
    destruct (le32_at_Some 4 data) as (e & -> & He); [lia|lia|].
    destruct (le32_at_Some 8 data) as (f & -> & Hf); [lia|lia|].
    destruct (slice_Some 12 13 data) as (o & -> & _); [lia|lia|]. simpl. unfold u32 in *.
    destruct (Z.ltb_spec s 0), (Z.ltb_spec e 0), (Z.ltb_spec f 0),
      (Z.ltb_spec (zlen data) (13 + s + e + f)); simpl; eauto.
    destruct (slice_Some 13 (13 + s) data) as (? & -> & _); [lia|lia|]. simpl.
    destruct (slice_Some (13 + s) (13 + s + e) data) as (? & -> & _); [lia|lia|]. simpl.
    destruct (slice_Some (13 + s + e) (13 + s + e + f) data) as (? & -> & _); [lia|lia|]. simpl.
    destruct (slice_Some (13 + s + e + f) (zlen data) data) as (? & -> & _); [lia|lia|]. simpl. eauto.
  - apply DecodeScanResponse_total.
  - destruct (KV.parsePut_total data) as [? ->]. eauto.
  - destruct (KV.parseKeyed_total data) as [? ->]. eauto.
  - destruct (KV.parseStatus_total data) as [? ->]. eauto.
Qed.

End Scan.
