(* ===== verification/StorageWAL.v ===== *)
(** The storage write-ahead log of [storage/wal.go]: the record an append
    writes, and the replay loop that stops silently at a torn tail. *)
From S2P Require Import Prelude Bytes.

Module WAL.

Definition WALOpPut : Z := 1.
Definition WALOpDelete : Z := 2.

(** What the operating system did with one [Write] and the [Sync] after it: a
    failed write may leave any prefix of the buffer in the file. *)
Inductive fault := NoFault | WriteFails (n : nat) | SyncFails.

(** The buffer [Append] builds: [op u8][klen u32][vlen u32][key][value].  A nil
    value has length 0. *)
Definition record (op : Z) (key : bytes) (value : option bytes) : bytes :=
  let v := default [] value in
  byte_of op :: be_enc 4 (zlen key) ++ be_enc 4 (zlen v) ++ key ++ v.

(** [Append]: the file afterwards and the error returned. *)
Definition Append (f : fault) (file : bytes) (op : Z) (key : bytes) (value : option bytes)
    : bytes * option goerr :=
  let buf := record op key value in
  match f with
  | WriteFails n => (file ++ take n buf, Some (Err "write"))
  | SyncFails => (file ++ buf, Some (Err "sync"))
  | NoFault => (file ++ buf, None)
  end.

(** [Replay], generic in the callback [fn] and the state it updates.  Every turn
    consumes at least the 9-byte header, so [length r] turns suffice
    ([Replay_loop_fuel]). *)
Section Replay.
Context {S : Type} (fn : S -> Z -> bytes -> option bytes -> S * option goerr).

Fixpoint Replay_loop (fuel : nat) (r : bytes) (st : S) : S * option goerr :=
  match fuel with
  | O => (st, None)
  | Datatypes.S fuel' =>
      match read_full 9 r with
      | Error _ => (st, None)
      | Ok (hdr, r) =>
          let op := le_dec (take 1 hdr) in
          let klen := be_dec (take 4 (drop 1 hdr)) in
          let vlen := be_dec (take 4 (drop 5 hdr)) in
          match read_full klen r with
          | Error _ => (st, None)
          | Ok (key, r) =>
              let body :=
                if 0 <? vlen then
                  match read_full vlen r with
                  | Error _ => None
                  | Ok (v, r) => Some (Some v, r)
                  end
                else Some (None, r) in
              match body with
              | None => (st, None)
              | Some (value, r) =>
                  match fn st op key value with
                  | (st', Some e) => (st', Some e)
                  | (st', None) => Replay_loop fuel' r st'
                  end
              end
          end
      end
  end.

(** [file = None]: the log does not exist yet. *)
Definition Replay (file : option bytes) (st : S) : S * option goerr :=
  match file with
  | None => (st, None)
  | Some r => Replay_loop (Datatypes.S (length r)) r st
  end.

(** The specification: the callback folded over the logged operations. *)
Fixpoint fold_ops (ops : list (Z * bytes * option bytes)) (st : S) : S * option goerr :=
  match ops with
  | [] => (st, None)
  | (op, k, v) :: ops' =>
      match fn st op k v with
      | (st', Some e) => (st', Some e)
      | (st', None) => fold_ops ops' st'
      end
  end.

(** What replay makes of a logged value: an empty one comes back as nil. *)
Definition replayed (o : Z * bytes * option bytes) : Z * bytes * option bytes :=
  match o with
  | (op, k, Some []) => (op, k, None)
  | _ => o
  end.

Definition op_ok (o : Z * bytes * option bytes) : Prop :=
  0 <= o.1.1 < 256 /\ u32 (zlen o.1.2) /\ u32 (zlen (default [] o.2)).

Definition record_of (o : Z * bytes * option bytes) : bytes := record o.1.1 o.1.2 o.2.

Definition log_of (ops : list (Z * bytes * option bytes)) : bytes := concat (record_of <$> ops).

Lemma read_record_key op (k v rest : bytes) :
  0 <= op < 256 -> u32 (zlen k) -> u32 (zlen v) ->
  exists hdr,
    read_full 9 (byte_of op :: be_enc 4 (zlen k) ++ be_enc 4 (zlen v) ++ rest) = Ok (hdr, rest) /\
    le_dec (take 1 hdr) = op /\ be_dec (take 4 (drop 1 hdr)) = zlen k /\
    be_dec (take 4 (drop 5 hdr)) = zlen v.
Proof.
  intros Ho Hk Hv. exists (byte_of op :: be_enc 4 (zlen k) ++ be_enc 4 (zlen v)).
  split; [|split; [|split]].
  - rewrite (app_assoc (be_enc 4 _)), app_comm_cons. apply read_full_app.
    by rewrite zlen_cons, zlen_app, !zlen_be_enc.
  - simpl. by apply le_dec_byte.
  - rewrite skipn_cons, drop_0, (take_app_length' _ _ 4) by (by autorewrite with len). by apply be_dec_enc4.
  - rewrite skipn_cons, (drop_app_length' _ _ 4) by (by autorewrite with len).
    rewrite take_ge by (autorewrite with len; lia). by apply be_dec_enc4.
Qed.

Lemma Replay_record o (rest : bytes) fuel st :
  op_ok o ->
  Replay_loop (Datatypes.S fuel) (record_of o ++ rest) st =
    match fn st (replayed o).1.1 (replayed o).1.2 (replayed o).2 with
    | (st', Some e) => (st', Some e)
    | (st', None) => Replay_loop fuel rest st'
    end.
Proof.
  destruct o as [[op k] v]. intros (Ho & Hk & Hv). simpl in *.
  unfold record_of, record. simpl. set (w := default [] v) in *. rewrite <- !app_assoc. cbn [Replay_loop].
  destruct (read_record_key op k w (k ++ w ++ rest)) as (hdr & E & E1 & E2 & E3); [done..|].
  rewrite E, E1, E2, E3, (read_full_app (zlen k)) by done.
  destruct v as [[|b v]|]; simpl in w; subst w; [done| |done].
  destruct (Z.ltb_spec 0 (zlen (b :: v))).
  - by rewrite (read_full_app (zlen (b :: v))) by done.
  - rewrite zlen_cons in *. pose proof (zlen_nonneg v). lia.
Qed.

Lemma Replay_loop_log ops (rest : bytes) fuel st :
  Forall op_ok ops -> (length ops <= fuel)%nat ->
  Replay_loop fuel (log_of ops ++ rest) st =
    match fold_ops (replayed <$> ops) st with
    | (st', Some e) => (st', Some e)
    | (st', None) => Replay_loop (fuel - length ops) rest st'
    end.
Proof.
  intros Hok. revert fuel st. induction Hok as [|o ops Ho Hok IH]; intros fuel st Hf.
  - simpl. by rewrite Nat.sub_0_r.
  - destruct fuel as [|fuel]; simpl in Hf; [lia|]. unfold log_of. rewrite fmap_cons.
    cbn [concat]. rewrite <- app_assoc, Replay_record by done.
    rewrite fmap_cons. cbn [fold_ops length Nat.sub].
    destruct (replayed o) as [[op k] v]. simpl.
    destruct (fn st op k v) as [st' [e|]]; [done|]. apply IH. lia.
Qed.

Lemma length_log ops : (length ops <= length (log_of ops))%nat.
Proof.
  induction ops as [|o ops IH]; [simpl; lia|]. unfold log_of in *. rewrite fmap_cons. cbn [concat].
  rewrite length_app. assert (1 <= length (record_of o))%nat by (unfold record_of, record; cbn [length]; lia).
  cbn [length]. lia.
Qed.

(** A proper prefix of one record: what a crash in the middle of [Append] leaves. *)
Lemma Replay_torn o n fuel st :
  op_ok o -> (n < length (record_of o))%nat ->
  Replay_loop fuel (take n (record_of o)) st = (st, None).
Proof.
  destruct o as [[op k] v]. intros (Ho & Hk & Hv) Hn. destruct fuel as [|fuel]; [done|].
  unfold record_of, record in *. cbn [fst snd] in *. set (w := default [] v) in *. cbn [Replay_loop].
  set (hd := byte_of op :: be_enc 4 (zlen k) ++ be_enc 4 (zlen w)).
  assert (byte_of op :: be_enc 4 (zlen k) ++ be_enc 4 (zlen w) ++ k ++ w = hd ++ k ++ w) as E
    by (unfold hd; by rewrite <- app_comm_cons, <- !app_assoc).
  rewrite E in *.
  assert (length hd = 9%nat) as H9 by (unfold hd; simpl; by autorewrite with len).
  destruct (decide (n < 9)%nat) as [Hs|Hs].
  { destruct (read_full_short 9 (take n (hd ++ k ++ w))) as [e ->]; [|done].
    unfold zlen. rewrite length_take, !length_app. lia. }
  rewrite take_app_ge by lia. rewrite H9.
  destruct (read_record_key op k w (take (n - 9) (k ++ w))) as (hdr & F & F1 & F2 & F3); [done..|].
  rewrite (app_assoc (be_enc 4 _)), app_comm_cons in F. fold hd in F. rewrite F, F1, F2, F3.
  rewrite !length_app, H9 in Hn.
  destruct (decide (n - 9 < length k)%nat) as [Hk'|Hk'].
  { destruct (read_full_short (zlen k) (take (n - 9) (k ++ w))) as [e ->]; [|done].
    unfold zlen. rewrite length_take, length_app. lia. }
  rewrite take_app_ge by lia. rewrite (read_full_app (zlen k)) by done.
  unfold zlen in *. destruct (Z.ltb_spec 0 (Z.of_nat (length w))); [|lia].
  destruct (read_full_short (Z.of_nat (length w)) (take (n - 9 - length k) w)) as [e ->]; [|done].
  unfold zlen. rewrite length_take. lia.
Qed.

Lemma Replay_log_torn ops o n st :
  Forall op_ok ops -> op_ok o -> (n < length (record_of o))%nat ->
  Replay (Some (log_of ops ++ take n (record_of o))) st = fold_ops (replayed <$> ops) st.
Proof.
  intros Hops Ho Hn. unfold Replay. pose proof (length_log ops) as Hl.
  rewrite Replay_loop_log by (done || (rewrite length_app; lia)).
  destruct (fold_ops (replayed <$> ops) st) as [st' [e|]]; [done|].
  by apply Replay_torn.
Qed.

Lemma Replay_log ops st :
  Forall op_ok ops -> Replay (Some (log_of ops)) st = fold_ops (replayed <$> ops) st.
Proof.
  intros Hops. pose proof (Replay_log_torn ops (0, [], None) 0 st Hops) as H.
  rewrite take_0, app_nil_r in H. apply H; [|vm_compute; lia].
  eval_closed.
Qed.

Lemma log_of_snoc ops o : log_of (ops ++ [o]) = log_of ops ++ record_of o.
Proof. unfold log_of. rewrite fmap_app, concat_app. simpl. by rewrite app_nil_r. Qed.

(** durability of the storage WAL, crashes included: on a log of acknowledged
    operations, whatever happens during one more [Append] (a write that stops
    after any number of bytes, a failed fsync, success), replay hands the
    callback exactly the acknowledged operations in order, possibly followed by
    the new one, never part of it; when [Append] reported success the new
    operation is certainly among them.  The only thing replay changes is that an
    empty value comes back as nil. *)
Theorem append_then_replay (ops : list (Z * bytes * option bytes)) (f : fault)
    (op : Z) (k : bytes) (v : option bytes) (st : S)
    (Hops : Forall op_ok ops) (Ho : op_ok (op, k, v)) :
  let '(file, err) := Append f (log_of ops) op k v in
  (Replay (Some file) st = fold_ops (replayed <$> ops) st \/
   Replay (Some file) st = fold_ops (replayed <$> (ops ++ [(op, k, v)])) st) /\
  (err = None -> Replay (Some file) st = fold_ops (replayed <$> (ops ++ [(op, k, v)])) st).
Proof.
  assert (Forall op_ok (ops ++ [(op, k, v)])) as Hops' by (apply Forall_app; auto).
  assert (Replay (Some (log_of ops ++ record_of (op, k, v))) st =
          fold_ops (replayed <$> (ops ++ [(op, k, v)])) st) as Hfull
    by (rewrite <- log_of_snoc; by apply Replay_log).
  unfold Append. fold (record_of (op, k, v)) in *.
  change (record op k v) with (record_of (op, k, v)).
  destruct f as [|n|]; [by auto| |by split; [right|]].
  split; [|done].
  destruct (decide (n < length (record_of (op, k, v)))%nat).
  - left. by apply Replay_log_torn.
  - right. by rewrite take_ge by lia.
Qed.

End Replay.

(** A callback that records what it is given. *)
Definition collect (st : list (Z * bytes * option bytes)) (op : Z) (k : bytes) (v : option bytes)
    : list (Z * bytes * option bytes) * option goerr := (st ++ [(op, k, v)], None).

Lemma append_then_replay_witness :
  let '(file, err) := Append NoFault (log_of [(WALOpPut, of_string "a", Some (of_string "1"))])
                        WALOpDelete (of_string "a") None in
  (Replay collect (Some file) [] = ([(WALOpPut, of_string "a", Some (of_string "1"))], None) \/
   Replay collect (Some file) [] =
     ([(WALOpPut, of_string "a", Some (of_string "1")); (WALOpDelete, of_string "a", None)], None)) /\
  (err = None -> Replay collect (Some file) [] =
     ([(WALOpPut, of_string "a", Some (of_string "1")); (WALOpDelete, of_string "a", None)], None)).
Proof.
  apply (append_then_replay collect [(WALOpPut, of_string "a", Some (of_string "1"))] NoFault
           WALOpDelete (of_string "a") None []);
    eval_closed.
Defined.

End WAL.
