(* ===== verification/RaftWAL.v ===== *)
(** The persistent state of a Raft node: [Raft/raft_wal.go] (state file, log
    file, snapshot directory) and the snapshot payload codec of
    [Raft/raft.go].  The disk holds the bytes the code writes; system calls
    succeed, and what a crash can leave behind is a torn tail of the log file. *)
From S2P Require Import Prelude Bytes Strconv.

(** [type LogEntry struct] of [Raft/raft.go]. *)
Record LogEntry := mkEntry { Index : Z; Term : Z; Command : bytes; IsSnapshot : bool }.

#[global] Instance LogEntry_eq_dec : EqDecision LogEntry.
Proof. solve_decision. Defined.

(** An entry of the replicated log (snapshot markers never enter it) whose
    fields fit their width. *)
Definition log_entry_ok (e : LogEntry) : Prop :=
  i64 (Index e) /\ i64 (Term e) /\ zlen (Command e) < 2 ^ 63 /\ IsSnapshot e = false.

Module RaftWAL.

Definition MagicNumber : Z := 1380013652. (* 0x52415654 *)
Definition Version : Z := 1.

(** The three persistent objects of [RaftWAL]: [logPath], [metaPath] and the
    snapshot directory ([None]: does not exist). *)
Record RaftWAL := mkWAL {
  logFile : option bytes;
  metaFile : option bytes;
  snapDir : option (gmap bytes bytes);
}.

Definition set_log (w : RaftWAL) (f : option bytes) : RaftWAL := mkWAL f (metaFile w) (snapDir w).
Definition set_meta (w : RaftWAL) (f : option bytes) : RaftWAL := mkWAL (logFile w) f (snapDir w).
Definition set_snaps (w : RaftWAL) (d : option (gmap bytes bytes)) : RaftWAL :=
  mkWAL (logFile w) (metaFile w) d.

(** [NewRaftWAL]: opens the log file, creating it when missing. *)
Definition NewRaftWAL (w : RaftWAL) : RaftWAL := set_log w (Some (default [] (logFile w))).

(** *** State file *)

(** Overwrite the first bytes of a file in place (no truncation). *)
Definition overwrite (old new : bytes) : bytes := new ++ drop (length new) old.

Definition SaveState (w : RaftWAL) (term votedFor : Z) : RaftWAL :=
  let f := default [] (metaFile w) in
  set_meta w (Some (overwrite f
    (be_enc 4 MagicNumber ++ be_enc 4 Version ++ be_enc 8 term ++ be_enc 8 votedFor))).

(** Term, votedFor and the error. *)
Definition LoadState (w : RaftWAL) : Z * Z * option goerr :=
  match metaFile w with
  | None => (0, -1, None)
  | Some f =>
      match read_be 4 f with
      | Error e => (0, -1, Some e)
      | Ok (magic, f) =>
          if negb (magic =? MagicNumber) then (0, -1, None) else
          match read_be 4 f with
          | Error e => (0, -1, Some e)
          | Ok (version, f) =>
              match read_i64 f with
              | Error e => (0, -1, Some e)
              | Ok (term, f) =>
                  match read_i64 f with
                  | Error e => (0, -1, Some e)
                  | Ok (votedFor, _) => (term, votedFor, None)
                  end
              end
          end
      end
  end.

(** *** Log file *)

Definition writeEntry (entry : LogEntry) : bytes :=
  be_enc 8 (Index entry) ++ be_enc 8 (Term entry) ++ be_enc 8 (zlen (Command entry)) ++
  Command entry.

Definition append_log (w : RaftWAL) (b : bytes) : RaftWAL :=
  set_log w (Some (default [] (logFile w) ++ b)).

Definition AppendLog (w : RaftWAL) (entry : LogEntry) : RaftWAL := append_log w (writeEntry entry).

(** The whole batch is written before one fsync; an empty batch does nothing. *)
Definition AppendLogs (w : RaftWAL) (entries : list LogEntry) : RaftWAL :=
  match entries with
  | [] => w
  | _ => append_log w (concat (writeEntry <$> entries))
  end.

(** The loop of [LoadLogs]; [None] is the panic of [make] on a negative length.
    Each turn consumes 24 bytes, so [length f] turns are enough. *)
Fixpoint LoadLogs_loop (fuel : nat) (f : bytes) (logs : list LogEntry) : option (list LogEntry) :=
  match fuel with
  | O => Some logs
  | S fuel' =>
      match read_i64 f with
      | Error _ => Some logs
      | Ok (index, f) =>
          match read_i64 f with
          | Error _ => Some logs
          | Ok (term, f) =>
              match read_i64 f with
              | Error _ => Some logs
              | Ok (cmdLen, f) =>
                  if cmdLen <? 0 then None else
                  match read_full cmdLen f with
                  | Error _ => Some logs
                  | Ok (cmd, f) =>
                      LoadLogs_loop fuel' f (logs ++ [mkEntry index term cmd false])
                  end
              end
          end
      end
  end.

Definition LoadLogs (w : RaftWAL) : option (list LogEntry) :=
  match logFile w with
  | None => Some []
  | Some f => LoadLogs_loop (S (length f)) f []
  end.

Definition Clear (w : RaftWAL) : RaftWAL := mkWAL (Some []) None (snapDir w).

(** Both [RebuildLogFile] and [TruncateLogs] recreate the file and append. *)
Definition RebuildLogFile (w : RaftWAL) (entries : list LogEntry) : RaftWAL :=
  AppendLogs (set_log w (Some [])) entries.

Definition TruncateLogs (w : RaftWAL) (lastIncludedIndex : Z) : option RaftWAL :=
  logs ← LoadLogs w;
  let remainingLogs := filter (fun log => lastIncludedIndex < Index log) logs in
  Some (AppendLogs (set_log w (Some [])) remainingLogs).

(** *** Snapshots *)

Definition snapSuffix : bytes := of_string ".snap".
Definition underscore : byte := byte_of 95.

Definition snapName (index term : Z) : bytes :=
  FormatInt index ++ underscore :: FormatInt term ++ snapSuffix.

(** The index a directory entry announces: [<index>_<...>.snap]. *)
Definition snapIndex (name : bytes) : option Z :=
  base ← trim_suffix snapSuffix name;
  match Split underscore base with
  | [i; _] => ParseInt i
  | _ => None
  end.

Definition SaveSnapshot (w : RaftWAL) (data : bytes) (lastIncludedIndex lastIncludedTerm : Z)
    : RaftWAL :=
  let dir := default ∅ (snapDir w) in
  let f := be_enc 4 MagicNumber ++ be_enc 4 Version ++ be_enc 8 lastIncludedIndex ++
           be_enc 8 lastIncludedTerm ++ be_enc 8 (zlen data) ++ data in
  set_snaps w (Some (<[snapName lastIncludedIndex lastIncludedTerm := f]> dir)).

(** [os.ReadDir]: entries sorted by name. *)
Definition name_le (a b : bytes * bytes) : Prop := ble a.1 b.1.
#[export] Instance name_le_dec a b : Decision (name_le a b).
Proof. unfold name_le. apply _. Defined.
Definition ReadDir (d : gmap bytes bytes) : list (bytes * bytes) :=
  merge_sort name_le (map_to_list d).

(** The scan for the largest index: strictly greater replaces. *)
Definition pick_latest (acc : Z * option bytes) (file : bytes * bytes) : Z * option bytes :=
  match snapIndex file.1 with
  | Some index => if acc.1 <? index then (index, Some file.2) else acc
  | None => acc
  end.

(** One [f.Read] into a zeroed buffer of [n] bytes. *)
Definition read_once (n : Z) (f : bytes) : result bytes :=
  if n =? 0 then Ok [] else
  match f with
  | [] => Error EOF
  | _ => let got := take (Z.to_nat n) f in Ok (got ++ replicate (Z.to_nat n - length got) Byte.x00)
  end.

(** Data ([None] is nil), lastIndex, lastTerm; the outer [None] is the panic of
    [make] on a negative length. *)
Definition LoadLatestSnapshot (w : RaftWAL) : option (result (option bytes * Z * Z)) :=
  match snapDir w with
  | None => Some (Ok (None, 0, 0))
  | Some d =>
      match (foldl pick_latest (0, None) (ReadDir d)).2 with
      | None => Some (Ok (None, 0, 0))
      | Some f =>
          match (let? (magic, f) := read_be 4 f in
                 if negb (magic =? MagicNumber) then Error (Err "invalid snapshot file") else
                 let? (version, f) := read_be 4 f in
                 let? (lastIndex, f) := read_i64 f in
                 let? (lastTerm, f) := read_i64 f in
                 let? (dataLen, f) := read_i64 f in
                 Ok (lastIndex, lastTerm, dataLen, f)) with
          | Error e => Some (Error e)
          | Ok (lastIndex, lastTerm, dataLen, f) =>
              if dataLen <? 0 then None else
              Some (let? data := read_once dataLen f in Ok (Some data, lastIndex, lastTerm))
          end
      end
  end.

Definition old_snapshot (keepIndex : Z) (file : bytes * bytes) : Prop :=
  match snapIndex file.1 with Some index => index < keepIndex | None => False end.
#[export] Instance old_snapshot_dec k f : Decision (old_snapshot k f).
Proof. unfold old_snapshot. destruct (snapIndex f.1); apply _. Defined.

Definition DeleteOldSnapshots (w : RaftWAL) (keepIndex : Z) : RaftWAL :=
  match snapDir w with
  | None => w
  | Some d => set_snaps w (Some (filter (fun f => ~ old_snapshot keepIndex f) d))
  end.

(** *** All persistent state at once *)

Record PersistData := mkPersist {
  CurrentTerm : Z;
  VotedFor : Z;
  Log : list LogEntry;
  LastIncludedIndex : Z;
  LastIncludedTerm : Z;
}.

Definition SavePersist (w : RaftWAL) (data : PersistData) : RaftWAL :=
  let w := SaveState w (CurrentTerm data) (VotedFor data) in
  AppendLogs (set_log w (Some [])) (Log data).

Definition LoadPersist (w : RaftWAL) : option (result PersistData) :=
  match LoadState w with
  | (_, _, Some e) => Some (Error e)
  | (term, votedFor, None) =>
      logs ← LoadLogs w;
      snap ← LoadLatestSnapshot w;
      Some (Ok (match snap with
                | Ok (Some _, lastIndex, lastTerm) => mkPersist term votedFor logs lastIndex lastTerm
                | _ => mkPersist term votedFor logs 0 0
                end))
  end.

(** *** Properties of the log file *)

Definition log_bytes (es : list LogEntry) : bytes := concat (writeEntry <$> es).

Lemma log_bytes_app a b : log_bytes (a ++ b) = log_bytes a ++ log_bytes b.
Proof. unfold log_bytes. by rewrite fmap_app, concat_app. Qed.

Lemma log_bytes_cons e es : log_bytes (e :: es) = writeEntry e ++ log_bytes es.
Proof. done. Qed.

Lemma AppendLogs_bytes w es :
  logFile (AppendLogs w es) = match es with [] => logFile w | _ => Some (default [] (logFile w) ++ log_bytes es) end.
Proof. by destruct es. Qed.

Lemma cmdLen_range (e : LogEntry) : zlen (Command e) < 2 ^ 63 -> i64 (zlen (Command e)).
Proof. unfold i64. pose proof (zlen_nonneg (Command e)). lia. Qed.

Lemma LoadLogs_entry e rest fuel logs :
  log_entry_ok e ->
  LoadLogs_loop (S fuel) (writeEntry e ++ rest) logs = LoadLogs_loop fuel rest (logs ++ [e]).
Proof.
  intros (Hi & Ht & Hc & Hs). unfold writeEntry. rewrite <- !app_assoc. cbn [LoadLogs_loop].
  rewrite !read_i64_app by auto using cmdLen_range.
  destruct (Z.ltb_spec (zlen (Command e)) 0); [pose proof (zlen_nonneg (Command e)); lia|].
  rewrite read_full_app by done. destruct e; simpl in *. by subst.
Qed.

Lemma LoadLogs_entries es rest fuel logs :
  Forall log_entry_ok es -> (length es <= fuel)%nat ->
  LoadLogs_loop fuel (log_bytes es ++ rest) logs =
    LoadLogs_loop (fuel - length es) rest (logs ++ es).
Proof.
  intros Hes. revert fuel logs. induction Hes as [|e es He Hes IH]; intros fuel logs Hf.
  - simpl. by rewrite Nat.sub_0_r, app_nil_r.
  - destruct fuel as [|fuel]; cbn [length] in *; [lia|].
    rewrite log_bytes_cons, <- app_assoc, LoadLogs_entry by done.
    rewrite IH by lia. by rewrite <- app_assoc.
Qed.

Lemma length_writeEntry e : (24 <= length (writeEntry e))%nat.
Proof. unfold writeEntry. rewrite !length_app, !length_be_enc. lia. Qed.

Lemma LoadLogs_torn e n fuel logs :
  log_entry_ok e -> (n < length (writeEntry e))%nat ->
  LoadLogs_loop fuel (take n (writeEntry e)) logs = Some logs.
Proof.
  intros (Hi & Ht & Hc & Hs) Hn. destruct fuel as [|fuel]; [done|]. cbn [LoadLogs_loop].
  pose proof (length_writeEntry e). unfold writeEntry in *.
  destruct (decide (n < 8)%nat).
  { destruct (read_i64_short (take n (be_enc 8 (Index e) ++ be_enc 8 (Term e) ++
      be_enc 8 (zlen (Command e)) ++ Command e))) as [x ->]; [|done].
    unfold zlen. rewrite length_take. lia. }
  rewrite take_app_ge, read_i64_app by (rewrite ?length_be_enc; done || lia).
  rewrite length_be_enc.
  destruct (decide (n - 8 < 8)%nat).
  { destruct (read_i64_short (take (n - 8) (be_enc 8 (Term e) ++
      be_enc 8 (zlen (Command e)) ++ Command e))) as [x ->]; [|done].
    unfold zlen. rewrite length_take. lia. }
  rewrite take_app_ge, read_i64_app by (rewrite ?length_be_enc; done || lia).
  rewrite length_be_enc.
  destruct (decide (n - 8 - 8 < 8)%nat).
  { destruct (read_i64_short (take (n - 8 - 8) (be_enc 8 (zlen (Command e)) ++ Command e)))
      as [x ->]; [|done]. unfold zlen. rewrite length_take. lia. }
  rewrite take_app_ge, read_i64_app by (rewrite ?length_be_enc; auto using cmdLen_range || lia).
  rewrite length_be_enc, !length_app, !length_be_enc in *.
  pose proof (zlen_nonneg (Command e)).
  destruct (Z.ltb_spec (zlen (Command e)) 0); [lia|].
  destruct (read_full_short (zlen (Command e)) (take (n - 8 - 8 - 8) (Command e))) as [x ->]; [|done].
  unfold zlen. rewrite length_take. lia.
Qed.

(** A batch cut after [n] bytes: a prefix of its entries survives. *)
Lemma LoadLogs_cut es n fuel logs :
  Forall log_entry_ok es -> (length (take n (log_bytes es)) < fuel)%nat ->
  exists j, LoadLogs_loop fuel (take n (log_bytes es)) logs = Some (logs ++ take j es) /\
    (length (log_bytes es) <= n -> j = length es)%nat.
Proof.
  intros Hes. revert n fuel logs. induction Hes as [|e es He Hes IH]; intros n fuel logs Hf.
  - exists 0%nat. change (log_bytes []) with (@nil byte). rewrite take_nil, take_0, app_nil_r.
    split; [|done]. by destruct fuel.
  - destruct fuel as [|fuel]; [lia|]. rewrite log_bytes_cons in *.
    destruct (decide (n < length (writeEntry e))%nat) as [Hn|Hn].
    + exists 0%nat. rewrite take_app_le by lia.
      rewrite LoadLogs_torn, take_0, app_nil_r by done. split; [done|]. rewrite length_app. lia.
    + rewrite take_app_ge in * by lia. rewrite LoadLogs_entry by done.
      pose proof (length_writeEntry e). rewrite length_app in Hf.
      destruct (IH (n - length (writeEntry e))%nat fuel (logs ++ [e])) as (j & -> & Hj); [lia|].
      exists (S j). rewrite firstn_cons, <- app_assoc. split; [done|].
      rewrite length_app. intros. cbn [length]. rewrite Hj; lia.
Qed.

Lemma length_log_bytes es : (length es <= length (log_bytes es))%nat.
Proof.
  induction es as [|e es IH]; [done|]. rewrite log_bytes_cons, length_app.
  pose proof (length_writeEntry e). cbn [length]. lia.
Qed.

Lemma LoadLogs_bytes w es :
  Forall log_entry_ok es -> logFile w = Some (log_bytes es) -> LoadLogs w = Some es.
Proof.
  intros Hes Hw. unfold LoadLogs. rewrite Hw. pose proof (length_log_bytes es).
  rewrite <- (app_nil_r (log_bytes es)) at 2. rewrite LoadLogs_entries by (done || lia).
  by destruct (S (length (log_bytes es)) - length es)%nat.
Qed.

Lemma AppendLogs_log_bytes w es b :
  logFile w = Some (log_bytes es) -> logFile (AppendLogs w b) = Some (log_bytes (es ++ b)).
Proof.
  intros Hw. rewrite AppendLogs_bytes, log_bytes_app, Hw. destruct b; [|done].
  by rewrite app_nil_r.
Qed.

Lemma AppendLogs_batches w es batches :
  logFile w = Some (log_bytes es) ->
  logFile (foldl AppendLogs w batches) = Some (log_bytes (es ++ concat batches)).
Proof.
  revert w es. induction batches as [|b bs IH]; intros w es Hw; simpl; [by rewrite app_nil_r|].
  rewrite (IH _ (es ++ b)); [by rewrite <- app_assoc|]. by apply AppendLogs_log_bytes.
Qed.

(** C9: crash recovery of the Raft log: after any sequence of acknowledged
    [AppendLogs] batches and a crash that leaves any number of bytes of one more
    batch in the file, [LoadLogs] returns every acknowledged entry, in order and
    unchanged, followed by a prefix of the interrupted batch (all of it when all
    its bytes reached the disk), and never panics. *)
Theorem raft_log_recovery (w : RaftWAL) (batches : list (list LogEntry)) (b : list LogEntry) (n : nat)
    (Hw : logFile w = Some []) (Hb : Forall (Forall log_entry_ok) batches)
    (Ho : Forall log_entry_ok b) :
  let w' := foldl AppendLogs w batches in
  exists j,
    LoadLogs (append_log w' (take n (log_bytes b))) = Some (concat batches ++ take j b) /\
    (length (log_bytes b) <= n -> j = length b)%nat.
Proof.
  intros w'. pose proof (AppendLogs_batches w [] batches Hw : logFile w' = _) as Hf.
  set (es := concat batches) in *.
  assert (Forall log_entry_ok es) as Hes by (by apply Forall_concat).
  unfold LoadLogs, append_log. cbn [logFile set_log]. rewrite Hf.
  change (default [] (Some (log_bytes ([] ++ es)))) with (log_bytes es).
  pose proof (length_log_bytes es).
  rewrite LoadLogs_entries by (done || (rewrite length_app; lia)).
  apply LoadLogs_cut; [done|]. rewrite length_app. lia.
Qed.

Definition sample_entry (i : Z) : LogEntry := mkEntry i 1 (of_string "x") false.

Lemma raft_log_recovery_witness :
  exists j,
    LoadLogs (append_log (foldl AppendLogs (mkWAL (Some []) None None) [[sample_entry 0]])
                (take 30 (log_bytes [sample_entry 1; sample_entry 2])))
      = Some (concat [[sample_entry 0]] ++ take j [sample_entry 1; sample_entry 2]) /\
    (length (log_bytes [sample_entry 1; sample_entry 2]) <= 30 -> j = 2)%nat.
Proof.
  apply (raft_log_recovery (mkWAL (Some []) None None) [[sample_entry 0]]
           [sample_entry 1; sample_entry 2] 30); eval_closed.
Defined.


(** *** Properties of the state file *)

Lemma LoadState_SaveState w term votedFor :
  i64 term -> i64 votedFor -> LoadState (SaveState w term votedFor) = (term, votedFor, None).
Proof.
  intros Ht Hv. unfold SaveState, LoadState, overwrite. cbn [metaFile set_meta].
  rewrite <- !app_assoc. rewrite read_be4_app by eval_closed. cbn [negb].
  rewrite Z.eqb_refl. cbn [negb].
  rewrite read_be4_app by eval_closed. by rewrite !read_i64_app.
Qed.

(** *** Properties of the snapshot directory *)

Lemma underscore_FormatInt z : i64 z -> underscore ∉ FormatInt z.
Proof.
  intros Hz Hin. destruct (FormatInt_shape z Hz) as [Hf _].
  rewrite Forall_forall in Hf. specialize (Hf _ Hin).
  assert (bval underscore = 95) by reflexivity. lia.
Qed.

Lemma snapIndex_snapName i t : i64 i -> i64 t -> snapIndex (snapName i t) = Some i.
Proof.
  intros Hi Ht. unfold snapIndex, snapName. rewrite app_comm_cons, app_assoc, trim_suffix_app.
  simpl. rewrite Split_two by (by apply underscore_FormatInt). by apply ParseInt_FormatInt.
Qed.

Lemma pick_latest_le l acc idx :
  acc.1 = idx -> Forall (fun x => forall j, snapIndex x.1 = Some j -> j <= idx) l ->
  foldl pick_latest acc l = acc.
Proof.
  intros <- Hl. induction Hl as [|x l Hx Hl IH]; [done|]. simpl.
  unfold pick_latest at 2. destruct (snapIndex x.1) as [j|] eqn:E; [|done].
  specialize (Hx j eq_refl). destruct (Z.ltb_spec acc.1 j); [lia|done].
Qed.

Lemma pick_latest_max l acc n f idx :
  NoDup l.*1 -> (n, f) ∈ l -> snapIndex n = Some idx -> acc.1 < idx ->
  (forall m g j, (m, g) ∈ l -> m <> n -> snapIndex m = Some j -> j < idx) ->
  foldl pick_latest acc l = (idx, Some f).
Proof.
  intros Hnd Hin Hn. revert acc. induction l as [|[m g] l IH]; intros acc Ha Hmax.
  { by apply not_elem_of_nil in Hin. }
  rewrite fmap_cons, NoDup_cons in Hnd. destruct Hnd as [Hm Hnd]. simpl.
  apply elem_of_cons in Hin as [[= <- <-]|Hin].
  - unfold pick_latest at 2. simpl. rewrite Hn. destruct (Z.ltb_spec acc.1 idx); [|lia].
    apply (pick_latest_le _ _ idx); [done|]. apply Forall_forall. intros [m g] Hx j Hj. simpl in Hj.
    assert (m <> n) by (intros ->; by eapply Hm, elem_of_fst).
    assert (j < idx); [|lia]. eapply Hmax; eauto. apply elem_of_cons; eauto.
  - assert (m <> n) as Hmn.
    { intros ->. by eapply Hm, elem_of_fst. }
    apply IH; auto.
    + unfold pick_latest. simpl. destruct (snapIndex m) as [j|] eqn:E; [|done].
      assert (j < idx) by (eapply (Hmax m g); eauto; by left).
      destruct (acc.1 <? j); simpl; lia.
    + intros m' g' j Hm' ? ?. eapply Hmax; eauto. by right.
Qed.

Lemma ReadDir_perm d : ReadDir d ≡ₚ map_to_list d.
Proof. apply merge_sort_Permutation. Qed.

(** A snapshot that is newer than every other file of the directory. *)
Definition newest (d : gmap bytes bytes) (name : bytes) (idx : Z) : Prop :=
  forall m g j, d !! m = Some g -> m <> name -> snapIndex m = Some j -> j < idx.

Lemma pick_latest_newest d n f idx :
  d !! n = Some f -> snapIndex n = Some idx -> 0 < idx -> newest d n idx ->
  foldl pick_latest (0, None) (ReadDir d) = (idx, Some f).
Proof.
  intros Hn Hi Hpos Hnew. apply pick_latest_max with (n := n); auto.
  - rewrite ReadDir_perm. apply NoDup_fst_map_to_list.
  - rewrite ReadDir_perm. by apply elem_of_map_to_list.
  - intros m g j Hm ? ?. rewrite ReadDir_perm, elem_of_map_to_list in Hm. by eapply Hnew.
Qed.

Definition snapFile (data : bytes) (i t : Z) : bytes :=
  be_enc 4 MagicNumber ++ be_enc 4 Version ++ be_enc 8 i ++ be_enc 8 t ++
  be_enc 8 (zlen data) ++ data.

Lemma read_once_all data : read_once (zlen data) data = Ok data.
Proof.
  unfold read_once. destruct (Z.eqb_spec (zlen data) 0) as [E|E].
  - destruct data; [done|]. rewrite zlen_cons in E. pose proof (zlen_nonneg data). lia.
  - destruct data as [|b data]; [done|]. rewrite zlen_to_nat, take_ge by lia.
    by rewrite Nat.sub_diag, app_nil_r.
Qed.

Lemma LoadLatestSnapshot_newest w d data i t :
  snapDir w = Some d -> d !! snapName i t = Some (snapFile data i t) ->
  newest d (snapName i t) i -> 0 < i -> i64 i -> i64 t -> zlen data < 2 ^ 63 ->
  LoadLatestSnapshot w = Some (Ok (Some data, i, t)).
Proof.
  intros Hw Hd Hn Hpos Hi Ht Hl. unfold LoadLatestSnapshot. rewrite Hw.
  rewrite (pick_latest_newest _ _ _ _ Hd (snapIndex_snapName i t Hi Ht) Hpos Hn).
  cbn [snd]. unfold snapFile. pose proof (zlen_nonneg data).
  rewrite read_be4_app by eval_closed. cbn [rbind]. rewrite Z.eqb_refl. cbn [negb].
  rewrite read_be4_app by eval_closed. cbn [rbind].
  rewrite read_i64_app by done. cbn [rbind]. rewrite read_i64_app by done. cbn [rbind].
  rewrite read_i64_app by (unfold i64; lia). cbn [rbind].
  destruct (Z.ltb_spec (zlen data) 0); [lia|]. by rewrite read_once_all.
Qed.

Lemma prune_leaves w data i t m g :
  newest (default ∅ (snapDir w)) (snapName i t) i ->
  default ∅ (snapDir (DeleteOldSnapshots (SaveSnapshot w data i t) i)) !! m = Some g ->
  m = snapName i t \/ snapIndex m = None.
Proof.
  intros Hnew. cbn. intros [Hm Ho]%map_lookup_filter_Some. unfold old_snapshot in Ho. simpl in Ho.
  apply lookup_insert_Some in Hm as [[<- _]|[Hne Hm]]; [by left|right].
  destruct (snapIndex m) as [j|] eqn:E; [|done]. destruct Ho. by eapply Hnew.
Qed.

Lemma save_prune_load w data i t :
  0 < i -> i64 i -> i64 t -> zlen data < 2 ^ 63 ->
  newest (default ∅ (snapDir w)) (snapName i t) i ->
  LoadLatestSnapshot (DeleteOldSnapshots (SaveSnapshot w data i t) i) = Some (Ok (Some data, i, t)).
Proof.
  intros Hpos Hi Ht Hl Hnew. pose proof (fun m g => prune_leaves w data i t m g Hnew) as Hrest.
  eapply (LoadLatestSnapshot_newest _ _ data i t); [done| | |done..].
  - apply map_lookup_filter_Some. rewrite lookup_insert_eq. split; [done|].
    unfold old_snapshot. cbn [fst]. rewrite snapIndex_snapName by done. lia.
  - intros m g j Hm Hne Hj. destruct (Hrest m g Hm); congruence.
Qed.

(** snapshot persistence as [TakeSnapshot] and [InstallSnapshot] use it: save
    a snapshot with a larger index than any on disk, then prune the older ones;
    the directory then holds that snapshot, loading the latest snapshot returns
    exactly its data, index and term, and it is the only file left whose name
    announces a snapshot index. *)
Theorem snapshot_save_prune_load (w : RaftWAL) (data : bytes) (i t : Z)
    (Hpos : 0 < i) (Hi : i64 i) (Ht : i64 t) (Hl : zlen data < 2 ^ 63)
    (Hnew : newest (default ∅ (snapDir w)) (snapName i t) i) :
  let w' := DeleteOldSnapshots (SaveSnapshot w data i t) i in
  LoadLatestSnapshot w' = Some (Ok (Some data, i, t)) /\
  (forall m g, default ∅ (snapDir w') !! m = Some g -> m = snapName i t \/ snapIndex m = None).
Proof.
  intros w'. split; [by apply save_prune_load|]. intros m g. by apply prune_leaves.
Qed.

Lemma snapshot_save_prune_load_witness :
  let w' := DeleteOldSnapshots (SaveSnapshot (mkWAL None None None) (of_string "data") 7 2) 7 in
  LoadLatestSnapshot w' = Some (Ok (Some (of_string "data"), 7, 2)) /\
  (forall m g, default ∅ (snapDir w') !! m = Some g -> m = snapName 7 2 \/ snapIndex m = None).
Proof.
  apply (snapshot_save_prune_load (mkWAL None None None) (of_string "data") 7 2); try eval_closed.
  intros m g j Hm. simpl in Hm. by rewrite lookup_empty in Hm.
Defined.

(** restart after a full persist: with a newest snapshot on disk whose index
    and term are those of the node, [LoadPersist] restores exactly what
    [SavePersist] was given (term, vote, log and snapshot position), whatever the
    files held before. *)
Theorem persist_roundtrip (w : RaftWAL) (p : PersistData) (d : gmap bytes bytes) (data : bytes)
    (Hd : snapDir w = Some d)
    (Hf : d !! snapName (LastIncludedIndex p) (LastIncludedTerm p)
          = Some (snapFile data (LastIncludedIndex p) (LastIncludedTerm p)))
    (Hn : newest d (snapName (LastIncludedIndex p) (LastIncludedTerm p)) (LastIncludedIndex p))
    (Hpos : 0 < LastIncludedIndex p)
    (Hr : i64 (CurrentTerm p) /\ i64 (VotedFor p) /\ i64 (LastIncludedIndex p) /\
          i64 (LastIncludedTerm p) /\ zlen data < 2 ^ 63)
    (Hlog : Forall log_entry_ok (Log p)) :
  LoadPersist (SavePersist w p) = Some (Ok p).
Proof.
  destruct Hr as (H1 & H2 & H3 & H4 & H5).
  set (w' := SavePersist w p).
  assert (logFile w' = Some (log_bytes (Log p))) as Hl by (by apply (AppendLogs_log_bytes _ [])).
  assert (snapDir w' = Some d /\ metaFile w' = metaFile (SaveState w (CurrentTerm p) (VotedFor p)))
    as [Hs Hm] by (unfold w', SavePersist; destruct (Log p); done).
  unfold LoadPersist.
  assert (LoadState w' = (CurrentTerm p, VotedFor p, None)) as ->.
  { rewrite <- (LoadState_SaveState w _ _ H1 H2). unfold LoadState. by rewrite Hm. }
  rewrite (LoadLogs_bytes w' (Log p)) by done. simpl.
  rewrite (LoadLatestSnapshot_newest w' d data _ _ Hs Hf Hn) by done. simpl. by destruct p.
Qed.

Lemma persist_roundtrip_witness :
  LoadPersist (SavePersist (mkWAL None None (Some {[snapName 7 2 := snapFile (of_string "data") 7 2]}))
                 (mkPersist 3 1 [sample_entry 8] 7 2))
  = Some (Ok (mkPersist 3 1 [sample_entry 8] 7 2)).
Proof.
  apply (persist_roundtrip _ (mkPersist 3 1 [sample_entry 8] 7 2)
           {[snapName 7 2 := snapFile (of_string "data") 7 2]} (of_string "data")); try eval_closed.
  intros m g j Hm Hne. apply lookup_singleton_Some in Hm as [<- _]. by destruct Hne.
Defined.

Lemma TruncateLogs_eq w es i :
  logFile w = Some (log_bytes es) -> Forall log_entry_ok es ->
  TruncateLogs w i = Some (AppendLogs (set_log w (Some [])) (filter (fun e => i < Index e) es)).
Proof. intros Hw Hes. unfold TruncateLogs. by rewrite (LoadLogs_bytes w es). Qed.

(** log truncation: after a snapshot at index [i], the log file holds exactly
    the entries above [i], in their order, and nothing is lost or rewritten. *)
Theorem truncate_keeps_suffix (w : RaftWAL) (es : list LogEntry) (i : Z)
    (Hw : logFile w = Some (log_bytes es)) (Hes : Forall log_entry_ok es) :
  exists w', TruncateLogs w i = Some w' /\
    LoadLogs w' = Some (filter (fun e => i < Index e) es) /\
    metaFile w' = metaFile w /\ snapDir w' = snapDir w.
Proof.
  rewrite (TruncateLogs_eq w es i) by done. eexists. split; [done|]. set (keep := filter _ es).
  split; [|unfold AppendLogs; by destruct keep].
  apply LoadLogs_bytes.
  { rewrite Forall_forall in Hes |- *. intros x [_ Hx]%list_elem_of_filter. auto. }
  by apply (AppendLogs_log_bytes _ []).
Qed.

Lemma truncate_keeps_suffix_witness :
  exists w', TruncateLogs (mkWAL (Some (log_bytes [sample_entry 0; sample_entry 1])) None None) 0 = Some w' /\
    LoadLogs w' = Some (filter (fun e => 0 < Index e) [sample_entry 0; sample_entry 1]) /\
    metaFile w' = None /\ snapDir w' = None.
Proof.
  apply (truncate_keeps_suffix (mkWAL (Some (log_bytes [sample_entry 0; sample_entry 1])) None None)
           [sample_entry 0; sample_entry 1] 0); eval_closed.
Defined.

End RaftWAL.

(** ** The snapshot payload ([SerializeLogEntries], [DeserializeLogEntries]) *)
Module Codec.

Definition encodeEntry (e : LogEntry) : bytes :=
  be_enc 8 (Index e) ++ be_enc 8 (Term e) ++ be_enc 8 (zlen (Command e)) ++ Command e.

(** [nil] is the empty list of bytes. *)
Definition SerializeLogEntries (entries : list LogEntry) : bytes :=
  match entries with
  | [] => []
  | _ => be_enc 4 (zlen entries) ++ concat (encodeEntry <$> entries)
  end.

(** The [uint64] at offset [off] as an [int]. *)
Definition int_at (off : Z) (data : bytes) : option Z :=
  s ← slice off (off + 8) data; Some (int64_of (be_dec s)).

Fixpoint decodeEntries (count : nat) (off : Z) (data : bytes) (entries : list LogEntry)
    : option (list LogEntry) :=
  match count with
  | O => Some entries
  | S count' =>
      if zlen data <? off + 24 then Some entries else
      index ← int_at off data;
      term ← int_at (off + 8) data;
      cmdLen ← int_at (off + 16) data;
      let off := off + 24 in
      if zlen data <? int64_of (off + cmdLen) then Some entries else
      if cmdLen <? 0 then None (* make: negative length *) else
      cmd ← slice off (off + cmdLen) data;
      decodeEntries count' (off + cmdLen) data (entries ++ [mkEntry index term cmd false])
  end.

Definition DeserializeLogEntries (data : bytes) : option (list LogEntry) :=
  if zlen data <? 4 then Some [] else
  c ← slice 0 4 data;
  decodeEntries (Z.to_nat (be_dec c)) 4 data [].


Lemma int_at_app a z c o : i64 z -> o = zlen a -> int_at o (a ++ be_enc 8 z ++ c) = Some z.
Proof.
  intros Hz ->. unfold int_at. rewrite (slice_app (zlen a) (zlen a + 8) a (be_enc 8 z) c) by len_lia.
  simpl. by rewrite int64_be_dec_enc8.
Qed.

Lemma decodeEntries_wal_app pre es tail acc :
  Forall log_entry_ok es -> zlen pre + zlen (concat (encodeEntry <$> es)) < 2 ^ 63 ->
  decodeEntries (length es) (zlen pre) (pre ++ concat (encodeEntry <$> es) ++ tail) acc
    = Some (acc ++ es).
Proof.
  revert pre acc. induction es as [|e es IH]; intros pre acc Hes Hb.
  { simpl. by rewrite app_nil_r. }
  apply Forall_cons in Hes as [(Hi & Ht & Hc & Hs) Hes].
  rewrite fmap_cons in *. cbn [length decodeEntries concat] in *.
  set (body := concat (encodeEntry <$> es)) in *. set (c := Command e) in *.
  pose proof (zlen_nonneg c). pose proof (zlen_nonneg pre). pose proof (zlen_nonneg (body ++ tail)).
  pose proof (zlen_nonneg body).
  set (data := pre ++ (encodeEntry e ++ body) ++ tail).
  assert (data = pre ++ be_enc 8 (Index e) ++ be_enc 8 (Term e) ++ be_enc 8 (zlen c) ++ c ++ body ++ tail)
    as Hd by (unfold data, encodeEntry; by rewrite <- !app_assoc).
  assert (zlen data = zlen pre + 24 + zlen c + zlen (body ++ tail)) as Hl by (rewrite Hd; len_lia).
  assert (zlen (encodeEntry e) = 24 + zlen c) as Hle by (unfold encodeEntry; fold c; len_lia).
  rewrite zlen_app in Hb.
  destruct (Z.ltb_spec (zlen data) (zlen pre + 24)); [lia|].
  assert (int_at (zlen pre) data = Some (Index e)) as -> by (rewrite Hd; by apply int_at_app).
  assert (int_at (zlen pre + 8) data = Some (Term e)) as ->
    by (rewrite Hd, app_assoc; apply int_at_app; [done|len_lia]).
  assert (int_at (zlen pre + 16) data = Some (zlen c)) as ->.
  { rewrite Hd, app_assoc, (app_assoc _ (be_enc 8 (Term e))). apply int_at_app; [unfold i64; lia|len_lia]. }
  simpl. rewrite int64_of_small by lia.
  destruct (Z.ltb_spec (zlen data) (zlen pre + 24 + zlen c)), (Z.ltb_spec (zlen c) 0); try lia.
  set (h := be_enc 8 (Index e) ++ be_enc 8 (Term e) ++ be_enc 8 (zlen c)).
  assert (zlen h = 24) as Hh by (unfold h; len_lia).
  assert (data = (pre ++ h) ++ c ++ body ++ tail) as Hd2 by (rewrite Hd; unfold h; by rewrite <- !app_assoc).
  assert (slice (zlen pre + 24) (zlen pre + 24 + zlen c) data = Some c) as ->
    by (rewrite Hd2; apply slice_app; len_lia).
  simpl. replace (zlen pre + 24 + zlen c) with (zlen ((pre ++ h) ++ c)) by len_lia.
  rewrite Hd2, (app_assoc _ c).
  rewrite IH; [|done|len_lia]. rewrite <- app_assoc. f_equal. f_equal. destruct e; simpl in *. by subst.
Qed.

Lemma Deserialize_Serialize es :
  Forall log_entry_ok es -> u32 (zlen es) -> zlen (SerializeLogEntries es) < 2 ^ 63 ->
  DeserializeLogEntries (SerializeLogEntries es) = Some es.
Proof.
  intros Hes Hn Hb. destruct es as [|e es]; [done|]. unfold SerializeLogEntries in *.
  set (l := e :: es) in *. rewrite zlen_app, zlen_be_enc in Hb.
  unfold DeserializeLogEntries. pose proof (zlen_nonneg (concat (encodeEntry <$> l))).
  rewrite zlen_app, zlen_be_enc.
  destruct (Z.ltb_spec (Z.of_nat 4 + zlen (concat (encodeEntry <$> l))) 4); [lia|].
  rewrite slice_prefix by (by rewrite zlen_be_enc). cbn [mbind option_bind]. rewrite be_dec_enc4 by done.
  rewrite zlen_to_nat, <- (app_nil_r (concat _)).
  assert (4 = zlen (be_enc 4 (zlen l))) as -> by (by rewrite zlen_be_enc).
  apply (decodeEntries_wal_app (be_enc 4 (zlen l)) l [] []); [done|]. by rewrite zlen_be_enc.
Qed.

(** snapshot payload round trip: [DeserializeLogEntries] recovers the entries
    [SerializeLogEntries] was given, for any list of well-sized entries, the
    empty one (encoded as nil) included. *)
Theorem snapshot_payload_roundtrip (es : list LogEntry)
    (Hes : Forall log_entry_ok es) (Hn : u32 (zlen es))
    (Hb : zlen (SerializeLogEntries es) < 2 ^ 63) :
  DeserializeLogEntries (SerializeLogEntries es) = Some es.
Proof. by apply Deserialize_Serialize. Qed.

Lemma snapshot_payload_roundtrip_witness :
  DeserializeLogEntries (SerializeLogEntries [RaftWAL.sample_entry 4; RaftWAL.sample_entry 5])
  = Some [RaftWAL.sample_entry 4; RaftWAL.sample_entry 5].
Proof. apply snapshot_payload_roundtrip; eval_closed. Defined.

(** A payload whose command length is negative as an [int] passes the bound
    check and panics in [make]. *)
Example deserialize_panics :
  DeserializeLogEntries (be_enc 4 1 ++ be_enc 8 0 ++ be_enc 8 0 ++ be_enc 8 (-1)) = None.
Proof. vm_compute. reflexivity. Qed.

End Codec.

(** A log whose last record was torn by a crash is reopened in append mode
    without being truncated: the next acknowledged entry is written after the
    torn bytes and is not found again at the following start. *)
Example append_after_torn_tail_is_lost :
  let crash := RaftWAL.mkWAL (Some (RaftWAL.log_bytes [RaftWAL.sample_entry 0] ++
                 take 10 (RaftWAL.writeEntry (RaftWAL.sample_entry 1)))) None None in
  RaftWAL.LoadLogs (RaftWAL.NewRaftWAL crash) = Some [RaftWAL.sample_entry 0] /\
  RaftWAL.LoadLogs (RaftWAL.AppendLog (RaftWAL.NewRaftWAL crash) (RaftWAL.sample_entry 1))
    <> Some [RaftWAL.sample_entry 0; RaftWAL.sample_entry 1].
Proof. split; [vm_compute; reflexivity|]. vm_compute. intros H. discriminate H. Qed.
