(* ===== verification/Raft.v ===== *)
(** A Raft node: [Raft/raft.go] and the handlers of [Raft/rpc.go].  Every
    critical section of the code (the lines between [r.mu.Lock] and
    [r.mu.Unlock]) is one function on the state of the node; what a goroutine
    sends is part of the function's result, and the reply handlers are
    functions of the reply.  [None] is a Go panic (slice index out of range). *)
From S2P Require Import Prelude Bytes Strconv RaftWAL.

Module Raft.

Inductive State := Follower | Candidate | Leader.
#[global] Instance State_eq_dec : EqDecision State.
Proof. solve_decision. Defined.

(** ** The apply channel: [make(chan LogEntry, 100)]

    [taken] is what the state machine has received, [buf] what waits in the
    channel; [sent] is the whole stream. *)
Definition applyChCap : Z := 100.
Record chan := mkChan { taken : list LogEntry; buf : list LogEntry }.
Definition sent (c : chan) : list LogEntry := taken c ++ buf c.

(** [<-ch]. *)
Definition chan_recv (c : chan) : chan :=
  match buf c with
  | [] => c
  | e :: rest => mkChan (taken c ++ [e]) rest
  end.

(** [ch <- e]: a full channel blocks the sender until the receiver has taken
    one element. *)
Definition chan_send (c : chan) (e : LogEntry) : chan :=
  let c := if zlen (buf c) <? applyChCap then c else chan_recv c in
  mkChan (taken c) (buf c ++ [e]).

(** [select { case ch <- e: default: }]. *)
Definition chan_try_send (c : chan) (e : LogEntry) : chan :=
  if zlen (buf c) <? applyChCap then mkChan (taken c) (buf c ++ [e]) else c.

Lemma sent_recv c : sent (chan_recv c) = sent c.
Proof. unfold sent, chan_recv. destruct (buf c) eqn:E; simpl; by rewrite ?E, <- ?app_assoc. Qed.

Lemma sent_send c e : sent (chan_send c e) = sent c ++ [e].
Proof.
  unfold chan_send. case_match_eq; unfold sent at 1; simpl; rewrite app_assoc; [done|].
  f_equal. apply (sent_recv c).
Qed.

(** ** The node *)

Record Raft := mkRaft {
  r_peers : list bytes;
  r_me : Z;
  r_state : State;
  r_votedFor : Z;
  r_Term : Z;
  r_commitIndex : Z;
  r_lastApplied : Z;
  r_lastSnapshotIndex : Z;
  r_nextIndex : list Z;
  r_matchIndex : list Z;
  r_log : list LogEntry;
  r_ApplyCh : chan;
  r_LastIncludedIndex : Z;
  r_LastIncludedTerm : Z;
  r_wal : RaftWAL.RaftWAL;
  (** goroutines [go r.TakeSnapshot(index)] started and not yet run *)
  r_snapshots : list Z;
}.

(** Assignments to the fields. *)
Definition set_vote (r : Raft) (st : State) (term vote : Z) : Raft :=
  mkRaft (r_peers r) (r_me r) st vote term (r_commitIndex r) (r_lastApplied r)
    (r_lastSnapshotIndex r) (r_nextIndex r) (r_matchIndex r) (r_log r) (r_ApplyCh r)
    (r_LastIncludedIndex r) (r_LastIncludedTerm r) (r_wal r) (r_snapshots r).
Definition set_indexes (r : Raft) (next match_ : list Z) : Raft :=
  mkRaft (r_peers r) (r_me r) (r_state r) (r_votedFor r) (r_Term r) (r_commitIndex r) (r_lastApplied r)
    (r_lastSnapshotIndex r) next match_ (r_log r) (r_ApplyCh r)
    (r_LastIncludedIndex r) (r_LastIncludedTerm r) (r_wal r) (r_snapshots r).
Definition set_commitIndex (r : Raft) (n : Z) : Raft :=
  mkRaft (r_peers r) (r_me r) (r_state r) (r_votedFor r) (r_Term r) n (r_lastApplied r)
    (r_lastSnapshotIndex r) (r_nextIndex r) (r_matchIndex r) (r_log r) (r_ApplyCh r)
    (r_LastIncludedIndex r) (r_LastIncludedTerm r) (r_wal r) (r_snapshots r).
Definition set_applied (r : Raft) (n : Z) (ch : chan) : Raft :=
  mkRaft (r_peers r) (r_me r) (r_state r) (r_votedFor r) (r_Term r) (r_commitIndex r) n
    (r_lastSnapshotIndex r) (r_nextIndex r) (r_matchIndex r) (r_log r) ch
    (r_LastIncludedIndex r) (r_LastIncludedTerm r) (r_wal r) (r_snapshots r).
Definition set_rlog (r : Raft) (l : list LogEntry) (w : RaftWAL.RaftWAL) : Raft :=
  mkRaft (r_peers r) (r_me r) (r_state r) (r_votedFor r) (r_Term r) (r_commitIndex r) (r_lastApplied r)
    (r_lastSnapshotIndex r) (r_nextIndex r) (r_matchIndex r) l (r_ApplyCh r)
    (r_LastIncludedIndex r) (r_LastIncludedTerm r) w (r_snapshots r).
(** The metadata of a snapshot: [lastSnapshotIndex] and [LastIncluded*]. *)
Definition set_snapshot (r : Raft) (index term : Z) : Raft :=
  mkRaft (r_peers r) (r_me r) (r_state r) (r_votedFor r) (r_Term r) (r_commitIndex r) (r_lastApplied r)
    index (r_nextIndex r) (r_matchIndex r) (r_log r) (r_ApplyCh r)
    index term (r_wal r) (r_snapshots r).
Definition set_snapshots (r : Raft) (l : list Z) : Raft :=
  mkRaft (r_peers r) (r_me r) (r_state r) (r_votedFor r) (r_Term r) (r_commitIndex r) (r_lastApplied r)
    (r_lastSnapshotIndex r) (r_nextIndex r) (r_matchIndex r) (r_log r) (r_ApplyCh r)
    (r_LastIncludedIndex r) (r_LastIncludedTerm r) (r_wal r) l.
Definition set_wal (r : Raft) (w : RaftWAL.RaftWAL) : Raft := set_rlog r (r_log r) w.

(** [config.G.RaftSnapshotThreshold], [config.G.RaftSnapshotKeepEntries]. *)
Class RaftConfig := {
  RaftSnapshotThreshold : Z;
  RaftSnapshotKeepEntries : Z;
}.

(** ** Persistence *)

Definition persistStateLocked (r : Raft) : Raft :=
  set_wal r (RaftWAL.SaveState (r_wal r) (r_Term r) (r_votedFor r)).

Definition persistLocked (r : Raft) : Raft :=
  set_wal r (RaftWAL.SavePersist (r_wal r)
    (RaftWAL.mkPersist (r_Term r) (r_votedFor r) (r_log r) (r_LastIncludedIndex r)
       (r_LastIncludedTerm r))).

(** A read error leaves the node as it is. *)
Definition readPersist (r : Raft) : option Raft :=
  p ← RaftWAL.LoadPersist (r_wal r);
  match p with
  | Error _ => Some r
  | Ok data =>
      let r := set_vote r (r_state r) (RaftWAL.CurrentTerm data) (RaftWAL.VotedFor data) in
      let r := set_rlog r (RaftWAL.Log data) (r_wal r) in
      let i := RaftWAL.LastIncludedIndex data in
      let r := mkRaft (r_peers r) (r_me r) (r_state r) (r_votedFor r) (r_Term r) (r_commitIndex r)
                 (r_lastApplied r) (r_lastSnapshotIndex r) (r_nextIndex r) (r_matchIndex r) (r_log r)
                 (r_ApplyCh r) i (RaftWAL.LastIncludedTerm data) (r_wal r) (r_snapshots r) in
      Some (if 0 <? i then
              set_snapshot (set_applied (set_commitIndex r i) i (r_ApplyCh r)) i
                (r_LastIncludedTerm r)
            else r)
  end.

Definition NewRaft (peers : list bytes) (me : Z) (disk : RaftWAL.RaftWAL) : option Raft :=
  let zeros := replicate (length peers) 0 in
  let r := mkRaft peers me Follower (-1) 0 (-1) (-1) 0 zeros zeros [] (mkChan [] []) 0 0
             (RaftWAL.NewRaftWAL disk) [] in
  r ← readPersist r;
  if 0 <? r_LastIncludedIndex r then
    snap ← RaftWAL.LoadLatestSnapshot (r_wal r);
    match snap with
    | Ok (Some data, _, _) =>
        Some (set_applied r (r_lastApplied r)
                (chan_try_send (r_ApplyCh r)
                   (mkEntry (r_LastIncludedIndex r) (r_LastIncludedTerm r) data true)))
    | _ => Some r
    end
  else Some r.

(** ** The log *)

Definition last_entry (l : list LogEntry) : option LogEntry := last l.

Definition getLastLogIndex (r : Raft) : Z :=
  match last_entry (r_log r) with
  | Some e => Index e
  | None => if 0 <? r_LastIncludedIndex r then r_LastIncludedIndex r else -1
  end.

(** [log[i]] with a bound check on both sides. *)
Definition log_at (l : list LogEntry) (i : Z) : option LogEntry :=
  if i <? 0 then None else l !! Z.to_nat i.

Definition relative (r : Raft) (absIndex : Z) : Z := absIndex - r_LastIncludedIndex r - 1.

Definition getTermAt (r : Raft) (absIndex : Z) : Z :=
  if absIndex <? 0 then 0 else
  if (absIndex =? r_LastIncludedIndex r) && (0 <? r_LastIncludedIndex r) then r_LastIncludedTerm r else
  match log_at (r_log r) (relative r absIndex) with
  | Some e => Term e
  | None => 0
  end.

(** ** Committing and applying *)

Definition checkSnapshotTrigger `{RaftConfig} (r : Raft) : Raft :=
  if negb (bool_decide (r_state r = Leader)) then r else
  let threshold := if RaftSnapshotThreshold <=? 0 then 10000 else RaftSnapshotThreshold in
  let keepEntries := if RaftSnapshotKeepEntries <=? 0 then 100 else RaftSnapshotKeepEntries in
  if threshold <? zlen (r_log r) then
    let snapshotIndex := r_commitIndex r - keepEntries in
    if r_lastSnapshotIndex r <? snapshotIndex
    then set_snapshots r (r_snapshots r ++ [snapshotIndex]) else r
  else r.

(** One turn of the loop of both [applyCommittedLogs]. *)
Definition apply_one (r : Raft) : Raft :=
  let i := r_lastApplied r + 1 in
  set_applied r i
    (match log_at (r_log r) (relative r i) with
     | Some e => chan_send (r_ApplyCh r) e
     | None => r_ApplyCh r
     end).

(** The loop: [lastApplied < commitIndex] is the guard and each turn advances
    [lastApplied], so the number of turns is their distance. *)
Definition apply_loop (r : Raft) : Raft :=
  Nat.iter (Z.to_nat (r_commitIndex r - r_lastApplied r)) apply_one r.

(** [Raft.applyCommittedLogs] of raft.go. *)
Definition applyCommittedLogs `{RaftConfig} (r : Raft) : Raft := checkSnapshotTrigger (apply_loop r).

(** [RaftRPC.applyCommittedLogs] of rpc.go: no snapshot trigger. *)
Definition rpc_applyCommittedLogs (r : Raft) : Raft := apply_loop r.

(** Votes for index [n]: the leader itself and the peers whose [matchIndex]
    reached it. *)
Definition replicas (r : Raft) (n : Z) : Z :=
  1 + zlen (filter (fun p : nat * Z => Z.of_nat p.1 <> r_me r /\ n <= p.2)
              (imap pair (r_matchIndex r))).

(** The backward scan of [updateCommitIndex]: the log's entries, last first. *)
Fixpoint commit_scan (r : Raft) (entries : list LogEntry) : option Z :=
  match entries with
  | [] => None
  | e :: rest =>
      if Index e <=? r_commitIndex r then commit_scan r rest else
      if negb (Term e =? r_Term r) then commit_scan r rest else
      if zlen (r_peers r) / 2 <? replicas r (Index e) then Some (Index e)
      else commit_scan r rest
  end.

Definition updateCommitIndex `{RaftConfig} (r : Raft) : Raft :=
  if negb (bool_decide (r_state r = Leader)) then r else
  match commit_scan r (reverse (r_log r)) with
  | Some n => applyCommittedLogs (set_commitIndex r n)
  | None => r
  end.

(** [WaitCommitIndex] returns when this is [false]. *)
Definition WaitCommitIndex_blocks (r : Raft) (index : Z) : bool := r_commitIndex r <? index.

(** ** Elections *)

Record RequestVoteArgs := mkVoteArgs {
  va_Term : Z; va_CandidateID : Z; va_LastLogIndex : Z; va_LastLogTerm : Z }.
Record RequestVoteReply := mkVoteReply { vr_Term : Z; vr_VoteGranted : bool }.

(** [startElection] up to its first [Unlock]: the new state and the request
    broadcast to the peers; [None] when the node already leads. *)
Definition startElection (r : Raft) : option (Raft * RequestVoteArgs) :=
  if bool_decide (r_state r = Leader) then None else
  let r := set_vote r Candidate (r_Term r + 1) (r_me r) in
  let r := persistStateLocked r in
  let '(lastLogIndex, lastLogTerm) :=
    match last_entry (r_log r) with
    | Some e => (Index e, Term e)
    | None => if 0 <? r_LastIncludedIndex r then (r_LastIncludedIndex r, r_LastIncludedTerm r)
              else (-1, 0)
    end in
  Some (r, mkVoteArgs (r_Term r) (r_me r) lastLogIndex lastLogTerm).

(** The goroutine that asks one peer: the state after the reply and the message
    put on [voteCh]; [None] is an RPC error. *)
Definition onVoteReply (r : Raft) (reply : option RequestVoteReply) : Raft * bool :=
  match reply with
  | None => (r, false)
  | Some reply =>
      if r_Term r <? vr_Term reply then (set_vote r Follower (vr_Term reply) (-1), false)
      else (r, (vr_Term reply =? r_Term r) && vr_VoteGranted reply)
  end.

Inductive electionResult := Elected | NotElected | ElectionTimeout.

(** The waiting loop of [startElection]: [turns] receives are left; [voteCh]
    lists the messages in the order they are received, and when it is exhausted
    the timer fires. *)
Fixpoint voteLoop (n : Z) (turns : nat) (votes : Z) (voteCh : list bool) : electionResult :=
  match turns with
  | O => NotElected
  | S turns' =>
      match voteCh with
      | [] => ElectionTimeout
      | voteGranted :: voteCh' =>
          if voteGranted then
            if n / 2 <? votes + 1 then Elected else voteLoop n turns' (votes + 1) voteCh'
          else voteLoop n turns' votes voteCh'
      end
  end.

(** The goroutines put their messages behind the candidate's own vote, which is
    in [voteCh] from the start. *)
Definition awaitVotes (n : Z) (peerVotes : list bool) : electionResult :=
  if n - 1 =? 0 then Elected else voteLoop n (Z.to_nat (n - 1)) 1 (true :: peerVotes).

Definition becomeLeader (r : Raft) : Raft :=
  let nextLogIndex := getLastLogIndex r + 1 in
  let r := set_vote r Leader (r_Term r) (r_votedFor r) in
  set_indexes r ((fun _ => nextLogIndex) <$> r_peers r)
                ((fun _ => r_LastIncludedIndex r) <$> r_peers r).

(** The end of [startElection], under the lock again. *)
Definition finishElection (r : Raft) (peerVotes : list bool) : Raft :=
  match awaitVotes (zlen (r_peers r)) peerVotes with
  | Elected => if bool_decide (r_state r = Candidate) then becomeLeader r else r
  | NotElected => r
  | ElectionTimeout =>
      if bool_decide (r_state r = Candidate) then set_vote r Follower (r_Term r) (-1) else r
  end.

(** [RaftRPC.isLogUpToDate]. *)
Definition isLogUpToDate (r : Raft) (candidateLastIndex candidateLastTerm : Z) : bool :=
  if (match r_log r with [] => true | _ => false end) && (r_LastIncludedIndex r =? 0) then true else
  let '(lastIndex, lastTerm) :=
    match last_entry (r_log r) with
    | Some e => (Index e, Term e)
    | None => (r_LastIncludedIndex r, r_LastIncludedTerm r)
    end in
  if lastTerm <? candidateLastTerm then true else
  if (candidateLastTerm =? lastTerm) && (lastIndex <=? candidateLastIndex) then true else false.

(** A request with a larger term: adopt it and persist. *)
Definition adoptTerm (r : Raft) (term : Z) : Raft :=
  if r_Term r <? term then persistStateLocked (set_vote r Follower term (-1)) else r.

(** [RaftRPC.RequestVote]. *)
Definition RequestVote (r : Raft) (args : RequestVoteArgs) : Raft * RequestVoteReply :=
  if va_Term args <? r_Term r then (r, mkVoteReply (r_Term r) false) else
  let r := adoptTerm r (va_Term args) in
  let votedForMe := (r_votedFor r =? -1) || (r_votedFor r =? va_CandidateID args) in
  let logUpToDate := isLogUpToDate r (va_LastLogIndex args) (va_LastLogTerm args) in
  if votedForMe && logUpToDate then
    let r := persistStateLocked (set_vote r (r_state r) (r_Term r) (va_CandidateID args)) in
    (r, mkVoteReply (r_Term r) true)
  else (r, mkVoteReply (r_Term r) false).

(** ** Replication *)

Record AppendEntriesArgs := mkAppendArgs {
  ae_Term : Z; ae_LeaderID : Z; ae_PrevLogIndex : Z; ae_PrevLogTerm : Z;
  ae_Entries : list LogEntry; ae_LeaderCommit : Z }.
Record AppendEntriesReply := mkAppendReply { ar_Term : Z; ar_Success : bool }.
Record InstallSnapshotArgs := mkSnapArgs {
  is_Term : Z; is_LeaderID : Z; is_Data : bytes;
  is_LastIncludedIndex : Z; is_LastIncludedTerm : Z }.
Record InstallSnapshotReply := mkSnapReply { ir_Term : Z; ir_Success : bool }.

Inductive rpc :=
  | SendAppendEntries (args : AppendEntriesArgs)
  | SendInstallSnapshot (args : InstallSnapshotArgs).

Definition snapshotArgs (r : Raft) (data : bytes) : InstallSnapshotArgs :=
  mkSnapArgs (r_Term r) (r_me r) data (r_LastIncludedIndex r) (r_LastIncludedTerm r).

Definition behindSnapshot (r : Raft) (prevLogIndex : Z) : bool :=
  (prevLogIndex <? r_LastIncludedIndex r) && (0 <? r_LastIncludedIndex r).

(** One peer's turn in [SendHeartBeat]. *)
Definition heartbeatTo (r : Raft) (i : nat) : option rpc :=
  next ← r_nextIndex r !! i;
  let prevLogIndex := next - 1 in
  let append := SendAppendEntries (mkAppendArgs (r_Term r) (r_me r) prevLogIndex
                  (getTermAt r prevLogIndex) [] (r_commitIndex r)) in
  if behindSnapshot r prevLogIndex then
    snap ← RaftWAL.LoadLatestSnapshot (r_wal r);
    match snap with
    | Ok (Some data, _, _) => Some (SendInstallSnapshot (snapshotArgs r data))
    | _ => Some append
    end
  else Some append.

(** One peer's turn in [replicateLog]: [Some None] when nothing is sent. The entries
    are those the log shows when the message is built; the code sends a slice that
    shares the log's array ([LogSlice.v], [LogShare.v]). *)
Definition replicateTo (r : Raft) (i : nat) : option (option rpc) :=
  next ← r_nextIndex r !! i;
  let prevLogIndex := next - 1 in
  if behindSnapshot r prevLogIndex then
    snap ← RaftWAL.LoadLatestSnapshot (r_wal r);
    match snap with
    | Ok (Some data, _, _) => Some (Some (SendInstallSnapshot (snapshotArgs r data)))
    | _ => Some None
    end
  else
    let relativeStart := relative r next in
    entries ← (if relativeStart <? zlen (r_log r)
               then slice relativeStart (zlen (r_log r)) (r_log r) else Some []);
    Some (Some (SendAppendEntries (mkAppendArgs (r_Term r) (r_me r) prevLogIndex
                  (getTermAt r prevLogIndex) entries (r_commitIndex r)))).

(** The other peers, in order. *)
Definition others (r : Raft) : list nat :=
  filter (fun i => Z.of_nat i <> r_me r) (seq 0 (length (r_peers r))).

Definition replicateLog (r : Raft) : option (list (nat * option rpc)) :=
  if negb (bool_decide (r_state r = Leader)) then Some [] else
  mapM (fun i => m ← replicateTo r i; Some (i, m)) (others r).

(** The reply handlers, the same in both senders; [None] is an RPC error. *)
Definition onAppendReply `{RaftConfig} (r : Raft) (peerID : nat) (reply : option AppendEntriesReply)
    : Raft :=
  let back_off := set_indexes r (alter (fun n => n - 1) peerID (r_nextIndex r)) (r_matchIndex r) in
  match reply with
  | None => if bool_decide (r_state r = Leader) then back_off else r
  | Some reply =>
      if r_Term r <? ar_Term reply then set_vote r Follower (ar_Term reply) (-1) else
      if ar_Success reply then
        let i := getLastLogIndex r in
        updateCommitIndex
          (set_indexes r (<[peerID := i + 1]> (r_nextIndex r)) (<[peerID := i]> (r_matchIndex r)))
      else back_off
  end.

Definition onInstallReply (r : Raft) (peerID : nat) (reply : option InstallSnapshotReply) : Raft :=
  match reply with
  | None => r
  | Some reply =>
      if ir_Success reply then
        set_indexes r (<[peerID := r_LastIncludedIndex r + 1]> (r_nextIndex r))
                      (<[peerID := r_LastIncludedIndex r]> (r_matchIndex r))
      else if r_Term r <? ir_Term reply then set_vote r Follower (ir_Term reply) (-1)
      else r
  end.

(** [AppendEntry]: the new state, what is sent to the peers and the entry's
    index; an error on a node that does not lead. *)
Definition AppendEntry `{RaftConfig} (r : Raft) (command : bytes)
    : option (Raft * list (nat * option rpc) * result Z) :=
  if negb (bool_decide (r_state r = Leader)) then Some (r, [], Error (Err "not leader")) else
  let entry := mkEntry (getLastLogIndex r + 1) (r_Term r) command false in
  let r := set_rlog r (r_log r ++ [entry]) (RaftWAL.AppendLog (r_wal r) entry) in
  if zlen (r_peers r) =? 1 then
    Some (applyCommittedLogs (set_commitIndex r (Index entry)), [], Ok (Index entry))
  else
    msgs ← replicateLog r;
    Some (r, msgs, Ok (Index entry)).

(** The loop over [args.Entries]: the log, [needRebuild] and [newEntries]. *)
Fixpoint append_loop (lastIncluded : Z) (entries log : list LogEntry) (needRebuild : bool)
    (newEntries : list LogEntry) : option (list LogEntry * bool * list LogEntry) :=
  match entries with
  | [] => Some (log, needRebuild, newEntries)
  | entry :: rest =>
      let relativeIndex := Index entry - lastIncluded - 1 in
      '(log, needRebuild) ←
        (if relativeIndex <? zlen log then
           old ← log_at log relativeIndex;
           if Term old =? Term entry then Some (log, needRebuild)
           else Some (take (Z.to_nat relativeIndex) log, true)
         else Some (log, needRebuild));
      if zlen log <=? relativeIndex
      then append_loop lastIncluded rest (log ++ [entry]) needRebuild (newEntries ++ [entry])
      else append_loop lastIncluded rest log needRebuild newEntries
  end.

(** The consistency check on [PrevLogIndex]. *)
Definition prevMatches (r : Raft) (args : AppendEntriesArgs) : bool :=
  if 0 <=? ae_PrevLogIndex args then
    if (ae_PrevLogIndex args =? r_LastIncludedIndex r) && (0 <? r_LastIncludedIndex r)
    then ae_PrevLogTerm args =? r_LastIncludedTerm r
    else if r_LastIncludedIndex r <? ae_PrevLogIndex args then
      match log_at (r_log r) (relative r (ae_PrevLogIndex args)) with
      | Some e => Term e =? ae_PrevLogTerm args
      | None => false
      end
    else false
  else true.

(** [RaftRPC.AppendEntries]. *)
Definition AppendEntries (r : Raft) (args : AppendEntriesArgs)
    : option (Raft * AppendEntriesReply) :=
  if ae_Term args <? r_Term r then Some (r, mkAppendReply (r_Term r) false) else
  let r := adoptTerm r (ae_Term args) in
  if negb (prevMatches r args) then Some (r, mkAppendReply (r_Term r) false) else
  '(log, needRebuild, newEntries) ←
    append_loop (r_LastIncludedIndex r) (ae_Entries args) (r_log r) false [];
  let r := match ae_Entries args with
           | [] => r
           | _ => persistStateLocked (set_rlog r log
                    (if (needRebuild : bool) then RaftWAL.RebuildLogFile (r_wal r) log
                     else RaftWAL.AppendLogs (r_wal r) newEntries))
           end in
  let r := if r_commitIndex r <? ae_LeaderCommit args then
             let lastLogIndex := match last_entry (r_log r) with
                                 | Some e => Index e
                                 | None => r_LastIncludedIndex r
                                 end in
             rpc_applyCommittedLogs (set_commitIndex r (Z.min (ae_LeaderCommit args) lastLogIndex))
           else r in
  Some (r, mkAppendReply (r_Term r) true).

(** ** Snapshots *)

(** [log = log[newLogStart:]] with the indexes rewritten from [index + 1]. *)
Definition compact_log (l : list LogEntry) (index lastIncluded : Z) : list LogEntry :=
  let newLogStart := index + 1 - lastIncluded in
  if (0 <=? newLogStart) && (newLogStart <=? zlen l) then
    imap (fun i e => mkEntry (index + 1 + Z.of_nat i) (Term e) (Command e) (IsSnapshot e))
      (drop (Z.to_nat newLogStart) l)
  else [].

Definition TakeSnapshot (r : Raft) (index : Z) : option (Raft * result unit) :=
  if index <=? r_lastSnapshotIndex r then Some (r, Error (Err "not greater than last snapshot index")) else
  if r_commitIndex r <? index then Some (r, Error (Err "cannot snapshot uncommitted index")) else
  let snapshotEntries := take (Z.to_nat (index + 1 - r_LastIncludedIndex r)) (r_log r) in
  let term := match last_entry snapshotEntries with
              | Some e => Term e
              | None => if index =? r_LastIncludedIndex r then r_LastIncludedTerm r else 0
              end in
  let data := Codec.SerializeLogEntries snapshotEntries in
  let w := RaftWAL.SaveSnapshot (r_wal r) data index term in
  let w := RaftWAL.DeleteOldSnapshots w index in
  w ← RaftWAL.TruncateLogs w index;
  let r := set_rlog r (compact_log (r_log r) index (r_LastIncludedIndex r)) w in
  let r := set_snapshot r index term in
  let r := set_applied r (r_lastApplied r) (chan_try_send (r_ApplyCh r) (mkEntry index term data true)) in
  Some (persistStateLocked r, Ok tt).

(** [RaftRPC.InstallSnapshot]. *)
Definition InstallSnapshot (r : Raft) (args : InstallSnapshotArgs)
    : option (Raft * InstallSnapshotReply) :=
  if is_Term args <? r_Term r then Some (r, mkSnapReply (r_Term r) false) else
  let r := if r_Term r <? is_Term args then set_vote r Follower (is_Term args) (-1) else r in
  let index := is_LastIncludedIndex args in
  if index <=? r_LastIncludedIndex r then Some (r, mkSnapReply (r_Term r) false) else
  let w := RaftWAL.SaveSnapshot (r_wal r) (is_Data args) index (is_LastIncludedTerm args) in
  let w := RaftWAL.DeleteOldSnapshots w index in
  let log := compact_log (r_log r) index (r_LastIncludedIndex r) in
  w ← RaftWAL.TruncateLogs w index;
  let r := set_commitIndex (set_rlog r log w) index in
  let r := set_snapshot r index (is_LastIncludedTerm args) in
  let r := set_applied r index
             (chan_try_send (r_ApplyCh r) (mkEntry index (is_LastIncludedTerm args) (is_Data args) true)) in
  let r := persistStateLocked r in
  Some (r, mkSnapReply (r_Term r) true).

(** ** The node as a state machine

    Every critical section is an event; the run of a node interleaves them in
    any order.  [ERestart] is a crash followed by a start from the disk. *)
Inductive event :=
  | EStartElection
  | EVoteReply (reply : option RequestVoteReply)
  | EFinishElection (peerVotes : list bool)
  | ERequestVote (args : RequestVoteArgs)
  | EAppendEntry (command : bytes)
  | EAppendEntries (args : AppendEntriesArgs)
  | EInstallSnapshot (args : InstallSnapshotArgs)
  | EAppendReply (peerID : nat) (reply : option AppendEntriesReply)
  | EInstallReply (peerID : nat) (reply : option InstallSnapshotReply)
  | ETakeSnapshot (index : Z)
  | EReceive
  | ERestart.

(** [None]: the process panics. *)
Definition step `{RaftConfig} (r : Raft) (ev : event) : option Raft :=
  match ev with
  | EStartElection => Some (match startElection r with Some (r', _) => r' | None => r end)
  | EVoteReply reply => Some (onVoteReply r reply).1
  | EFinishElection votes => Some (finishElection r votes)
  | ERequestVote args => Some (RequestVote r args).1
  | EAppendEntry command => '(r', _, _) ← AppendEntry r command; Some r'
  | EAppendEntries args => '(r', _) ← AppendEntries r args; Some r'
  | EInstallSnapshot args => '(r', _) ← InstallSnapshot r args; Some r'
  | EAppendReply peerID reply => Some (onAppendReply r peerID reply)
  | EInstallReply peerID reply => Some (onInstallReply r peerID reply)
  | ETakeSnapshot index => '(r', _) ← TakeSnapshot r index; Some r'
  | EReceive => Some (set_applied r (r_lastApplied r) (chan_recv (r_ApplyCh r)))
  | ERestart => NewRaft (r_peers r) (r_me r) (r_wal r)
  end.

(** Which critical sections a field survives. *)
Definition same_vote (r r' : Raft) : Prop :=
  r_me r' = r_me r /\ r_state r' = r_state r /\ r_votedFor r' = r_votedFor r /\
  r_Term r' = r_Term r /\ RaftWAL.metaFile (r_wal r') = RaftWAL.metaFile (r_wal r).

#[export] Instance same_vote_preorder : PreOrder same_vote.
Proof. split; [by repeat split|]. unfold same_vote. intros x y z ? ?. destruct_and?. split_and!; congruence. Qed.

Definition same_log (r r' : Raft) : Prop :=
  r_log r' = r_log r /\ r_wal r' = r_wal r /\ r_LastIncludedIndex r' = r_LastIncludedIndex r /\
  r_LastIncludedTerm r' = r_LastIncludedTerm r /\ r_peers r' = r_peers r /\
  r_commitIndex r' = r_commitIndex r.

#[export] Instance same_log_preorder : PreOrder same_log.
Proof. split; [by repeat split|]. unfold same_log. intros x y z ? ?. destruct_and?. split_and!; congruence. Qed.

Lemma iter_preserves {A} (R : relation A) `{!PreOrder R} (f : A -> A) n x :
  (forall y, R y (f y)) -> R x (Nat.iter n f x).
Proof. intros Hf. induction n as [|n IH]; simpl; [reflexivity|]. etransitivity; [exact IH|apply Hf]. Qed.

Lemma apply_loop_same_vote r : same_vote r (apply_loop r).
Proof. apply (iter_preserves same_vote apply_one). intros y. by repeat split. Qed.

Lemma apply_loop_same_log r : same_log r (apply_loop r).
Proof. apply (iter_preserves same_log apply_one). intros y. by repeat split. Qed.

Section Trigger.
Context `{RaftConfig}.

Lemma checkSnapshotTrigger_same_vote r : same_vote r (checkSnapshotTrigger r).
Proof. unfold checkSnapshotTrigger. repeat case_match; by repeat split. Qed.

Lemma checkSnapshotTrigger_same_log r : same_log r (checkSnapshotTrigger r).
Proof. unfold checkSnapshotTrigger. repeat case_match; by repeat split. Qed.

Lemma applyCommittedLogs_same_vote r : same_vote r (applyCommittedLogs r).
Proof. etransitivity; [apply apply_loop_same_vote|apply checkSnapshotTrigger_same_vote]. Qed.

Lemma applyCommittedLogs_same_log r : same_log r (applyCommittedLogs r).
Proof. etransitivity; [apply apply_loop_same_log|apply checkSnapshotTrigger_same_log]. Qed.

Lemma updateCommitIndex_same_vote r : same_vote r (updateCommitIndex r).
Proof.
  unfold updateCommitIndex. repeat case_match; [reflexivity| |reflexivity].
  etransitivity; [|apply applyCommittedLogs_same_vote]. by repeat split.
Qed.

End Trigger.

(** ** What the apply loop delivers *)

Lemma apply_iter_sent n r :
  sent (r_ApplyCh (Nat.iter n apply_one r)) =
    sent (r_ApplyCh r) ++
    drop (Z.to_nat (r_lastApplied r - r_LastIncludedIndex r))
      (take (Z.to_nat (r_lastApplied r + Z.of_nat n - r_LastIncludedIndex r)) (r_log r)) /\
  r_lastApplied (Nat.iter n apply_one r) = r_lastApplied r + Z.of_nat n.
Proof.
  induction n as [|n [IHs IHl]]; [simpl|].
  { split; [|lia]. rewrite drop_ge; [by rewrite app_nil_r|]. rewrite length_take.
    replace (r_lastApplied r + 0) with (r_lastApplied r) by lia. lia. }
  set (s := Nat.iter n apply_one r) in *.
  change (Nat.iter (S n) apply_one r) with (apply_one s). split; [|simpl; rewrite IHl; lia].
  destruct (iter_preserves same_log apply_one n r) as (Hlog & _ & HLII & _); [intros y; by repeat split|].
  fold s in Hlog, HLII. unfold apply_one; simpl. unfold relative, log_at. rewrite IHl, HLII, Hlog.
  set (m := r_lastApplied r + Z.of_nat n - r_LastIncludedIndex r) in *.
  replace (r_lastApplied r + Z.of_nat n + 1 - r_LastIncludedIndex r - 1) with m by lia.
  replace (r_lastApplied r + Z.of_nat (S n) - r_LastIncludedIndex r) with (m + 1) by lia.
  destruct (Z.ltb_spec m 0) as [Hm|Hm].
  { rewrite IHs. do 2 f_equal. by replace (Z.to_nat (m + 1)) with (Z.to_nat m) by lia. }
  replace (Z.to_nat (m + 1)) with (S (Z.to_nat m)) by lia.
  destruct (r_log r !! Z.to_nat m) as [e|] eqn:E.
  - rewrite sent_send, IHs, <- app_assoc, (take_S_r _ _ _ E), drop_app_le; [done|].
    apply lookup_lt_Some in E. rewrite length_take. lia.
  - rewrite IHs. apply lookup_ge_None in E. by rewrite !take_ge by lia.
Qed.

(** The entries between the two cursors, as positions of the log. *)
Lemma apply_loop_sent r :
  r_lastApplied r <= r_commitIndex r ->
  sent (r_ApplyCh (apply_loop r)) =
    sent (r_ApplyCh r) ++
    drop (Z.to_nat (r_lastApplied r - r_LastIncludedIndex r))
      (take (Z.to_nat (r_commitIndex r - r_LastIncludedIndex r)) (r_log r)) /\
  r_lastApplied (apply_loop r) = r_commitIndex r.
Proof.
  intros Hle. unfold apply_loop.
  destruct (apply_iter_sent (Z.to_nat (r_commitIndex r - r_lastApplied r)) r) as [-> ->].
  rewrite Z2Nat.id by lia. replace (r_lastApplied r + (r_commitIndex r - r_lastApplied r))
    with (r_commitIndex r) by lia. done.
Qed.

(** ** Samples for the witnesses *)

Definition sample_config : RaftConfig := {| RaftSnapshotThreshold := 0; RaftSnapshotKeepEntries := 0 |}.
Definition sample_peers : list bytes := [of_string "a"; of_string "b"; of_string "c"].
Definition empty_disk : RaftWAL.RaftWAL := RaftWAL.mkWAL None None None.

(** The disk of a node that was at term 1 and logged these entries. *)
Definition disk_with (es : list LogEntry) : RaftWAL.RaftWAL :=
  RaftWAL.SaveState (RaftWAL.mkWAL (Some (RaftWAL.log_bytes es)) None None) 1 0.

(** A leader of a single-node cluster with that disk. *)
Definition sample_leader (es : list LogEntry) : Raft :=
  mkRaft [of_string "a"] 0 Leader 0 1 (-1) (-1) 0 [zlen es] [0] es (mkChan [] []) 0 0 (disk_with es) [].

End Raft.
