(* ===== verification/RaftVote.v ===== *)
(** Elections: what a node commits itself to in a term, over every interleaving
    of its critical sections with crashes ([Raft/raft.go], [Raft/rpc.go]). *)
From S2P Require Import Prelude Bytes Strconv RaftWAL Raft.
Import Raft.

Module Voting.

(** ** Commitments

    A node commits itself to a candidate in a term when it answers a vote
    request with [VoteGranted], and to itself when it becomes the leader. *)
Definition commitment (r : Raft) (ev : event) : list (Z * Z) :=
  match ev with
  | ERequestVote args =>
      let reply := (RequestVote r args).2 in
      if vr_VoteGranted reply then [(vr_Term reply, va_CandidateID args)] else []
  | EFinishElection votes =>
      if bool_decide (r_state r <> Leader) && bool_decide (r_state (finishElection r votes) = Leader)
      then [(r_Term r, r_me r)] else []
  | _ => []
  end.

(** Go ints fit their width; a peer's id is neither the node's own nor the
    "nobody" marker -1; the term counter has not overflowed. *)
Definition event_ok (r : Raft) (ev : event) : Prop :=
  match ev with
  | EStartElection => r_Term r < 2 ^ 63 - 1
  | EVoteReply (Some reply) => i64 (vr_Term reply)
  | ERequestVote args =>
      i64 (va_Term args) /\ i64 (va_CandidateID args) /\ va_CandidateID args <> r_me r /\
      va_CandidateID args <> -1
  | EAppendEntries args => i64 (ae_Term args)
  | EInstallSnapshot args => i64 (is_Term args)
  | EAppendReply _ (Some reply) => i64 (ar_Term reply)
  | EInstallReply _ (Some reply) => i64 (ir_Term reply)
  | _ => True
  end.

(** The life of a node from an intact disk: its commitments so far. *)
Inductive life `{RaftConfig} (peers : list bytes) (me : Z) (disk : RaftWAL.RaftWAL) :
    Raft -> list (Z * Z) -> Prop :=
  | life_start r :
      NewRaft peers me disk = Some r -> life peers me disk r []
  | life_step r ev r' commits :
      life peers me disk r commits -> event_ok r ev -> step r ev = Some r' ->
      life peers me disk r' (commitment r ev ++ commits).

(** ** The invariant *)

Definition backed (commits : list (Z * Z)) (term vote : Z) : Prop :=
  forall t c, (t, c) ∈ commits -> t <= term /\ (t = term -> vote = c).

(** A candidate has promised its vote to itself. *)
Definition promise (r : Raft) : list (Z * Z) :=
  if bool_decide (r_state r = Candidate) then [(r_Term r, r_me r)] else [].

Record vote_inv (commits : list (Z * Z)) (r : Raft) : Prop := {
  vi_me : i64 (r_me r) /\ r_me r <> -1;
  vi_width : i64 (r_Term r) /\ i64 (r_votedFor r);
  vi_cand : r_state r = Candidate -> forall t c, (t, c) ∈ commits -> t < r_Term r;
  vi_mem : backed (promise r ++ commits) (r_Term r) (r_votedFor r);
  vi_disk : exists term vote, RaftWAL.LoadState (r_wal r) = (term, vote, None) /\
              i64 term /\ i64 vote /\ backed (promise r ++ commits) term vote;
  vi_func : forall t c c', (t, c) ∈ commits -> (t, c') ∈ commits -> c = c';
  vi_ids : forall t c, (t, c) ∈ commits -> c <> -1;
}.

Lemma LoadState_meta w w' :
  RaftWAL.metaFile w' = RaftWAL.metaFile w -> RaftWAL.LoadState w' = RaftWAL.LoadState w.
Proof. unfold RaftWAL.LoadState. by intros ->. Qed.

Lemma backed_app G G' t v : backed (G ++ G') t v <-> backed G t v /\ backed G' t v.
Proof.
  unfold backed. setoid_rewrite elem_of_app. split; [|intros [? ?] t' c [?|?]; auto].
  intros H. split; intros; apply H; auto.
Qed.

Lemma backed_lt G t v : (forall t' c, (t', c) ∈ G -> t' < t) -> backed G t v.
Proof. intros H t' c Hin. apply H in Hin. lia. Qed.

Lemma backed_nil t v : backed [] t v.
Proof. by intros ? ? ?%elem_of_nil. Qed.

Lemma backed_one t v : backed [(t, v)] t v.
Proof. by intros ? ? [= -> ->]%list_elem_of_singleton. Qed.

Lemma vote_inv_same G r r' : same_vote r r' -> vote_inv G r -> vote_inv G r'.
Proof.
  intros (Hme & Hst & Hv & Ht & Hm) [? ? ? Hmem Hd ?].
  assert (promise r' = promise r) as Hp by (unfold promise; by rewrite Hme, Hst, Ht).
  split; rewrite ?Hp, ?Hme, ?Hst, ?Hv, ?Ht; auto.
  by rewrite (LoadState_meta (r_wal r)).
Qed.

(** A larger term is adopted in memory only. *)
Lemma vote_inv_demote G r t :
  vote_inv G r -> r_Term r < t -> i64 t -> vote_inv G (set_vote r Follower t (-1)).
Proof.
  intros [? ? ? [_ Hm]%backed_app (dt & dv & Hl & ? & ? & [_ Hd]%backed_app) ? ?] Hlt Ht.
  split; simpl; auto; try done.
  - apply backed_lt. intros t' c Hin. apply Hm in Hin as [? _]. lia.
  - by exists dt, dv.
Qed.

Lemma vote_inv_persist G r : vote_inv G r -> vote_inv G (persistStateLocked r).
Proof.
  intros [? [Ht Hv] ? Hm ? ? ?]. split; simpl; auto.
  exists (r_Term r), (r_votedFor r). split_and!; auto.
  by apply RaftWAL.LoadState_SaveState.
Qed.

Lemma vote_inv_adoptTerm G r t : vote_inv G r -> i64 t -> vote_inv G (adoptTerm r t).
Proof.
  intros Hi Ht. unfold adoptTerm. destruct (Z.ltb_spec (r_Term r) t); [|done].
  by apply vote_inv_persist, vote_inv_demote.
Qed.

Lemma adoptTerm_me r t : r_me (adoptTerm r t) = r_me r.
Proof. unfold adoptTerm. by case_match. Qed.

(** ** Every event preserves it *)

Lemma startElection_inv G r r' args :
  vote_inv G r -> r_Term r < 2 ^ 63 - 1 -> startElection r = Some (r', args) -> vote_inv G r'.
Proof.
  intros [Hme [Ht Hv] ? [_ Hm]%backed_app Hd ? ?] Hb. unfold startElection. case_match; [done|].
  match goal with |- context [let '(_, _) := ?x in _] => destruct x as [i t] end. intros [= <- _].
  assert (forall t' c, (t', c) ∈ G -> t' < r_Term r + 1) as Hlt
    by (intros t' c Hin; apply Hm in Hin as [? _]; lia).
  assert (i64 (r_Term r + 1)) by (unfold i64 in *; lia).
  assert (backed ([(r_Term r + 1, r_me r)] ++ G) (r_Term r + 1) (r_me r)) as Hback
    by (apply backed_app; split; [apply backed_one|by apply backed_lt]).
  split; simpl; auto; try tauto.
  exists (r_Term r + 1), (r_me r). split_and!; auto; try tauto.
  apply RaftWAL.LoadState_SaveState; tauto.
Qed.

Lemma becomeLeader_inv G r :
  vote_inv G r -> r_state r = Candidate -> vote_inv ((r_Term r, r_me r) :: G) (becomeLeader r).
Proof.
  intros [? ? Hc Hm Hd Hf Hids] Hst. specialize (Hc Hst).
  assert (promise r = [(r_Term r, r_me r)]) as Hp
    by (unfold promise; by rewrite bool_decide_true).
  rewrite Hp in Hm, Hd. split; simpl; auto; try done.
  - intros t c c' [[= -> ->]|H1]%elem_of_cons [[= Heq]|H2]%elem_of_cons; subst; auto.
    + apply Hc in H2. lia.
    + apply Hc in H1. lia.
    + by eapply Hf.
  - intros t c [[= -> ->]|H1]%elem_of_cons; [tauto|by eapply Hids].
Qed.

Lemma finishElection_inv G r votes :
  vote_inv G r -> vote_inv (commitment r (EFinishElection votes) ++ G) (finishElection r votes).
Proof.
  intros Hi. unfold commitment, finishElection.
  assert (forall a b : bool, (a = true -> b = true -> False) -> a && b = false) as Hno
    by (intros [] []; naive_solver).
  destruct (awaitVotes _ votes);
    [|rewrite Hno by (rewrite !bool_decide_eq_true; tauto); done|];
    (destruct (bool_decide_reflect (r_state r = Candidate)) as [Hc|Hc]; [|rewrite Hno by (rewrite !bool_decide_eq_true; tauto); done]).
  - rewrite (bool_decide_true (r_state r <> Leader)) by congruence. by apply becomeLeader_inv.
  - rewrite Hc. simpl. destruct Hi as [Hme [Ht Hv] Hlt Hm (dt & dv & Hl & ? & ? & Hd) Hf Hids].
    apply backed_app in Hd as [_ Hd]. specialize (Hlt Hc).
    split; simpl; auto; try done.
    + by apply backed_lt.
    + by exists dt, dv.
Qed.

Lemma grant_inv G r c :
  vote_inv G r -> i64 c -> c <> r_me r -> c <> -1 -> r_votedFor r = -1 \/ r_votedFor r = c ->
  vote_inv ((r_Term r, c) :: G) (persistStateLocked (set_vote r (r_state r) (r_Term r) c)).
Proof.
  intros [[Hme Hme1] [Ht Hv] Hlt Hm Hd Hf Hids] Hc Hcme Hc1 Hfree.
  apply backed_app in Hm as [Hself Hm].
  assert (r_state r <> Candidate) as Hst.
  { intros Hst. unfold promise in Hself. rewrite bool_decide_true in Hself by done.
    destruct (Hself (r_Term r) (r_me r)) as [_ Hs]; [by left|]. specialize (Hs eq_refl).
    destruct Hfree; congruence. }
  assert (forall t' c', (t', c') ∈ G -> t' <= r_Term r /\ (t' = r_Term r -> c' = c)) as HG.
  { intros t' c' Hin. destruct (Hm t' c' Hin) as [? Heq]. split; [done|]. intros ->.
    specialize (Heq eq_refl). pose proof (Hids _ _ Hin). destruct Hfree; congruence. }
  assert (backed ((r_Term r, c) :: G) (r_Term r) c) as Hback.
  { intros t' c' [[= -> ->]|Hin]%elem_of_cons; [done|]. destruct (HG t' c' Hin) as [? E].
    split; [done|]. intros ->. by rewrite E. }
  unfold promise in *. split; unfold promise; simpl; try rewrite bool_decide_false by done; auto; try done.
  - exists (r_Term r), c. split_and!; auto. by apply RaftWAL.LoadState_SaveState.
  - intros t c1 c2 [[= -> ->]|H1]%elem_of_cons [[= E]|H2]%elem_of_cons; subst; auto.
    + symmetry. by apply HG in H2 as [_ ->].
    + by apply HG in H1 as [_ ->].
    + by eapply Hf.
  - intros t c' [[= -> ->]|H1]%elem_of_cons; [done|by eapply Hids].
Qed.

Lemma RequestVote_inv G r args :
  vote_inv G r -> event_ok r (ERequestVote args) ->
  vote_inv (commitment r (ERequestVote args) ++ G) (RequestVote r args).1.
Proof.
  intros Hi (Ht & Hc & Hme & Hc1). unfold commitment, RequestVote.
  destruct (va_Term args <? r_Term r); [done|]. apply (vote_inv_adoptTerm _ _ (va_Term args)) in Hi; [|done].
  rewrite <- (adoptTerm_me r (va_Term args)) in Hme. set (s := adoptTerm r (va_Term args)) in *.
  destruct (_ || _) eqn:Hfree; [|done].
  destruct (isLogUpToDate s _ _); [|done]. simpl.
  apply orb_true_iff in Hfree. rewrite !Z.eqb_eq in Hfree. by apply grant_inv.
Qed.


(** The log file and the snapshots do not carry the vote. *)
Lemma AppendLogs_meta w es : RaftWAL.metaFile (RaftWAL.AppendLogs w es) = RaftWAL.metaFile w.
Proof. by destruct es. Qed.

Lemma TruncateLogs_meta w i w' :
  RaftWAL.TruncateLogs w i = Some w' -> RaftWAL.metaFile w' = RaftWAL.metaFile w.
Proof.
  unfold RaftWAL.TruncateLogs. destruct (RaftWAL.LoadLogs w); [|done]. intros [= <-].
  by rewrite AppendLogs_meta.
Qed.

Lemma DeleteOldSnapshots_meta w i :
  RaftWAL.metaFile (RaftWAL.DeleteOldSnapshots w i) = RaftWAL.metaFile w.
Proof. unfold RaftWAL.DeleteOldSnapshots. by case_match. Qed.

Section Events.
Context `{RaftConfig}.

Lemma AppendEntry_same_vote r command r' msgs res :
  AppendEntry r command = Some (r', msgs, res) -> same_vote r r'.
Proof.
  unfold AppendEntry. case_match; [by intros [= <- _ _]|].
  set (r1 := set_rlog r _ _). assert (same_vote r r1) as H1 by (by repeat split). case_match.
  - intros [= <- _ _]. etransitivity; [|apply applyCommittedLogs_same_vote]. exact H1.
  - destruct (replicateLog r1); [|done]. by intros [= <- _ _].
Qed.

Lemma AppendEntries_inv G r args r' reply :
  vote_inv G r -> i64 (ae_Term args) -> AppendEntries r args = Some (r', reply) -> vote_inv G r'.
Proof.
  intros Hi Ht. unfold AppendEntries. destruct (ae_Term args <? r_Term r); [by intros [= <- _]|].
  apply (vote_inv_adoptTerm _ _ (ae_Term args)) in Hi; [|done]. set (s := adoptTerm r _) in *.
  destruct (prevMatches s args); [|by intros [= <- _]]. cbn [negb].
  destruct (append_loop _ _ _ _ _) as [[[log needRebuild] newEntries]|]; [|done]. cbn.
  match goal with |- context [if _ then rpc_applyCommittedLogs (set_commitIndex ?x _) else _] =>
    set (s1 := x) end.
  assert (vote_inv G s1) as H1.
  { unfold s1. destruct (ae_Entries args); [done|]. apply vote_inv_persist.
    eapply vote_inv_same; [|exact Hi]. repeat split.
    destruct needRebuild; unfold RaftWAL.RebuildLogFile; cbn; by rewrite AppendLogs_meta. }
  intros [= <- _]. case_match; [|done].
  eapply vote_inv_same; [|exact H1]. etransitivity; [|apply apply_loop_same_vote]. by repeat split.
Qed.

Lemma TakeSnapshot_inv G r index r' res :
  vote_inv G r -> TakeSnapshot r index = Some (r', res) -> vote_inv G r'.
Proof.
  intros Hi. unfold TakeSnapshot. destruct (index <=? _); [by intros [= <- _]|].
  destruct (_ <? index); [by intros [= <- _]|].
  destruct (RaftWAL.TruncateLogs _ _) as [w|] eqn:Hw; [|done]. intros [= <- _].
  apply vote_inv_persist. eapply vote_inv_same; [|exact Hi]. repeat split. simpl.
  by rewrite (TruncateLogs_meta _ _ _ Hw), DeleteOldSnapshots_meta.
Qed.

Lemma InstallSnapshot_inv G r args r' reply :
  vote_inv G r -> i64 (is_Term args) -> InstallSnapshot r args = Some (r', reply) -> vote_inv G r'.
Proof.
  intros Hi Ht. unfold InstallSnapshot. destruct (is_Term args <? r_Term r); [by intros [= <- _]|].
  set (s := if r_Term r <? is_Term args then _ else r).
  assert (vote_inv G s) as Hs
    by (unfold s; destruct (Z.ltb_spec (r_Term r) (is_Term args)); [by apply vote_inv_demote|done]).
  destruct (_ <=? r_LastIncludedIndex s); [by intros [= <- _]|].
  destruct (RaftWAL.TruncateLogs _ _) as [w|] eqn:Hw; [|done]. intros [= <- _].
  apply vote_inv_persist. eapply vote_inv_same; [|exact Hs]. repeat split. simpl.
  by rewrite (TruncateLogs_meta _ _ _ Hw), DeleteOldSnapshots_meta.
Qed.

Lemma onAppendReply_inv G r i reply :
  vote_inv G r -> event_ok r (EAppendReply i reply) -> vote_inv G (onAppendReply r i reply).
Proof.
  intros Hi Hok. unfold onAppendReply. destruct reply as [reply|].
  - destruct (Z.ltb_spec (r_Term r) (ar_Term reply)); [by apply vote_inv_demote|].
    destruct (ar_Success reply).
    + eapply vote_inv_same; [apply updateCommitIndex_same_vote|]. by eapply vote_inv_same; [|exact Hi].
    + by eapply vote_inv_same; [|exact Hi].
  - case_match; [|done]. by eapply vote_inv_same; [|exact Hi].
Qed.

Lemma onInstallReply_inv G r i reply :
  vote_inv G r -> event_ok r (EInstallReply i reply) -> vote_inv G (onInstallReply r i reply).
Proof.
  intros Hi Hok. unfold onInstallReply. destruct reply as [reply|]; [|done].
  destruct (ir_Success reply); [by eapply vote_inv_same; [|exact Hi]|].
  destruct (Z.ltb_spec (r_Term r) (ir_Term reply)); [by apply vote_inv_demote|done].
Qed.

(** A start from a disk whose state file is readable. *)
Lemma NewRaft_state peers me disk r term vote :
  RaftWAL.LoadState disk = (term, vote, None) -> NewRaft peers me disk = Some r ->
  r_me r = me /\ r_state r = Follower /\ r_Term r = term /\ r_votedFor r = vote /\
  RaftWAL.metaFile (r_wal r) = RaftWAL.metaFile disk.
Proof.
  intros Hl. unfold NewRaft, readPersist. cbn [r_wal].
  unfold RaftWAL.LoadPersist.
  rewrite (LoadState_meta disk (RaftWAL.NewRaftWAL disk)) by done. rewrite Hl.
  destruct (RaftWAL.LoadLogs _) as [logs|]; [|done].
  destruct (RaftWAL.LoadLatestSnapshot _) as [snap|] eqn:Hsnap; [|done]. cbn.
  set (p := match snap with Ok _ => _ | Error _ => _ end).
  assert (RaftWAL.CurrentTerm p = term /\ RaftWAL.VotedFor p = vote) as [Hpt Hpv]
    by (unfold p; destruct snap as [[[[?|] ?] ?]|]; done).
  clearbody p. destruct (Z.ltb_spec 0 (RaftWAL.LastIncludedIndex p)) as [Hpos|Hpos]; simpl.
  - rewrite (proj2 (Z.ltb_lt _ _) Hpos), Hsnap. cbn.
    destruct snap as [[[[?|] ?] ?]|]; intros [= <-]; simpl; by subst.
  - rewrite (proj2 (Z.ltb_ge _ _) Hpos). intros [= <-]; simpl; by subst.
Qed.

Lemma restart_inv G r r' :
  vote_inv G r -> NewRaft (r_peers r) (r_me r) (r_wal r) = Some r' -> vote_inv G r'.
Proof.
  intros [? ? ? _ (t & v & Hl & ? & ? & [_ Hd]%backed_app) ? ?] Hn.
  destruct (NewRaft_state _ _ _ _ _ _ Hl Hn) as (Hme & Hst & Ht & Hv & Hm).
  split; unfold promise; rewrite ?Hme, ?Hst, ?Ht, ?Hv; auto; try done.
  exists t, v. by rewrite (LoadState_meta (r_wal r)).
Qed.

Lemma step_inv G r ev r' :
  vote_inv G r -> event_ok r ev -> step r ev = Some r' -> vote_inv (commitment r ev ++ G) r'.
Proof.
  intros Hi Hok. destruct ev as [|reply|votes|args|cmd|args|args|i reply|i reply|index| |]; cbn [step].
  - intros [= <-]. destruct (startElection r) as [[r1 args]|] eqn:E; [|done]. by eapply startElection_inv.
  - intros [= <-]. destruct reply as [reply|]; [|done]. unfold onVoteReply. simpl.
    destruct (Z.ltb_spec (r_Term r) (vr_Term reply)); [by apply vote_inv_demote|done].
  - intros [= <-]. by apply finishElection_inv.
  - intros [= <-]. by apply RequestVote_inv.
  - destruct (AppendEntry r cmd) as [[[r1 ?] ?]|] eqn:E; [|done]. intros [= <-].
    by eapply vote_inv_same; [eapply AppendEntry_same_vote|].
  - destruct (AppendEntries r args) as [[r1 ?]|] eqn:E; [|done]. intros [= <-].
    by eapply AppendEntries_inv.
  - destruct (InstallSnapshot r args) as [[r1 ?]|] eqn:E; [|done]. intros [= <-].
    by eapply InstallSnapshot_inv.
  - intros [= <-]. by apply onAppendReply_inv.
  - intros [= <-]. by apply onInstallReply_inv.
  - destruct (TakeSnapshot r index) as [[r1 ?]|] eqn:E; [|done]. intros [= <-]. by eapply TakeSnapshot_inv.
  - intros [= <-]. by eapply vote_inv_same; [|exact Hi].
  - by apply restart_inv.
Qed.

Lemma life_inv peers me disk r G term vote :
  RaftWAL.LoadState disk = (term, vote, None) -> i64 term -> i64 vote -> i64 me -> me <> -1 ->
  life peers me disk r G -> vote_inv G r.
Proof.
  intros Hl Ht Hv Hme Hme1. induction 1 as [r Hn|r ev r' G _ IH Hok Hs]; [|by eapply step_inv].
  destruct (NewRaft_state _ _ _ _ _ _ Hl Hn) as (Hm1 & Hst & Ht1 & Hv1 & Hm).
  assert (promise r = []) as Hp by (unfold promise; by rewrite Hst).
  split; rewrite ?Hp, ?Hm1, ?Ht1, ?Hv1, ?Hst; auto using backed_nil; try done.
  - exists term, vote. rewrite (LoadState_meta disk) by done. auto using backed_nil.
  - by intros ? ? ? ?%elem_of_nil.
  - by intros ? ? ?%elem_of_nil.
Qed.

(** a node backs at most one candidate per term: over every interleaving of
    its critical sections, RPCs and crashes (with restarts from its disk), the
    votes it grants and its own leaderships never name two different candidates
    for the same term.  The vote a timed-out candidate withdraws from itself and
    the terms adopted from replies without being persisted are covered. *)
Theorem one_candidate_per_term (peers : list bytes) (me : Z) (disk : RaftWAL.RaftWAL)
    (term vote : Z) (r : Raft) (commits : list (Z * Z)) (t c c' : Z)
    (Hdisk : RaftWAL.LoadState disk = (term, vote, None) /\ i64 term /\ i64 vote)
    (Hme : i64 me /\ me <> -1) (Hlife : life peers me disk r commits)
    (Hc : (t, c) ∈ commits) (Hc' : (t, c') ∈ commits) :
  c = c'.
Proof.
  destruct Hdisk as (? & ? & ?), Hme. eapply vi_func; [|exact Hc|exact Hc'].
  by eapply (life_inv peers me disk).
Qed.

End Events.

Lemma life_then `{RaftConfig} peers me disk r ev r' commits commits' :
  life peers me disk r commits -> event_ok r ev -> step r ev = Some r' ->
  commits' = commitment r ev ++ commits -> life peers me disk r' commits'.
Proof. intros ? ? ? ->. by eapply life_step. Qed.

(** A vote granted before a crash and the same vote asked again after it. *)
Lemma one_candidate_per_term_witness :
  exists r, @life sample_config sample_peers 0 empty_disk r [(1, 2); (1, 2)] /\ 2 = 2.
Proof.
  assert (exists r, @life sample_config sample_peers 0 empty_disk r [(1, 2); (1, 2)]) as [r life_ok].
  { set (ask := ERequestVote (mkVoteArgs 1 2 (-1) 0)). eexists.
    eapply (@life_then sample_config _ _ _ _ ask _ [(1, 2)]);
      [eapply (@life_then sample_config _ _ _ _ ERestart _ [(1, 2)]);
        [eapply (@life_then sample_config _ _ _ _ ask _ []);
          [apply life_start; vm_compute; reflexivity|..]|..]|..];
      try (vm_compute; reflexivity); split_and!; eval_closed. }
  exists r. split; [exact life_ok|].
  apply (@one_candidate_per_term sample_config sample_peers 0 empty_disk 0 (-1) r _ 1 2 2
           ltac:(split_and!; eval_closed) ltac:(split; eval_closed) life_ok); left.
Defined.


(** ** A single vote request *)

(** The rule of the Raft paper: the candidate's last entry is at least as new;
    a node without entries or snapshot accepts anything. *)
Definition candidate_up_to_date (r : Raft) (lastIndex lastTerm : Z) : Prop :=
  (r_log r = [] /\ r_LastIncludedIndex r = 0) \/
  let '(i, t) := match last (r_log r) with
                 | Some e => (Index e, Term e)
                 | None => (r_LastIncludedIndex r, r_LastIncludedTerm r)
                 end in
  t < lastTerm \/ (lastTerm = t /\ i <= lastIndex).

Lemma isLogUpToDate_spec r i t : isLogUpToDate r i t = true <-> candidate_up_to_date r i t.
Proof.
  unfold isLogUpToDate, candidate_up_to_date, last_entry.
  assert ((match r_log r with [] => true | _ => false end) && (r_LastIncludedIndex r =? 0) = true
          <-> r_log r = [] /\ r_LastIncludedIndex r = 0) as <-.
  { rewrite andb_true_iff, Z.eqb_eq. destruct (r_log r); naive_solver. }
  destruct (_ && (r_LastIncludedIndex r =? 0)); [tauto|].
  destruct (match last (r_log r) with Some e => _ | None => _ end) as [i' t'].
  destruct (Z.ltb_spec t' t); [split; auto|].
  destruct (Z.eqb_spec t t'), (Z.leb_spec i' i); simpl; split; try done; intuition lia.
Qed.

Lemma adoptTerm_fields r t :
  r_Term (adoptTerm r t) = Z.max (r_Term r) t /\
  r_votedFor (adoptTerm r t) = (if r_Term r <? t then -1 else r_votedFor r) /\
  r_log (adoptTerm r t) = r_log r /\
  r_LastIncludedIndex (adoptTerm r t) = r_LastIncludedIndex r /\
  r_LastIncludedTerm (adoptTerm r t) = r_LastIncludedTerm r.
Proof. unfold adoptTerm. destruct (Z.ltb_spec (r_Term r) t); simpl; split_and!; auto; lia. Qed.

(** a vote is granted exactly when the request is not from an older term, the
    node has not voted for somebody else in that term and the candidate's log is
    at least as up to date as its own; the reply carries the larger of the two
    terms, and a granted vote is on disk, with its term, before the reply. *)
Theorem vote_granted_iff (r : Raft) (args : RequestVoteArgs)
    (Ht : i64 (va_Term args)) (Hc : i64 (va_CandidateID args)) :
  let '(r', reply) := RequestVote r args in
  (vr_VoteGranted reply = true <->
     r_Term r <= va_Term args /\
     (r_Term r < va_Term args \/ r_votedFor r = -1 \/ r_votedFor r = va_CandidateID args) /\
     candidate_up_to_date r (va_LastLogIndex args) (va_LastLogTerm args)) /\
  vr_Term reply = Z.max (r_Term r) (va_Term args) /\ r_Term r' = vr_Term reply /\
  (vr_VoteGranted reply = true ->
     RaftWAL.LoadState (r_wal r') = (va_Term args, va_CandidateID args, None)).
Proof.
  unfold RequestVote. destruct (Z.ltb_spec (va_Term args) (r_Term r)) as [Hlt|Hge].
  { cbn. split_and!; try done; lia. }
  destruct (adoptTerm_fields r (va_Term args)) as (HT & HV & HL & HI & HIT).
  set (s := adoptTerm r (va_Term args)) in *. rewrite Z.max_r in HT |- * by lia.
  pose proof (isLogUpToDate_spec s (va_LastLogIndex args) (va_LastLogTerm args)) as Hup.
  assert (candidate_up_to_date s (va_LastLogIndex args) (va_LastLogTerm args)
          <-> candidate_up_to_date r (va_LastLogIndex args) (va_LastLogTerm args)) as Hup'
    by (unfold candidate_up_to_date; by rewrite HL, HI, HIT).
  assert ((r_votedFor s =? -1) || (r_votedFor s =? va_CandidateID args) = true <->
          r_Term r < va_Term args \/ r_votedFor r = -1 \/ r_votedFor r = va_CandidateID args) as Hfree.
  { rewrite orb_true_iff, !Z.eqb_eq, HV. destruct (Z.ltb_spec (r_Term r) (va_Term args)); intuition lia. }
  destruct (_ || _) eqn:E1, (isLogUpToDate s _ _) eqn:E2; cbn; rewrite ?HT;
    split_and!; try done; try tauto; try (split; [done|intuition congruence]).
  intros _. by apply RaftWAL.LoadState_SaveState.
Qed.

Lemma vote_granted_iff_witness :
  let r := mkRaft sample_peers 0 Follower (-1) 3 (-1) (-1) 0 [] [] [RaftWAL.sample_entry 0]
             (mkChan [] []) 0 0 empty_disk [] in
  let '(r', reply) := RequestVote r (mkVoteArgs 4 2 0 1) in
  (vr_VoteGranted reply = true <->
     3 <= 4 /\ (3 < 4 \/ -1 = -1 \/ -1 = 2) /\ candidate_up_to_date r 0 1) /\
  vr_Term reply = 4 /\ r_Term r' = vr_Term reply /\
  (vr_VoteGranted reply = true -> RaftWAL.LoadState (r_wal r') = (4, 2, None)).
Proof. intros r. apply (vote_granted_iff r (mkVoteArgs 4 2 0 1)); eval_closed. Defined.

(** ** Counting votes *)

Definition granted (votes : list bool) : Z := zlen (filter (fun v => v = true) votes).

Lemma granted_cons v l : granted (v :: l) = (if v then 1 else 0) + granted l.
Proof.
  unfold granted. rewrite filter_cons.
  destruct v; [rewrite decide_True by done|rewrite decide_False by done]; len_lia.
Qed.

Lemma granted_nonneg l : 0 <= granted l.
Proof. apply zlen_nonneg. Qed.

Lemma voteLoop_elected n turns votes ch :
  votes <= n / 2 ->
  (voteLoop n turns votes ch = Elected <-> n / 2 < votes + granted (take turns ch)).
Proof.
  revert votes ch. induction turns as [|turns IH]; intros votes ch Hv.
  { change (granted (take 0 ch)) with 0. split; [done|intros; lia]. }
  destruct ch as [|[] ch].
  - change (granted (take (S turns) [])) with 0. split; [done|intros; lia].
  - cbn [take voteLoop]. rewrite granted_cons. destruct (Z.ltb_spec (n / 2) (votes + 1)).
    + pose proof (granted_nonneg (take turns ch)). split; [lia|done].
    + rewrite IH by done. split; lia.
  - cbn [take voteLoop]. by rewrite granted_cons, IH.
Qed.

Lemma awaitVotes_elected (n : Z) (peerVotes : list bool) : 2 <= n ->
  awaitVotes n peerVotes = Elected <-> n / 2 < 2 + granted (take (Z.to_nat (n - 2)) peerVotes).
Proof.
  intros Hn. unfold awaitVotes. destruct (Z.eqb_spec (n - 1) 0); [lia|].
  assert (1 <= n / 2) by (apply Z.div_le_lower_bound; lia).
  rewrite voteLoop_elected by done.
  replace (Z.to_nat (n - 1)) with (S (Z.to_nat (n - 2))) by lia. simpl. rewrite granted_cons.
  split; lia.
Qed.

(** the election threshold: a candidate of a cluster of [n >= 2] nodes wins
    exactly when [2 + granted > n/2] among the first [n-2] answers, because its
    own vote is counted in [votes := 1] and again from the channel; in a cluster
    of three it becomes leader whatever its peers answer. *)
Theorem election_counts_own_vote_twice (n : Z) (peerVotes : list bool) (Hn : 2 <= n) :
  (awaitVotes n peerVotes = Elected <->
     n / 2 < 2 + granted (take (Z.to_nat (n - 2)) peerVotes)) /\
  (n <= 3 -> awaitVotes n peerVotes = Elected).
Proof.
  pose proof (awaitVotes_elected n peerVotes Hn) as Hiff.
  split; [done|]. intros Hle. apply Hiff.
  pose proof (granted_nonneg (take (Z.to_nat (n - 2)) peerVotes)).
  assert (n / 2 <= 1) by (apply Z.lt_succ_r, Z.div_lt_upper_bound; lia). lia.
Qed.

Lemma election_counts_own_vote_twice_witness :
  (awaitVotes 5 [true; false] = Elected <-> 5 / 2 < 2 + granted (take 3 [true; false])) /\
  (5 <= 3 -> awaitVotes 5 [true; false] = Elected).
Proof. apply (election_counts_own_vote_twice 5 [true; false]). lia. Defined.

(** Two nodes of a cluster of three lead the same term without a single answer. *)
Example two_leaders_in_one_term :
  let start me := r ← NewRaft sample_peers me empty_disk; '(r, _) ← startElection r;
                  Some (finishElection r []) in
  (r_state <$> start 0) = Some Leader /\ (r_state <$> start 1) = Some Leader /\
  (r_Term <$> start 0) = (r_Term <$> start 1).
Proof. vm_compute. auto. Qed.

(** ** Terms *)

Lemma adoptTerm_le r t : r_Term r <= r_Term (adoptTerm r t).
Proof. destruct (adoptTerm_fields r t) as [-> _]. lia. Qed.

(** What a critical section other than the two of an election does to role and
    term: nothing, or the node follows in a larger term. *)
Definition moves (r r' : Raft) : Prop :=
  r_me r' = r_me r /\ r_peers r' = r_peers r /\
  ((r_state r' = r_state r /\ r_Term r' = r_Term r) \/ (r_state r' = Follower /\ r_Term r < r_Term r')).

#[export] Instance moves_preorder : PreOrder moves.
Proof.
  split; [intros x; unfold moves; by split_and!; auto|]. intros x y z (? & ? & Hxy) (? & ? & Hyz). unfold moves.
  split_and!; [congruence..|]. destruct Hxy as [[E1 E2]|[E1 E2]], Hyz as [[E3 E4]|[E3 E4]];
    rewrite ?E1, ?E2, ?E3, ?E4 in *; auto; right; (split; [done|lia]).
Qed.

(** A state with the same identity, role and term. *)
Lemma moves_still r r' :
  r_me r' = r_me r -> r_peers r' = r_peers r -> r_state r' = r_state r -> r_Term r' = r_Term r -> moves r r'.
Proof. intros. unfold moves. by split_and!; auto. Qed.
Ltac still := apply moves_still; reflexivity.

Lemma moves_demote r t : r_Term r < t -> moves r (set_vote r Follower t (-1)).
Proof. intros. unfold moves. split_and!; auto. Qed.

Lemma moves_adoptTerm r t : moves r (adoptTerm r t).
Proof.
  unfold adoptTerm. destruct (Z.ltb_spec (r_Term r) t); [|reflexivity].
  etransitivity; [by apply moves_demote|still].
Qed.

Lemma moves_apply_loop r : moves r (apply_loop r).
Proof. apply (iter_preserves moves apply_one). intros y. still. Qed.

Lemma moves_applyCommittedLogs `{RaftConfig} r : moves r (applyCommittedLogs r).
Proof.
  etransitivity; [apply moves_apply_loop|]. unfold applyCommittedLogs, checkSnapshotTrigger.
  repeat case_match; still.
Qed.

Lemma moves_updateCommitIndex `{RaftConfig} r : moves r (updateCommitIndex r).
Proof.
  unfold updateCommitIndex. case_match; [reflexivity|]. destruct (commit_scan _ _); [|reflexivity].
  etransitivity; [|apply moves_applyCommittedLogs]. still.
Qed.

Lemma moves_vote_reply r reply : moves r (onVoteReply r reply).1.
Proof.
  unfold onVoteReply. destruct reply as [reply|]; [|reflexivity].
  destruct (Z.ltb_spec (r_Term r) (vr_Term reply)); [by apply moves_demote|reflexivity].
Qed.

Lemma moves_RequestVote r args : moves r (RequestVote r args).1.
Proof.
  unfold RequestVote. destruct (_ <? _); [reflexivity|]. etransitivity; [apply moves_adoptTerm|].
  destruct (_ && _); [still|reflexivity].
Qed.

(** Neither an election nor a restart. *)
Definition quiet (ev : event) : bool :=
  match ev with EStartElection | EFinishElection _ | ERestart => false | _ => true end.

Lemma step_moves `{RaftConfig} r ev r' : quiet ev = true -> step r ev = Some r' -> moves r r'.
Proof.
  intros Hq Hs. destruct ev as [|reply|votes|args|cmd|args|args|i reply|i reply|index| |]; try discriminate Hq;
    cbn [step] in Hs; try (injection Hs as <-).
  - apply moves_vote_reply.
  - apply moves_RequestVote.
  - revert Hs. unfold AppendEntry. case_match; [by intros [= <-]|].
    set (r1 := set_rlog r _ _). assert (moves r r1) as H1 by still. case_match.
    + intros [= <-]. etransitivity; [|apply moves_applyCommittedLogs]. still.
    + destruct (replicateLog r1); [|done]. by intros [= <-].
  - revert Hs. unfold AppendEntries. case_match; [by intros [= <-]|].
    pose proof (moves_adoptTerm r (ae_Term args)) as Ha. set (s := adoptTerm r _) in *.
    destruct (prevMatches s args); [|by intros [= <-]]. cbn [negb].
    destruct (append_loop _ _ _ _ _) as [[[log needRebuild] newEntries]|]; [|done]. cbn. intros [= <-].
    etransitivity; [exact Ha|]. case_match; [etransitivity; [|apply moves_apply_loop]|]; by destruct (ae_Entries args); still.
  - revert Hs. unfold InstallSnapshot. case_match; [by intros [= <-]|].
    set (s := if _ <? _ then set_vote _ _ _ _ else r). assert (moves r s) as Hm
      by (unfold s; destruct (Z.ltb_spec (r_Term r) (is_Term args)); [by apply moves_demote|reflexivity]).
    case_match; [by intros [= <-]|]. destruct (RaftWAL.TruncateLogs _ _); [|done]. intros [= <-]. etransitivity; [exact Hm|still].
  - unfold onAppendReply. destruct reply as [reply|]; [|case_match; still].
    destruct (Z.ltb_spec (r_Term r) (ar_Term reply)); [by apply moves_demote|]. case_match; [|still].
    etransitivity; [|apply moves_updateCommitIndex]. still.
  - unfold onInstallReply. destruct reply as [reply|]; [|reflexivity].
    destruct (ir_Success reply); [still|]. destruct (Z.ltb_spec (r_Term r) (ir_Term reply)); [by apply moves_demote|reflexivity].
  - revert Hs. unfold TakeSnapshot. do 2 (case_match; [by intros [= <-]|]).
    destruct (RaftWAL.TruncateLogs _ _); [intros [= <-]; still|done].
  - still.
Qed.

(** the current term of a running node never decreases, whatever critical
    section runs next; only a restart, which reloads the persisted term, can. *)
Theorem term_never_decreases `{RaftConfig} (r r' : Raft) (ev : event)
    (Hrun : ev <> ERestart) (Hstep : step r ev = Some r') :
  r_Term r <= r_Term r'.
Proof.
  assert (moves r r' -> r_Term r <= r_Term r') as Hmoves by (intros (_ & _ & [[_ ->]|[_ ?]]); lia).
  destruct (quiet ev) eqn:Hq; [by eapply Hmoves, step_moves|].
  destruct ev as [| |votes| | | | | | | | |]; try discriminate Hq; cbn [step] in Hstep; [..|done]; injection Hstep as <-.
  - unfold startElection. destruct (bool_decide _); [lia|].
    match goal with |- context [let '(_, _) := ?x in _] => destruct x end. simpl. lia.
  - unfold finishElection. repeat case_match; simpl; lia.
Qed.

Lemma term_never_decreases_witness :
  let r := mkRaft sample_peers 0 Follower (-1) 3 (-1) (-1) 0 [] [] [] (mkChan [] []) 0 0 empty_disk [] in
  r_Term r <= 7.
Proof.
  intros r. apply (@term_never_decreases sample_config r (RequestVote r (mkVoteArgs 7 1 0 0)).1
    (ERequestVote (mkVoteArgs 7 1 0 0))); [discriminate|reflexivity].
Defined.

End Voting.
