(* ===== verification/Cluster.v ===== *)
(** A cluster of Raft nodes: the elections of all nodes with the vote requests
    and replies that travel between them ([startElection] of [Raft/raft.go] with
    its goroutines, [SendRequestVote] and [RequestVote] of [Raft/rpc.go]), while
    entries, snapshots and crashes happen in any order.  What an election
    guarantees, given how the votes are counted. *)
From S2P Require Import Prelude Bytes Strconv RaftWAL Raft RaftVote.
Import Raft Voting.

Module Cluster.

(** ** The state *)

(** One goroutine of [startElection] that asks a peer: its request is on the way,
    or answered ([None]: the RPC failed) and not yet heard. *)
Inductive phase := Asked | Answered (reply : option RequestVoteReply).
Record call := mkCall {
  c_from : nat; c_to : nat; c_args : RequestVoteArgs; c_round : nat; c_life : nat; c_phase : phase }.

(** A node: its state; the number of its elections, whether one is waiting for
    votes, and what the goroutines have put on its [voteCh], by peer; the number
    of its restarts.  [n_backed] records whom it has backed (see [commitment]). *)
Record node := mkNode {
  n_raft : Raft; n_round : nat; n_open : bool; n_votes : list (nat * bool); n_life : nat;
  n_backed : list (Z * Z) }.

(** [elected] records the leaders by term. *)
Record cluster := mkCluster { nodes : list node; calls : list call; elected : list (Z * nat) }.

Definition set_raft (nd : node) (r : Raft) : node := mkNode r (n_round nd) (n_open nd) (n_votes nd) (n_life nd) (n_backed nd).
Definition set_backed (nd : node) (l : list (Z * Z)) : node :=
  mkNode (n_raft nd) (n_round nd) (n_open nd) (n_votes nd) (n_life nd) l.
Definition answered (c : call) (reply : option RequestVoteReply) : call :=
  mkCall (c_from c) (c_to c) (c_args c) (c_round c) (c_life c) (Answered reply).

Definition set_node (cl : cluster) (i : nat) (nd : node) : cluster :=
  mkCluster (<[i := nd]> (nodes cl)) (calls cl) (elected cl).
Definition set_calls (cl : cluster) (cs : list call) : cluster := mkCluster (nodes cl) cs (elected cl).

(** ** The steps *)

(** The goroutines started by an election: one per peer. *)
Definition asks (n i : nat) (nd : node) (args : RequestVoteArgs) : list call :=
  (fun j => mkCall i j args (S (n_round nd)) (n_life nd) Asked) <$> filter (fun j => j <> i) (seq 0 n).

(** The election begins: no other one of the node is waiting ([electionLoop] runs
    them one after the other). *)
Definition begin_election (nd : node) (r : Raft) : node := mkNode r (S (n_round nd)) true [] (n_life nd) (n_backed nd).

(** The peer's handler runs. *)
Definition serve_vote (nd : node) (args : RequestVoteArgs) : node * RequestVoteReply :=
  let '(r, reply) := RequestVote (n_raft nd) args in
  (set_backed (set_raft nd r) (commitment (n_raft nd) (ERequestVote args) ++ n_backed nd), reply).

(** The goroutine hears the reply and puts its verdict on the channel of its
    election; nobody reads it once that is over. *)
Definition hear (nd : node) (c : call) (reply : option RequestVoteReply) : node :=
  let '(r, v) := onVoteReply (n_raft nd) reply in
  mkNode r (n_round nd) (n_open nd)
    (if n_open nd && (n_round nd =? c_round c)%nat then n_votes nd ++ [(c_to c, v)] else n_votes nd)
    (n_life nd) (n_backed nd).

(** The election ends: enough votes, all votes, or the timeout. *)
Definition end_election (nd : node) : node * list (Z * Z) :=
  let ev := EFinishElection (n_votes nd).*2 in
  let won := commitment (n_raft nd) ev in
  (mkNode (finishElection (n_raft nd) (n_votes nd).*2) (n_round nd) false (n_votes nd) (n_life nd) (won ++ n_backed nd), won).

(** A crash and a start from the disk: the goroutines of the process are gone. *)
Definition revive (nd : node) (r : Raft) : node := mkNode r (n_round nd) false [] (S (n_life nd)) (n_backed nd).

(** The rest of a node's work; the messages of replication are arbitrary. *)
Definition replication (ev : event) : bool :=
  match ev with
  | EAppendEntry _ | EAppendEntries _ | EInstallSnapshot _ | EAppendReply _ _ | EInstallReply _ _ | ETakeSnapshot _ | EReceive => true
  | _ => false
  end.

Section Cluster.
Context `{RaftConfig} (n : nat).

Inductive cstep (cl : cluster) : cluster -> Prop :=
  | c_start i nd r args :
      nodes cl !! i = Some nd -> n_open nd = false -> r_Term (n_raft nd) < 2 ^ 63 - 1 ->
      startElection (n_raft nd) = Some (r, args) ->
      cstep cl (set_calls (set_node cl i (begin_election nd r)) (calls cl ++ asks n i nd args))
  | c_vote k c nd nd' reply :
      calls cl !! k = Some c -> c_phase c = Asked -> nodes cl !! c_to c = Some nd ->
      serve_vote nd (c_args c) = (nd', reply) ->
      cstep cl (set_calls (set_node cl (c_to c) nd') (<[k := answered c (Some reply)]> (calls cl)))
  | c_lose k c :
      calls cl !! k = Some c -> cstep cl (set_calls cl (<[k := answered c None]> (calls cl)))
  | c_hear k c reply nd :
      calls cl !! k = Some c -> c_phase c = Answered reply ->
      nodes cl !! c_from c = Some nd -> n_life nd = c_life c ->
      cstep cl (set_calls (set_node cl (c_from c) (hear nd c reply)) (delete k (calls cl)))
  | c_finish i nd nd' won :
      nodes cl !! i = Some nd -> n_open nd = true -> end_election nd = (nd', won) ->
      cstep cl (mkCluster (<[i := nd']> (nodes cl)) (calls cl) (((fun b => (b.1, i)) <$> won) ++ elected cl))
  | c_work i nd ev r :
      nodes cl !! i = Some nd -> replication ev = true -> event_ok (n_raft nd) ev ->
      step (n_raft nd) ev = Some r -> cstep cl (set_node cl i (set_raft nd r))
  | c_crash i nd r :
      nodes cl !! i = Some nd -> NewRaft (r_peers (n_raft nd)) (r_me (n_raft nd)) (r_wal (n_raft nd)) = Some r ->
      cstep cl (set_node cl i (revive nd r)).

(** A cluster at its start: every node from an intact disk of its own. *)
Definition fresh (peers : list bytes) (i : nat) (nd : node) : Prop :=
  exists disk term vote r, RaftWAL.LoadState disk = (term, vote, None) /\ i64 term /\ i64 vote /\
    NewRaft peers (Z.of_nat i) disk = Some r /\ nd = mkNode r 0 false [] 0 [].

Definition initial (peers : list bytes) (cl : cluster) : Prop :=
  length peers = n /\ length (nodes cl) = n /\ calls cl = [] /\ elected cl = [] /\
  forall i nd, nodes cl !! i = Some nd -> fresh peers i nd.

(** The nodes that backed [i] in term [t], itself included once it leads. *)
Definition backs (cl : cluster) (t : Z) (i j : nat) : Prop :=
  (t, Z.of_nat i) ∈ default [] (n_backed <$> nodes cl !! j).
#[export] Instance backs_dec cl t i j : Decision (backs cl t i j).
Proof. unfold backs. apply _. Defined.
Definition backers (cl : cluster) (t : Z) (i : nat) : list nat := filter (backs cl t i) (seq 0 n).


(** ** The invariant *)

(** The peers the goroutines of the current election have not heard from. *)
Definition pending (i : nat) (nd : node) (c : call) : option nat :=
  if decide (c_from c = i /\ c_round c = n_round nd /\ c_life c = n_life nd) then Some (c_to c) else None.
Definition current (i : nat) (nd : node) (cs : list call) : list nat := omap (pending i nd) cs.

Record node_ok (i : nat) (nd : node) : Prop := {
  no_vote : vote_inv (n_backed nd) (n_raft nd);
  no_me : r_me (n_raft nd) = Z.of_nat i;
  no_peers : zlen (r_peers (n_raft nd)) = Z.of_nat n;
}.

Record call_ok (cl : cluster) (c : call) : Prop := {
  co_from : (c_from c < n)%nat /\ c_from c <> c_to c;
  co_args : va_CandidateID (c_args c) = Z.of_nat (c_from c) /\ i64 (va_Term (c_args c));
  co_reply reply : c_phase c = Answered (Some reply) ->
    i64 (vr_Term reply) /\ (vr_VoteGranted reply = true -> backs cl (vr_Term reply) (c_from c) (c_to c));
  co_fresh nd : nodes cl !! c_from c = Some nd ->
    (c_life c <= n_life nd)%nat /\ (c_life c = n_life nd -> c_round c <= n_round nd)%nat;
}.

(** One message per peer on the channel of an election, and a [true] is backed. *)
Definition poll_ok (cl : cluster) (i : nat) (nd : node) : Prop :=
  n_open nd = true ->
  NoDup (i :: (n_votes nd).*1 ++ current i nd (calls cl)) /\
  (r_state (n_raft nd) = Candidate -> forall j, (j, true) ∈ n_votes nd -> backs cl (r_Term (n_raft nd)) i j).

Definition leader_ok (cl : cluster) (t : Z) (i : nat) : Prop :=
  backs cl t i i /\ Z.of_nat n / 2 <= zlen (backers cl t i).

Record cl_ok (cl : cluster) : Prop := {
  ok_len : length (nodes cl) = n;
  ok_node i nd : nodes cl !! i = Some nd -> node_ok i nd;
  ok_call c : c ∈ calls cl -> call_ok cl c;
  ok_poll i nd : nodes cl !! i = Some nd -> poll_ok cl i nd;
  ok_leader t i : (t, i) ∈ elected cl -> leader_ok cl t i;
}.

(** What a node never takes back. *)
Definition advances (nd nd' : node) : Prop :=
  (n_life nd <= n_life nd')%nat /\ (n_life nd = n_life nd' -> n_round nd <= n_round nd')%nat /\
  forall b, b ∈ n_backed nd -> b ∈ n_backed nd'.
#[export] Instance advances_refl : Reflexive advances.
Proof. intros nd. by split_and!. Qed.

Definition grows (cl cl' : cluster) : Prop := Forall2 advances (nodes cl) (nodes cl').

Lemma grows_insert cl i nd nd' cs es :
  nodes cl !! i = Some nd -> advances nd nd' -> grows cl (mkCluster (<[i := nd']> (nodes cl)) cs es).
Proof.
  intros Hi Ha. apply Forall2_same_length_lookup. cbn. rewrite length_insert. split; [done|].
  intros j x y Hx [[-> [<- _]]|[_ Hy]]%list_lookup_insert_Some; [by simplify_eq|by simplify_eq].
Qed.

Lemma grows_same cl cs : grows cl (set_calls cl cs).
Proof. apply Forall2_same_length_lookup. split; [done|]. intros j x y Hx Hy. cbn in Hy. by simplify_eq. Qed.

Lemma grows_backs cl cl' t i j : grows cl cl' -> backs cl t i j -> backs cl' t i j.
Proof.
  unfold backs. intros Hg. destruct (nodes cl !! j) as [nd|] eqn:E; [|by intros ?%elem_of_nil].
  destruct (Forall2_lookup_l _ _ _ _ _ Hg E) as (nd' & -> & _ & _ & Hb). apply Hb.
Qed.

Lemma backers_grow cl cl' t i : grows cl cl' -> zlen (backers cl t i) <= zlen (backers cl' t i).
Proof.
  intros Hg. unfold backers, zlen. apply inj_le, submseteq_length, NoDup_submseteq; [apply NoDup_filter, NoDup_seq|].
  intros j. rewrite !list_elem_of_filter. intros [Hb ?]. split; [by eapply grows_backs|done].
Qed.

Lemma grows_call cl cl' c : grows cl cl' -> call_ok cl c -> call_ok cl' c.
Proof.
  intros Hg [? ? Hr Hf]. split; [done|done|..].
  - intros reply E. destruct (Hr reply E) as [? Hb]. split; [done|]. intros Hv. eapply grows_backs; [done|auto].
  - intros nd' Hnd'. destruct (Forall2_lookup_r _ _ _ _ _ Hg Hnd') as (nd & Hnd & Hl & Hro & _).
    destruct (Hf nd Hnd) as [? Hc]. split; [lia|]. intros E. assert (c_life c = n_life nd) by lia. specialize (Hc ltac:(done)). specialize (Hro ltac:(lia)). lia.
Qed.

(** A node left alone, and the calls of the others. *)
Lemma grows_poll cl cl' i nd :
  grows cl cl' -> current i nd (calls cl') = current i nd (calls cl) -> poll_ok cl i nd -> poll_ok cl' i nd.
Proof.
  intros Hg Hc Hp Ho. destruct (Hp Ho) as [Hd Hb]. rewrite Hc. split; [done|].
  intros Hst j Hj. eapply grows_backs; [done|auto].
Qed.

Lemma grows_leader cl cl' t i : grows cl cl' -> leader_ok cl t i -> leader_ok cl' t i.
Proof. intros Hg [Hb Hl]. split; [by eapply grows_backs|]. pose proof (backers_grow cl cl' t i Hg). lia. Qed.

(** One node and the calls change. *)
Lemma update_ok cl i nd nd' cs es :
  cl_ok cl -> nodes cl !! i = Some nd -> advances nd nd' -> node_ok i nd' ->
  let cl' := mkCluster (<[i := nd']> (nodes cl)) cs es in
  (forall c, c ∈ cs -> c ∈ calls cl \/ call_ok cl' c) -> poll_ok cl' i nd' ->
  (forall j x, j <> i -> current j x cs = current j x (calls cl)) ->
  (forall t j, (t, j) ∈ es -> (t, j) ∈ elected cl \/ leader_ok cl' t j) -> cl_ok cl'.
Proof.
  intros [H1 H2 H3 H4 H5] Hi Ha Hn cl' Hcs Hp Hcur Hes. assert (grows cl cl') as Hg by by eapply grows_insert.
  split.
  - cbn. by rewrite length_insert.
  - cbn. intros j x [[-> [<- _]]|[_ Hx]]%list_lookup_insert_Some; auto.
  - intros c Hc. destruct (Hcs c Hc); [|done]. eapply grows_call; eauto.
  - cbn. intros j x [[-> [<- _]]|[Hj Hx]]%list_lookup_insert_Some; [done|].
    eapply grows_poll; [done|by apply Hcur|by apply H4].
  - intros t j Ht. destruct (Hes t j Ht); [|done]. eapply grows_leader; eauto.
Qed.

(** A change of one node with the same calls. *)
Lemma update_node_ok cl i nd nd' :
  cl_ok cl -> nodes cl !! i = Some nd -> advances nd nd' -> node_ok i nd' -> poll_ok (set_node cl i nd') i nd' ->
  cl_ok (set_node cl i nd').
Proof. intros Hcl Hi Ha Hn Hp. apply (update_ok cl i nd); auto. Qed.

(** Roles and terms move as [moves] says: what is on the channel stays backed. *)
Lemma moves_poll cl cl' i nd r :
  grows cl cl' -> moves (n_raft nd) r -> current i nd (calls cl') = current i nd (calls cl) ->
  poll_ok cl i nd -> poll_ok cl' i (set_raft nd r).
Proof.
  intros Hg (_ & _ & Hm) Hc Hp Ho. destruct (Hp Ho) as [Hd Hb]. split; [by rewrite <- Hc in Hd|].
  cbn. intros Hst j Hj. destruct Hm as [[E1 E2]|[E1 _]]; [|congruence]. rewrite E2.
  eapply grows_backs; [done|]. apply Hb; [congruence|done].
Qed.

Lemma moves_node i nd nd' : node_ok i nd -> moves (n_raft nd) (n_raft nd') -> vote_inv (n_backed nd') (n_raft nd') -> node_ok i nd'.
Proof. intros [? ? ?] (Hm & Hp & _) Hv. split; [done|congruence|congruence]. Qed.

Lemma NewRaft_peers peers me disk r : NewRaft peers me disk = Some r -> r_peers r = peers.
Proof.
  unfold NewRaft, readPersist. intros Hn. destruct (RaftWAL.LoadPersist _) as [p|]; [|done]. cbn [mbind option_bind] in Hn.
  destruct p as [data|e]; cbn -[RaftWAL.LoadLatestSnapshot] in Hn.
  - destruct (0 <? RaftWAL.LastIncludedIndex data) eqn:E; cbn -[RaftWAL.LoadLatestSnapshot] in Hn; rewrite E in Hn;
      [|by injection Hn as <-].
    destruct (RaftWAL.LoadLatestSnapshot _) as [[[[[?|] ?] ?]|]|]; (done || by injection Hn as <-).
  - by injection Hn as <-.
Qed.

(** *** The calls of an election *)

Lemma omap_insert_same {A B} (f : A -> option B) (l : list A) k x y : l !! k = Some x -> f y = f x -> omap f (<[k := y]> l) = omap f l.
Proof.
  intros Hk E. revert k Hk. induction l as [|z l IH]; intros [|k] Hk; simplify_eq/=; [by rewrite E|].
  by destruct (f z); rewrite IH.
Qed.

Lemma omap_delete {A B} (f : A -> option B) (l : list A) k x :
  l !! k = Some x -> omap f l ≡ₚ (match f x with Some y => [y] | None => [] end) ++ omap f (delete k l).
Proof.
  revert k. induction l as [|z l IH]; intros [|k] Hk; simplify_eq/=; [by destruct (f x)|].
  destruct (f z) as [y|]; [|by apply IH]. rewrite (IH k Hk). by rewrite Permutation_middle.
Qed.

Lemma omap_delete_none {A B} (f : A -> option B) (l : list A) k x : l !! k = Some x -> f x = None -> omap f (delete k l) = omap f l.
Proof.
  intros Hk E. revert k Hk. induction l as [|z l IH]; intros [|k] Hk; simplify_eq/=; [by rewrite E|].
  by destruct (f z); rewrite IH.
Qed.

Lemma current_answered cs k c x i nd : cs !! k = Some c -> current i nd (<[k := answered c x]> cs) = current i nd cs.
Proof. intros Hk. by apply (omap_insert_same _ _ _ c). Qed.

Lemma current_asks_other j x i nd args : j <> i -> current j x (asks n i nd args) = [].
Proof.
  intros Hj. unfold current, asks. induction (filter _ _) as [|k l IH]; [done|]. cbn. unfold pending at 1. cbn.
  rewrite decide_False by (intros [? _]; congruence). done.
Qed.

Lemma current_asks i nd r args : current i (begin_election nd r) (asks n i nd args) = filter (fun j => j <> i) (seq 0 n).
Proof.
  unfold current, asks. induction (filter _ _) as [|k l IH]; [done|]. cbn. unfold pending at 1. cbn.
  rewrite decide_True by done. by f_equal.
Qed.

Lemma current_stale cl i nd r : nodes cl !! i = Some nd -> (forall c, c ∈ calls cl -> call_ok cl c) ->
  current i (begin_election nd r) (calls cl) = [].
Proof.
  intros Hi Hc. unfold current. induction (calls cl) as [|c cs IH]; [done|]. cbn. rewrite IH by (intros; apply Hc; by right).
  unfold pending. rewrite decide_False; [done|]. cbn. intros (<- & Hr & Hl).
  destruct (co_fresh _ _ (Hc c ltac:(by left)) nd Hi) as [_ Hle]. specialize (Hle Hl). lia.
Qed.

(** *** The steps keep it *)

Lemma begin_node i nd r args :
  node_ok i nd -> r_Term (n_raft nd) < 2 ^ 63 - 1 -> startElection (n_raft nd) = Some (r, args) ->
  node_ok i (begin_election nd r) /\ va_CandidateID args = Z.of_nat i /\ i64 (va_Term args).
Proof.
  intros [Hv Hm Hp] Ht Hs. pose proof (startElection_inv _ _ _ _ Hv Ht Hs) as Hv'.
  assert (r_me r = r_me (n_raft nd) /\ r_peers r = r_peers (n_raft nd) /\ va_CandidateID args = r_me (n_raft nd) /\ va_Term args = r_Term r) as (E1 & E2 & E3 & E4).
  { revert Hs. unfold startElection. case_match; [done|].
    match goal with |- context [let '(_, _) := ?x in _] => destruct x end. by intros [= <- <-]. }
  split; [split; [exact Hv'|cbn; congruence|cbn; congruence]|]. split; [congruence|]. rewrite E4. apply Hv'.
Qed.

Lemma start_ok cl i nd r args :
  cl_ok cl -> nodes cl !! i = Some nd -> r_Term (n_raft nd) < 2 ^ 63 - 1 -> startElection (n_raft nd) = Some (r, args) ->
  cl_ok (set_calls (set_node cl i (begin_election nd r)) (calls cl ++ asks n i nd args)).
Proof.
  intros Hcl Hi Ht Hs. destruct (begin_node i nd r args) as (Hn & Hid & Hw); [by apply Hcl|done|done|].
  apply (update_ok cl i nd); try done.
  - split_and!; cbn; auto.
  - intros c [?|Hc]%elem_of_app; [by left|]. right.
    apply list_elem_of_fmap in Hc as (j & -> & [Hj _]%list_elem_of_filter). split; cbn.
    + split; [|done]. apply lookup_lt_Some in Hi. by rewrite (ok_len cl Hcl) in Hi.
    + done.
    + done.
    + rewrite list_lookup_insert_eq by (by eapply lookup_lt_Some). intros ? [= <-]. cbn. lia.
  - intros _. cbn [calls set_calls set_node n_votes n_raft begin_election]. unfold current. rewrite omap_app.
    pose proof (current_stale cl i nd r Hi (ok_call cl Hcl)) as Hst. unfold current in Hst. rewrite Hst.
    pose proof (current_asks i nd r args) as Ha. unfold current in Ha. rewrite Ha.
    split; [|by intros _ j ?%elem_of_nil]. constructor; [|apply NoDup_filter, NoDup_seq].
    cbn. rewrite list_elem_of_filter. tauto.
  - intros j x Hj. unfold current. rewrite omap_app. pose proof (current_asks_other j x i nd args Hj) as Ha. unfold current in Ha.
    by rewrite Ha, app_nil_r.
  - intros t j ?. by left.
Qed.

Lemma serve_vote_ok cl k c nd nd' reply :
  cl_ok cl -> Z.of_nat n < 2 ^ 63 -> calls cl !! k = Some c -> nodes cl !! c_to c = Some nd -> serve_vote nd (c_args c) = (nd', reply) ->
  cl_ok (set_calls (set_node cl (c_to c) nd') (<[k := answered c (Some reply)]> (calls cl))).
Proof.
  intros Hcl Hn Hk Hnd Hs. pose proof (ok_call cl Hcl c ltac:(by eapply list_elem_of_lookup_2)) as Hc.
  destruct Hc as [[Hf Hft] [Hid Hw] Hr Hfresh]. pose proof (ok_node cl Hcl _ _ Hnd) as [Hv Hm Hp].
  assert (event_ok (n_raft nd) (ERequestVote (c_args c))) as Hev.
  { cbn. rewrite Hid, Hm. unfold i64 in *. split_and!; lia. }
  pose proof (RequestVote_inv _ _ _ Hv Hev) as Hv'. pose proof (moves_RequestVote (n_raft nd) (c_args c)) as Hmv.
  unfold serve_vote in Hs. unfold commitment in *. destruct (RequestVote (n_raft nd) (c_args c)) as [r rep] eqn:E.
  injection Hs as <- <-. cbn [fst snd] in *.
  assert (advances nd (set_backed (set_raft nd r) ((if vr_VoteGranted rep then [(vr_Term rep, va_CandidateID (c_args c))] else []) ++ n_backed nd))) as Hadv.
  { split_and!; cbn; auto. intros b Hb. apply elem_of_app. by right. }
  apply (update_ok cl (c_to c) nd); try done.
  - by eapply moves_node.
  - intros c0 Hc0. apply list_elem_of_lookup in Hc0 as (k0 & Hc0). apply list_lookup_insert_Some in Hc0 as [(-> & <- & _)|[_ Hc0]];
      [right|left; by eapply list_elem_of_lookup_2].
    assert (grows cl (mkCluster (<[c_to c := set_backed (set_raft nd r) ((if vr_VoteGranted rep then [(vr_Term rep, va_CandidateID (c_args c))] else []) ++ n_backed nd)]> (nodes cl))
      (<[k0 := answered c (Some rep)]> (calls cl)) (elected cl))) as Hg by by eapply grows_insert.
    destruct (grows_call _ _ c Hg ltac:(by split)) as [? ? _ Hfr]. split; [done|done| |done].
    cbn. intros reply [= <-]. split.
    { assert (vr_Term rep = r_Term r \/ vr_Term rep = r_Term (n_raft nd)) as [->| ->]; [|apply Hv'|apply Hv].
      clear -E. revert E. unfold RequestVote. case_match; [intros [= <- <-]; auto|]. case_match; intros [= <- <-]; auto. }
    intros Hg1. rewrite Hg1, Hid. unfold backs. cbn. rewrite list_lookup_insert_eq by (by eapply lookup_lt_Some). cbn. left.
  - refine (moves_poll cl _ (c_to c) nd r _ Hmv _ (ok_poll cl Hcl _ _ Hnd)); [by eapply grows_insert|].
    by apply current_answered.
  - intros j x Hj. by rewrite current_answered.
  - intros t j ?. by left.
Qed.

Lemma lose_ok cl k c : cl_ok cl -> calls cl !! k = Some c -> cl_ok (set_calls cl (<[k := answered c None]> (calls cl))).
Proof.
  intros Hcl Hk. pose proof (grows_same cl (<[k := answered c None]> (calls cl))) as Hg. pose proof Hcl as [H1 H2 H3 H4 H5]. split; auto.
  - intros c0 [k0 Hc0]%list_elem_of_lookup. apply list_lookup_insert_Some in Hc0 as [(-> & <- & _)|[_ Hc0]];
      [|eapply grows_call; [done|]; apply H3; by eapply list_elem_of_lookup_2].
    destruct (grows_call _ _ c Hg) as [? ? _ ?]; [apply H3; by eapply list_elem_of_lookup_2|]. by split.
  - intros i nd Hi. eapply grows_poll; [done|by apply current_answered|by apply H4].
Qed.

(** A [true] on the channel is a granted vote of the candidate's own term. *)
Lemma hear_true r reply : (onVoteReply r reply).2 = true ->
  exists rep, reply = Some rep /\ vr_VoteGranted rep = true /\ vr_Term rep = r_Term r /\ (onVoteReply r reply).1 = r.
Proof.
  unfold onVoteReply. destruct reply as [rep|]; [|done]. destruct (Z.ltb_spec (r_Term r) (vr_Term rep)); [done|].
  cbn. intros [?%Z.eqb_eq ?]%andb_true_iff. eauto.
Qed.

Lemma hear_ok cl k c reply nd :
  cl_ok cl -> calls cl !! k = Some c -> c_phase c = Answered reply -> nodes cl !! c_from c = Some nd -> n_life nd = c_life c ->
  cl_ok (set_calls (set_node cl (c_from c) (hear nd c reply)) (delete k (calls cl))).
Proof.
  intros Hcl Hk Hph Hnd Hlife. pose proof (ok_call cl Hcl c ltac:(by eapply list_elem_of_lookup_2)) as [[Hf Hft] _ Hr _].
  pose proof (ok_node cl Hcl _ _ Hnd) as Hno. pose proof (moves_vote_reply (n_raft nd) reply) as Hmv.
  assert (vote_inv (n_backed nd) (onVoteReply (n_raft nd) reply).1) as Hv.
  { apply (step_inv _ (n_raft nd) (EVoteReply reply)); [apply Hno| |done]. destruct reply as [rep|]; [|done]. by apply (Hr rep). }
  assert (n_raft (hear nd c reply) = (onVoteReply (n_raft nd) reply).1 /\ n_backed (hear nd c reply) = n_backed nd /\
          n_round (hear nd c reply) = n_round nd /\ n_life (hear nd c reply) = n_life nd /\ n_open (hear nd c reply) = n_open nd /\
          n_votes (hear nd c reply) = if n_open nd && (n_round nd =? c_round c)%nat
            then n_votes nd ++ [(c_to c, (onVoteReply (n_raft nd) reply).2)] else n_votes nd) as (Er & Eb & Ero & El & Eo & Ev)
    by (unfold hear; by destruct (onVoteReply (n_raft nd) reply)).
  set (nd' := hear nd c reply) in *.
  assert (advances nd nd') as Hadv by (split_and!; rewrite ?El, ?Ero, ?Eb; auto).
  assert (forall i x, current i x (calls cl) ≡ₚ (match pending i x c with Some j => [j] | None => [] end) ++ current i x (delete k (calls cl))) as Hdel
    by (intros i x; by apply omap_delete).
  apply (update_ok cl (c_from c) nd); try done.
  - rewrite <- Er in Hmv. eapply moves_node; [done|done|]. by rewrite Er, Eb.
  - intros c0 Hc0. left. rewrite (delete_Permutation (calls cl) k c Hk). by right.
  - intros Ho. rewrite Eo in Ho. destruct (ok_poll cl Hcl _ _ Hnd Ho) as [Hd Hb]. cbn [calls set_calls set_node].
    assert (forall cs, current (c_from c) nd' cs = current (c_from c) nd cs) as Hcur
      by (intros cs; unfold current, pending; by rewrite Ero, El).
    rewrite Hcur, Er, Ev, Ho. cbn [andb]. specialize (Hdel (c_from c) nd). split.
    + destruct (Nat.eqb_spec (n_round nd) (c_round c)) as [E|E].
      * rewrite fmap_app. cbn. rewrite <- app_assoc. cbn. unfold pending in Hdel. rewrite decide_True in Hdel by done. cbn in Hdel.
        by rewrite <- Hdel.
      * unfold pending in Hdel. rewrite decide_False in Hdel by (intros (_ & ? & _); congruence). cbn in Hdel. by rewrite <- Hdel.
    + intros Hst j Hj. eapply grows_backs; [by eapply grows_insert|].
      assert ((j, true) ∈ n_votes nd \/ (j = c_to c /\ (onVoteReply (n_raft nd) reply).2 = true)) as [Hold|[-> Hnew]].
      { destruct (_ =? _)%nat; [|by left]. apply elem_of_app in Hj as [?|Hj]; [by left|]. apply list_elem_of_singleton in Hj. right. by simplify_eq. }
      * destruct Hmv as (_ & _ & [[E1 E2]|[E1 _]]); [|congruence]. rewrite E2. apply Hb; [congruence|done].
      * destruct (hear_true _ _ Hnew) as (rep & -> & Hg & Ht & E). rewrite E, <- Ht. by apply (Hr rep).
  - intros j x Hj. eapply omap_delete_none; [done|]. unfold pending. by rewrite decide_False by (intros [? _]; congruence).
  - intros t j ?. by left.
Qed.

Lemma work_ok_step cl i nd ev r :
  cl_ok cl -> nodes cl !! i = Some nd -> replication ev = true -> event_ok (n_raft nd) ev -> step (n_raft nd) ev = Some r ->
  cl_ok (set_node cl i (set_raft nd r)).
Proof.
  intros Hcl Hi Hrep Hok Hs. pose proof (ok_node cl Hcl _ _ Hi) as Hno.
  assert (moves (n_raft nd) r) as Hmv by (eapply step_moves; [|done]; by destruct ev).
  assert (vote_inv (n_backed nd) r) as Hv.
  { pose proof (step_inv _ _ _ _ (no_vote _ _ Hno) Hok Hs) as Hv. by destruct ev. }
  apply (update_node_ok cl i nd); [done|done|by split_and!|by eapply moves_node|].
  eapply (moves_poll cl); [by eapply grows_insert|done|done|by apply Hcl].
Qed.

Lemma crash_ok cl i nd r :
  cl_ok cl -> nodes cl !! i = Some nd -> NewRaft (r_peers (n_raft nd)) (r_me (n_raft nd)) (r_wal (n_raft nd)) = Some r ->
  cl_ok (set_node cl i (revive nd r)).
Proof.
  intros Hcl Hi Hn. pose proof (ok_node cl Hcl _ _ Hi) as [Hv Hm Hp].
  apply (update_node_ok cl i nd); [done|done|split_and!; cbn; auto; lia| |done].
  pose proof (restart_inv _ _ _ Hv Hn) as Hv'. split; [done|..]; cbn.
  - destruct (vi_disk _ _ Hv) as (t & v & Hl & _). by destruct (NewRaft_state _ _ _ _ _ _ Hl Hn) as [-> _].
  - rewrite <- Hp. f_equal. by eapply NewRaft_peers.
Qed.

Lemma NoDup_fmap_filter (P : nat * bool -> Prop) `{!forall x, Decision (P x)} l : NoDup l.*1 -> NoDup (filter P l).*1.
Proof.
  induction l as [|x l IH]; [done|]. rewrite fmap_cons, NoDup_cons. intros [Hx Hl]. rewrite filter_cons. case_decide; [|auto].
  rewrite fmap_cons. constructor; [|auto]. intros (y & E & [_ Hy]%list_elem_of_filter)%list_elem_of_fmap. apply Hx, list_elem_of_fmap. by exists y.
Qed.

(** *** The end of an election *)

Lemma granted_voters (l : list (nat * bool)) : granted l.*2 = zlen (filter (fun p => p.2 = true) l).
Proof.
  induction l as [|[j v] l IH]; [done|]. cbn [fmap list_fmap snd]. rewrite granted_cons, IH, filter_cons. cbn [snd].
  destruct v; [rewrite decide_True by done|rewrite decide_False by done]; len_lia.
Qed.

Lemma granted_take k l : granted (take k l) <= granted l.
Proof.
  rewrite <- (take_drop k l) at 2. unfold granted. rewrite filter_app. pose proof (zlen_nonneg (filter (fun v => v = true) (drop k l))). len_lia.
Qed.

(** Distinct backers are counted. *)
Lemma backers_count cl t i l : NoDup l -> (forall j, j ∈ l -> (j < n)%nat /\ backs cl t i j) -> zlen l <= zlen (backers cl t i).
Proof.
  intros Hd Hl. unfold zlen. apply inj_le, submseteq_length, NoDup_submseteq; [done|].
  intros j Hj. apply list_elem_of_filter. destruct (Hl j Hj). split; [done|]. apply elem_of_seq. lia.
Qed.

Lemma backs_node cl t i j : cl_ok cl -> backs cl t i j -> (j < n)%nat.
Proof.
  intros Hcl Hb. unfold backs in Hb. rewrite <- (ok_len cl Hcl). destruct (nodes cl !! j) eqn:E; [by eapply lookup_lt_Some|].
  by apply elem_of_nil in Hb.
Qed.

(** A commitment at the end of an election: the votes on the channel sufficed. *)
Lemma won_inv r votes b : b ∈ commitment r (EFinishElection votes) ->
  b = (r_Term r, r_me r) /\ r_state r = Candidate /\ awaitVotes (zlen (r_peers r)) votes = Elected.
Proof.
  unfold commitment. destruct (_ && _) eqn:E; [|by intros ?%elem_of_nil]. intros ->%list_elem_of_singleton.
  apply andb_true_iff in E as [E1%bool_decide_eq_true E2%bool_decide_eq_true]. unfold finishElection in E2.
  destruct (awaitVotes _ _); [|done|].
  - destruct (bool_decide_reflect (r_state r = Candidate)); [done|done].
  - destruct (bool_decide_reflect (r_state r = Candidate)); done.
Qed.

Lemma finish_fields r votes : r_me (finishElection r votes) = r_me r /\ r_peers (finishElection r votes) = r_peers r.
Proof. unfold finishElection. repeat case_match; done. Qed.

(** The votes that won an election come from distinct peers that granted them. *)
Lemma won_backers cl cl' i nd :
  cl_ok cl -> nodes cl !! i = Some nd -> n_open nd = true -> r_state (n_raft nd) = Candidate ->
  awaitVotes (zlen (r_peers (n_raft nd))) (n_votes nd).*2 = Elected ->
  grows cl cl' -> backs cl' (r_Term (n_raft nd)) i i -> Z.of_nat n / 2 <= zlen (backers cl' (r_Term (n_raft nd)) i).
Proof.
  intros Hcl Hi Ho Hst He Hg Hself. pose proof (no_peers _ _ (ok_node cl Hcl _ _ Hi)) as Hp.
  destruct (ok_poll cl Hcl _ _ Hi Ho) as [Hd Hb]. specialize (Hb Hst).
  set (voters := (filter (fun p => p.2 = true) (n_votes nd)).*1).
  assert (forall j, j ∈ voters -> (j, true) ∈ n_votes nd) as Hvo.
  { intros j ([j' v] & -> & [Hv1 Hv2]%list_elem_of_filter)%list_elem_of_fmap. cbn in *. by subst. }
  assert (zlen (i :: voters) <= zlen (backers cl' (r_Term (n_raft nd)) i)) as Hcount.
  { apply backers_count.
    - apply NoDup_cons in Hd as [Hni Hd]. apply NoDup_app in Hd as [Hd _]. constructor.
      + intros Hin%Hvo. apply Hni, elem_of_app. left. apply list_elem_of_fmap. by exists (i, true).
      + unfold voters. eapply NoDup_fmap_filter, Hd.
    - intros j [->|Hj%Hvo]%elem_of_cons.
      + split; [|done]. rewrite <- (ok_len cl Hcl). by eapply lookup_lt_Some.
      + specialize (Hb j Hj). split; [by eapply backs_node|by eapply grows_backs]. }
  destruct (decide (2 <= zlen (r_peers (n_raft nd)))) as [H2|H2].
  + apply awaitVotes_elected in He; [|done]. rewrite Hp in *.
    pose proof (granted_take (Z.to_nat (Z.of_nat n - 2)) (n_votes nd).*2) as Hle. rewrite granted_voters in Hle.
    unfold voters in Hcount. rewrite zlen_cons in Hcount. unfold zlen in *. rewrite length_fmap in Hcount. lia.
  + rewrite Hp in H2. pose proof (zlen_nonneg (backers cl' (r_Term (n_raft nd)) i)).
    assert (Z.of_nat n / 2 <= 0) by (apply Z.lt_succ_r, Z.div_lt_upper_bound; lia). lia.
Qed.

Lemma finish_ok cl i nd nd' won :
  cl_ok cl -> nodes cl !! i = Some nd -> n_open nd = true -> end_election nd = (nd', won) ->
  cl_ok (mkCluster (<[i := nd']> (nodes cl)) (calls cl) (((fun b => (b.1, i)) <$> won) ++ elected cl)).
Proof.
  intros Hcl Hi Ho [= <- <-]. pose proof (ok_node cl Hcl _ _ Hi) as [Hv Hm Hp].
  pose proof (finishElection_inv _ _ (n_votes nd).*2 Hv) as Hv'.
  destruct (finish_fields (n_raft nd) (n_votes nd).*2) as [Em Ep].
  apply (update_ok cl i nd); try done.
  - split_and!; cbn; auto. intros b Hb. apply elem_of_app. by right.
  - split; [exact Hv'|cbn; congruence|cbn; congruence].
  - intros c Hc. by left.
  - intros t j [Hj|?]%elem_of_app; [right|by left]. apply list_elem_of_fmap in Hj as ([t' m] & [= -> ->] & Hw). cbn in *.
    pose proof (won_inv _ _ _ Hw) as ([= -> ->] & Hst & He).
    match goal with |- leader_ok ?c _ _ => set (cl' := c) end.
    assert (grows cl cl') as Hg.
    { apply (grows_insert cl i nd); [done|]. split_and!; cbn; auto. intros b ?. apply elem_of_app. by right. }
    assert (backs cl' (r_Term (n_raft nd)) i i) as Hself.
    { unfold backs, cl'. cbn [nodes]. rewrite list_lookup_insert_eq by (by eapply lookup_lt_Some). cbn. apply elem_of_app. left. by rewrite <- Hm. }
    split; [done|].
    by eapply won_backers.
Qed.

Hypothesis small : Z.of_nat n < 2 ^ 63.

Lemma cstep_ok cl cl' : cstep cl cl' -> cl_ok cl -> cl_ok cl'.
Proof.
  intros Hs Hcl. destruct Hs.
  - by apply start_ok.
  - by eapply serve_vote_ok.
  - by apply lose_ok.
  - by apply hear_ok.
  - by eapply finish_ok.
  - by eapply work_ok_step.
  - by apply crash_ok.
Qed.

Lemma initial_ok peers cl : initial peers cl -> cl_ok cl.
Proof.
  intros (Hp & Hl & Hc & He & Hf). split; [done|..].
  - intros i nd Hi. destruct (Hf i nd Hi) as (disk & t & v & r & Hd & Ht & Hv & Hn & ->).
    apply lookup_lt_Some in Hi. rewrite Hl in Hi.
    destruct (NewRaft_state _ _ _ _ _ _ Hd Hn) as (Hm & _). split; cbn.
    + eapply (life_inv peers (Z.of_nat i) disk r []); [done|done|done|unfold i64; lia|lia|by apply life_start].
    + done.
    + rewrite (NewRaft_peers _ _ _ _ Hn). unfold zlen. lia.
  - rewrite Hc. by intros c ?%elem_of_nil.
  - intros i nd Hi Ho. destruct (Hf i nd Hi) as (disk & t & v & r & _ & _ & _ & _ & ->). done.
  - rewrite He. by intros t i ?%elem_of_nil.
Qed.

Lemma cluster_reachable_ok peers cl0 cl : initial peers cl0 -> rtc cstep cl0 cl -> cl_ok cl.
Proof. intros Hi Hr. eapply (rtc_invariant cstep cl_ok); [|done|by eapply initial_ok]. intros ? ? ? ?. by eapply cstep_ok. Qed.

(** A node backs one candidate in a term. *)
Lemma backers_disjoint cl t i j k : cl_ok cl -> backs cl t i k -> backs cl t j k -> i = j.
Proof.
  intros Hcl. unfold backs. destruct (nodes cl !! k) as [nd|] eqn:E; [|by intros ?%elem_of_nil]. cbn. intros Hi Hj.
  pose proof (vi_func _ _ (no_vote _ _ (ok_node cl Hcl _ _ E)) _ _ _ Hi Hj). lia.
Qed.

(** Two sets of backers of different candidates fit into the cluster together. *)
Lemma backers_sum cl t i j : cl_ok cl -> i <> j -> zlen (backers cl t i) + zlen (backers cl t j) <= Z.of_nat n.
Proof.
  intros Hcl Hij. rewrite <- zlen_app. unfold zlen. apply inj_le.
  apply Nat.le_trans with (length (seq 0 n)); [|by rewrite length_seq]. apply submseteq_length, NoDup_submseteq.
  - apply NoDup_app. split_and!; [apply NoDup_filter, NoDup_seq| |apply NoDup_filter, NoDup_seq].
    intros k [Hi _]%list_elem_of_filter [Hj _]%list_elem_of_filter. apply Hij. by eapply backers_disjoint.
  - intros k [[_ ?]%list_elem_of_filter|[_ ?]%list_elem_of_filter]%elem_of_app; done.
Qed.

(** C3: election safety of the cluster, as far as the counting of votes gives it.
    Over every interleaving of the nodes' elections, vote requests, replies (lost
    or late ones too), replication messages of any content and crashes: a leader
    is backed in its term by at least [n/2] nodes, itself included, each of which
    granted it a vote by a reply; nobody backs two candidates in a term; so two
    leaders of one term that a majority backs are the same node, and of two
    different leaders of a term one has exactly [n/2] backers, the vote its own
    double count supplied missing. *)
Theorem election_safety (peers : list bytes) (cl0 cl : cluster) (Hinit : initial peers cl0) (Hrun : rtc cstep cl0 cl) :
  (forall t i, (t, i) ∈ elected cl -> Z.of_nat n / 2 <= zlen (backers cl t i)) /\
  (forall t i j k, k ∈ backers cl t i -> k ∈ backers cl t j -> i = j) /\
  (forall t i j, (t, i) ∈ elected cl -> (t, j) ∈ elected cl ->
     Z.of_nat n / 2 < zlen (backers cl t i) -> Z.of_nat n / 2 < zlen (backers cl t j) -> i = j) /\
  (forall t i j, (t, i) ∈ elected cl -> (t, j) ∈ elected cl -> i <> j ->
     zlen (backers cl t i) = Z.of_nat n / 2 \/ zlen (backers cl t j) = Z.of_nat n / 2).
Proof.
  pose proof (cluster_reachable_ok peers cl0 cl Hinit Hrun) as Hcl.
  assert (forall t i j, i <> j -> Z.of_nat n / 2 < zlen (backers cl t i) -> zlen (backers cl t j) <= Z.of_nat n / 2) as Hsum.
  { intros t i j Hij Hi. pose proof (backers_sum cl t i j Hcl Hij). pose proof (Z.div_mod (Z.of_nat n) 2). pose proof (Z.mod_pos_bound (Z.of_nat n) 2). lia. }
  split_and!.
  - intros t i Hi. apply (ok_leader cl Hcl t i Hi).
  - intros t i j k [Hi _]%list_elem_of_filter [Hj _]%list_elem_of_filter. by eapply backers_disjoint.
  - intros t i j _ _ Hi Hj. destruct (decide (i = j)) as [|Hij]; [done|]. specialize (Hsum t i j Hij Hi). lia.
  - intros t i j Hi Hj Hij. pose proof (ok_leader cl Hcl t i Hi) as [_ Hi']. pose proof (ok_leader cl Hcl t j Hj) as [_ Hj'].
    destruct (decide (Z.of_nat n / 2 < zlen (backers cl t i))) as [Hm|Hm]; [right|left; lia]. specialize (Hsum t i j Hij Hm). lia.
Qed.

End Cluster.

(** ** Sample: two leaders of a term in a cluster of three

    Nodes 0 and 2 stand for election, node 1 votes for node 0; both win. *)
Definition sample_node (me : Z) : option node := r ← NewRaft sample_peers me empty_disk; Some (mkNode r 0 false [] 0 []).
Definition sample_cluster : cluster := mkCluster (omap sample_node [0; 1; 2]) [] [].

Lemma sample_initial : initial 3 sample_peers sample_cluster.
Proof.
  do 4 (split; [vm_compute; reflexivity|]). intros i nd Hi. exists empty_disk, 0, (-1), (n_raft nd).
  destruct i as [|[|[|i]]]; [..|done]; vm_compute in Hi; injection Hi as <-; split_and!; eval_closed.
Qed.

(** Evaluate one goal after the other. *)
Ltac eval_goal := lazymatch goal with |- _ => vm_compute; reflexivity end.

Lemma election_run : exists cl, rtc (@cstep sample_config 3) sample_cluster cl /\
  elected cl = [(1, 2%nat); (1, 0%nat)] /\ zlen (backers 3 cl 1 0) = 2.
Proof.
  eexists. split; [|split].
  - eapply rtc_l; [eapply (@c_start sample_config 3 _ 0); eval_goal|].
    eapply rtc_l; [eapply (@c_start sample_config 3 _ 2); eval_goal|].
    eapply rtc_l; [eapply (@c_vote sample_config 3 _ 0); eval_goal|].
    eapply rtc_l; [eapply (@c_hear sample_config 3 _ 0); eval_goal|].
    eapply rtc_l; [eapply (@c_finish sample_config 3 _ 0); eval_goal|].
    eapply rtc_l; [eapply (@c_finish sample_config 3 _ 2); eval_goal|].
    apply rtc_refl.
  - vm_compute. reflexivity.
  - vm_compute. reflexivity.
Qed.

Lemma election_safety_witness : exists cl, rtc (@cstep sample_config 3) sample_cluster cl /\
  elected cl = [(1, 2%nat); (1, 0%nat)] /\ zlen (backers 3 cl 1 2) = 1.
Proof.
  destruct election_run as (cl & Hrun & He & H0). exists cl. split; [exact Hrun|]. split; [exact He|].
  destruct (@election_safety sample_config 3 ltac:(vm_compute; reflexivity) sample_peers sample_cluster cl sample_initial Hrun) as (_ & _ & _ & Htwo).
  destruct (Htwo 1 0%nat 2%nat) as [E|E]; [rewrite He; right; left|rewrite He; left|discriminate|rewrite H0 in E; vm_compute in E; discriminate E|exact E].
Defined.

End Cluster.
