(* ===== verification/Heartbeat.v ===== *)
(** The timers and goroutines of a Raft node ([Raft/raft.go]): the election timer
    and its loop, the ticker and the goroutine each leadership starts, and
    [SendHeartBeat], which gives the lock away between two peers.  What keeps a
    leader speaking, and what does not keep it a leader. *)
From S2P Require Import Prelude Bytes Strconv RaftWAL Raft RaftVote.
Import Raft Voting.

Module Heartbeat.

(** ** The election timer *)

(** In nanoseconds. *)
Definition MinElectionTimeout : Z := 150000000.
Definition MaxElectionTimeout : Z := 300000000.
Definition HeartbeatInterval : Z := 50000000.

(** [armed]: what is left until it expires; [fired]: a tick waits in its channel. *)
Record Timer := mkTimer { armed : option Z; fired : bool }.

(** [Stop] tells whether the timer was still running. *)
Definition Stop (t : Timer) : Timer * bool := (mkTimer None (fired t), bool_decide (is_Some (armed t))).
Definition Reset (t : Timer) (d : Z) : Timer := mkTimer (Some d) (fired t).

(** [jitter] is [rand.Int63n(MaxElectionTimeout - MinElectionTimeout)]. *)
Definition resetElectionTimer (t : Timer) (jitter : Z) : Timer :=
  let '(t, running) := Stop t in
  let t := if (running : bool) then t else mkTimer (armed t) false in
  Reset t (MinElectionTimeout + jitter).

(** What [electionLoop] selects from, and where it is: in its [select], or in the
    part of [startElection] that waits for votes. *)
Inductive wake := TimerFires | HeartbeatSignal | ElectionSignal.
Inductive phase := Selecting | Electing.

(** A node with its election loop.  The two channels have no buffer: what counts is
    how many goroutines are about to send on them.  [asked]: the vote requests of
    the elections it began, oldest first. *)
Record Elector := mkElector {
  e_raft : Raft;
  timer : Timer;
  loop : phase;
  heartbeatCh : nat;
  electionCh : nat;
  asked : list RequestVoteArgs;
}.

Definition NewElector (r : Raft) (jitter : Z) : Elector :=
  mkElector r (mkTimer (Some (MinElectionTimeout + jitter)) false) Selecting 0 0 [].

(** Time passes. *)
Definition elapse (t : Timer) (d : Z) : Timer :=
  match armed t with
  | Some a => if a <=? d then mkTimer None true else mkTimer (Some (a - d)) (fired t)
  | None => t
  end.

(** A turn of the loop by the given case of its [select]; [None] if that case is not
    ready, or the loop is elsewhere. *)
Definition select (e : Elector) (w : wake) (jitter : Z) : option Elector :=
  match loop e with
  | Electing => None
  | Selecting =>
      match w with
      | TimerFires =>
          if negb (fired (timer e)) then None else
          let t := mkTimer (armed (timer e)) false in
          match startElection (e_raft e) with
          | None => Some (mkElector (e_raft e) (resetElectionTimer t jitter) Selecting (heartbeatCh e) (electionCh e) (asked e))
          | Some (r, args) => Some (mkElector r t Electing (heartbeatCh e) (electionCh e) (asked e ++ [args]))
          end
      | HeartbeatSignal =>
          match heartbeatCh e with
          | O => None
          | S n => Some (mkElector (e_raft e) (resetElectionTimer (timer e) jitter) Selecting n (electionCh e) (asked e))
          end
      | ElectionSignal =>
          match electionCh e with
          | O => None
          | S n => Some (mkElector (e_raft e) (resetElectionTimer (timer e) jitter) Selecting (heartbeatCh e) n (asked e))
          end
      end
  end.

(** The votes are in, or the wait is over. *)
Definition counted (e : Elector) (votes : list bool) (jitter : Z) : option Elector :=
  match loop e with
  | Selecting => None
  | Electing => Some (mkElector (finishElection (e_raft e) votes) (resetElectionTimer (timer e) jitter) Selecting (heartbeatCh e) (electionCh e) (asked e))
  end.

(** A critical section of the node: none of them touches the timer, sends on a
    channel or starts a goroutine that does. *)
Definition section `{RaftConfig} (e : Elector) (ev : event) : option Elector :=
  r ← step (e_raft e) ev; Some (mkElector r (timer e) (loop e) (heartbeatCh e) (electionCh e) (asked e)).

Inductive happens := Handles (ev : event) | Elapses (d : Z).

Definition happen `{RaftConfig} (e : Elector) (h : happens) : option Elector :=
  match h with
  | Handles ev => section e ev
  | Elapses d => Some (mkElector (e_raft e) (elapse (timer e) d) (loop e) (heartbeatCh e) (electionCh e) (asked e))
  end.

Definition happen_all `{RaftConfig} (e : Elector) (hs : list happens) : option Elector :=
  foldl (fun e h => e ← e; happen e h) (Some e) hs.

(** What a node handles beside its elections, and time that does not run back. *)
Definition passes (h : happens) : Prop :=
  match h with Handles ev => quiet ev = true | Elapses d => 0 <= d end.

Definition jitter_ok (j : Z) : Prop := 0 <= j < MaxElectionTimeout - MinElectionTimeout.

Inductive elector_life `{RaftConfig} (peers : list bytes) (me : Z) (disk : RaftWAL.RaftWAL) : Elector -> Prop :=
  | el_start r j : NewRaft peers me disk = Some r -> jitter_ok j -> elector_life peers me disk (NewElector r j)
  | el_happens e h e' : elector_life peers me disk e -> passes h -> happen e h = Some e' -> elector_life peers me disk e'
  | el_select e w j e' : elector_life peers me disk e -> jitter_ok j -> select e w j = Some e' -> elector_life peers me disk e'
  | el_counted e votes j e' : elector_life peers me disk e -> jitter_ok j -> counted e votes j = Some e' -> elector_life peers me disk e'.

(** ** The heartbeat goroutines *)

(** A ticker: its channel holds at most one tick. *)
Record Ticker := mkTicker { running : bool; tick : bool }.

(** A goroutine of [startHeartbeatLoop]: before its test of the role; past it;
    receiving from a ticker; about to call [SendHeartBeat]; in its loop over the
    peers, between two of them; ended. *)
Inductive Loop := Testing | Passed | Waiting (t : nat) | Woken | Sending (rest : list nat) | Ended.

(** [sent] records the messages, oldest first. *)
Record Node := mkNode {
  raft : Raft;
  heartbeatTicker : option nat;
  tickers : list Ticker;
  loops : list Loop;
  sent : list (nat * rpc);
}.

Definition set_raft (nd : Node) (r : Raft) : Node := mkNode r (heartbeatTicker nd) (tickers nd) (loops nd) (sent nd).
Definition set_tickers (nd : Node) (ts : list Ticker) : Node := mkNode (raft nd) (heartbeatTicker nd) ts (loops nd) (sent nd).
Definition set_loop (nd : Node) (l : nat) (s : Loop) : Node :=
  mkNode (raft nd) (heartbeatTicker nd) (tickers nd) (<[l := s]> (loops nd)) (sent nd).

Definition stop_ticker (nd : Node) (t : nat) : Node :=
  set_tickers nd (alter (fun k => mkTicker false (tick k)) t (tickers nd)).

Definition startHeartbeatLoop (nd : Node) : Node :=
  let nd := match heartbeatTicker nd with Some t => stop_ticker nd t | None => nd end in
  mkNode (raft nd) (Some (length (tickers nd))) (tickers nd ++ [mkTicker true false]) (loops nd ++ [Testing]) (sent nd).

(** The critical sections that end in [becomeLeader]. *)
Definition becomesLeader (r : Raft) (ev : event) : bool :=
  match ev with
  | EFinishElection votes =>
      match awaitVotes (zlen (r_peers r)) votes with Elected => bool_decide (r_state r = Candidate) | _ => false end
  | _ => false
  end.

(** The replies that stop the ticker. *)
Definition stepsDown (r : Raft) (ev : event) : bool :=
  match ev with
  | EAppendReply _ (Some reply) => r_Term r <? ar_Term reply
  | EInstallReply _ (Some reply) => negb (ir_Success reply) && (r_Term r <? ir_Term reply)
  | _ => false
  end.

(** A critical section with what it does to the ticker; [None] is a panic, also of
    [Stop] on a nil ticker. *)
Definition handle `{RaftConfig} (nd : Node) (ev : event) : option Node :=
  r ← step (raft nd) ev;
  match ev with
  | ERestart => Some (mkNode r None [] [] (sent nd))
  | _ =>
      if stepsDown (raft nd) ev then t ← heartbeatTicker nd; Some (stop_ticker (set_raft nd r) t)
      else if becomesLeader (raft nd) ev then Some (startHeartbeatLoop (set_raft nd r))
      else Some (set_raft nd r)
  end.

(** [SendHeartBeat] from the peers [rest] on, to its next [Unlock]. *)
Definition beat (nd : Node) (l : nat) (rest : list nat) : option Node :=
  match rest with
  | [] => Some (set_loop nd l Testing)
  | i :: rest =>
      m ← heartbeatTo (raft nd) i;
      Some (mkNode (raft nd) (heartbeatTicker nd) (tickers nd) (<[l := Sending rest]> (loops nd)) (sent nd ++ [(i, m)]))
  end.

(** [SendHeartBeat], up to its first [Unlock]. *)
Definition SendHeartBeat (nd : Node) (l : nat) : option Node :=
  if bool_decide (r_state (raft nd) = Leader) then beat nd l (others (raft nd)) else Some (set_loop nd l Testing).

(** The next thing goroutine [l] does; [None]: it has ended, waits, or panics. *)
Definition loop_turn (nd : Node) (l : nat) : option Node :=
  s ← loops nd !! l;
  match s with
  | Testing => Some (set_loop nd l (if bool_decide (r_state (raft nd) = Leader) then Passed else Ended))
  | Passed => t ← heartbeatTicker nd; Some (set_loop nd l (Waiting t))
  | Waiting t =>
      k ← tickers nd !! t;
      if tick k then Some (set_loop (set_tickers nd (<[t := mkTicker (running k) false]> (tickers nd))) l Woken) else None
  | Woken => SendHeartBeat nd l
  | Sending rest => beat nd l rest
  | Ended => None
  end.

Definition fire (nd : Node) (t : nat) : Node := set_tickers nd (<[t := mkTicker true true]> (tickers nd)).

Section Node.
Context `{RaftConfig}.

(** What the runtime and the goroutines do by themselves. *)
Inductive timed (nd : Node) : Node -> Prop :=
  | n_tick t k : tickers nd !! t = Some k -> running k = true -> timed nd (fire nd t)
  | n_loop l nd' : loop_turn nd l = Some nd' -> timed nd nd'.

Inductive nstep (nd : Node) : Node -> Prop :=
  | n_event ev nd' : handle nd ev = Some nd' -> nstep nd nd'
  | n_timed nd' : timed nd nd' -> nstep nd nd'.

(** A node at its start, from any disk. *)
Definition started (nd : Node) : Prop :=
  exists peers me disk r, NewRaft peers me disk = Some r /\ nd = mkNode r None [] [] [].

(** ** The role and the critical sections *)

Lemma readPersist_state r r' : readPersist r = Some r' -> r_state r' = r_state r.
Proof.
  unfold readPersist. destruct (RaftWAL.LoadPersist _) as [[p|e]|]; cbn [mbind option_bind]; [|by intros [= <-]|done].
  intros [= <-]. by destruct (0 <? RaftWAL.LastIncludedIndex p).
Qed.

Lemma NewRaft_follows peers me disk r : NewRaft peers me disk = Some r -> r_state r = Follower.
Proof.
  unfold NewRaft. destruct (readPersist _) as [r1|] eqn:E; [|done]. cbn [mbind option_bind].
  apply readPersist_state in E. cbn in E. case_match; [|by intros [= <-]].
  destruct (RaftWAL.LoadLatestSnapshot _) as [[[[[data|] ?] ?]|e]|]; cbn [mbind option_bind]; try done; by intros [= <-].
Qed.

(** Who leads after a critical section led before, or has just been elected; and
    a node that stops its ticker does not lead. *)
Lemma step_leads r ev r' :
  step r ev = Some r' -> r_state r' = Leader -> ev <> ERestart ->
  (stepsDown r ev = false) /\ (becomesLeader r ev = false -> r_state r = Leader /\ others r' = others r).
Proof.
  intros Hs Hl Hev. split.
  - destruct ev as [| | | | | | |i [reply|]|i [reply|]| | |]; try done; cbn [step stepsDown] in *; injection Hs as <-.
    + unfold onAppendReply in Hl. destruct (_ <? _); [by cbn in Hl|done].
    + unfold onInstallReply in Hl. destruct (ir_Success reply); [done|]. cbn. destruct (_ <? _); [by cbn in Hl|done].
  - intros Hb. destruct (quiet ev) eqn:Hq.
    { destruct (step_moves r ev r' Hq Hs) as (Hme & Hp & [[Hst _]|[Hst _]]); [|congruence].
      unfold others. rewrite Hme, Hp, <- Hst. by split. }
    destruct ev as [| |votes| | | | | | | | |]; try discriminate Hq; [..|done]; cbn [step becomesLeader] in *; injection Hs as <-.
    + unfold startElection in *. destruct (bool_decide (r_state r = Leader)) eqn:E; [|exfalso; revert Hl; cbv zeta; destruct (last_entry _); [done|by destruct (0 <? _)]].
      by apply bool_decide_eq_true in E.
    + unfold finishElection in *. destruct (awaitVotes _ _); [|done|].
      * by rewrite Hb in *.
      * case_bool_decide; [by cbn in Hl|done].
Qed.

(** ** A leader keeps beating *)

(** A goroutine that will send again, given the ticker it has or is about to read. *)
Definition alive (r : Raft) (t : nat) (s : Loop) : Prop :=
  match s with
  | Testing | Passed | Woken => True
  | Waiting t' => t' = t
  | Sending rest => rest ⊆ others r
  | Ended => False
  end.

Definition beating (nd : Node) (t l : nat) : Prop :=
  heartbeatTicker nd = Some t /\ (exists k, tickers nd !! t = Some k /\ running k = true) /\
  exists s, loops nd !! l = Some s /\ alive (raft nd) t s.

Definition leader_beats (nd : Node) : Prop := r_state (raft nd) = Leader -> exists t l, beating nd t l.

(** Another goroutine's turn, and the ticker it empties, do not matter. *)
Lemma beating_other nd nd' t l l' s' :
  beating nd t l -> l <> l' -> heartbeatTicker nd' = heartbeatTicker nd -> raft nd' = raft nd ->
  loops nd' = <[l' := s']> (loops nd) ->
  (forall t k, tickers nd !! t = Some k -> exists k', tickers nd' !! t = Some k' /\ running k' = running k) ->
  beating nd' t l.
Proof.
  intros (Ht & (k & Hk & Hr) & s & Hs & Ha) Hne Et Er El Ek. split_and!; [congruence| |].
  - destruct (Ek t k Hk) as (k' & ? & ?). exists k'. split; [done|congruence].
  - exists s. rewrite El, Er. by rewrite list_lookup_insert_ne.
Qed.

(** A turn of the goroutine itself, as long as the node leads. *)
Lemma beating_self nd nd' t l s' :
  beating nd t l -> heartbeatTicker nd' = heartbeatTicker nd -> raft nd' = raft nd ->
  loops nd' = <[l := s']> (loops nd) -> alive (raft nd) t s' ->
  (forall t k, tickers nd !! t = Some k -> exists k', tickers nd' !! t = Some k' /\ running k' = running k) ->
  beating nd' t l.
Proof.
  intros (Ht & (k & Hk & Hr) & s & Hs & Ha) Et Er El Ha' Ek. split_and!; [congruence| |].
  - destruct (Ek t k Hk) as (k' & ? & ?). exists k'. split; [done|congruence].
  - exists s'. rewrite El, Er. split; [|done]. apply list_lookup_insert_eq. by eapply lookup_lt_Some.
Qed.

(** What a turn changes. *)
Lemma loop_turn_frame nd l nd' :
  loop_turn nd l = Some nd' ->
  raft nd' = raft nd /\ heartbeatTicker nd' = heartbeatTicker nd /\
  (forall t k, tickers nd !! t = Some k -> exists k', tickers nd' !! t = Some k' /\ running k' = running k) /\
  exists s', loops nd' = <[l := s']> (loops nd) /\
    forall t s, loops nd !! l = Some s -> alive (raft nd) t s -> heartbeatTicker nd = Some t ->
      r_state (raft nd) = Leader -> alive (raft nd) t s'.
Proof.
  assert (forall t k, tickers nd !! t = Some k -> exists k', tickers nd !! t = Some k' /\ running k' = running k) as Hsame
    by (intros t k Hk; by exists k).
  assert (forall rest nd', beat nd l rest = Some nd' -> rest ⊆ others (raft nd) ->
    raft nd' = raft nd /\ heartbeatTicker nd' = heartbeatTicker nd /\ tickers nd' = tickers nd /\
    exists s', loops nd' = <[l := s']> (loops nd) /\ forall t, alive (raft nd) t s') as Hbeat.
  { intros [|i rest] nd1; cbn [beat].
    - intros [= <-] _. split_and!; [done..|]. by exists Testing.
    - destruct (heartbeatTo (raft nd) i) as [m|]; [|done]. cbn. intros [= <-] Hsub. split_and!; [done..|].
      exists (Sending rest). split; [done|]. intros _ x ?. apply Hsub. by right. }
  unfold loop_turn. destruct (loops nd !! l) as [s|] eqn:Hl; [|done]. cbn [mbind option_bind]. destruct s as [| |t| |rest|].
  - intros [= <-]. split_and!; [done..|]. eexists. split; [done|]. intros t s [= <-] _ _ Hld. by rewrite bool_decide_true.
  - destruct (heartbeatTicker nd) as [t|] eqn:Et; [|done]. cbn. intros [= <-]. split_and!; [done..|].
    exists (Waiting t). split; [done|]. intros t' s [= <-] _ [= <-] _. done.
  - destruct (tickers nd !! t) as [k|] eqn:Hk; [|done]. cbn. destruct (tick k); [|done]. intros [= <-].
    split_and!; [done|done| |by exists Woken].
    intros t' k' Hk'. cbn. destruct (decide (t' = t)) as [->|Hne].
    + rewrite Hk in Hk'. injection Hk' as <-. exists (mkTicker (running k) false). split; [|done]. apply list_lookup_insert_eq. by eapply lookup_lt_Some.
    + exists k'. by rewrite list_lookup_insert_ne.
  - unfold SendHeartBeat. case_bool_decide as Hld.
    + intros Hb. destruct (Hbeat _ _ Hb) as (E1 & E2 & E3 & s' & ? & ?); [done|]. split_and!; [done|done|by rewrite E3|].
      exists s'. split; [done|]. by intros.
    + intros [= <-]. split_and!; [done..|]. exists Testing. by split.
  - intros Hb. destruct (decide (rest ⊆ others (raft nd))) as [Hsub|Hsub].
    + destruct (Hbeat _ _ Hb Hsub) as (E1 & E2 & E3 & s' & ? & ?). split_and!; [done|done|by rewrite E3|].
      exists s'. split; [done|]. by intros.
    + destruct rest as [|i rest]; cbn [beat] in Hb; [exfalso; apply Hsub; by intros ? ?%elem_of_nil|].
      destruct (heartbeatTo (raft nd) i); [|done]. cbn in Hb. injection Hb as <-. split_and!; [done..|].
      eexists. split; [done|]. intros t s [= <-] Ha. by destruct Hsub.
  - done.
Qed.

Lemma started_beats nd : started nd -> leader_beats nd.
Proof. intros (peers & me & disk & r & Hn & ->) Hl. cbn in Hl. by rewrite (NewRaft_follows _ _ _ _ Hn) in Hl. Qed.

Lemma startHeartbeatLoop_beats nd : exists t l, beating (startHeartbeatLoop nd) t l.
Proof.
  unfold startHeartbeatLoop. set (nd1 := match _ with Some t => _ | None => _ end).
  exists (length (tickers nd1)), (length (loops nd1)). split_and!; [done| |].
  - eexists. split; [by apply list_lookup_middle|done].
  - exists Testing. split; [by apply list_lookup_middle|done].
Qed.

Lemma raft_startHeartbeatLoop nd : raft (startHeartbeatLoop nd) = raft nd.
Proof. unfold startHeartbeatLoop. by destruct (heartbeatTicker nd). Qed.

Lemma handle_beats nd ev nd' : handle nd ev = Some nd' -> leader_beats nd -> leader_beats nd'.
Proof.
  unfold handle. intros Hh Hb Hl. destruct (step (raft nd) ev) as [r|] eqn:Hs; [|done]. cbn [mbind option_bind] in Hh.
  assert (ev = ERestart \/ ev <> ERestart) as [->|Hev] by (destruct ev; auto; by right).
  { cbn [step] in Hs. injection Hh as <-. cbn in Hl. by rewrite (NewRaft_follows _ _ _ _ Hs) in Hl. }
  assert ((if stepsDown (raft nd) ev then t ← heartbeatTicker nd; Some (stop_ticker (set_raft nd r) t)
           else if becomesLeader (raft nd) ev then Some (startHeartbeatLoop (set_raft nd r))
           else Some (set_raft nd r)) = Some nd') as Hnd by (by destruct ev). clear Hh.
  assert (raft nd' = r) as Er.
  { destruct (stepsDown _ _); [destruct (heartbeatTicker nd); [|done]; by injection Hnd as <-|].
    destruct (becomesLeader _ _); injection Hnd as <-; [apply raft_startHeartbeatLoop|done]. }
  rewrite Er in Hl. destruct (step_leads (raft nd) ev r Hs Hl Hev) as [Hdown Hkeep]. rewrite Hdown in Hnd.
  destruct (becomesLeader (raft nd) ev); injection Hnd as <-; [apply startHeartbeatLoop_beats|].
  destruct (Hkeep eq_refl) as [Hbefore Hothers]. destruct (Hb Hbefore) as (t & l & Ht & Hk & s & Hs' & Ha).
  exists t, l. split_and!; [done|done|]. exists s. split; [done|]. cbn. destruct s; try done. cbn in *. by rewrite Hothers.
Qed.

Lemma timed_beats nd nd' : timed nd nd' -> leader_beats nd -> leader_beats nd'.
Proof.
  intros Ht Hb Hl. destruct Ht as [t k Hk Hr|l nd' Hturn].
  - destruct (Hb Hl) as (t' & l & E & (k' & Hk' & Hr') & s & Hs & Ha). exists t', l. split_and!; [done| |by exists s].
    cbn. destruct (decide (t' = t)) as [->|Hne]; [|exists k'; by rewrite list_lookup_insert_ne].
    exists (mkTicker true true). split; [|done]. apply list_lookup_insert_eq. by eapply lookup_lt_Some.
  - destruct (loop_turn_frame _ _ _ Hturn) as (Er & Et & Ek & s' & El & Ha'). rewrite Er in Hl.
    destruct (Hb Hl) as (t & l' & Hbt). exists t, l'. destruct (decide (l' = l)) as [->|Hne].
    + pose proof Hbt as (Ht & _ & s & Hs & Ha). eapply beating_self; eauto.
    + by eapply beating_other.
Qed.

Lemma node_invariant nd nd' : started nd -> rtc nstep nd nd' -> leader_beats nd'.
Proof.
  intros Hst Hrun. apply started_beats in Hst. revert Hst. induction Hrun as [|nd nd1 nd2 Hs _ IH]; [done|].
  intros Hb. apply IH. destruct Hs as [ev nd1 Hh|nd1 Ht]; [by eapply handle_beats|by eapply timed_beats].
Qed.

(** ** The next round *)

(** What the peers are sent, one after the other. *)
Definition round (r : Raft) (rest : list nat) : option (list (nat * rpc)) :=
  mapM (fun i => m ← heartbeatTo r i; Some (i, m)) rest.

Definition at_loop (nd : Node) (l : nat) (s : Loop) (out : list (nat * rpc)) (ts : list Ticker) : Node :=
  mkNode (raft nd) (heartbeatTicker nd) ts (<[l := s]> (loops nd)) (sent nd ++ out).

Lemma at_loop_again nd l s out ts s' out' ts' :
  at_loop (at_loop nd l s out ts) l s' out' ts' = at_loop nd l s' (out ++ out') ts'.
Proof. unfold at_loop. cbn. by rewrite list_insert_insert_eq, app_assoc. Qed.

Lemma send_rest nd l rest out :
  round (raft nd) rest = Some out -> (l < length (loops nd))%nat -> loop_turn nd l = beat nd l rest ->
  rtc timed nd (at_loop nd l Testing out (tickers nd)).
Proof.
  revert nd out. induction rest as [|i rest IH]; intros nd out Hr Hlen Hl; cbn in Hr.
  - injection Hr as <-. apply rtc_once, (n_loop _ l). unfold at_loop. by rewrite Hl, app_nil_r.
  - destruct (heartbeatTo (raft nd) i) as [m|] eqn:Hm; [|done]. cbn in Hr.
    destruct (mapM _ rest) as [out'|] eqn:Hr'; [|done]. cbn in Hr. injection Hr as <-.
    set (nd1 := at_loop nd l (Sending rest) [(i, m)] (tickers nd)).
    apply (rtc_l _ _ nd1).
    + apply (n_loop _ l). rewrite Hl. cbn [beat]. by rewrite Hm.
    + replace (at_loop nd l Testing ((i, m) :: out') (tickers nd)) with (at_loop nd1 l Testing out' (tickers nd1))
        by apply (at_loop_again nd l (Sending rest) [(i, m)]).
      apply IH; [done|cbn; by rewrite length_insert|].
      unfold loop_turn, nd1, at_loop. cbn. by rewrite list_lookup_insert_eq.
Qed.

Lemma round_total r rest :
  (forall i, i ∈ rest -> is_Some (heartbeatTo r i)) -> exists out, round r rest = Some out.
Proof.
  intros Hall. induction rest as [|i rest IH]; [by exists []|].
  destruct (Hall i) as [m Hm]; [left|]. destruct IH as [out Hout]; [intros j ?; apply Hall; by right|].
  exists ((i, m) :: out). unfold round in *. cbn. rewrite Hm. cbn. by rewrite Hout.
Qed.

(** From a node that leads, a whole round follows. *)
Definition sends (nd : Node) (full : list (nat * rpc)) : Prop :=
  exists nd' pre, rtc timed nd nd' /\ raft nd' = raft nd /\ sent nd' = sent nd ++ pre ++ full.

Lemma sends_after nd nd1 pre full :
  rtc timed nd nd1 -> raft nd1 = raft nd -> sent nd1 = sent nd ++ pre -> sends nd1 full -> sends nd full.
Proof.
  intros Hr E Es (nd' & pre' & ? & ? & Es'). exists nd', (pre ++ pre'). split_and!; [by etransitivity|congruence|].
  by rewrite Es', Es, <- !app_assoc.
Qed.

Lemma sends_turn nd l nd1 full :
  loop_turn nd l = Some nd1 -> raft nd1 = raft nd -> sent nd1 = sent nd -> sends nd1 full -> sends nd full.
Proof. intros Hl E Es. apply (sends_after nd nd1 []); [by eapply rtc_once, n_loop|done|by rewrite app_nil_r]. Qed.

Section Round.
Context (nd : Node) (t l : nat) (k : Ticker) (full : list (nat * rpc)).
Context (Hlead : r_state (raft nd) = Leader) (Hfull : round (raft nd) (others (raft nd)) = Some full).
Context (Ht : heartbeatTicker nd = Some t) (Hl : (l < length (loops nd))%nat).

(** [nd] with its goroutine elsewhere. *)
Let at_ (s : Loop) (ts : list Ticker) : Node := set_loop (set_tickers nd ts) l s.

Lemma at_turn s ts : loops (at_ s ts) !! l = Some s.
Proof. by apply list_lookup_insert_eq. Qed.

Lemma at_again s ts s' ts' : set_loop (set_tickers (at_ s ts) ts') l s' = at_ s' ts'.
Proof. unfold at_, set_loop. cbn. by rewrite list_insert_insert_eq. Qed.

Lemma woken_sends ts : sends (at_ Woken ts) full.
Proof.
  exists (at_loop (at_ Woken ts) l Testing full ts), []. split_and!; [|done|done].
  apply (send_rest (at_ Woken ts) l (others (raft nd))); [done|cbn; by rewrite length_insert|].
  unfold loop_turn. rewrite at_turn. cbn [mbind option_bind]. unfold SendHeartBeat. by rewrite bool_decide_true.
Qed.

Lemma waiting_sends ts : ts !! t = Some k -> running k = true -> sends (at_ (Waiting t) ts) full.
Proof.
  intros Hk Hr. apply (sends_after _ (fire (at_ (Waiting t) ts) t) []); [by eapply rtc_once, n_tick|done|by rewrite app_nil_r|].
  apply (sends_turn _ l (at_ Woken (<[t := mkTicker true false]> ts))); [|done|done|apply woken_sends].
  unfold loop_turn. cbn [fire set_tickers loops tickers]. rewrite at_turn. cbn [mbind option_bind].
  cbn [at_ set_loop set_tickers tickers]. rewrite list_lookup_insert_eq by (by eapply lookup_lt_Some).
  cbn. unfold set_loop, at_, fire. cbn. by rewrite !list_insert_insert_eq.
Qed.

Lemma passed_sends ts : ts !! t = Some k -> running k = true -> sends (at_ Passed ts) full.
Proof.
  intros Hk Hr. apply (sends_turn _ l (at_ (Waiting t) ts)); [|done|done|by apply waiting_sends].
  unfold loop_turn. rewrite at_turn. cbn. rewrite Ht. cbn. unfold set_loop, at_. cbn. by rewrite list_insert_insert_eq.
Qed.

Lemma testing_sends ts : ts !! t = Some k -> running k = true -> sends (at_ Testing ts) full.
Proof.
  intros Hk Hr. apply (sends_turn _ l (at_ Passed ts)); [|done|done|by apply passed_sends].
  unfold loop_turn. rewrite at_turn. cbn. rewrite bool_decide_true by done. unfold set_loop, at_. cbn. by rewrite list_insert_insert_eq.
Qed.
End Round.

Lemma beating_sends nd t l full :
  beating nd t l -> r_state (raft nd) = Leader ->
  (forall i, i ∈ others (raft nd) -> is_Some (heartbeatTo (raft nd) i)) ->
  round (raft nd) (others (raft nd)) = Some full -> sends nd full.
Proof.
  intros (Ht & (k & Hk & Hr) & s & Hs & Ha) Hlead Hok Hfull.
  assert (l < length (loops nd))%nat as Hl by (by eapply lookup_lt_Some).
  assert (set_loop (set_tickers nd (tickers nd)) l s = nd) as Hnd
    by (unfold set_loop; cbn; rewrite list_insert_id by done; by destruct nd).
  destruct s as [| |t'| |rest|]; cbn in Ha; [| | | | |done]; try subst t'.
  - rewrite <- Hnd. by eapply testing_sends.
  - rewrite <- Hnd. by eapply passed_sends.
  - rewrite <- Hnd. by eapply waiting_sends.
  - rewrite <- Hnd. by eapply woken_sends.
  - destruct (round_total (raft nd) rest) as [out Hout]; [intros i ?; by apply Hok, Ha|].
    apply (sends_after _ (at_loop nd l Testing out (tickers nd)) out); [|done|done|].
    + apply (send_rest nd l rest); [done|done|]. unfold loop_turn. by rewrite Hs.
    + assert (sends (set_loop (set_tickers (at_loop nd l Testing out (tickers nd)) (tickers nd)) l Testing) full) as Hgo.
      { eapply testing_sends; [done|done|done|cbn; by rewrite length_insert|done|done]. }
      unfold set_loop, set_tickers, at_loop in Hgo |- *. cbn in Hgo. by rewrite list_insert_insert_eq in Hgo.
Qed.

(** C18: a leader keeps beating: after any interleaving of a node's critical
    sections (elections won and lost, crashes included) with its tickers and
    heartbeat goroutines, whenever the node leads, its timers and goroutines alone
    can go on to a complete round: one heartbeat (or snapshot) to every other peer,
    in order, each of the current term, and the node still leads.  Stopping the
    ticker on stepping down, the exit of old goroutines and sharing a ticker with
    one that is left over never silence a leader. *)
Theorem leader_keeps_beating (nd nd' : Node)
    (Hstart : started nd) (Hrun : rtc nstep nd nd') (Hlead : r_state (raft nd') = Leader)
    (Hok : forall i, i ∈ others (raft nd') -> is_Some (heartbeatTo (raft nd') i)) :
  exists nd2 pre full, rtc timed nd' nd2 /\ raft nd2 = raft nd' /\ sent nd2 = sent nd' ++ pre ++ full /\
    full.*1 = others (raft nd') /\ Forall (fun im => heartbeatTo (raft nd') im.1 = Some im.2) full.
Proof.
  destruct (node_invariant nd nd' Hstart Hrun Hlead) as (t & l & Hb).
  destruct (round_total (raft nd') _ Hok) as [full Hfull].
  destruct (beating_sends nd' t l full Hb Hlead Hok Hfull) as (nd2 & pre & Hr & E & Es).
  exists nd2, pre, full. split_and!; [done..| |].
  - apply mapM_Some in Hfull. clear -Hfull. induction Hfull as [|i im il iml Him _ IH]; [done|]. cbn.
    destruct (heartbeatTo _ _); [|done]. injection Him as <-. by rewrite IH.
  - apply mapM_Some in Hfull. clear -Hfull. induction Hfull as [|i im il iml Him _ IH]; constructor; [|done].
    destruct (heartbeatTo (raft nd') i) eqn:E; [|done]. injection Him as <-. done.
Qed.

(** ** What does not keep it a leader *)

(** The election timer is armed anew, without a stale tick. *)
Lemma resetElectionTimer_spec t jitter :
  0 <= jitter < MaxElectionTimeout - MinElectionTimeout -> (fired t = true -> armed t = None) ->
  exists d, resetElectionTimer t jitter = mkTimer (Some d) false /\ MinElectionTimeout <= d < MaxElectionTimeout.
Proof.
  intros Hj Ht. exists (MinElectionTimeout + jitter). split; [|lia]. unfold resetElectionTimer, Stop.
  destruct t as [[a|] [|]]; cbn in *; try done. by discriminate Ht.
Qed.

(** The timer while the loop selects, and while it waits for votes. *)
Definition timer_ok (e : Elector) : Prop :=
  heartbeatCh e = O /\ electionCh e = O /\
  match loop e with
  | Selecting => (exists a, 0 < a < MaxElectionTimeout /\ timer e = mkTimer (Some a) false) \/ timer e = mkTimer None true
  | Electing => timer e = mkTimer None false
  end.

Lemma elapse_ok t d :
  0 <= d -> (exists a, 0 < a < MaxElectionTimeout /\ t = mkTimer (Some a) false) \/ t = mkTimer None true ->
  (exists a, 0 < a < MaxElectionTimeout /\ elapse t d = mkTimer (Some a) false) \/ elapse t d = mkTimer None true.
Proof.
  intros Hd [(a & Ha & ->)| ->]; [|by right]. unfold elapse. cbn. destruct (Z.leb_spec a d); [by right|].
  left. exists (a - d). split; [lia|done].
Qed.

Lemma reset_ok t j : jitter_ok j -> (fired t = true -> armed t = None) ->
  exists a, 0 < a < MaxElectionTimeout /\ resetElectionTimer t j = mkTimer (Some a) false.
Proof. intros Hj Ht. destruct (resetElectionTimer_spec t j Hj Ht) as (a & -> & Ha). exists a. unfold MinElectionTimeout in Ha. by split; [lia|]. Qed.

Lemma life_timer peers me disk e : elector_life peers me disk e -> timer_ok e.
Proof.
  induction 1 as [r j _ Hj|e h e' _ (I1 & I2 & I3) Hp Hh|e w j e' _ (I1 & I2 & I3) Hj Hs|e votes j e' _ (I1 & I2 & I3) Hj Hc].
  - split_and!; [done..|]. left. exists (MinElectionTimeout + j). unfold jitter_ok, MinElectionTimeout in *. by split; [lia|].
  - destruct h as [ev|d]; cbn [happen] in Hh.
    + unfold section in Hh. destruct (step _ _); [|done]. by injection Hh as <-.
    + injection Hh as <-. split_and!; [done..|]. cbn. destruct (loop e); [by apply elapse_ok|]. unfold elapse. by rewrite I3.
  - unfold select in Hs. destruct (loop e) eqn:El; [|done]. rewrite I1, I2 in Hs. destruct w; [|done..].
    destruct I3 as [(a & _ & Et)|Et]; rewrite Et in Hs; [done|]. cbn [negb fired armed] in Hs.
    destruct (startElection _) as [[r args]|]; injection Hs as <-; [by split_and!|].
    split_and!; [done..|]. left. by apply reset_ok.
  - unfold counted in Hc. destruct (loop e) eqn:El; [done|]. injection Hc as <-. split_and!; [done..|].
    left. apply reset_ok; [done|]. by rewrite I3.
Qed.

Fixpoint elapsed (hs : list happens) : Z :=
  match hs with [] => 0 | Elapses d :: hs => d + elapsed hs | Handles _ :: hs => elapsed hs end.

Lemma AppendEntries_term r args r' reply : AppendEntries r args = Some (r', reply) -> ae_Term args <= r_Term r'.
Proof.
  unfold AppendEntries. destruct (Z.ltb_spec (ae_Term args) (r_Term r)); [intros [= <- _]; lia|].
  assert (ae_Term args <= r_Term (adoptTerm r (ae_Term args))) as Ha.
  { destruct (adoptTerm_fields r (ae_Term args)) as [-> _]. lia. }
  set (s := adoptTerm r _) in *. destruct (prevMatches s args); [|by intros [= <- _]]. cbn [negb].
  destruct (append_loop _ _ _ _ _) as [[[log needRebuild] newEntries]|]; [|done]. cbn. intros [= <- _].
  assert (forall q, r_Term q = r_Term s -> ae_Term args <= r_Term (rpc_applyCommittedLogs q)) as Happ.
  { intros q Hq. destruct (moves_apply_loop q) as (_ & _ & [[_ E]|[_ E]]); unfold rpc_applyCommittedLogs; lia. }
  case_match; [apply Happ|]; by destruct (ae_Entries args).
Qed.

(** What goes on around the loop leaves its timer to the clock. *)
Lemma happen_all_spec e hs e' :
  Forall passes hs -> happen_all e hs = Some e' ->
  loop e' = loop e /\ heartbeatCh e' = heartbeatCh e /\ electionCh e' = electionCh e /\ asked e' = asked e /\
  timer e' = foldl elapse (timer e) (omap (fun h => match h with Elapses d => Some d | _ => None end) hs) /\
  moves (e_raft e) (e_raft e') /\
  (forall args, Handles (EAppendEntries args) ∈ hs -> ae_Term args <= r_Term (e_raft e')).
Proof.
  unfold happen_all. revert e'. induction hs as [|h hs IH] using rev_ind; intros e' Hp.
  { intros [= <-]. split_and!; try done. by intros ? ?%elem_of_nil. }
  apply Forall_app in Hp as [Hp Hh]. rewrite Forall_singleton in Hh. rewrite foldl_app. cbn [foldl].
  destruct (foldl _ _ hs) as [e1|]; [|done]. cbn [mbind option_bind].
  destruct (IH e1 Hp eq_refl) as (E1 & E2 & E3 & E4 & E5 & E6 & E7). intros Hrun.
  rewrite omap_app, foldl_app. cbn [omap list_omap]. destruct h as [ev|d]; cbn [happen foldl] in *.
  - unfold section in Hrun. destruct (step (e_raft e1) ev) as [r|] eqn:Hs; [|done]. injection Hrun as <-. cbn.
    pose proof (step_moves _ _ _ Hh Hs) as Hm. split_and!; [done..|by etransitivity|].
    intros args [Hin|Hin]%elem_of_app.
    + specialize (E7 args Hin). destruct Hm as (_ & _ & [[_ ->]|[_ ?]]); lia.
    + apply list_elem_of_singleton in Hin. injection Hin as <-. cbn [step] in Hs.
      destruct (AppendEntries (e_raft e1) args) as [[r' reply]|] eqn:Ea; [|done]. injection Hs as <-. by eapply AppendEntries_term.
  - injection Hrun as <-. cbn. split_and!; [done..|by rewrite E5|done|].
    intros args [Hin|Hin]%elem_of_app; [by apply E7|]. by apply list_elem_of_singleton in Hin.
Qed.

Lemma elapse_all a hs :
  0 < a -> Forall passes hs ->
  foldl elapse (mkTimer (Some a) false) (omap (fun h => match h with Elapses d => Some d | _ => None end) hs) =
  if elapsed hs <? a then mkTimer (Some (a - elapsed hs)) false else mkTimer None true.
Proof.
  revert a. induction hs as [|h hs IH]; intros a Ha Hp; [cbn; rewrite (proj2 (Z.ltb_lt 0 a)) by lia; by rewrite Z.sub_0_r|].
  apply Forall_cons in Hp as [Hh Hp]. destruct h as [ev|d]; cbn [omap list_omap elapsed foldl]; [by apply IH|]. cbn in Hh.
  assert (0 <= elapsed hs) as Hnn.
  { clear -Hp. induction Hp as [|[ev|d] hs Hh _ IH]; cbn in *; lia. }
  change (elapse (mkTimer (Some a) false) d) with (if a <=? d then mkTimer None true else mkTimer (Some (a - d)) false).
  destruct (Z.leb_spec a d).
  - rewrite (proj2 (Z.ltb_ge _ _)) by lia. clear. induction (omap _ hs) as [|x l IH]; [done|apply IH].
  - rewrite IH by (done || lia). destruct (Z.ltb_spec (elapsed hs) (a - d)), (Z.ltb_spec (d + elapsed hs) a); try lia; [|done].
    do 2 f_equal. lia.
Qed.

(** A vote request of a larger term makes any node follow. *)
Lemma RequestVote_deposes r args : r_Term r < va_Term args ->
  r_state (RequestVote r args).1 = Follower /\ r_Term (RequestVote r args).1 = va_Term args.
Proof.
  intros Hlt. unfold RequestVote. rewrite (proj2 (Z.ltb_ge _ _)) by lia. unfold adoptTerm.
  rewrite (proj2 (Z.ltb_lt _ _)) by lia. by destruct (_ && _).
Qed.

Lemma startElection_spec r : r_state r <> Leader ->
  exists r' args, startElection r = Some (r', args) /\ r_state r' = Candidate /\ va_Term args = r_Term r + 1.
Proof.
  intros Hr. unfold startElection. rewrite bool_decide_false by done.
  destruct (match last_entry _ with Some _ => _ | None => _ end) as [i lt]. by eexists _, _.
Qed.

(** C35: hearing from the leader does not keep a node from an election: at any
    point of a node's life at which its election loop selects and it does not lead,
    there is a time [a] below 300 ms such that, whatever the node handles from then
    on (heartbeats, entries, vote requests, snapshots, commands, replies), the loop
    sleeps while less than [a] has passed, no case of its [select] being ready, and
    afterwards the expired timer is the one case that is ready, and begins an
    election: the node is a candidate, and its vote request, granted or not, makes
    a follower of every leader whose term is not above the node's own, which the
    sender of each heartbeat it has heard is. *)
Theorem heartbeats_do_not_hold_elections (peers : list bytes) (me : Z) (disk : RaftWAL.RaftWAL) (e : Elector)
    (Hlife : elector_life peers me disk e) (Hselects : loop e = Selecting) (Hrole : r_state (e_raft e) <> Leader) :
  exists a, 0 <= a < MaxElectionTimeout /\ forall hs e', Forall passes hs -> happen_all e hs = Some e' ->
    if elapsed hs <? a then forall w jitter, select e' w jitter = None
    else
      (forall jitter, select e' HeartbeatSignal jitter = None /\ select e' ElectionSignal jitter = None) /\
      exists args, va_Term args = r_Term (e_raft e') + 1 /\
        (forall jitter, exists e2, select e' TimerFires jitter = Some e2 /\ r_state (e_raft e2) = Candidate /\
           asked e2 = asked e' ++ [args]) /\
        (forall leader beat, (r_Term leader <= r_Term (e_raft e') \/ Handles (EAppendEntries beat) ∈ hs /\ ae_Term beat = r_Term leader) ->
           r_state (RequestVote leader args).1 = Follower /\ r_Term (RequestVote leader args).1 = va_Term args).
Proof.
  destruct (life_timer _ _ _ _ Hlife) as (Hh & Hc & Ht). rewrite Hselects in Ht.
  exists (match armed (timer e) with Some a => a | None => 0 end).
  split; [by destruct Ht as [(a & ? & ->)| ->]; cbn; [lia|unfold MaxElectionTimeout; lia]|].
  intros hs e' Hp Hrun. destruct (happen_all_spec e hs e' Hp Hrun) as (E1 & E2 & E3 & _ & E5 & Hm & Hterm).
  rewrite Hselects in E1. rewrite Hh in E2. rewrite Hc in E3.
  assert (timer e' = if elapsed hs <? (match armed (timer e) with Some a => a | None => 0 end) then
            mkTimer (Some (match armed (timer e) with Some a => a | None => 0 end - elapsed hs)) false else mkTimer None true) as E.
  { rewrite E5. destruct Ht as [(a & Ha & ->)| ->]; cbn [armed]; [apply elapse_all; [lia|done]|].
    rewrite (proj2 (Z.ltb_ge _ _)); [|clear -Hp; induction Hp as [|[ev|d] hs Hx _ IH]; cbn in *; lia].
    clear. induction (omap _ hs) as [|x l IH]; [done|apply IH]. }
  destruct (elapsed hs <? _); unfold select; rewrite E1, E2, E3, E; [by intros []|].
  split; [done|]. assert (r_state (e_raft e') <> Leader) as Hr' by (by destruct Hm as (_ & _ & [[-> _]|[-> _]])).
  destruct (startElection_spec _ Hr') as (r' & args & Hs & Hcand & Ha). exists args. rewrite Hs. split_and!; [done| |].
  - intros j. eexists. by split_and!.
  - intros leader beat Hl. apply RequestVote_deposes. destruct Hl as [?|[Hin <-]]; [lia|]. specialize (Hterm _ Hin). lia.
Qed.

Definition rpc_term (m : rpc) : Z := match m with SendAppendEntries a => ae_Term a | SendInstallSnapshot a => is_Term a end.
Definition rpc_leader (m : rpc) : Z := match m with SendAppendEntries a => ae_LeaderID a | SendInstallSnapshot a => is_LeaderID a end.

Lemma heartbeatTo_from r i m : heartbeatTo r i = Some m -> rpc_term m = r_Term r /\ rpc_leader m = r_me r.
Proof.
  unfold heartbeatTo. destruct (r_nextIndex r !! i); [|done]. cbn [mbind option_bind].
  destruct (behindSnapshot _ _); [|by intros [= <-]].
  destruct (RaftWAL.LoadLatestSnapshot _) as [[[[[data|] ?] ?]|e]|]; cbn [mbind option_bind]; try done; by intros [= <-].
Qed.

(** a deposed leader speaks for the new term: when a vote request of a larger
    term arrives while a round of heartbeats is under way (the lock is free between
    two peers), the node becomes a follower of that term, and the round goes on:
    the next peer is sent a heartbeat (or snapshot) of the new term that names the
    node as its leader, although it never was. *)
Theorem deposed_leader_speaks_for_new_term (nd nd1 : Node) (l i : nat) (rest : list nat) (args : RequestVoteArgs)
    (Hloop : loops nd !! l = Some (Sending (i :: rest))) (Hterm : r_Term (raft nd) < va_Term args)
    (Hvote : handle nd (ERequestVote args) = Some nd1) (Hok : is_Some (heartbeatTo (raft nd1) i)) :
  r_state (raft nd1) = Follower /\ r_Term (raft nd1) = va_Term args /\
  exists m nd2, loop_turn nd1 l = Some nd2 /\ sent nd2 = sent nd ++ [(i, m)] /\
    rpc_term m = va_Term args /\ rpc_leader m = r_me (raft nd).
Proof.
  unfold handle in Hvote. cbn [step stepsDown becomesLeader mbind option_bind] in Hvote. injection Hvote as <-.
  destruct (moves_RequestVote (raft nd) args) as (Hme & _ & _).
  assert (r_state (RequestVote (raft nd) args).1 = Follower /\ r_Term (RequestVote (raft nd) args).1 = va_Term args) as [E1 E2]
    by (by apply RequestVote_deposes).
  split_and!; [done|done|]. destruct Hok as [m Hm]. exists m. cbn in Hm.
  destruct (heartbeatTo_from _ _ _ Hm) as [Et El]. 
  eexists. split; [|split_and!; [|congruence|congruence]].
  - unfold loop_turn. cbn [set_raft loops]. rewrite Hloop. cbn [mbind option_bind beat set_raft raft]. rewrite Hm. done.
  - done.
Qed.

End Node.

(** ** A node of three *)

Section Sample.
#[local] Existing Instance sample_config.

(** Node 0 is elected without a granted vote, its ticker fires, and the round
    reaches its first peer. *)
Definition sample_start : option Node := r ← NewRaft sample_peers 0 empty_disk; Some (mkNode r None [] [] []).
Definition sample_round (nd : Node) : option Node :=
  nd ← handle nd EStartElection; nd ← handle nd (EFinishElection []);
  nd ← loop_turn nd 0; nd ← loop_turn nd 0; loop_turn (fire nd 0) 0.
Definition sample_sending : option Node := nd ← sample_start; nd ← sample_round nd; loop_turn nd 0.

Example sample_sending_state :
  (nd ← sample_sending; Some (loops nd, r_state (raft nd), (fun p => (p.1, rpc_term p.2)) <$> sent nd))
  = Some ([Sending [2%nat]], Leader, [(1%nat, 1)]).
Proof. vm_compute. reflexivity. Qed.

Definition sample_node (o : option Node) : Node :=
  default (mkNode (mkRaft [] 0 Follower 0 0 0 0 0 [] [] [] (mkChan [] []) 0 0 empty_disk []) None [] [] []) o.

Lemma sample_started : started (sample_node sample_start).
Proof.
  destruct (NewRaft sample_peers 0 empty_disk) as [r|] eqn:E; [|vm_compute in E; discriminate E].
  exists sample_peers, 0, empty_disk, r. split; [done|]. unfold sample_start. by rewrite E.
Qed.

(** The script is a run of the node. *)
Lemma round_run : rtc nstep (sample_node sample_start) (sample_node sample_sending).
Proof.
  set (n0 := sample_node sample_start). set (n1 := sample_node (handle n0 EStartElection)).
  set (n2 := sample_node (handle n1 (EFinishElection []))). set (n3 := sample_node (loop_turn n2 0)).
  set (n4 := sample_node (loop_turn n3 0)). set (n5 := sample_node (loop_turn (fire n4 0) 0)).
  apply (rtc_l _ _ n1); [apply (n_event _ EStartElection); vm_compute; reflexivity|].
  apply (rtc_l _ _ n2); [apply (n_event _ (EFinishElection [])); vm_compute; reflexivity|].
  apply (rtc_l _ _ n3); [apply n_timed, (n_loop _ 0); vm_compute; reflexivity|].
  apply (rtc_l _ _ n4); [apply n_timed, (n_loop _ 0); vm_compute; reflexivity|].
  apply (rtc_l _ _ (fire n4 0)); [apply n_timed, (n_tick _ 0 (mkTicker true false)); vm_compute; reflexivity|].
  apply (rtc_l _ _ n5); [apply n_timed, (n_loop _ 0); vm_compute; reflexivity|].
  apply rtc_once, n_timed, (n_loop _ 0). vm_compute. reflexivity.
Qed.

Lemma leader_keeps_beating_witness :
  let nd := sample_node sample_sending in
  r_state (raft nd) = Leader /\
  exists nd2 pre full, rtc timed nd nd2 /\ raft nd2 = raft nd /\ sent nd2 = sent nd ++ pre ++ full /\
    full.*1 = others (raft nd) /\ Forall (fun im => heartbeatTo (raft nd) im.1 = Some im.2) full.
Proof.
  intros nd. split; [vm_compute; reflexivity|].
  apply (leader_keeps_beating (sample_node sample_start)); [apply sample_started|apply round_run|vm_compute; reflexivity|].
  intros i Hi. assert (i = 1 \/ i = 2)%nat as [->| ->].
  { assert (others (raft nd) = [1; 2]%nat) as E by (vm_compute; reflexivity). clearbody nd. rewrite E in Hi. apply elem_of_cons in Hi as [?|Hi]; [by left|right]. by apply list_elem_of_singleton in Hi. }
  - vm_compute. by eexists.
  - vm_compute. by eexists.
Defined.

(** Node 1 hears from node 0, which leads in term 1, every 50 ms: its timer, set to
    150 ms, is not put off. *)
Lemma heartbeats_do_not_hold_elections_witness :
  let leader := raft (sample_node sample_sending) in
  let beat := mkAppendArgs 1 0 (-1) 0 [] (-1) in
  let hs := [Handles (EAppendEntries beat); Elapses HeartbeatInterval; Handles (EAppendEntries beat); Elapses HeartbeatInterval;
             Handles (EAppendEntries beat); Elapses HeartbeatInterval; Handles (EAppendEntries beat)] in
  exists r e2 args, NewRaft sample_peers 1 empty_disk = Some r /\ r_state leader = Leader /\
    (e ← happen_all (NewElector r 0) hs; select e TimerFires 7) = Some e2 /\
    r_state (e_raft e2) = Candidate /\ asked e2 = [args] /\ r_state (RequestVote leader args).1 = Follower.
Proof.
  intros leader beat hs.
  destruct (NewRaft sample_peers 1 empty_disk) as [r|] eqn:Er; [|vm_compute in Er; discriminate Er].
  assert (jitter_ok 0) as Hj by (unfold jitter_ok, MaxElectionTimeout, MinElectionTimeout; lia).
  destruct (heartbeats_do_not_hold_elections sample_peers 1 empty_disk (NewElector r 0)) as (a & Ha & Hall);
    [by apply el_start|reflexivity|cbn [NewElector e_raft]; by rewrite (NewRaft_follows _ _ _ _ Er)|].
  destruct (happen_all (NewElector r 0) hs) as [e'|] eqn:Erun.
  2: { vm_compute in Er. injection Er as <-. vm_compute in Erun. discriminate Erun. }
  assert (Forall passes hs) as Hp by (repeat constructor; vm_compute; done).
  assert (fired (timer e') = true /\ asked e' = []) as [Hf Has].
  { destruct (happen_all_spec _ _ _ Hp Erun) as (_ & _ & _ & -> & -> & _). by split. }
  specialize (Hall hs e' Hp Erun). destruct (elapsed hs <? a).
  { exfalso. specialize (Hall TimerFires 7). revert Hall. unfold select.
    destruct (happen_all_spec _ _ _ Hp Erun) as (-> & _). cbn [NewElector loop]. rewrite Hf. cbn [negb].
    by destruct (startElection _) as [[? ?]|]. }
  destruct Hall as (_ & args & _ & Hs & Hd). destruct (Hs 7) as (e2 & Hsel & Hcand & Hasked).
  exists r, e2, args. split_and!; [done|vm_compute; reflexivity|by rewrite Erun|done|by rewrite Hasked, Has|].
  apply (Hd leader beat). right. split; [left|vm_compute; reflexivity].
Defined.

(** The candidate that deposes node 0 is sent its heartbeat. *)
Lemma deposed_leader_speaks_for_new_term_witness :
  let nd := sample_node sample_sending in
  let args := mkVoteArgs 5 2 (-1) 0 in
  let nd1 := sample_node (handle nd (ERequestVote args)) in
  rtc nstep (sample_node sample_start) nd /\
  r_state (raft nd1) = Follower /\ r_Term (raft nd1) = 5 /\
  exists m nd2, loop_turn nd1 0 = Some nd2 /\ sent nd2 = sent nd ++ [(2%nat, m)] /\ rpc_term m = 5 /\ rpc_leader m = r_me (raft nd).
Proof.
  intros nd args nd1. split; [apply round_run|].
  apply (deposed_leader_speaks_for_new_term nd nd1 0 2 [] args);
    [vm_compute; reflexivity|vm_compute; reflexivity|vm_compute; reflexivity|vm_compute; by eexists].
Defined.

(** A goroutine that waits for a ticker that has been stopped is left over. *)
Example heartbeat_goroutine_leaks :
  let higher := Some (mkAppendReply 7 false) in
  (nd ← sample_start; nd ← handle nd EStartElection; nd ← handle nd (EFinishElection []);
   nd ← loop_turn nd 0; nd ← loop_turn nd 0; nd ← handle nd (EAppendReply 1 higher);
   nd ← handle nd EStartElection; nd ← handle nd (EFinishElection []);
   Some (loops nd, heartbeatTicker nd, running <$> tickers nd, loop_turn nd 0))
  = Some ([Waiting 0; Testing], Some 1%nat, [false; true], None).
Proof. vm_compute. reflexivity. Qed.

End Sample.

End Heartbeat.
