(* ===== verification/RaftLog.v ===== *)
(** The replicated log: appending, committing, applying and replicating
    ([Raft/raft.go], [Raft/rpc.go]). *)
From S2P Require Import Prelude Bytes Strconv RaftWAL Raft.
Import Raft.

Module Logs.

(** ** Well-formed logs *)

(** Consecutive absolute indexes from [b]. *)
Definition contiguous (b : Z) (l : list LogEntry) : Prop :=
  forall (k : nat) e, l !! k = Some e -> Index e = b + Z.of_nat k.

(** The absolute index of [log[0]]. *)
Definition log_base (r : Raft) : Z := if 0 <? r_LastIncludedIndex r then r_LastIncludedIndex r + 1 else 0.

(** The log file holds exactly the log in memory. *)
Definition mirrored (r : Raft) : Prop :=
  RaftWAL.logFile (r_wal r) = Some (RaftWAL.log_bytes (r_log r)).

Lemma contiguous_nil b : contiguous b [].
Proof. intros k e. by rewrite lookup_nil. Qed.

Lemma contiguous_app b l k :
  contiguous b l -> contiguous (b + zlen l) k -> contiguous b (l ++ k).
Proof.
  intros Hl Hk i e. rewrite lookup_app_Some. intros [Hi|[Hi He]]; [by apply Hl|].
  apply Hk in He. unfold zlen in He. lia.
Qed.

Lemma contiguous_one e : contiguous (Index e) [e].
Proof. intros [|k] e'; [intros [= <-]; lia|done]. Qed.

Lemma contiguous_snoc b l e :
  contiguous b l -> Index e = b + zlen l -> contiguous b (l ++ [e]).
Proof. intros Hl He. apply contiguous_app; [done|]. rewrite <- He. apply contiguous_one. Qed.

Lemma contiguous_take b l n : contiguous b l -> contiguous b (take n l).
Proof. intros H k e. rewrite lookup_take_Some. intros [? _]. by apply H. Qed.

Lemma contiguous_drop b l (n : nat) : contiguous b l -> contiguous (b + Z.of_nat n) (drop n l).
Proof. intros H k e. rewrite lookup_drop. intros Hk. apply H in Hk. lia. Qed.

Lemma contiguous_last b l e : contiguous b l -> last l = Some e -> Index e = b + zlen l - 1.
Proof.
  intros Hc. rewrite last_lookup. intros He. pose proof (Hc _ _ He). apply lookup_lt_Some in He.
  unfold zlen. lia.
Qed.

Lemma getLastLogIndex_base r :
  contiguous (log_base r) (r_log r) -> getLastLogIndex r = log_base r + zlen (r_log r) - 1.
Proof.
  intros Hc. unfold getLastLogIndex, last_entry. destruct (last (r_log r)) eqn:E.
  - by apply contiguous_last.
  - apply last_None in E. rewrite E. change (zlen (@nil LogEntry)) with 0. unfold log_base.
    destruct (Z.ltb_spec 0 (r_LastIncludedIndex r)); lia.
Qed.

Lemma mirrored_append w l es :
  RaftWAL.logFile w = Some (RaftWAL.log_bytes l) ->
  RaftWAL.logFile (RaftWAL.AppendLogs w es) = Some (RaftWAL.log_bytes (l ++ es)).
Proof. intros Hw. by apply RaftWAL.AppendLogs_log_bytes. Qed.

Lemma mirrored_AppendLog w l e :
  RaftWAL.logFile w = Some (RaftWAL.log_bytes l) ->
  RaftWAL.logFile (RaftWAL.AppendLog w e) = Some (RaftWAL.log_bytes (l ++ [e])).
Proof.
  intros Hw. rewrite RaftWAL.log_bytes_app, RaftWAL.log_bytes_cons.
  unfold RaftWAL.AppendLog, RaftWAL.append_log. rewrite Hw.
  cbn [RaftWAL.logFile RaftWAL.set_log default]. do 2 f_equal. symmetry. apply app_nil_r.
Qed.

(** ** Restart *)

Definition intact (w : RaftWAL.RaftWAL) : Prop :=
  (exists term vote, RaftWAL.LoadState w = (term, vote, None)) /\ RaftWAL.LoadLatestSnapshot w <> None.

Lemma NewRaft_recovers peers me w es :
  RaftWAL.logFile w = Some (RaftWAL.log_bytes es) -> Forall log_entry_ok es -> intact w ->
  exists r, NewRaft peers me w = Some r /\ r_log r = es.
Proof.
  intros Hw Hes [(term & vote & Hl) Hs]. unfold NewRaft, readPersist, RaftWAL.LoadPersist. cbn [r_wal].
  assert (RaftWAL.LoadState (RaftWAL.NewRaftWAL w) = (term, vote, None)) as -> by done.
  assert (RaftWAL.LoadLatestSnapshot (RaftWAL.NewRaftWAL w) = RaftWAL.LoadLatestSnapshot w) as Hsame by done.
  rewrite (RaftWAL.LoadLogs_bytes _ es); [|done|by simpl; rewrite Hw].
  destruct (RaftWAL.LoadLatestSnapshot w) as [snap|]; [|done]. rewrite Hsame. cbn.
  set (p := match snap with Ok _ => _ | Error _ => _ end).
  assert (RaftWAL.Log p = es) as Hp by (unfold p; destruct snap as [[[[?|] ?] ?]|]; done).
  clearbody p. destruct (Z.ltb_spec 0 (RaftWAL.LastIncludedIndex p)) as [Hpos|Hpos]; cbn.
  - rewrite (proj2 (Z.ltb_lt _ _) Hpos), Hsame. cbn.
    destruct snap as [[[[?|] ?] ?]|]; eexists; (split; [done|]); done.
  - rewrite (proj2 (Z.ltb_ge _ _) Hpos). by eexists.
Qed.

(** ** A command on a single node *)

Section Config.
Context `{RaftConfig}.

Definition new_entry (r : Raft) (command : bytes) : LogEntry :=
  mkEntry (getLastLogIndex r + 1) (r_Term r) command false.

Definition appended (r : Raft) (command : bytes) : Raft :=
  set_rlog r (r_log r ++ [new_entry r command]) (RaftWAL.AppendLog (r_wal r) (new_entry r command)).

Lemma AppendEntry_single r command :
  r_state r = Leader -> zlen (r_peers r) = 1 ->
  AppendEntry r command =
    Some (applyCommittedLogs (set_commitIndex (appended r command) (getLastLogIndex r + 1)), [],
          Ok (getLastLogIndex r + 1)).
Proof.
  intros Hst Hp. unfold AppendEntry. rewrite bool_decide_true by done. cbn [negb].
  cbn [r_peers set_rlog]. by rewrite Hp.
Qed.

(** C32: a command accepted by a single-node leader is durable: it gets the next
    absolute index, is committed at once (so that [WaitCommitIndex] returns), the
    log stays contiguous and mirrored by its file, and a restart from that disk
    recovers a log that ends with it. *)
Theorem append_entry_durable (r : Raft) (command : bytes)
    (Hlead : r_state r = Leader) (Hsingle : zlen (r_peers r) = 1)
    (Hlog : contiguous (log_base r) (r_log r)) (Hmir : mirrored r) (Hdisk : intact (r_wal r))
    (Hok : Forall log_entry_ok (r_log r ++ [new_entry r command])) :
  exists r' i,
    AppendEntry r command = Some (r', [], Ok i) /\ i = log_base r + zlen (r_log r) /\
    r_log r' = r_log r ++ [mkEntry i (r_Term r) command false] /\
    r_commitIndex r' = i /\ WaitCommitIndex_blocks r' i = false /\
    contiguous (log_base r') (r_log r') /\ mirrored r' /\
    exists r'', NewRaft (r_peers r') (r_me r') (r_wal r') = Some r'' /\ r_log r'' = r_log r'.
Proof.
  rewrite AppendEntry_single by done. pose proof (getLastLogIndex_base r Hlog) as Hlast.
  set (s := set_commitIndex (appended r command) (getLastLogIndex r + 1)).
  destruct (applyCommittedLogs_same_log s) as (HL & HW & HI & _ & HP & HC).
  assert (log_base r = log_base (applyCommittedLogs s)) as Hbase by (unfold log_base; by rewrite HI).
  assert (mirrored s) as Hms.
  { by apply mirrored_AppendLog. }
  exists (applyCommittedLogs s), (getLastLogIndex r + 1). unfold WaitCommitIndex_blocks, mirrored.
  rewrite <- Hbase, HL, HW, HC. split_and!; try done; try lia.
  - apply Z.ltb_irrefl.
  - apply contiguous_snoc; [done|]. cbn. lia.
  - apply NewRaft_recovers; try done.
Qed.

(** The submission of commands one after another. *)
Definition submit (r : Raft) (commands : list bytes) : option Raft :=
  foldl (fun r c => r ← r; '(r', _, _) ← AppendEntry r c; Some r') (Some r) commands.

(** the apply lag of a single node: on a leader that starts with an empty log
    and no snapshot, every command sequence is accepted and committed in order,
    and exactly all but the last command have reached the apply channel, in order
    (absolute indexes start at 0 and the relative index of entry [i] is computed
    as [i - 1]). *)
Theorem single_node_apply_lag (r : Raft) (commands : list bytes)
    (Hlead : r_state r = Leader) (Hsingle : zlen (r_peers r) = 1)
    (Hnew : r_log r = [] /\ r_LastIncludedIndex r = 0 /\ r_commitIndex r = -1 /\
            r_lastApplied r = -1 /\ sent (r_ApplyCh r) = []) :
  exists r', submit r commands = Some r' /\ Command <$> r_log r' = commands /\
    r_commitIndex r' = zlen commands - 1 /\
    sent (r_ApplyCh r') = take (length commands - 1) (r_log r').
Proof.
  destruct Hnew as (H1 & H2 & H3 & H4 & H5).
  assert (exists r', submit r commands = Some r' /\ r_state r' = Leader /\ zlen (r_peers r') = 1 /\
            r_LastIncludedIndex r' = 0 /\ contiguous 0 (r_log r') /\
            Command <$> r_log r' = commands /\ r_commitIndex r' = zlen commands - 1 /\
            r_lastApplied r' = zlen commands - 1 /\
            sent (r_ApplyCh r') = take (length commands - 1) (r_log r')) as (r' & ?); [|exists r'; tauto].
  induction commands as [|c commands IH] using rev_ind.
  { exists r. rewrite H1. split_and!; auto using contiguous_nil. }
  destruct IH as (s & Hs & Hst & Hp & HI & Hc & Hcmd & HC & HA & Hsent).
  assert (log_base s = 0) as Hb by (unfold log_base; by rewrite HI).
  assert (length (r_log s) = length commands) as Hlen by (by rewrite <- Hcmd, length_fmap).
  pose proof (getLastLogIndex_base s) as Hlast. rewrite Hb in Hlast. specialize (Hlast Hc).
  assert (getLastLogIndex s + 1 = zlen commands) as Hi by (unfold zlen in *; lia).
  unfold submit in *. rewrite foldl_app, Hs. cbn. rewrite AppendEntry_single by done. cbn. rewrite Hi.
  set (s1 := set_commitIndex (appended s c) (zlen commands)).
  destruct (apply_loop_sent s1) as [Hsend Happ]; [cbn; lia|].
  destruct (apply_loop_same_log s1) as (HL1 & _).
  destruct (applyCommittedLogs_same_log s1) as (HL & _ & HI' & _ & HP & HC').
  destruct (applyCommittedLogs_same_vote s1) as (_ & Hst' & _).
  assert (r_ApplyCh (applyCommittedLogs s1) = r_ApplyCh (apply_loop s1) /\
          r_lastApplied (applyCommittedLogs s1) = r_lastApplied (apply_loop s1)) as [HCh HAp]
    by (unfold applyCommittedLogs, checkSnapshotTrigger; repeat case_match; done).
  eexists. split; [done|].
  rewrite Hst', HP, HI', HL, HC', HCh, HAp, Happ, Hsend.
  cbn. split_and!; auto.
  - apply contiguous_snoc; [done|]. cbn. unfold zlen in *. lia.
  - by rewrite fmap_app, Hcmd.
  - len_lia.
  - len_lia.
  - rewrite Hsent, HA, HI. rewrite length_app. cbn [length].
    replace (length commands + 1 - 1)%nat with (length commands) by lia.
    replace (Z.to_nat (zlen commands - 0)) with (length commands) by (unfold zlen; lia).
    replace (Z.to_nat (zlen commands - 1 - 0)) with (length commands - 1)%nat by (unfold zlen; lia).
    rewrite (take_app_le (r_log s)) by lia. rewrite (take_ge (r_log s) (length commands)) by lia.
    apply take_drop.
Qed.

End Config.

Lemma append_entry_durable_witness :
  exists r' i,
    @AppendEntry sample_config (sample_leader [RaftWAL.sample_entry 0]) (of_string "set") = Some (r', [], Ok i) /\
    i = 0 + 1 /\ r_log r' = [RaftWAL.sample_entry 0; mkEntry i 1 (of_string "set") false] /\
    r_commitIndex r' = i /\ WaitCommitIndex_blocks r' i = false /\
    contiguous (log_base r') (r_log r') /\ mirrored r' /\
    exists r'', NewRaft (r_peers r') (r_me r') (r_wal r') = Some r'' /\ r_log r'' = r_log r'.
Proof.
  apply (@append_entry_durable sample_config (sample_leader [RaftWAL.sample_entry 0]) (of_string "set"));
    try reflexivity.
  - apply (contiguous_one (RaftWAL.sample_entry 0)).
  - split; [exists 1, 0; reflexivity|discriminate].
  - eval_closed.
Defined.

Lemma single_node_apply_lag_witness :
  exists r', @submit sample_config (sample_leader []) [of_string "a"; of_string "b"] = Some r' /\
    Command <$> r_log r' = [of_string "a"; of_string "b"] /\
    r_commitIndex r' = 1 /\ sent (r_ApplyCh r') = take 1 (r_log r').
Proof.
  apply (@single_node_apply_lag sample_config (sample_leader []) [of_string "a"; of_string "b"]);
    [reflexivity|reflexivity|split_and!; reflexivity].
Defined.

(** ** The apply loop after a snapshot *)

(** Absolute indexes and positions agree in a contiguous log. *)
Lemma filter_contiguous b l (lo hi : Z) :
  contiguous b l ->
  filter (fun e => lo < Index e <= hi) l = drop (Z.to_nat (lo + 1 - b)) (take (Z.to_nat (hi + 1 - b)) l).
Proof.
  revert b. induction l as [|e l IH]; intros b Hc; [by rewrite take_nil, drop_nil|].
  assert (Index e = b) as He by (rewrite (Hc 0%nat e eq_refl); lia).
  assert (contiguous (b + 1) l) as Hc' by (apply (contiguous_drop b (e :: l) 1 Hc)).
  rewrite filter_cons, (IH (b + 1) Hc'). destruct (decide (lo < Index e <= hi)) as [Hin|Hout].
  - replace (Z.to_nat (lo + 1 - b)) with 0%nat by lia.
    replace (Z.to_nat (lo + 1 - (b + 1))) with 0%nat by lia.
    by replace (Z.to_nat (hi + 1 - b)) with (S (Z.to_nat (hi + 1 - (b + 1)))) by lia.
  - destruct (decide (hi < b)).
    + replace (Z.to_nat (hi + 1 - b)) with 0%nat by lia.
      replace (Z.to_nat (hi + 1 - (b + 1))) with 0%nat by lia. by rewrite !take_0, !drop_nil.
    + replace (Z.to_nat (lo + 1 - b)) with (S (Z.to_nat (lo + 1 - (b + 1)))) by lia.
      by replace (Z.to_nat (hi + 1 - b)) with (S (Z.to_nat (hi + 1 - (b + 1)))) by lia.
Qed.

(** C26: once a snapshot exists, applying is exact: the loop of both
    [applyCommittedLogs] sends precisely the entries with
    [lastApplied < Index <= commitIndex], each once and in log order, and moves
    [lastApplied] to [commitIndex]. *)
Theorem apply_exact_after_snapshot (r : Raft)
    (Hsnap : 0 < r_LastIncludedIndex r) (Hlog : contiguous (log_base r) (r_log r))
    (Hle : r_lastApplied r <= r_commitIndex r) :
  sent (r_ApplyCh (rpc_applyCommittedLogs r)) =
    sent (r_ApplyCh r) ++
    filter (fun e => r_lastApplied r < Index e <= r_commitIndex r) (r_log r) /\
  r_lastApplied (rpc_applyCommittedLogs r) = r_commitIndex r.
Proof.
  destruct (apply_loop_sent r Hle) as [Hsent Happ]. unfold rpc_applyCommittedLogs.
  split; [|done]. unfold log_base in Hlog. rewrite (proj2 (Z.ltb_lt _ _) Hsnap) in Hlog.
  rewrite Hsent, (filter_contiguous (r_LastIncludedIndex r + 1)) by done.
  replace (r_lastApplied r + 1 - (r_LastIncludedIndex r + 1)) with (r_lastApplied r - r_LastIncludedIndex r) by lia.
  by replace (r_commitIndex r + 1 - (r_LastIncludedIndex r + 1)) with (r_commitIndex r - r_LastIncludedIndex r) by lia.
Qed.

Lemma apply_exact_after_snapshot_witness :
  let es := [RaftWAL.sample_entry 5; RaftWAL.sample_entry 6] in
  let r := mkRaft sample_peers 0 Follower (-1) 1 5 4 4 [] [] es (mkChan [] []) 4 1 empty_disk [] in
  sent (r_ApplyCh (rpc_applyCommittedLogs r)) =
    [] ++ filter (fun e => 4 < Index e <= 5) es /\
  r_lastApplied (rpc_applyCommittedLogs r) = 5.
Proof.
  intros es r. apply (apply_exact_after_snapshot r); [eval_closed| |eval_closed].
  apply (contiguous_app 5 [_] [_]); apply contiguous_one.
Defined.

(** ** The commit rule *)

(** The members that hold index [n] as far as the leader knows: itself, and those
    whose slot of [matchIndex] has reached it. *)
Definition holds (r : Raft) (n : Z) (j : nat) : Prop :=
  Z.of_nat j = r_me r \/ n <= r_matchIndex r !!! j.

#[export] Instance holds_dec r n j : Decision (holds r n j).
Proof. unfold holds. apply _. Defined.

Definition majority_holds (r : Raft) (n : Z) : Prop :=
  (length (r_peers r) < 2 * length (filter (holds r n) (seq 0 (length (r_peers r)))))%nat.

(** An entry of the current term above [commitIndex] known on a majority. *)
Definition committable (r : Raft) (e : LogEntry) : Prop :=
  r_commitIndex r < Index e /\ Term e = r_Term r /\ majority_holds r (Index e).

(** A leader among its peers, with a slot for each. *)
Definition has_slots (r : Raft) : Prop :=
  0 <= r_me r < zlen (r_peers r) /\ length (r_matchIndex r) = length (r_peers r).

Lemma count_absent (me : nat) (Q : nat -> Prop) `{forall j, Decision (Q j)} (l : list nat) :
  me ∉ l -> filter (fun j => j = me \/ Q j) l = filter (fun j => j <> me /\ Q j) l.
Proof.
  induction l as [|j l IH]; [done|]. rewrite not_elem_of_cons. intros [Hj Hl]. rewrite !filter_cons, (IH Hl).
  assert (j <> me) by congruence. destruct (decide (Q j)).
  - by rewrite !decide_True by auto.
  - by rewrite !decide_False by tauto.
Qed.

(** One member counted apart from the others. *)
Lemma count_apart (me : nat) (Q : nat -> Prop) `{forall j, Decision (Q j)} (l : list nat) :
  NoDup l -> me ∈ l ->
  length (filter (fun j => j = me \/ Q j) l) = S (length (filter (fun j => j <> me /\ Q j) l)).
Proof.
  induction 1 as [|j l Hj Hl IH]; [by intros ?%elem_of_nil|]. rewrite !filter_cons. destruct (decide (j = me)) as [->|Hne]; intros Hin.
  - rewrite decide_True by auto. rewrite decide_False by tauto. cbn. f_equal. by rewrite (count_absent me Q l Hj).
  - apply elem_of_cons in Hin as [<-|Hin]; [done|]. specialize (IH Hin). destruct (decide (Q j)).
    + rewrite !decide_True by auto. cbn. by rewrite IH.
    + rewrite !decide_False by tauto. done.
Qed.

Lemma imap_pair_seq (l : list Z) : imap pair l = (fun j => (j, l !!! j)) <$> seq 0 (length l).
Proof.
  apply list_eq. intros j. rewrite list_lookup_imap, list_lookup_fmap. destruct (l !! j) as [x|] eqn:E; cbn.
  - rewrite lookup_seq_lt by (by eapply lookup_lt_Some). cbn. by rewrite (list_lookup_total_correct _ _ _ E).
  - by rewrite lookup_seq_ge by (by apply lookup_ge_None).
Qed.

Lemma count_fmap {A B} (f : A -> B) (P : B -> Prop) `{forall x, Decision (P x)} (l : list A) :
  length (filter P (f <$> l)) = length (filter (fun x => P (f x)) l).
Proof.
  induction l as [|x l IH]; [done|]. rewrite fmap_cons, !filter_cons. destruct (decide (P (f x))); cbn; by rewrite ?IH.
Qed.

(** The loop's counter is the number of members that hold the index. *)
Lemma replicas_holds r n :
  has_slots r -> replicas r n = Z.of_nat (length (filter (holds r n) (seq 0 (length (r_peers r))))).
Proof.
  intros [Hme Hlen]. unfold replicas, zlen. rewrite imap_pair_seq, Hlen, count_fmap. cbn [fst snd].
  set (me := Z.to_nat (r_me r)). set (l := seq 0 (length (r_peers r))).
  assert (Z.of_nat me = r_me r) as Hz by lia.
  rewrite (list_filter_iff (holds r n) (fun j => j = me \/ n <= r_matchIndex r !!! j) l) by (intros j; unfold holds; lia).
  rewrite (count_apart me (fun j => n <= r_matchIndex r !!! j)).
  - rewrite Nat2Z.inj_succ. rewrite (list_filter_iff _ (fun j => j <> me /\ n <= r_matchIndex r !!! j) l) by (intros j; cbn; lia). lia.
  - apply NoDup_seq.
  - apply elem_of_seq. unfold zlen in Hme. lia.
Qed.

Lemma majority_replicas r n : has_slots r -> majority_holds r n <-> zlen (r_peers r) / 2 < replicas r n.
Proof.
  intros Hs. rewrite (replicas_holds r n Hs). unfold majority_holds, zlen.
  set (c := length (filter _ _)). set (p := length (r_peers r)). clearbody c p.
  pose proof (Z.div_mod (Z.of_nat p) 2). pose proof (Z.mod_pos_bound (Z.of_nat p) 2). lia.
Qed.

Lemma commit_scan_spec r l :
  has_slots r ->
  match commit_scan r l with
  | Some n => exists l1 e l2, l = l1 ++ e :: l2 /\ committable r e /\ Index e = n /\
                Forall (fun e => ~ committable r e) l1
  | None => Forall (fun e => ~ committable r e) l
  end.
Proof.
  intros Hs. induction l as [|e l IH]; cbn [commit_scan]; [done|].
  assert (committable r e \/ ~ committable r e /\ commit_scan r (e :: l) = commit_scan r l) as Hcase.
  { cbn [commit_scan]. unfold committable. rewrite (majority_replicas r (Index e) Hs).
    destruct (Z.leb_spec (Index e) (r_commitIndex r)); [right; split; [lia|done]|].
    destruct (Z.eqb_spec (Term e) (r_Term r)); [|right; split; [tauto|done]]. cbn [negb].
    destruct (Z.ltb_spec (zlen (r_peers r) / 2) (replicas r (Index e))); [by left|].
    right; split; [lia|done]. }
  destruct Hcase as [Hc|[Hno Heq]].
  - pose proof Hc as (H1 & H2 & H3%(majority_replicas r _ Hs)). rewrite (proj2 (Z.leb_gt _ _) H1), (proj2 (Z.eqb_eq _ _) H2).
    cbn [negb]. rewrite (proj2 (Z.ltb_lt _ _) H3). exists [], e, l. by split_and!.
  - cbn [commit_scan] in Heq. rewrite Heq. destruct (commit_scan r l) as [n|]; [|by constructor].
    destruct IH as (l1 & e' & l2 & -> & ? & ? & ?). exists (e :: l1), e', l2. split_and!; auto.
Qed.

Lemma applyCommittedLogs_commit `{RaftConfig} r : r_commitIndex (applyCommittedLogs r) = r_commitIndex r.
Proof. by destruct (applyCommittedLogs_same_log r) as (_ & _ & _ & _ & _ & ->). Qed.

(** The first committable entry from the end of the log is the last one. *)
Lemma commit_scan_last r :
  has_slots r -> contiguous (log_base r) (r_log r) ->
  match commit_scan r (reverse (r_log r)) with
  | Some n => (exists e, e ∈ r_log r /\ committable r e /\ Index e = n) /\
              forall e, e ∈ r_log r -> committable r e -> Index e <= n
  | None => forall e, e ∈ r_log r -> ~ committable r e
  end.
Proof.
  intros Hs Hlog. pose proof (commit_scan_spec r (reverse (r_log r)) Hs) as Hscan.
  destruct (commit_scan r (reverse (r_log r))) as [n|].
  - destruct Hscan as (l1 & e & l2 & Heq & Hc & Hi & Hno).
    apply (f_equal reverse) in Heq. rewrite reverse_involutive, reverse_app, reverse_cons in Heq.
    rewrite <- app_assoc in Heq. cbn [app] in Heq.
    assert (r_log r !! length (reverse l2) = Some e) as Hat by (rewrite Heq; by apply list_lookup_middle).
    split; [exists e; split_and!; try done; by eapply list_elem_of_lookup_2|].
    intros e' [k Hk]%list_elem_of_lookup_1 Hc'. rewrite Forall_forall in Hno.
    destruct (decide (k <= length (reverse l2))%nat) as [Hle|Hgt].
    { pose proof (Hlog _ _ Hk). pose proof (Hlog _ _ Hat). lia. }
    destruct (Hno e'); [|done]. rewrite Heq, lookup_app_r, lookup_cons_ne_0 in Hk by lia.
    apply list_elem_of_lookup_2 in Hk. by rewrite elem_of_reverse in Hk.
  - intros e He. rewrite Forall_forall in Hscan. apply Hscan. by rewrite elem_of_reverse.
Qed.

(** C24: the commit rule: on a leader [updateCommitIndex] moves [commitIndex] to
    the largest index of an entry of the leader's own term that a majority of the
    peers holds, the leader itself counted once whatever its own slot of
    [matchIndex] says and every other by its slot, and leaves it alone when there
    is none; it never moves backwards. On a node that does not lead it changes
    nothing at all. *)
Theorem commit_index_majority `{RaftConfig} (r : Raft)
    (Hlog : contiguous (log_base r) (r_log r)) (Hslots : has_slots r) :
  (r_state r <> Leader -> updateCommitIndex r = r) /\
  (r_state r = Leader ->
   let c := r_commitIndex (updateCommitIndex r) in
   r_commitIndex r <= c /\
   (c = r_commitIndex r \/ exists e, e ∈ r_log r /\ committable r e /\ Index e = c) /\
   (forall e, e ∈ r_log r -> committable r e -> Index e <= c)).
Proof.
  split.
  { intros Hl. unfold updateCommitIndex. by rewrite bool_decide_false. }
  intros Hl c. unfold c, updateCommitIndex. rewrite bool_decide_true by done. cbn [negb].
  pose proof (commit_scan_last r Hslots Hlog) as Hscan.
  destruct (commit_scan r (reverse (r_log r))) as [n|].
  - rewrite applyCommittedLogs_commit. cbn. destruct Hscan as [(e & He & Hc & Hi) Hmax].
    split_and!; [destruct Hc as (? & _); lia| |done]. right. by exists e.
  - split_and!; [lia|by left|]. intros e He Hc. by destruct (Hscan e He).
Qed.

(** Three nodes; the leader's own slot is 0, one of the others has entry 5. *)
Lemma commit_index_majority_witness :
  let r := mkRaft sample_peers 0 Leader 0 1 4 4 4 [6; 6; 6] [0; 5; 0] [RaftWAL.sample_entry 5]
             (mkChan [] []) 4 1 empty_disk [] in
  r_commitIndex (@updateCommitIndex sample_config r) = 5.
Proof.
  intros r. assert (has_slots r) as Hs by (split; [split; [discriminate|reflexivity]|reflexivity]).
  destruct (@commit_index_majority sample_config r) as [_ Hc].
  - apply (contiguous_one (RaftWAL.sample_entry 5)).
  - exact Hs.
  - destruct (Hc eq_refl) as (_ & Hor & Hmax).
    assert (5 <= r_commitIndex (@updateCommitIndex sample_config r)).
    { apply (Hmax (RaftWAL.sample_entry 5)); [by left|]. split; [reflexivity|]. split; [reflexivity|]. vm_compute. lia. }
    destruct Hor as [Heq|(e & [->|He%elem_of_nil]%elem_of_cons & _ & <-)]; [|reflexivity|done].
    rewrite Heq in H. by vm_compute in H.
Defined.

(** ** Replication on a follower *)

Lemma log_at_nat l (p : nat) : log_at l (Z.of_nat p) = l !! p.
Proof. unfold log_at. destruct (Z.ltb_spec (Z.of_nat p) 0); [lia|]. by rewrite Nat2Z.id. Qed.

(** What [append_loop] promises when it starts from [l] at position [p] with
    these entries: the log stays contiguous, keeps everything below [p], holds
    every entry at its place, and unless a conflict was found the new log and
    [newEntries] grew by the same suffix. *)
Definition loop_post (base : Z) (entries l : list LogEntry) (rb : bool) (ne : list LogEntry) (p : nat)
    (res : list LogEntry * bool * list LogEntry) : Prop :=
  let '(l', rb', ne') := res in
  contiguous (base + 1) l' /\ take p l' = take p l /\ (p + length entries <= length l')%nat /\
  (forall k e, entries !! k = Some e -> exists e', l' !! (p + k)%nat = Some e' /\
     Term e' = Term e /\ Index e' = Index e) /\
  (rb' = false -> rb = false /\ exists suffix, l' = l ++ suffix /\ ne' = ne ++ suffix).

(** One entry, already in place in [m]. *)
Lemma loop_post_cons base e entries l rb ne m rb1 ne1 p e' res :
  loop_post base entries m rb1 ne1 (S p) res ->
  m !! p = Some e' -> Term e' = Term e -> Index e' = Index e -> take p m = take p l ->
  (rb1 = false -> rb = false /\ exists suffix, m = l ++ suffix /\ ne1 = ne ++ suffix) ->
  loop_post base (e :: entries) l rb ne p res.
Proof.
  destruct res as [[l' rb'] ne']. intros (H1 & H2 & H3 & H4 & H5) Hat HT HI Hpre Happ.
  assert (l' !! p = m !! p) as Hlp by (rewrite <- (lookup_take_lt l' (S p)), H2, lookup_take_lt by lia; done).
  split_and!; try done.
  - rewrite <- Hpre. apply (f_equal (take p)) in H2. by rewrite !take_take, Nat.min_l in H2 by lia.
  - cbn [length]. lia.
  - intros [|k] e0 Hk.
    + simpl in Hk. injection Hk as <-. exists e'. by rewrite Nat.add_0_r, Hlp.
    + destruct (H4 k e0 Hk) as (e1 & Hk1 & ?). exists e1. by rewrite Nat.add_succ_r.
  - intros Hf. destruct (H5 Hf) as (Hrb & sfx & -> & ->). destruct (Happ Hrb) as (? & sfx' & -> & ->).
    split; [done|]. exists (sfx' ++ sfx). by rewrite !app_assoc.
Qed.

Lemma append_loop_spec base entries l rb ne (p : nat) :
  contiguous (base + 1 + Z.of_nat p) entries -> contiguous (base + 1) l -> (p <= length l)%nat ->
  exists res, append_loop base entries l rb ne = Some res /\ loop_post base entries l rb ne p res.
Proof.
  revert l rb ne p. induction entries as [|e entries IH]; intros l rb ne p He Hl Hp; cbn [append_loop].
  { exists (l, rb, ne). split; [done|]. split_and!; auto; [cbn; lia| |].
    - intros k e. by rewrite lookup_nil.
    - intros ->. split; [done|]. exists []. by rewrite !app_nil_r. }
  assert (Index e = base + 1 + Z.of_nat p) as Hi by (rewrite (He 0%nat e eq_refl); lia).
  assert (contiguous (base + 1 + Z.of_nat (S p)) entries) as He'.
  { replace (base + 1 + Z.of_nat (S p)) with (base + 1 + Z.of_nat p + Z.of_nat 1) by lia.
    apply (contiguous_drop _ (e :: entries) 1 He). }
  replace (Index e - base - 1) with (Z.of_nat p) by lia. rewrite Nat2Z.id, log_at_nat.
  assert (forall m, contiguous (base + 1) m -> length m = p -> contiguous (base + 1) (m ++ [e])) as Hsnoc
    by (intros m Hm Hlen; apply contiguous_snoc; [done|unfold zlen; lia]).
  destruct (Z.ltb_spec (Z.of_nat p) (zlen l)) as [Hlt|Hge]; unfold zlen in *.
  - destruct (lookup_lt_is_Some_2 l p) as [old Hold]; [lia|]. rewrite Hold. cbn.
    destruct (Z.eqb_spec (Term old) (Term e)) as [HT|HT]; cbn.
    + rewrite (proj2 (Z.leb_gt _ _)) by lia.
      destruct (IH l rb ne (S p) He' Hl ltac:(lia)) as (res & -> & Hres). exists res. split; [done|].
      eapply loop_post_cons; [done|done|done|rewrite (Hl _ _ Hold); lia|done|].
      intros ->. split; [done|]. exists []. by rewrite !app_nil_r.
    + assert (length (take p l) = p) as Hlen by (rewrite length_take; lia).
      rewrite Hlen, (proj2 (Z.leb_le _ _)) by lia.
      destruct (IH (take p l ++ [e]) true (ne ++ [e]) (S p) He') as (res & -> & Hres);
        [by apply Hsnoc, Hlen; apply contiguous_take|rewrite length_app, Hlen; cbn; lia|].
      exists res. split; [done|].
      eapply loop_post_cons; [done|by apply list_lookup_middle|done|done| |discriminate].
      by rewrite take_app_le, take_take, Nat.min_id by lia.
  - assert (length l = p) as Hlen by lia. cbn. unfold zlen. rewrite Hlen, (proj2 (Z.leb_le _ _)) by lia.
    destruct (IH (l ++ [e]) rb (ne ++ [e]) (S p) He') as (res & -> & Hres);
      [by apply Hsnoc|rewrite length_app, Hlen; cbn; lia|].
    exists res. split; [done|].
    eapply loop_post_cons; [done|by apply list_lookup_middle|done|done| |].
    + by rewrite take_app_le by lia.
    + intros ->. split; [done|]. by exists [e].
Qed.

Lemma log_at_Some l i e : log_at l i = Some e -> 0 <= i < zlen l /\ l !! Z.to_nat i = Some e.
Proof.
  unfold log_at. destruct (Z.ltb_spec i 0); [done|]. intros Hl.
  pose proof (lookup_lt_Some _ _ _ Hl). unfold zlen. split; [lia|done].
Qed.

(** A previous entry that matches is in the log, or the snapshot's last. *)
Lemma prev_position r args :
  0 < r_LastIncludedIndex r -> r_LastIncludedIndex r <= ae_PrevLogIndex args -> prevMatches r args = true ->
  (Z.to_nat (ae_PrevLogIndex args - r_LastIncludedIndex r) <= length (r_log r))%nat.
Proof.
  intros Hs Hp Hpm. unfold prevMatches in Hpm. rewrite (proj2 (Z.leb_le _ _)) in Hpm by lia.
  destruct (Z.eqb_spec (ae_PrevLogIndex args) (r_LastIncludedIndex r)); [lia|]. cbn in Hpm.
  destruct (Z.ltb_spec (r_LastIncludedIndex r) (ae_PrevLogIndex args)); [|lia].
  destruct (log_at _ _) as [e|] eqn:E; [|done]. apply log_at_Some in E as [E _].
  unfold relative, zlen in E. lia.
Qed.

Lemma adoptTerm_log r t :
  r_log (adoptTerm r t) = r_log r /\ r_LastIncludedIndex (adoptTerm r t) = r_LastIncludedIndex r /\
  r_LastIncludedTerm (adoptTerm r t) = r_LastIncludedTerm r /\
  RaftWAL.logFile (r_wal (adoptTerm r t)) = RaftWAL.logFile (r_wal r) /\
  r_commitIndex (adoptTerm r t) = r_commitIndex r.
Proof. unfold adoptTerm. by case_match. Qed.

(** The last stage of [AppendEntries]: follow the leader's commit index. *)
Definition follow_commit (r : Raft) (leaderCommit : Z) : Raft :=
  if r_commitIndex r <? leaderCommit then
    let lastLogIndex := match last_entry (r_log r) with
                        | Some e => Index e
                        | None => r_LastIncludedIndex r
                        end in
    rpc_applyCommittedLogs (set_commitIndex r (Z.min leaderCommit lastLogIndex))
  else r.

Lemma follow_commit_log r n :
  r_log (follow_commit r n) = r_log r /\ r_wal (follow_commit r n) = r_wal r /\
  r_LastIncludedIndex (follow_commit r n) = r_LastIncludedIndex r /\
  r_Term (follow_commit r n) = r_Term r.
Proof.
  unfold follow_commit, rpc_applyCommittedLogs. case_match; [|done].
  match goal with |- context [apply_loop ?x] =>
    destruct (apply_loop_same_log x) as (-> & -> & -> & _);
    destruct (apply_loop_same_vote x) as (_ & _ & _ & -> & _) end. done.
Qed.

Lemma follow_commit_index r n :
  0 < r_LastIncludedIndex r -> contiguous (r_LastIncludedIndex r + 1) (r_log r) ->
  r_commitIndex (follow_commit r n) =
    if r_commitIndex r <? n then Z.min n (r_LastIncludedIndex r + zlen (r_log r)) else r_commitIndex r.
Proof.
  intros Hpos Hc. unfold follow_commit, rpc_applyCommittedLogs. case_match; [|done].
  match goal with |- context [apply_loop ?x] =>
    destruct (apply_loop_same_log x) as (_ & _ & _ & _ & _ & ->) end. cbn. f_equal.
  unfold last_entry. destruct (last (r_log r)) as [e|] eqn:E.
  - rewrite (contiguous_last _ _ _ Hc E). lia.
  - apply last_None in E. rewrite E. change (zlen (@nil LogEntry)) with 0. lia.
Qed.

(** The middle stage: store the entries and their log file. *)
Definition store_entries (r : Raft) (entries : list LogEntry)
    (res : list LogEntry * bool * list LogEntry) : Raft :=
  let '(log, needRebuild, newEntries) := res in
  match entries with
  | [] => r
  | _ => persistStateLocked (set_rlog r log
           (if (needRebuild : bool) then RaftWAL.RebuildLogFile (r_wal r) log
            else RaftWAL.AppendLogs (r_wal r) newEntries))
  end.

Lemma AppendEntries_stages r args :
  AppendEntries r args =
    if ae_Term args <? r_Term r then Some (r, mkAppendReply (r_Term r) false) else
    let s := adoptTerm r (ae_Term args) in
    if negb (prevMatches s args) then Some (s, mkAppendReply (r_Term s) false) else
    res ← append_loop (r_LastIncludedIndex s) (ae_Entries args) (r_log s) false [];
    let r' := follow_commit (store_entries s (ae_Entries args) res) (ae_LeaderCommit args) in
    Some (r', mkAppendReply (r_Term r') true).
Proof.
  unfold AppendEntries. case_match; [done|]. cbv zeta. case_match; [done|].
  by destruct (append_loop _ _ _ _ _) as [[[log rb] ne]|].
Qed.

Lemma store_entries_fields r entries res :
  (entries = [] -> exists rb ne, res = (r_log r, rb, ne)) ->
  r_log (store_entries r entries res) = res.1.1 /\
  r_LastIncludedIndex (store_entries r entries res) = r_LastIncludedIndex r /\
  r_commitIndex (store_entries r entries res) = r_commitIndex r /\
  r_Term (store_entries r entries res) = r_Term r.
Proof.
  destruct res as [[log rb] ne]. destruct entries; [|done].
  intros H. destruct (H eq_refl) as (rb' & ne' & [= -> -> ->]). done.
Qed.

Lemma store_entries_mirrored r base entries res (p : nat) :
  mirrored r -> append_loop base entries (r_log r) false [] = Some res ->
  loop_post base entries (r_log r) false [] p res -> mirrored (store_entries r entries res).
Proof.
  destruct res as [[log rb] ne]. intros Hm Hrun (_ & _ & _ & _ & Hsame).
  destruct entries as [|e entries]; [done|]. unfold mirrored, store_entries. cbn.
  destruct rb.
  - by apply (RaftWAL.AppendLogs_log_bytes _ []).
  - destruct (Hsame eq_refl) as (_ & sfx & -> & ->). by apply mirrored_append.
Qed.

(** C4: replication on a follower that has a snapshot: an [AppendEntries] from a
    current leader, with contiguous entries behind a position at or above the
    snapshot, is answered without panic; it succeeds exactly when the previous
    entry matches, and then every sent entry sits at its absolute index with the
    leader's term, everything before it is untouched, and [commitIndex] follows
    the leader's up to the last index.  The log stays contiguous and equal to the
    log file whether entries were appended, skipped or a conflict was cut off. *)
Theorem append_entries_replicates (r : Raft) (args : AppendEntriesArgs)
    (Hterm : r_Term r <= ae_Term args) (Hsnap : 0 < r_LastIncludedIndex r)
    (Hlog : contiguous (r_LastIncludedIndex r + 1) (r_log r)) (Hmir : mirrored r)
    (Hprev : r_LastIncludedIndex r <= ae_PrevLogIndex args)
    (Hents : contiguous (ae_PrevLogIndex args + 1) (ae_Entries args)) :
  exists r' reply, AppendEntries r args = Some (r', reply) /\
    ar_Success reply = prevMatches r args /\ ar_Term reply = ae_Term args /\
    contiguous (r_LastIncludedIndex r + 1) (r_log r') /\ mirrored r' /\
    (ar_Success reply = false -> r_log r' = r_log r /\ r_commitIndex r' = r_commitIndex r) /\
    (ar_Success reply = true ->
       let p := Z.to_nat (ae_PrevLogIndex args - r_LastIncludedIndex r) in
       (forall k e, ae_Entries args !! k = Some e ->
          exists e', r_log r' !! (p + k)%nat = Some e' /\ Term e' = Term e /\ Index e' = Index e) /\
       take p (r_log r') = take p (r_log r) /\
       r_commitIndex r' =
         if r_commitIndex r <? ae_LeaderCommit args
         then Z.min (ae_LeaderCommit args) (r_LastIncludedIndex r + zlen (r_log r'))
         else r_commitIndex r).
Proof.
  rewrite AppendEntries_stages. destruct (Z.ltb_spec (ae_Term args) (r_Term r)); [lia|]. cbv zeta.
  destruct (adoptTerm_log r (ae_Term args)) as (HL & HI & HIT & HF & HC).
  assert (r_Term (adoptTerm r (ae_Term args)) = ae_Term args) as HT
    by (unfold adoptTerm; destruct (Z.ltb_spec (r_Term r) (ae_Term args)); cbn; lia).
  set (s := adoptTerm r (ae_Term args)) in *.
  assert (mirrored s) as Hms by (unfold mirrored; by rewrite HF, HL).
  assert (prevMatches s args = prevMatches r args) as Hpm
    by (unfold prevMatches, relative; by rewrite HL, HI, HIT).
  rewrite <- Hpm, <- HI. rewrite <- HL, <- HI in Hlog. rewrite <- HI in Hsnap, Hprev.
  rewrite <- HL. rewrite <- HC. clearbody s. clear HL HI HIT HF HC Hpm Hmir r H Hterm.
  destruct (prevMatches s args) eqn:Hpm; cbn [negb].
  2: { exists s, (mkAppendReply (r_Term s) false). by split_and!. }
  set (p := Z.to_nat (ae_PrevLogIndex args - r_LastIncludedIndex s)).
  pose proof (prev_position s args Hsnap Hprev Hpm) as Hp. fold p in Hp.
  destruct (append_loop_spec (r_LastIncludedIndex s) (ae_Entries args) (r_log s) false [] p)
    as (res & Hrun & Hpost); [|done|done|].
  { by replace (r_LastIncludedIndex s + 1 + Z.of_nat p) with (ae_PrevLogIndex args + 1) by lia. }
  rewrite Hrun. cbn [mbind option_bind].
  pose proof (store_entries_mirrored _ _ _ _ _ Hms Hrun Hpost) as Hm1.
  destruct (store_entries_fields s (ae_Entries args) res) as (HL1 & HI1 & HC1 & HT1).
  { intros He. rewrite He in Hrun. cbn in Hrun. injection Hrun as <-. eauto. }
  set (s1 := store_entries s (ae_Entries args) res) in *.
  destruct res as [[log rb] ne]. destruct Hpost as (P1 & P2 & _ & P4 & _). cbn in HL1.
  rewrite <- HL1 in P1, P2, P4.
  pose proof (follow_commit_index s1 (ae_LeaderCommit args)) as HC2. rewrite HI1 in HC2.
  specialize (HC2 Hsnap P1). destruct (follow_commit_log s1 (ae_LeaderCommit args)) as (HL2 & HW2 & HI2 & HT2).
  eexists _, _. split; [done|]. cbn [ar_Success ar_Term].
  unfold mirrored. rewrite HL2, HW2, HT2, HT1, HC2, HC1. by split_and!.
Qed.

Lemma append_entries_replicates_witness :
  let es := [RaftWAL.sample_entry 5; RaftWAL.sample_entry 6] in
  let r := mkRaft sample_peers 0 Follower (-1) 1 5 4 4 [] [] es (mkChan [] []) 4 1 (disk_with es) [] in
  let args := mkAppendArgs 2 1 5 1 [mkEntry 6 2 (of_string "y") false] 6 in
  exists r' reply, AppendEntries r args = Some (r', reply) /\
    ar_Success reply = prevMatches r args /\ ar_Term reply = 2 /\
    contiguous 5 (r_log r') /\ mirrored r' /\
    (ar_Success reply = false -> r_log r' = es /\ r_commitIndex r' = 5) /\
    (ar_Success reply = true ->
       (forall k e, ae_Entries args !! k = Some e ->
          exists e', r_log r' !! (1 + k)%nat = Some e' /\ Term e' = Term e /\ Index e' = Index e) /\
       take 1 (r_log r') = take 1 es /\
       r_commitIndex r' = if 5 <? 6 then Z.min 6 (4 + zlen (r_log r')) else 5).
Proof.
  intros es r args. apply (append_entries_replicates r args); try eval_closed.
  - apply (contiguous_app 5 [_] [_]); apply contiguous_one.
  - apply (contiguous_one (mkEntry 6 2 (of_string "y") false)).
Defined.

(** ** Panics of the first entry *)

(** without a snapshot the first log entry cannot be replicated: a follower
    whose consistency check passes panics on a batch that starts with index 0
    (it evaluates [log[-1]]), and a leader panics in [AppendEntry] as soon as
    some peer still needs index 0 (it evaluates [log[-1:]]). *)
Theorem first_entry_panics `{RaftConfig} (r : Raft) (Hnosnap : r_LastIncludedIndex r = 0) :
  (forall args e rest, r_Term r <= ae_Term args -> ae_PrevLogIndex args = -1 ->
     ae_Entries args = e :: rest -> Index e = 0 -> AppendEntries r args = None) /\
  (forall command i, r_state r = Leader -> (2 <= length (r_peers r))%nat -> 0 <= r_me r ->
     (i < length (r_peers r))%nat -> Z.of_nat i <> r_me r -> r_nextIndex r !! i = Some 0 ->
     AppendEntry r command = None).
Proof.
  split.
  - intros args e rest Ht Hp He Hi. rewrite AppendEntries_stages.
    destruct (Z.ltb_spec (ae_Term args) (r_Term r)); [lia|]. cbv zeta.
    destruct (adoptTerm_log r (ae_Term args)) as (_ & HI & _).
    unfold prevMatches. rewrite Hp. cbn [negb Z.leb]. rewrite HI, Hnosnap, He. cbn [append_loop].
    rewrite Hi. destruct (Z.ltb_spec (0 - 0 - 1) (zlen (r_log (adoptTerm r (ae_Term args)))));
      [done|pose proof (zlen_nonneg (r_log (adoptTerm r (ae_Term args)))); lia].
  - intros command i Hl Hn Hme Hlt Hne Hnext. unfold AppendEntry.
    rewrite bool_decide_true by done. cbn [negb].
    set (s := set_rlog r _ _). assert ((zlen (r_peers s) =? 1) = false) as ->
      by (apply Z.eqb_neq; unfold zlen, s; cbn; lia).
    assert (replicateLog s = None) as ->; [|done].
    unfold replicateLog. rewrite bool_decide_true by done. cbn [negb].
    apply mapM_None. apply Exists_exists. exists i. split.
    { unfold others. apply list_elem_of_filter. split; [done|].
      apply elem_of_seq. unfold s. cbn. lia. }
    unfold replicateTo. cbn [r_nextIndex s set_rlog]. rewrite Hnext. cbn [mbind option_bind].
    unfold behindSnapshot, relative. cbn [r_LastIncludedIndex s set_rlog r_log]. rewrite Hnosnap. cbn [andb].
    destruct (Z.ltb_spec (0 - 0 - 1) (zlen (r_log r ++ [mkEntry (getLastLogIndex r + 1) (r_Term r) command false])));
      [done|pose proof (zlen_nonneg (r_log r)); len_lia].
Qed.

Lemma first_entry_panics_witness :
  let r := mkRaft sample_peers 0 Leader 0 1 (-1) (-1) 0 [0; 0; 0] [0; 0; 0] [] (mkChan [] []) 0 0 empty_disk [] in
  AppendEntries r (mkAppendArgs 1 1 (-1) 0 [RaftWAL.sample_entry 0] (-1)) = None /\
  @AppendEntry sample_config r (of_string "set") = None.
Proof.
  intros r. destruct (@first_entry_panics sample_config r eq_refl) as [Hf Hl]. split.
  - by apply (Hf _ (RaftWAL.sample_entry 0) []).
  - apply (Hl _ 1%nat); try reflexivity; try discriminate; cbn; lia.
Defined.

(** A heartbeat that a follower accepts is counted as if it had replicated the
    leader's whole log: an entry held by the leader alone becomes committed. *)
Example heartbeat_commits_unreplicated :
  let old := [RaftWAL.sample_entry 0; RaftWAL.sample_entry 1] in
  let leader := r ← NewRaft sample_peers 0 (disk_with old); '(r, _) ← startElection r;
                '(r, _, _) ← @AppendEntry sample_config (finishElection r []) (of_string "new"); Some r in
  let follower := NewRaft sample_peers 1 empty_disk in
  (* one heartbeat round trip between the two *)
  let beat (p : Raft * Raft) := m ← heartbeatTo p.1 1;
    match m with
    | SendAppendEntries args => '(f, reply) ← AppendEntries p.2 args;
        Some (@onAppendReply sample_config p.1 1 (Some reply), f)
    | SendInstallSnapshot _ => Some p
    end in
  (l ← leader; f ← follower; p ← beat (l, f); p ← beat p; p ← beat p;
   Some (r_commitIndex p.1, r_log p.2)) = Some (2, []).
Proof. vm_compute. reflexivity. Qed.

(** ** Snapshots *)

Lemma filter_above b l (lo : Z) :
  contiguous b l -> filter (fun e => lo < Index e) l = drop (Z.to_nat (lo + 1 - b)) l.
Proof.
  revert b. induction l as [|e l IH]; intros b Hc; [by rewrite drop_nil|].
  assert (Index e = b) as He by (rewrite (Hc 0%nat e eq_refl); lia).
  assert (contiguous (b + 1) l) as Hc' by (apply (contiguous_drop b (e :: l) 1 Hc)).
  rewrite filter_cons, (IH (b + 1) Hc'). case_decide.
  - replace (Z.to_nat (lo + 1 - b)) with 0%nat by lia.
    by replace (Z.to_nat (lo + 1 - (b + 1))) with 0%nat by lia.
  - by replace (Z.to_nat (lo + 1 - b)) with (S (Z.to_nat (lo + 1 - (b + 1)))) by lia.
Qed.

(** Renumbering a log that already has these indexes changes nothing. *)
Lemma renumber_contiguous b l :
  contiguous b l ->
  imap (fun i e => mkEntry (b + Z.of_nat i) (Term e) (Command e) (IsSnapshot e)) l = l.
Proof.
  intros Hc. apply list_eq. intros i. rewrite list_lookup_imap.
  destruct (l !! i) as [e|] eqn:E; [|done]. cbn. rewrite <- (Hc _ _ E). by destruct e.
Qed.

(** A restart from a disk with a snapshot. *)
Lemma NewRaft_snapshot peers me w es term vote i t data :
  RaftWAL.logFile w = Some (RaftWAL.log_bytes es) -> Forall log_entry_ok es -> 0 < i ->
  RaftWAL.LoadState w = (term, vote, None) ->
  RaftWAL.LoadLatestSnapshot w = Some (Ok (Some data, i, t)) ->
  exists r, NewRaft peers me w = Some r /\ r_log r = es /\ r_Term r = term /\ r_votedFor r = vote /\
    r_LastIncludedIndex r = i /\ r_LastIncludedTerm r = t /\ r_commitIndex r = i /\ r_lastApplied r = i /\
    sent (r_ApplyCh r) = [mkEntry i t data true].
Proof.
  intros Hw Hes Hi Hst Hsnap. unfold NewRaft, readPersist, RaftWAL.LoadPersist. cbn [r_wal].
  assert (RaftWAL.LoadState (RaftWAL.NewRaftWAL w) = (term, vote, None)) as -> by done.
  assert (RaftWAL.LoadLatestSnapshot (RaftWAL.NewRaftWAL w) = Some (Ok (Some data, i, t))) as Hs by done.
  rewrite (RaftWAL.LoadLogs_bytes _ es) by (done || (cbn; by rewrite Hw)).
  rewrite Hs. cbn. rewrite (proj2 (Z.ltb_lt 0 i)) by done. cbn.
  rewrite (proj2 (Z.ltb_lt 0 i)) by done. rewrite Hs. cbn. eexists. split; [done|]. by split_and!.
Qed.

(** C25: the first snapshot of a node: for a committed index [k] of a contiguous,
    mirrored log that starts at 0, [TakeSnapshot] cuts memory and log file to the
    entries above [k], keeps them contiguous, and the disk it leaves restarts to
    the same log, term, vote and snapshot position with [k] applied, delivering a
    payload that decodes to exactly the entries up to [k]. *)
Theorem first_snapshot_restart (r : Raft) (k : Z)
    (Hlog : contiguous 0 (r_log r)) (Hmir : mirrored r) (Hok : Forall log_entry_ok (r_log r))
    (Hfirst : r_LastIncludedIndex r = 0 /\ r_lastSnapshotIndex r = 0 /\ RaftWAL.snapDir (r_wal r) = None)
    (Hk : 0 < k <= r_commitIndex r /\ r_commitIndex r < zlen (r_log r))
    (Hw : i64 (r_Term r) /\ i64 (r_votedFor r) /\ u32 (k + 1) /\
          zlen (Codec.SerializeLogEntries (take (Z.to_nat (k + 1)) (r_log r))) < 2 ^ 63) :
  exists r' e, TakeSnapshot r k = Some (r', Ok tt) /\ r_log r !! Z.to_nat k = Some e /\
    r_log r' = drop (Z.to_nat (k + 1)) (r_log r) /\ contiguous (log_base r') (r_log r') /\ mirrored r' /\
    r_LastIncludedIndex r' = k /\ r_LastIncludedTerm r' = Term e /\
    exists r'' data, NewRaft (r_peers r) (r_me r) (r_wal r') = Some r'' /\
      r_log r'' = r_log r' /\ r_Term r'' = r_Term r /\ r_votedFor r'' = r_votedFor r /\
      r_LastIncludedIndex r'' = k /\ r_LastIncludedTerm r'' = Term e /\
      r_commitIndex r'' = k /\ r_lastApplied r'' = k /\
      sent (r_ApplyCh r'') = [mkEntry k (Term e) data true] /\
      Codec.DeserializeLogEntries data = Some (take (Z.to_nat (k + 1)) (r_log r)).
Proof.
  destruct Hfirst as (HI & HS & HD), Hw as (HT & HV & Hu & Hlen).
  destruct (lookup_lt_is_Some_2 (r_log r) (Z.to_nat k)) as [e He]; [unfold zlen in *; lia|].
  set (es := take (Z.to_nat (k + 1)) (r_log r)) in *. set (rest := drop (Z.to_nat (k + 1)) (r_log r)).
  set (data := Codec.SerializeLogEntries es) in *.
  assert (last es = Some e) as Hlast.
  { unfold es. replace (Z.to_nat (k + 1)) with (S (Z.to_nat k)) by lia.
    by rewrite (take_S_r _ _ _ He), last_snoc. }
  assert (i64 k) as Hik by (unfold i64, u32 in *; lia).
  assert (log_entry_ok e) as (_ & Hie & _) by (eapply Forall_lookup_1; eauto).
  assert (contiguous (k + 1) rest) as Hrest.
  { replace (k + 1) with (0 + Z.of_nat (Z.to_nat (k + 1))) at 1 by lia. by apply contiguous_drop. }
  set (w1 := RaftWAL.DeleteOldSnapshots (RaftWAL.SaveSnapshot (r_wal r) data k (Term e)) k).
  set (w2 := RaftWAL.AppendLogs (RaftWAL.set_log w1 (Some [])) rest).
  assert (RaftWAL.TruncateLogs w1 k = Some w2) as Htr.
  { rewrite (RaftWAL.TruncateLogs_eq w1 (r_log r)) by done. rewrite (filter_above 0) by done.
    by rewrite Z.sub_0_r. }
  assert (compact_log (r_log r) k (r_LastIncludedIndex r) = rest) as Hcomp.
  { unfold compact_log. rewrite HI, Z.sub_0_r, (proj2 (Z.leb_le 0 _)), (proj2 (Z.leb_le _ (zlen _))) by lia.
    by apply renumber_contiguous. }
  assert (RaftWAL.LoadLatestSnapshot w1 = Some (Ok (Some data, k, Term e))) as Hsnap.
  { apply RaftWAL.save_prune_load; try done; [lia|]. rewrite HD.
    intros m g j Hm. cbn in Hm. by rewrite lookup_empty in Hm. }
  unfold TakeSnapshot. rewrite HS, (proj2 (Z.leb_gt _ _)), (proj2 (Z.ltb_ge _ _)) by lia.
  rewrite Hcomp, HI, Z.sub_0_r. fold es. unfold last_entry. rewrite Hlast. fold data w1. rewrite Htr.
  cbn [mbind option_bind]. eexists _, e. split; [done|].
  assert (RaftWAL.logFile w2 = Some (RaftWAL.log_bytes rest)) as Hw2
    by (by apply (RaftWAL.AppendLogs_log_bytes _ [])).
  assert (RaftWAL.snapDir w2 = RaftWAL.snapDir w1) as Hd2 by (unfold w2; by destruct rest).
  unfold log_base, mirrored. cbn. rewrite (proj2 (Z.ltb_lt 0 k)) by lia. split_and!; try done.
  destruct (NewRaft_snapshot (r_peers r) (r_me r) (RaftWAL.SaveState w2 (r_Term r) (r_votedFor r)) rest
              (r_Term r) (r_votedFor r) k (Term e) data) as (r'' & Hnew & ?); try done.
  - by apply Forall_drop.
  - lia.
  - by apply RaftWAL.LoadState_SaveState.
  - rewrite <- Hsnap. unfold RaftWAL.LoadLatestSnapshot. cbn [RaftWAL.snapDir RaftWAL.SaveState RaftWAL.set_meta].
    by rewrite Hd2.
  - exists r'', data. destruct_and?. split_and!; try done.
    apply Codec.Deserialize_Serialize; try done; [by apply Forall_take|].
    unfold es, u32, zlen in *. rewrite length_take. lia.
Qed.

Lemma first_snapshot_restart_witness :
  let es := RaftWAL.sample_entry <$> [0; 1; 2; 3] in
  let r := mkRaft [of_string "a"] 0 Leader 0 1 2 2 0 [4] [0] es (mkChan [] []) 0 0 (disk_with es) [] in
  exists r' e, TakeSnapshot r 1 = Some (r', Ok tt) /\ es !! 1%nat = Some e /\
    r_log r' = drop 2 es /\ contiguous (log_base r') (r_log r') /\ mirrored r' /\
    r_LastIncludedIndex r' = 1 /\ r_LastIncludedTerm r' = Term e /\
    exists r'' data, NewRaft (r_peers r) (r_me r) (r_wal r') = Some r'' /\
      r_log r'' = r_log r' /\ r_Term r'' = 1 /\ r_votedFor r'' = 0 /\
      r_LastIncludedIndex r'' = 1 /\ r_LastIncludedTerm r'' = Term e /\
      r_commitIndex r'' = 1 /\ r_lastApplied r'' = 1 /\
      sent (r_ApplyCh r'') = [mkEntry 1 (Term e) data true] /\
      Codec.DeserializeLogEntries data = Some (take 2 es).
Proof.
  intros es r. apply (first_snapshot_restart r 1); try reflexivity; try eval_closed; try (split_and!; eval_closed).
  intros [|[|[|[|k]]]] e; intros [= <-]; reflexivity.
Defined.

(** The second snapshot of the same node takes one entry too many out of the
    memory log and renumbers what is left: index 3 now names the command of the
    entry that was logged at index 4, while the log file still has both. *)
Example second_snapshot_loses_entry :
  let es := (fun i => mkEntry i 1 (FormatInt i) false) <$> [0; 1; 2; 3; 4] in
  let r := mkRaft [of_string "a"] 0 Leader 0 1 4 4 0 [5] [0] es (mkChan [] []) 0 0 (disk_with es) [] in
  let shot := '(r, _) ← TakeSnapshot r 1; '(r, _) ← TakeSnapshot r 2; Some r in
  (r_log <$> shot) = Some [mkEntry 3 1 (FormatInt 4) false] /\
  (r ← shot; RaftWAL.LoadLogs (r_wal r)) = Some (drop 3 es).
Proof. vm_compute. auto. Qed.

End Logs.
