(* ===== verification/Rpc.v ===== *)
(** The senders of [Raft/rpc.go]: a call between two nodes, which may fail before or
    after the handler has run, and what a repeated request does to the peer. *)
From S2P Require Import Prelude Bytes RaftWAL Raft RaftLog.
Import Raft Logs.

Module Rpc.

(** ** The calls

    [rpc.Dial] fails; the call fails, and the peer has handled the request or has
    not; the reply arrives. *)
Inductive outcome := DialFailed | CallFailed (handled : bool) | Replied.

(** A node and what its caller gets; the error is [None]. *)
Definition after {R} (o : outcome) (peer : Raft) (handled : option (Raft * R)) : option (Raft * option R) :=
  match o with
  | DialFailed | CallFailed false => Some (peer, None)
  | CallFailed true => '(peer, _) ← handled; Some (peer, None)
  | Replied => '(peer, reply) ← handled; Some (peer, Some reply)
  end.

Definition SendRequestVote (o : outcome) (peer : Raft) (args : RequestVoteArgs) : option (Raft * option RequestVoteReply) :=
  after o peer (Some (RequestVote peer args)).
Definition SendAppendEntries (o : outcome) (peer : Raft) (args : AppendEntriesArgs) : option (Raft * option AppendEntriesReply) :=
  after o peer (AppendEntries peer args).
Definition SendInstallSnapshot (o : outcome) (peer : Raft) (args : InstallSnapshotArgs) : option (Raft * option InstallSnapshotReply) :=
  after o peer (InstallSnapshot peer args).

(** ** Votes and entries again *)

Lemma adoptTerm_same r t : r_Term r = t -> adoptTerm r t = r.
Proof. intros <-. unfold adoptTerm. by rewrite Z.ltb_irrefl. Qed.

Lemma adoptTerm_term r t : r_Term r <= t -> r_Term (adoptTerm r t) = t.
Proof. intros Hle. unfold adoptTerm. destruct (Z.ltb_spec (r_Term r) t); [done|lia]. Qed.

(** What [persistStateLocked] has written. *)
Definition persisted (r : Raft) : Prop := RaftWAL.SaveState (r_wal r) (r_Term r) (r_votedFor r) = r_wal r.

Lemma persisted_persist r : persisted (persistStateLocked r).
Proof. by destruct r as [? ? ? ? ? ? ? ? ? ? ? ? ? ? [? ? ?] ?]. Qed.

Lemma persist_persisted r : persisted r -> persistStateLocked r = r.
Proof. unfold persisted, persistStateLocked, set_wal, set_rlog. intros ->. by destruct r. Qed.

(** A vote asked for again is given again, and nothing else happens. *)
Lemma vote_again r args r1 reply : RequestVote r args = (r1, reply) -> RequestVote r1 args = (r1, reply).
Proof.
  unfold RequestVote at 1. destruct (Z.ltb_spec (va_Term args) (r_Term r)) as [Hlt|Hge].
  { intros [= <- <-]. unfold RequestVote. by rewrite (proj2 (Z.ltb_lt _ _)). }
  pose proof (adoptTerm_term r (va_Term args) Hge) as HT. set (s := adoptTerm r (va_Term args)) in *. clearbody s. cbv zeta.
  destruct (_ && _) eqn:Eg; intros [= <- <-]; unfold RequestVote.
  - cbn [persistStateLocked set_wal set_rlog set_vote r_Term]. rewrite HT, Z.ltb_irrefl.
    rewrite adoptTerm_same by done. apply andb_prop in Eg as [_ Eu]. cbn [r_votedFor]. rewrite Z.eqb_refl, orb_true_r.
    match goal with |- context [isLogUpToDate ?x ?a ?b] => replace (isLogUpToDate x a b) with true by (symmetry; exact Eu) end. cbn [andb].
    f_equal.
  - rewrite HT, Z.ltb_irrefl. rewrite adoptTerm_same by done. cbv zeta. by rewrite Eg, HT.
Qed.

(** Entries that are in place already. *)
Lemma append_loop_again base entries l rb ne (p : nat) :
  contiguous (base + 1 + Z.of_nat p) entries ->
  (forall k e, entries !! k = Some e -> exists e', l !! (p + k)%nat = Some e' /\ Term e' = Term e /\ Index e' = Index e) ->
  append_loop base entries l rb ne = Some (l, rb, ne).
Proof.
  revert p. induction entries as [|e entries IH]; intros p Hc Hat; [done|]. cbn [append_loop].
  assert (Index e = base + 1 + Z.of_nat p) as Hi by (rewrite (Hc 0%nat e eq_refl); lia).
  destruct (Hat 0%nat e eq_refl) as (e' & Hp & HT & _). rewrite Nat.add_0_r in Hp. pose proof (lookup_lt_Some _ _ _ Hp) as Hlt.
  replace (Index e - base - 1) with (Z.of_nat p) by lia. rewrite log_at_nat, Hp.
  destruct (Z.ltb_spec (Z.of_nat p) (zlen l)); [|unfold zlen in *; lia]. cbn [mbind option_bind].
  rewrite (proj2 (Z.eqb_eq _ _)) by done. cbn [mbind option_bind]. destruct (Z.leb_spec (zlen l) (Z.of_nat p)); [lia|].
  apply (IH (S p)).
  - replace (base + 1 + Z.of_nat (S p)) with (base + 1 + Z.of_nat p + Z.of_nat 1) by lia. apply (contiguous_drop _ (e :: entries) 1 Hc).
  - intros k e0 Hk. destruct (Hat (S k) e0 Hk) as (e1 & ? & ?). exists e1. by replace (S p + k)%nat with (p + S k)%nat by lia.
Qed.

Lemma apply_loop_applied r : r_lastApplied (apply_loop r) = r_lastApplied r + Z.of_nat (Z.to_nat (r_commitIndex r - r_lastApplied r)).
Proof. unfold apply_loop. by destruct (apply_iter_sent (Z.to_nat (r_commitIndex r - r_lastApplied r)) r). Qed.

Lemma apply_loop_again r : apply_loop (apply_loop r) = apply_loop r.
Proof.
  unfold apply_loop at 1. pose proof (apply_loop_applied r) as Ha. destruct (apply_loop_same_log r) as (_ & _ & _ & _ & _ & ->).
  rewrite Ha. by replace (Z.to_nat _) with 0%nat by lia.
Qed.

Lemma follow_commit_again r n : follow_commit (follow_commit r n) n = follow_commit r n.
Proof.
  pose proof (follow_commit_log r n) as (HL & _ & HI & _). unfold follow_commit at 1. rewrite HL, HI.
  unfold follow_commit. destruct (Z.ltb_spec (r_commitIndex r) n); [|destruct (Z.ltb_spec (r_commitIndex r) n); [lia|done]].
  unfold rpc_applyCommittedLogs. set (m := Z.min n _). destruct (apply_loop_same_log (set_commitIndex r m)) as (_ & _ & _ & _ & _ & ->).
  cbn [set_commitIndex r_commitIndex]. destruct (m <? n); [|done]. set (s := apply_loop (set_commitIndex r m)).
  pose proof (apply_loop_same_log (set_commitIndex r m)) as (_ & _ & _ & _ & _ & E). change (r_commitIndex s = m) in E.
  assert (set_commitIndex s m = s) as -> by (rewrite <- E; by destruct s). apply apply_loop_again.
Qed.

(** Following the commit index writes nothing and keeps the vote. *)
Lemma follow_persisted r n : persisted r -> persisted (follow_commit r n).
Proof.
  intros Hp. unfold follow_commit, rpc_applyCommittedLogs. destruct (_ <? _); [|done].
  match goal with |- context [apply_loop ?x] =>
    destruct (apply_loop_same_log x) as (_ & HW & _); destruct (apply_loop_same_vote x) as (_ & _ & HV & HT & _) end.
  unfold persisted. by rewrite HW, HV, HT.
Qed.

Lemma kept_term r entries res n : r_LastIncludedTerm (follow_commit (store_entries r entries res) n) = r_LastIncludedTerm r.
Proof.
  unfold follow_commit, rpc_applyCommittedLogs. assert (r_LastIncludedTerm (store_entries r entries res) = r_LastIncludedTerm r) as E
    by (destruct res as [[? ?] ?]; by destruct entries).
  destruct (_ <? _); [|done]. match goal with |- context [apply_loop ?x] => destruct (apply_loop_same_log x) as (_ & _ & _ & -> & _) end. done.
Qed.

(** What precedes the entries is left alone. *)
Lemma prev_again r r1 args (p : nat) :
  0 < r_LastIncludedIndex r -> r_LastIncludedIndex r <= ae_PrevLogIndex args -> p = Z.to_nat (ae_PrevLogIndex args - r_LastIncludedIndex r) ->
  r_LastIncludedIndex r1 = r_LastIncludedIndex r -> r_LastIncludedTerm r1 = r_LastIncludedTerm r -> take p (r_log r1) = take p (r_log r) ->
  prevMatches r1 args = prevMatches r args.
Proof.
  intros Hs Hp -> HI HT Htake. unfold prevMatches. rewrite HI, HT. destruct (0 <=? _); [|done]. destruct (_ && _) eqn:Ee; [done|].
  destruct (Z.ltb_spec (r_LastIncludedIndex r) (ae_PrevLogIndex args)); [|done]. unfold relative. rewrite HI.
  replace (ae_PrevLogIndex args - r_LastIncludedIndex r - 1) with (Z.of_nat (Z.to_nat (ae_PrevLogIndex args - r_LastIncludedIndex r - 1))) by lia.
  rewrite !log_at_nat. rewrite <- (lookup_take_lt (r_log r1) (Z.to_nat (ae_PrevLogIndex args - r_LastIncludedIndex r))), Htake by lia.
  by rewrite lookup_take_lt by lia.
Qed.

(** The same request with entries. *)
Lemma append_again r args r1 reply :
  0 < r_LastIncludedIndex r -> contiguous (r_LastIncludedIndex r + 1) (r_log r) -> r_LastIncludedIndex r <= ae_PrevLogIndex args ->
  contiguous (ae_PrevLogIndex args + 1) (ae_Entries args) ->
  AppendEntries r args = Some (r1, reply) -> AppendEntries r1 args = Some (r1, reply).
Proof.
  intros Hsnap Hlog Hprev Hents. rewrite AppendEntries_stages. destruct (Z.ltb_spec (ae_Term args) (r_Term r)) as [Hlt|Hge].
  { intros [= <- <-]. rewrite AppendEntries_stages. by rewrite (proj2 (Z.ltb_lt _ _)). }
  cbv zeta. pose proof (adoptTerm_term r (ae_Term args) Hge) as HT. destruct (adoptTerm_log r (ae_Term args)) as (HL & HI & _).
  rewrite <- HL, <- HI in Hlog. rewrite <- HI in Hsnap, Hprev. set (s := adoptTerm r (ae_Term args)) in *. clearbody s. clear HL HI Hge r.
  destruct (prevMatches s args) eqn:Hpm; cbn [negb].
  2: { intros [= <- <-]. rewrite AppendEntries_stages. rewrite HT, Z.ltb_irrefl. cbv zeta. by rewrite adoptTerm_same, Hpm, HT. }
  set (p := Z.to_nat (ae_PrevLogIndex args - r_LastIncludedIndex s)).
  destruct (append_loop_spec (r_LastIncludedIndex s) (ae_Entries args) (r_log s) false [] p) as (res & Hrun & Hpost); [|done| |].
  { by replace (r_LastIncludedIndex s + 1 + Z.of_nat p) with (ae_PrevLogIndex args + 1) by lia. }
  { by apply (prev_position s args). }
  assert (take p res.1.1 = take p (r_log s) /\ forall k e, ae_Entries args !! k = Some e ->
    exists e', res.1.1 !! (p + k)%nat = Some e' /\ Term e' = Term e /\ Index e' = Index e) as [P2 P4]
    by (destruct res as [[log rb] ne]; by destruct Hpost as (_ & ? & _ & ? & _)).
  rewrite Hrun. cbn [mbind option_bind]. destruct (store_entries_fields s (ae_Entries args) res) as (HL & HI & _ & HT1).
  { intros He. rewrite He in Hrun. cbn in Hrun. injection Hrun as <-. eauto. }
  pose proof (kept_term s (ae_Entries args) res (ae_LeaderCommit args)) as HK.
  assert (ae_Entries args = [] \/ persisted (store_entries s (ae_Entries args) res)) as Hpers
    by (destruct res as [[? ?] ?], (ae_Entries args); [by left|right; apply persisted_persist]).
  set (s1 := store_entries s (ae_Entries args) res) in *. clearbody s1.
  destruct (follow_commit_log s1 (ae_LeaderCommit args)) as (HL2 & _ & HI2 & HT2).
  pose proof (follow_commit_again s1 (ae_LeaderCommit args)) as Hagain.
  assert (ae_Entries args = [] \/ persisted (follow_commit s1 (ae_LeaderCommit args))) as Hpers1
    by (destruct Hpers; [by left|right; by apply follow_persisted]).
  set (x := follow_commit s1 (ae_LeaderCommit args)) in *. clearbody x. intros [= <- <-]. rewrite HT1 in HT2. rewrite HI in HI2. rewrite HL in HL2.
  (* the second time *)
  rewrite AppendEntries_stages, HT2, HT, Z.ltb_irrefl. cbv zeta. rewrite adoptTerm_same by (by rewrite HT2).
  rewrite (prev_again s x args p), Hpm by (done || by rewrite HL2). cbn [negb]. rewrite HI2, HL2.
  rewrite (append_loop_again _ _ _ _ _ p) by (done || by replace (r_LastIncludedIndex s + 1 + Z.of_nat p) with (ae_PrevLogIndex args + 1) by lia).
  cbn [mbind option_bind].
  assert (store_entries x (ae_Entries args) (res.1.1, false, []) = x) as ->.
  { unfold store_entries. destruct (ae_Entries args) as [|e es]; [done|]. destruct Hpers1 as [|Hp]; [done|]. rewrite <- HL2. cbn [RaftWAL.AppendLogs].
    assert (set_rlog x (r_log x) (r_wal x) = x) as -> by (by destruct x). by apply persist_persisted. }
  by rewrite Hagain, HT2, HT.
Qed.

(** ** Calls that are repeated *)

(** Attempts whose reply does not arrive. *)
Fixpoint attempts {R} (send : outcome -> Raft -> option (Raft * option R)) (failures : list outcome) (peer : Raft) : option Raft :=
  match failures with
  | [] => Some peer
  | o :: rest => '(peer, _) ← send o peer; attempts send rest peer
  end.

Lemma attempts_again {R} (handler : Raft -> option (Raft * R)) failures r r1 :
  (forall r' reply, handler r = Some (r', reply) -> handler r' = Some (r', reply)) ->
  Forall (fun o => o <> Replied) failures -> attempts (fun o p => after o p (handler p)) failures r = Some r1 ->
  handler r1 = handler r.
Proof.
  intros Hagain Hf. revert r Hagain. induction Hf as [|o failures Ho Hf IH]; intros r Hagain; cbn [attempts]; [by intros [= <-]|].
  destruct o as [|[|]|]; cbn [after mbind option_bind]; [by apply IH| |by apply IH|done].
  destruct (handler r) as [[r' reply]|] eqn:E; [|done]. cbn [mbind option_bind]. intros Hrun. specialize (Hagain _ _ eq_refl).
  rewrite <- Hagain. apply IH; [|done]. intros r2 reply2 E2. rewrite Hagain in E2. by injection E2 as <- <-.
Qed.

(** C7: handling a call again changes nothing. Whatever became of earlier attempts
    of the same request (no connection, lost before the peer handled it, or lost
    after), a vote request that is answered at last leaves any peer in the state,
    with the disk, and gets the reply of a request that got through at once; and so
    does an [AppendEntries] whose entries are numbered in order and follow an entry
    at or above the snapshot of a peer that has one, with a log numbered in order:
    no entry is stored twice. Whether a request is made again is the caller's
    affair: an election takes a lost reply for a refusal and does not ask again. *)
Theorem repeated_calls_change_nothing (r : Raft) (failures : list outcome) (Hfail : Forall (fun o => o <> Replied) failures) :
  (forall (va : RequestVoteArgs) r1, attempts (fun o p => SendRequestVote o p va) failures r = Some r1 ->
     SendRequestVote Replied r1 va = SendRequestVote Replied r va) /\
  (forall (ae : AppendEntriesArgs) r1,
     0 < r_LastIncludedIndex r -> contiguous (r_LastIncludedIndex r + 1) (r_log r) ->
     r_LastIncludedIndex r <= ae_PrevLogIndex ae -> contiguous (ae_PrevLogIndex ae + 1) (ae_Entries ae) ->
     attempts (fun o p => SendAppendEntries o p ae) failures r = Some r1 ->
     SendAppendEntries Replied r1 ae = SendAppendEntries Replied r ae).
Proof.
  split; [intros va r1 Hrun|intros ae r1 Hsnap Hlog Hprev Hents Hrun]; unfold SendRequestVote, SendAppendEntries in *; cbn [after].
  - rewrite (attempts_again (fun p => Some (RequestVote p va)) failures r r1); [done| |done|done].
    intros r' reply [= E]. by rewrite (vote_again r va r' reply).
  - rewrite (attempts_again (fun p => AppendEntries p ae) failures r r1); [done| |done|done].
    intros r' reply E. by apply (append_again r).
Qed.

(** ** A snapshot whose reply is lost *)
Section Stall.
Context `{RaftConfig} (i : nat).

(** A leader and its peer [i]: what the leader has sent to it, and the answers on
    their way back. *)
Record talk := mkTalk { leader : Raft; follower : Raft; flight : list rpc; replies : list InstallSnapshotReply }.

Definition sent_to (msgs : list (nat * option rpc)) : list rpc := omap (fun m : nat * option rpc => if decide (m.1 = i) then m.2 else None) msgs.

(** Commands at the leader, heartbeats, messages to the peer handled at any time and
    any number of times, answers and errors, and what the other peers answer as
    long as none has a newer term. *)
Inductive exchange (s : talk) : talk -> Prop :=
  | x_command command l msgs res : AppendEntry (leader s) command = Some (l, msgs, res) ->
      exchange s (mkTalk l (follower s) (flight s ++ sent_to msgs) (replies s))
  | x_beat m : heartbeatTo (leader s) i = Some m -> exchange s (mkTalk (leader s) (follower s) (flight s ++ [m]) (replies s))
  | x_install args f reply : Raft.SendInstallSnapshot args ∈ flight s -> InstallSnapshot (follower s) args = Some (f, reply) ->
      exchange s (mkTalk (leader s) f (flight s) (replies s ++ [reply]))
  | x_append args f reply : Raft.SendAppendEntries args ∈ flight s -> AppendEntries (follower s) args = Some (f, reply) ->
      exchange s (mkTalk (onAppendReply (leader s) i (Some reply)) f (flight s) (replies s))
  | x_reply reply : reply ∈ replies s -> exchange s (mkTalk (onInstallReply (leader s) i (Some reply)) (follower s) (flight s) (replies s))
  | x_error : exchange s (mkTalk (onInstallReply (leader s) i None) (follower s) (flight s) (replies s))
  | x_other j reply : j <> i -> (forall a, reply = Some a -> ar_Term a <= r_Term (leader s)) ->
      exchange s (mkTalk (onAppendReply (leader s) j reply) (follower s) (flight s) (replies s)).

(** What keeps the leader where it is, seen from the peer. *)
Definition same_for_peer (l l' : Raft) : Prop :=
  r_Term l' = r_Term l /\ r_LastIncludedIndex l' = r_LastIncludedIndex l /\ r_nextIndex l' !! i = r_nextIndex l !! i /\
  r_matchIndex l' !! i = r_matchIndex l !! i /\ RaftWAL.snapDir (r_wal l') = RaftWAL.snapDir (r_wal l).

#[local] Instance same_for_peer_preorder : PreOrder same_for_peer.
Proof. split; [by repeat split|]. unfold same_for_peer. intros x y z ? ?. destruct_and?. split_and!; congruence. Qed.

Lemma same_apply l : same_for_peer l (applyCommittedLogs l).
Proof.
  unfold applyCommittedLogs. transitivity (apply_loop l).
  - apply (iter_preserves same_for_peer apply_one). intros y. by repeat split.
  - unfold checkSnapshotTrigger. repeat case_match; by repeat split.
Qed.

Lemma same_update l : same_for_peer l (updateCommitIndex l).
Proof. unfold updateCommitIndex. repeat case_match; [done| |done]. etransitivity; [|apply same_apply]. by repeat split. Qed.

Lemma same_command l command l' msgs res : AppendEntry l command = Some (l', msgs, res) ->
  same_for_peer l l' /\ forall m, m ∈ sent_to msgs -> replicateTo l' i = Some (Some m).
Proof.
  unfold AppendEntry. destruct (negb _); [intros [= <- <- _]; split; [done|by intros m ?%elem_of_nil]|]. set (s := set_rlog l _ _).
  assert (same_for_peer l s) as Hs by (by repeat split). destruct (_ =? 1).
  - intros [= <- <- _]. split; [|by intros m ?%elem_of_nil]. etransitivity; [exact Hs|]. etransitivity; [|apply same_apply]. by repeat split.
  - destruct (replicateLog s) as [ms|] eqn:E; [|done]. cbn [mbind option_bind]. intros [= <- <- _]. split; [done|].
    intros m Hm. unfold sent_to in Hm. apply list_elem_of_omap in Hm as ([j [m'|]] & Hin & Hj); cbn in Hj; destruct (decide (j = i)); simplify_eq.
    unfold replicateLog in E. destruct (negb _); [injection E as <-; by apply elem_of_nil in Hin|].
    apply mapM_Some in E. apply list_elem_of_lookup_1 in Hin as [k Hk].
    destruct (Forall2_lookup_r _ _ _ _ _ E Hk) as (j & _ & Hj). destruct (replicateTo s j) as [m0|] eqn:Er; [|done]. cbn in Hj. by simplify_eq.
Qed.

Lemma same_other l j reply : j <> i -> (forall a, reply = Some a -> ar_Term a <= r_Term l) -> same_for_peer l (onAppendReply l j reply).
Proof.
  intros Hj Ht. assert (same_for_peer l (set_indexes l (alter (fun n => n - 1) j (r_nextIndex l)) (r_matchIndex l))) as Hback.
  { split_and!; try done. cbn. by rewrite list_lookup_alter_ne. }
  unfold onAppendReply. destruct reply as [a|]; [|by destruct (bool_decide _)].
  specialize (Ht a eq_refl). destruct (Z.ltb_spec (r_Term l) (ar_Term a)); [lia|]. destruct (ar_Success a); [|done].
  etransitivity; [|apply same_update]. split_and!; try done; cbn; by rewrite list_lookup_insert_ne.
Qed.

(** The state of both after the install. *)
Record stalled (l f : Raft) : Prop := {
  st_term : r_Term f = r_Term l;
  st_index : r_LastIncludedIndex f = r_LastIncludedIndex l;
  st_pos : 0 < r_LastIncludedIndex l;
  st_next : exists n, r_nextIndex l !! i = Some n /\ n <= r_LastIncludedIndex l;
  st_snap : exists data a b, RaftWAL.LoadLatestSnapshot (r_wal l) = Some (Ok (Some data, a, b));
}.

Lemma stalled_same l l' f : stalled l f -> same_for_peer l l' -> stalled l' f.
Proof.
  intros [S1 S2 S3 (n & S4 & S5) (d & a & b & S6)] (H1 & H2 & H3 & _ & H4). split; try congruence.
  - exists n. by rewrite H3, H2.
  - exists d, a, b. rewrite <- S6. unfold RaftWAL.LoadLatestSnapshot. by rewrite H4.
Qed.

(** All that is sent is the snapshot again. *)
Definition install_again (f : Raft) (m : rpc) : Prop :=
  exists args, m = Raft.SendInstallSnapshot args /\ is_Term args = r_Term f /\ is_LastIncludedIndex args = r_LastIncludedIndex f.

Lemma stalled_sends l f m : stalled l f -> heartbeatTo l i = Some m \/ replicateTo l i = Some (Some m) -> install_again f m.
Proof.
  intros [S1 S2 S3 (n & S4 & S5) (d & a & b & S6)]. unfold heartbeatTo, replicateTo. rewrite S4. cbn [mbind option_bind].
  assert (behindSnapshot l (n - 1) = true) as -> by (unfold behindSnapshot; destruct (Z.ltb_spec (n - 1) (r_LastIncludedIndex l)), (Z.ltb_spec 0 (r_LastIncludedIndex l)); lia || done).
  rewrite S6. cbn [mbind option_bind]. intros [[= <-]|[= <-]]; exists (snapshotArgs l d); by split_and!.
Qed.

Lemma install_refused f args :
  is_Term args = r_Term f -> is_LastIncludedIndex args = r_LastIncludedIndex f ->
  InstallSnapshot f args = Some (f, mkSnapReply (r_Term f) false).
Proof. intros HT HI. unfold InstallSnapshot. by rewrite HT, !Z.ltb_irrefl, HI, Z.leb_refl. Qed.

Record stuck (l0 f0 : Raft) (s : talk) : Prop := {
  sk_leader : same_for_peer l0 (leader s);
  sk_follower : follower s = f0;
  sk_flight : Forall (install_again f0) (flight s);
  sk_replies : Forall (fun a => a = mkSnapReply (r_Term f0) false) (replies s);
}.

Lemma stuck_step l0 f0 s s' : stalled l0 f0 -> exchange s s' -> stuck l0 f0 s -> stuck l0 f0 s'.
Proof.
  intros Hst Hs [K1 K2 K3 K4]. pose proof (stalled_same _ _ _ Hst K1) as Hst'.
  destruct Hs as [command l msgs res Hc|m Hm|args f reply Hin Hi|args f reply Hin Ha|reply Hin| |j reply Hj Ht].
  - apply same_command in Hc as [Hsame Hmsgs]. assert (same_for_peer l0 l) as Hl by (by etransitivity). split; try done.
    apply Forall_app. split; [done|]. rewrite Forall_forall. intros m Hm. apply (stalled_sends l); [by eapply stalled_same|right; by apply Hmsgs].
  - split; try done. apply Forall_app. split; [done|]. repeat constructor. apply (stalled_sends (leader s)); [done|by left].
  - rewrite Forall_forall in K3. destruct (K3 _ Hin) as (args' & [= <-] & HT & HI). rewrite K2, install_refused in Hi by done. injection Hi as <- <-.
    split; try done; [by rewrite Forall_forall|]. apply Forall_app. split; [done|by repeat constructor].
  - rewrite Forall_forall in K3. by destruct (K3 _ Hin) as (args' & [=] & _).
  - rewrite Forall_forall in K4. apply K4 in Hin as ->. split; try done; [|by rewrite Forall_forall]. cbn [leader].
    unfold onInstallReply. cbn [ir_Success ir_Term]. rewrite (st_term _ _ Hst'), Z.ltb_irrefl. done.
  - by split.
  - split; try done. etransitivity; [exact K1|]. by apply same_other.
Qed.

(** C8: a lost reply stalls the follower: when a peer has installed the leader's
    snapshot and the reply is lost, it refuses the same snapshot from then on, and
    the leader, whose [nextIndex] for the peer moves on success only, has nothing
    else to send: however many commands the leader takes and heartbeats it sends,
    and whatever its other peers answer, the follower stays as the snapshot left it
    and the leader counts it as far behind as before, until a newer snapshot or a
    new term. *)
Theorem lost_snapshot_reply_stalls_follower (l f f1 : Raft) (args : InstallSnapshotArgs) (s : talk)
    (Hsend : heartbeatTo l i = Some (Raft.SendInstallSnapshot args)) (Hterm : r_Term f <= r_Term l)
    (Hlost : SendInstallSnapshot (CallFailed true) f args = Some (f1, None)) (Hnew : r_LastIncludedIndex f < r_LastIncludedIndex l)
    (Hrun : rtc exchange (mkTalk (onInstallReply l i None) f1 [] []) s) :
  r_LastIncludedIndex f1 = r_LastIncludedIndex l /\ follower s = f1 /\
  r_nextIndex (leader s) !! i = r_nextIndex l !! i /\ r_matchIndex (leader s) !! i = r_matchIndex l !! i.
Proof.
  unfold heartbeatTo in Hsend. destruct (r_nextIndex l !! i) as [n|] eqn:En; [|done]. cbn [mbind option_bind] in Hsend.
  destruct (behindSnapshot l (n - 1)) eqn:Eb; [|done]. apply andb_prop in Eb as [E1%Z.ltb_lt E2%Z.ltb_lt].
  destruct (RaftWAL.LoadLatestSnapshot (r_wal l)) as [[[[[d|] a] b]|]|] eqn:Es; try done. cbn [mbind option_bind] in Hsend. injection Hsend as <-.
  cbn [SendInstallSnapshot after] in Hlost. unfold InstallSnapshot in Hlost. cbn [is_Term is_LastIncludedIndex snapshotArgs] in Hlost.
  destruct (Z.ltb_spec (r_Term l) (r_Term f)); [lia|]. cbv zeta in Hlost.
  set (f0 := if r_Term f <? r_Term l then _ else _) in Hlost.
  assert (r_LastIncludedIndex f0 = r_LastIncludedIndex f /\ r_Term f0 = r_Term l) as [HI HT]
    by (unfold f0; destruct (Z.ltb_spec (r_Term f) (r_Term l)); [done|split; [done|lia]]).
  destruct (Z.leb_spec (r_LastIncludedIndex l) (r_LastIncludedIndex f0)); [lia|].
  destruct (RaftWAL.TruncateLogs _ _) as [w|]; [|done]. cbn [mbind option_bind] in Hlost. injection Hlost as Hf1.
  assert (stalled l f1) as Hst by (rewrite <- Hf1; split; [done|done|done|exists n; split; [done|lia]|by exists d, a, b]).
  assert (stuck l f1 s) as [(_ & _ & K1 & K2 & _) K3 _ _].
  { eapply (rtc_invariant exchange (stuck l f1)); [intros x y Hxy; by apply stuck_step|exact Hrun|by split]. }
  split; [apply Hst|]. rewrite <- En. by split_and!.
Qed.

End Stall.
(** ** Samples *)

Definition sample_tail : list LogEntry := [RaftWAL.sample_entry 5; RaftWAL.sample_entry 6].
Definition sample_follower : Raft :=
  mkRaft sample_peers 0 Follower (-1) 1 5 4 4 [] [] sample_tail (mkChan [] []) 4 1 (disk_with sample_tail) [].

Lemma repeated_calls_change_nothing_witness :
  let args := mkAppendArgs 2 1 5 1 [mkEntry 6 2 (of_string "y") false] 6 in
  let failures := [CallFailed true; DialFailed; CallFailed true] in
  exists r1 r2, attempts (fun o p => SendAppendEntries o p args) failures sample_follower = Some r1 /\
    SendAppendEntries Replied r1 args = Some (r2, Some (mkAppendReply 2 true)) /\
    SendAppendEntries Replied sample_follower args = Some (r2, Some (mkAppendReply 2 true)).
Proof.
  intros args failures.
  destruct (repeated_calls_change_nothing sample_follower failures) as [_ Ha].
  - unfold failures. repeat constructor; discriminate.
  - destruct (attempts (fun o p => SendAppendEntries o p args) failures sample_follower) as [r1|] eqn:E; [|vm_compute in E; discriminate].
    exists r1. rewrite (Ha args r1); [|reflexivity| |discriminate| |exact E].
    + eexists. split; [reflexivity|]. split; vm_compute; reflexivity.
    + apply (contiguous_app 5 [_] [_]); apply contiguous_one.
    + apply (contiguous_one (mkEntry 6 2 (of_string "y") false)).
Defined.

(** A leader with a snapshot up to 4, and a peer that has nothing. *)
Definition snapshot_disk : RaftWAL.RaftWAL := RaftWAL.SaveSnapshot (disk_with [RaftWAL.sample_entry 5]) (of_string "data") 4 1.
Definition snapshot_leader : Raft :=
  mkRaft sample_peers 0 Leader 0 1 5 5 4 [6; 3; 6] [0; 2; 5] [RaftWAL.sample_entry 5] (mkChan [] []) 4 1 snapshot_disk [].
Definition new_follower : Raft := mkRaft sample_peers 1 Follower (-1) 1 (-1) (-1) 0 [] [] [] (mkChan [] []) 0 0 empty_disk [].
Definition snapshot_args : InstallSnapshotArgs := mkSnapArgs 1 0 (of_string "data") 4 1.
Definition installed : Raft :=
  match SendInstallSnapshot (CallFailed true) new_follower snapshot_args with Some (f, _) => f | None => new_follower end.

(** A command, a heartbeat, the snapshot once more, and the refusal. *)
Definition after_command : Raft :=
  match @AppendEntry sample_config snapshot_leader (of_string "set") with Some (l, _, _) => l | None => snapshot_leader end.

Lemma sample_talk :
  rtc (@exchange sample_config 1) (mkTalk (onInstallReply snapshot_leader 1 None) installed [] [])
    (mkTalk after_command installed [Raft.SendInstallSnapshot snapshot_args; Raft.SendInstallSnapshot snapshot_args] [mkSnapReply 1 false]).
Proof.
  eapply rtc_l; [apply (@x_command sample_config 1 (mkTalk snapshot_leader installed [] []) (of_string "set")
    after_command [(1%nat, Some (Raft.SendInstallSnapshot snapshot_args)); (2%nat, Some (Raft.SendAppendEntries (mkAppendArgs 1 0 5 1 [mkEntry 6 1 (of_string "set") false] 5)))] (Ok 6)); vm_compute; reflexivity|].
  eapply rtc_l; [apply (@x_beat sample_config 1 (mkTalk after_command installed [Raft.SendInstallSnapshot snapshot_args] []) (Raft.SendInstallSnapshot snapshot_args)); vm_compute; reflexivity|].
  eapply rtc_l; [apply (@x_install sample_config 1 (mkTalk after_command installed [Raft.SendInstallSnapshot snapshot_args; Raft.SendInstallSnapshot snapshot_args] []) snapshot_args installed (mkSnapReply 1 false));
    [by left|vm_compute; reflexivity]|].
  eapply rtc_l; [apply (@x_reply sample_config 1 (mkTalk after_command installed [Raft.SendInstallSnapshot snapshot_args; Raft.SendInstallSnapshot snapshot_args] [mkSnapReply 1 false]) (mkSnapReply 1 false)); by left|].
  apply rtc_refl.
Qed.

Lemma lost_snapshot_reply_stalls_follower_witness : exists s,
  rtc (@exchange sample_config 1) (mkTalk (onInstallReply snapshot_leader 1 None) installed [] []) s /\
  getLastLogIndex (leader s) = 6 /\ follower s = installed /\ r_LastIncludedIndex installed = 4 /\ r_log installed = [] /\
  r_nextIndex (leader s) !! 1%nat = Some 3.
Proof.
  eexists. split; [exact sample_talk|].
  destruct (@lost_snapshot_reply_stalls_follower sample_config 1 snapshot_leader new_follower installed snapshot_args _ eq_refl
    ltac:(vm_compute; discriminate) eq_refl eq_refl sample_talk) as (H1 & H2 & H3 & _).
  split; [vm_compute; reflexivity|]. split; [exact H2|]. split; [exact H1|]. split; [reflexivity|exact H3].
Defined.

End Rpc.
