(* ===== verification/LogMatch.v ===== *)
(** Log matching: the logs of all nodes, with the messages of replication that
    really travel between them ([AppendEntry], [replicateLog], [SendHeartBeat] of
    [Raft/raft.go], [AppendEntries] of [Raft/rpc.go]), delivered late, twice, out of
    order or not at all, between elections, votes and crashes. *)
From S2P Require Import Prelude Bytes RaftWAL Raft RaftVote RaftLog.
Import Raft Voting Logs.

Module LogMatch.

(** ** Two logs *)

(** Logs that have an entry of one term at one place agree up to there. *)
Definition agree (l1 l2 : list LogEntry) : Prop :=
  forall k e1 e2, l1 !! k = Some e1 -> l2 !! k = Some e2 -> Term e1 = Term e2 -> take (S k) l1 = take (S k) l2.

Lemma agree_refl l : agree l l.
Proof. by intros k e1 e2 _ _ _. Qed.

Lemma agree_sym l1 l2 : agree l1 l2 -> agree l2 l1.
Proof. intros H k e1 e2 H1 H2 HT. symmetry. by apply (H k e2 e1). Qed.

Lemma take_S_lookup (l c : list LogEntry) k : take (S k) l = take (S k) c -> l !! k = c !! k.
Proof. intros E. by rewrite <- (lookup_take_lt l (S k)), E, lookup_take_lt by lia. Qed.

(** *** [append_loop] on a part of another log *)

Lemma append_rest L c (q : nat) rb ne :
  contiguous (L + 1) c -> (q <= length c)%nat -> exists rb' ne', append_loop L (drop q c) (take q c) rb ne = Some (c, rb', ne').
Proof.
  intros Hc Hq. remember (length c - q)%nat as n eqn:En. revert q Hq En rb ne. induction n as [|n IH]; intros q Hq En rb ne.
  { assert (q = length c) as -> by lia. rewrite drop_all, firstn_all. cbn. eauto. }
  destruct (lookup_lt_is_Some_2 c q) as [e He]; [lia|]. rewrite (drop_S _ _ _ He). cbn [append_loop].
  replace (Index e - L - 1) with (Z.of_nat q) by (rewrite (Hc _ _ He); lia).
  assert (zlen (take q c) = Z.of_nat q) as -> by (unfold zlen; rewrite length_take; lia). rewrite Z.ltb_irrefl. cbn [mbind option_bind].
  assert (zlen (take q c) = Z.of_nat q) as -> by (unfold zlen; rewrite length_take; lia). rewrite Z.leb_refl, <- (take_S_r _ _ _ He).
  apply IH; lia.
Qed.

Lemma append_part L c l (p : nat) rb ne :
  contiguous (L + 1) c -> agree l c -> (p <= length c)%nat -> (p <= length l)%nat -> take p l = take p c ->
  exists l' rb' ne', append_loop L (drop p c) l rb ne = Some (l', rb', ne') /\ (l' = l \/ l' = c).
Proof.
  intros Hc Ha Hp Hl Ht. remember (length c - p)%nat as n eqn:En. revert p Hp Hl Ht En. induction n as [|n IH]; intros p Hp Hl Ht En.
  { assert (p = length c) as -> by lia. rewrite drop_all. cbn. eauto 6. }
  destruct (decide (p = length l)) as [->|Hne].
  { rewrite firstn_all in Ht. destruct (append_rest L c (length l) rb ne Hc Hp) as (rb' & ne' & E). rewrite <- Ht in E. eauto 6. }
  destruct (lookup_lt_is_Some_2 c p) as [e He]; [lia|]. destruct (lookup_lt_is_Some_2 l p) as [old Hold]; [lia|].
  rewrite (drop_S _ _ _ He). cbn [append_loop]. replace (Index e - L - 1) with (Z.of_nat p) by (rewrite (Hc _ _ He); lia).
  destruct (Z.ltb_spec (Z.of_nat p) (zlen l)); [|unfold zlen in *; lia]. rewrite log_at_nat, Hold. cbn [mbind option_bind].
  destruct (Z.eqb_spec (Term old) (Term e)) as [HT|HT]; cbn [mbind option_bind].
  - destruct (Z.leb_spec (zlen l) (Z.of_nat p)); [lia|]. apply IH; [lia|unfold zlen in *; lia| |lia]. by apply (Ha p old e).
  - rewrite Nat2Z.id, Ht. assert (zlen (take p c) = Z.of_nat p) as -> by (unfold zlen; rewrite length_take; lia). rewrite Z.leb_refl.
    rewrite <- (take_S_r _ _ _ He). destruct (append_rest L c (S p) true (ne ++ [e]) Hc) as (rb' & ne' & E); [lia|]. eauto 6.
Qed.

(** ** A step of one node *)

(** The snapshot a node starts from stays its base. *)
Definition based (r r' : Raft) : Prop :=
  r_LastIncludedIndex r' = r_LastIncludedIndex r /\ r_LastIncludedTerm r' = r_LastIncludedTerm r /\
  RaftWAL.snapDir (r_wal r') = RaftWAL.snapDir (r_wal r).

#[export] Instance based_preorder : PreOrder based.
Proof. split; [by repeat split|]. unfold based. intros x y z ? ?. destruct_and?. split_and!; congruence. Qed.

(** Neither log nor log file change. *)
Definition same_entries (r r' : Raft) : Prop :=
  based r r' /\ r_log r' = r_log r /\ RaftWAL.logFile (r_wal r') = RaftWAL.logFile (r_wal r).

#[export] Instance same_entries_preorder : PreOrder same_entries.
Proof.
  split; [by repeat split|]. unfold same_entries. intros x y z [? ?] [? ?]. destruct_and?. split; [by etransitivity|]. split; congruence.
Qed.

Ltac same := by repeat split.

Lemma same_log_entries r r' : same_log r r' -> same_entries r r'.
Proof. intros (HL & HW & HI & HT & _). split; [split_and!; [done|done|by rewrite HW]|]. by rewrite HW. Qed.

Lemma adoptTerm_entries r t : same_entries r (adoptTerm r t).
Proof. unfold adoptTerm. case_match; [same|reflexivity]. Qed.

Lemma follow_commit_entries r n : same_entries r (follow_commit r n).
Proof.
  unfold follow_commit, rpc_applyCommittedLogs. case_match; [|reflexivity].
  etransitivity; [|apply same_log_entries, apply_loop_same_log]. same.
Qed.

Lemma store_based r es res : based r (store_entries r es res).
Proof. destruct res as [[log rb] ne]. destruct es as [|e es]; [reflexivity|]. split_and!; try done. destruct rb; [by destruct log|by destruct ne]. Qed.

(** Events that are not about entries and snapshots. *)
Definition local (ev : event) : bool :=
  match ev with
  | EStartElection | EVoteReply _ | EFinishElection _ | ERequestVote _ | EAppendReply _ _ | EInstallReply _ _ | EReceive => true
  | _ => false
  end.

Section Steps.
Context `{RaftConfig}.

Lemma updateCommitIndex_entries r : same_entries r (updateCommitIndex r).
Proof.
  unfold updateCommitIndex. repeat case_match; [reflexivity| |reflexivity].
  etransitivity; [|apply same_log_entries, applyCommittedLogs_same_log]. same.
Qed.

Lemma local_entries r ev r' : local ev = true -> step r ev = Some r' -> same_entries r r'.
Proof.
  intros Hl Hs. destruct ev as [|reply|votes|args|cmd|args|args|i reply|i reply|index| |]; try discriminate Hl; cbn [step] in Hs; injection Hs as <-.
  - unfold startElection. destruct (bool_decide _); [reflexivity|]. match goal with |- context [let '(_, _) := ?x in _] => destruct x end. same.
  - unfold onVoteReply. destruct reply; [|reflexivity]. case_match; [same|reflexivity].
  - unfold finishElection. repeat case_match; (reflexivity || same).
  - unfold RequestVote. case_match; [reflexivity|]. etransitivity; [apply adoptTerm_entries|]. case_match; [same|reflexivity].
  - unfold onAppendReply. destruct reply as [reply|]; [|case_match; same]. destruct (_ <? _); [same|]. destruct (ar_Success reply); [|same].
    etransitivity; [|apply updateCommitIndex_entries]. same.
  - unfold onInstallReply. destruct reply; [|reflexivity]. destruct (ir_Success _); [same|]. destruct (_ <? _); [same|reflexivity].
  - same.
Qed.

(** What a step adds to the leaders by term. *)
Definition leads (r : Raft) (ev : event) : list (Z * Z) :=
  match ev with EFinishElection _ => commitment r ev | _ => [] end.

Lemma leads_commitment r ev b : b ∈ leads r ev -> b ∈ commitment r ev.
Proof. destruct ev; cbn [leads]; try done; by intros ?%elem_of_nil. Qed.

Lemma finish_leads r votes :
  finishElection r votes = becomeLeader r /\ r_state r = Candidate /\ leads r (EFinishElection votes) = [(r_Term r, r_me r)] \/
  leads r (EFinishElection votes) = [] /\ (finishElection r votes = r \/ r_state (finishElection r votes) = Follower).
Proof.
  assert (forall x, x = r \/ r_state x = Follower -> (if bool_decide (r_state r <> Leader) && bool_decide (r_state x = Leader)
    then [(r_Term r, r_me r)] else []) = []) as Hno.
  { intros x Hx. destruct (bool_decide_reflect (r_state r <> Leader)), (bool_decide_reflect (r_state x = Leader)); try done.
    destruct Hx; congruence. }
  assert (forall x, x = r \/ r_state x = Follower -> x = r \/ r_state x = Follower) as Hid by done.
  unfold leads, commitment. destruct (bool_decide_reflect (r_state r = Candidate)) as [E|E];
    unfold finishElection; [rewrite (bool_decide_true _ E)|rewrite (bool_decide_false _ E)]; destruct (awaitVotes _ votes); auto 6.
  left. rewrite bool_decide_true by congruence. by rewrite bool_decide_true.
Qed.

(** Who leads after a step: who led, or who was elected. *)
Lemma local_leads r ev r' :
  local ev = true -> step r ev = Some r' -> r_me r' = r_me r /\
  (leads r ev = [] \/ leads r ev = [(r_Term r, r_me r)] /\ r_state r = Candidate) /\
  (r_state r' = Leader -> r_Term r' = r_Term r /\ (r_state r = Leader \/ (r_Term r, r_me r) ∈ leads r ev)).
Proof.
  intros Hl Hs. destruct (quiet ev) eqn:Hq.
  { destruct (step_moves r ev r' Hq Hs) as (Hme & _ & Hm). split; [done|]. split; [left; by destruct ev|]. intros Hlead.
    destruct Hm as [[E1 E2]|[E1 _]]; [|congruence]. split; [done|]. left. congruence. }
  destruct ev; try discriminate; cbn [step] in Hs; injection Hs as <-.
  - cbn [leads]. unfold startElection. destruct (bool_decide_reflect (r_state r = Leader)); [by split_and!; auto|].
    match goal with |- context [let '(_, _) := ?x in _] => destruct x end. by split_and!; auto.
  - destruct (finish_leads r peerVotes) as [(-> & Hc & ->)|(-> & [->|Hf])].
    + split; [done|]. split; [by auto|]. intros _. split; [done|]. right. by left.
    + by auto.
    + split; [unfold finishElection; by repeat case_match|]. split; [by auto|]. congruence.
Qed.

(** *** Messages *)

Lemma no_entries r args r' reply : ae_Entries args = [] -> AppendEntries r args = Some (r', reply) -> same_entries r r'.
Proof.
  intros He. rewrite AppendEntries_stages, He. destruct (_ <? _); [by intros [= <- _]|]. cbv zeta.
  pose proof (adoptTerm_entries r (ae_Term args)) as Ha. destruct (prevMatches _ _); [|by intros [= <- _]].
  intros [= <- _]. etransitivity; [exact Ha|]. apply follow_commit_entries.
Qed.

(** The message is from an older term, or its term is the node's from now on. *)
Lemma heard_term r args r' reply : AppendEntries r args = Some (r', reply) -> r' = r \/ r_Term r' = ae_Term args.
Proof.
  rewrite AppendEntries_stages. destruct (Z.ltb_spec (ae_Term args) (r_Term r)); [intros [= <- _]; by left|]. cbv zeta.
  assert (r_Term (adoptTerm r (ae_Term args)) = ae_Term args) as HT
    by (unfold adoptTerm; destruct (Z.ltb_spec (r_Term r) (ae_Term args)); cbn; lia).
  set (s := adoptTerm _ _) in *. clearbody s. destruct (prevMatches _ _); [|intros [= <- _]; by right]. cbn [negb].
  destruct (append_loop _ _ _ _ _) as [res|]; [|done]. intros [= <- _]. right.
  destruct (follow_commit_log (store_entries s (ae_Entries args) res) (ae_LeaderCommit args)) as (_ & _ & _ & ->).
  destruct res as [[? ?] ?]. by destruct (ae_Entries args).
Qed.

(** The message carries the rest of the log [c], from position [p] on. *)
Definition carries (L : Z) (args : AppendEntriesArgs) (c : list LogEntry) (p : nat) : Prop :=
  (p <= length c)%nat /\ ae_Entries args = drop p c /\ ae_PrevLogIndex args = L + Z.of_nat p /\
  forall q e, p = S q -> c !! q = Some e -> ae_PrevLogTerm args = Term e.

(** What precedes the message is in both logs. *)
Lemma carried_prefix L r args c p :
  carries L args c p -> 0 < L -> r_LastIncludedIndex r = L -> agree (r_log r) c -> prevMatches r args = true ->
  (p <= length (r_log r))%nat /\ take p (r_log r) = take p c.
Proof.
  intros (Hp & _ & Hprev & HT) HL HI Ha Hm.
  assert (Z.to_nat (ae_PrevLogIndex args - r_LastIncludedIndex r) = p) as Ep by lia.
  pose proof (prev_position r args ltac:(lia) ltac:(lia) Hm) as Hle. rewrite Ep in Hle. split; [done|].
  destruct p as [|q]; [done|]. destruct (lookup_lt_is_Some_2 c q) as [e He]; [lia|].
  unfold prevMatches in Hm. destruct (Z.leb_spec 0 (ae_PrevLogIndex args)); [|lia].
  destruct (Z.eqb_spec (ae_PrevLogIndex args) (r_LastIncludedIndex r)); [lia|]. cbn [andb] in Hm.
  destruct (Z.ltb_spec (r_LastIncludedIndex r) (ae_PrevLogIndex args)); [|lia]. unfold relative in Hm.
  replace (ae_PrevLogIndex args - r_LastIncludedIndex r - 1) with (Z.of_nat q) in Hm by lia. rewrite log_at_nat in Hm.
  destruct (r_log r !! q) as [e'|] eqn:E; [|done]. apply Z.eqb_eq in Hm. apply (Ha q e' e); [done..|]. by rewrite Hm, (HT q e).
Qed.

(** A node keeps its log, or takes over that of the message. *)
Lemma deliver_entries L r args r' reply c p :
  AppendEntries r args = Some (r', reply) -> carries L args c p -> 0 < L -> r_LastIncludedIndex r = L ->
  contiguous (L + 1) (r_log r) -> contiguous (L + 1) c -> agree (r_log r) c -> mirrored r ->
  based r r' /\ mirrored r' /\ (r_log r' = r_log r \/ r_log r' = c).
Proof.
  intros Hrun Hc HL HI Hl Hcc Ha Hm. rewrite AppendEntries_stages in Hrun.
  destruct (_ <? _); [injection Hrun as <- _; split_and!; [reflexivity|done|by left]|]. cbv zeta in Hrun.
  destruct (adoptTerm_entries r (ae_Term args)) as (Hb & HL1 & HF).
  assert (mirrored (adoptTerm r (ae_Term args))) as Hms by (unfold mirrored; by rewrite HF, HL1).
  pose proof Hb as (HI1 & _). rewrite HI in HI1. rewrite <- HL1 in *. clear Hm HL1 HF HI. set (s := adoptTerm _ _) in *. clearbody s.
  destruct (prevMatches s args) eqn:Hpm; cbn [negb] in Hrun; [|injection Hrun as <- _; split_and!; [done|done|by left]].
  destruct (carried_prefix L s args c p Hc HL HI1 Ha Hpm) as [Hle Ht]. destruct Hc as (Hp & He & Hprev & _).
  destruct (append_part L c (r_log s) p false [] Hcc Ha Hp Hle Ht) as (l' & rb & ne & El & Hl').
  rewrite HI1 in Hrun. rewrite <- He in El. rewrite El in Hrun. cbn [mbind option_bind] in Hrun.
  destruct (append_loop_spec L (ae_Entries args) (r_log s) false [] p) as (res & Hres & Hpost); [|done|done|].
  { rewrite He. by apply contiguous_drop. }
  rewrite El in Hres. injection Hres as <-. pose proof (store_entries_mirrored s L _ _ p Hms El Hpost) as Hm1.
  destruct (store_entries_fields s (ae_Entries args) (l', rb, ne)) as (HL1 & _).
  { intros E. rewrite E in El. cbn in El. injection El as <- <- <-. eauto. }
  pose proof (store_based s (ae_Entries args) (l', rb, ne)) as Hb1. set (s1 := store_entries _ _ _) in *. clearbody s1.
  injection Hrun as <- _.
  destruct (follow_commit_entries s1 (ae_LeaderCommit args)) as (Hb2 & HL2 & HF2). split_and!.
  - etransitivity; [exact Hb|]. by etransitivity.
  - unfold mirrored. by rewrite HF2, HL2.
  - rewrite HL2, HL1. cbn. by destruct Hl' as [->| ->]; auto.
Qed.

(** The snapshot every node starts from is known to it. *)
Lemma known_snapshot r args r' reply :
  is_LastIncludedIndex args <= r_LastIncludedIndex r -> InstallSnapshot r args = Some (r', reply) -> same_entries r r'.
Proof.
  intros Hle. unfold InstallSnapshot. destruct (_ <? _); [by intros [= <- _]|].
  assert (same_entries r (if r_Term r <? is_Term args then set_vote r Follower (is_Term args) (-1) else r)) as Hs
    by (destruct (_ <? _); same).
  set (s := if r_Term r <? is_Term args then _ else r) in *. destruct Hs as (Hb & Hs). pose proof Hb as (HI & _). rewrite HI.
  destruct (Z.leb_spec (is_LastIncludedIndex args) (r_LastIncludedIndex r)); [|lia]. by intros [= <- _].
Qed.

(** *** What a leader sends *)

(** The messages of a node. *)
Definition sends (r : Raft) (m : rpc) : Prop :=
  match m with
  | SendAppendEntries a => ae_Term a = r_Term r /\ ae_LeaderID a = r_me r /\
      (ae_Entries a = [] \/ exists p, carries (r_LastIncludedIndex r) a (r_log r) p)
  | SendInstallSnapshot a => is_Term a = r_Term r /\ is_LeaderID a = r_me r /\ is_LastIncludedIndex a = r_LastIncludedIndex r
  end.

(** A heartbeat carries no entries. *)
Definition beats (r : Raft) (m : rpc) : Prop :=
  match m with
  | SendAppendEntries a => ae_Term a = r_Term r /\ ae_Entries a = []
  | SendInstallSnapshot a => is_Term a = r_Term r /\ is_LastIncludedIndex a = r_LastIncludedIndex r
  end.

Lemma heartbeatTo_beats r i m : heartbeatTo r i = Some m -> beats r m.
Proof.
  unfold heartbeatTo. destruct (r_nextIndex r !! i) as [next|]; [|done]. cbn [mbind option_bind].
  destruct (behindSnapshot r (next - 1)); [|by intros [= <-]].
  by destruct (RaftWAL.LoadLatestSnapshot (r_wal r)) as [[[[[data|] ?] ?]|]|]; intros [= <-].
Qed.

Lemma replicateTo_sends r i m : 0 < r_LastIncludedIndex r -> replicateTo r i = Some (Some m) -> sends r m.
Proof.
  intros HL. unfold replicateTo. destruct (r_nextIndex r !! i) as [next|]; [|done]. cbn [mbind option_bind].
  unfold behindSnapshot. rewrite (proj2 (Z.ltb_lt _ _) HL), andb_true_r. destruct (Z.ltb_spec (next - 1) (r_LastIncludedIndex r)).
  { destruct (RaftWAL.LoadLatestSnapshot (r_wal r)) as [[[[[data|] ?] ?]|]|]; intros [= <-]; cbn; auto. }
  unfold relative. destruct (Z.ltb_spec (next - r_LastIncludedIndex r - 1) (zlen (r_log r))) as [Hlt|]; [|intros [= <-]; cbn; by auto].
  assert (exists p : nat, next = r_LastIncludedIndex r + 1 + Z.of_nat p) as [p ->]
    by (exists (Z.to_nat (next - r_LastIncludedIndex r - 1)); lia).
  replace (r_LastIncludedIndex r + 1 + Z.of_nat p - r_LastIncludedIndex r - 1) with (Z.of_nat p) in * by lia.
  unfold zlen in *. assert (slice (Z.of_nat p) (Z.of_nat (length (r_log r))) (r_log r) = Some (drop p (r_log r))) as ->.
  { unfold slice, zlen. rewrite (proj2 (Z.leb_le _ _)), (proj2 (Z.leb_le _ _)), Z.leb_refl by lia. cbn [andb].
    rewrite Nat2Z.id, take_ge; [done|]. rewrite length_drop. lia. }
  intros [= <-]. cbn. split_and!; [done..|]. right. exists p. unfold carries. cbn. split_and!; [lia|done|lia|].
  intros q e -> He. unfold getTermAt. destruct (Z.ltb_spec (r_LastIncludedIndex r + 1 + Z.of_nat (S q) - 1) 0); [lia|].
  destruct (Z.eqb_spec (r_LastIncludedIndex r + 1 + Z.of_nat (S q) - 1) (r_LastIncludedIndex r)); [lia|]. cbn [andb]. unfold relative.
  replace (r_LastIncludedIndex r + 1 + Z.of_nat (S q) - 1 - r_LastIncludedIndex r - 1) with (Z.of_nat q) by lia. by rewrite log_at_nat, He.
Qed.

(** A command on a leader: one entry of its term, sent with what precedes it. *)
Lemma command_entries r command r' msgs index :
  AppendEntry r command = Some (r', msgs, Ok index) -> 0 < r_LastIncludedIndex r -> mirrored r ->
  r_state r = Leader /\ based r r' /\ mirrored r' /\ r_log r' = r_log r ++ [new_entry r command] /\
  (forall msg, msg ∈ omap snd msgs -> sends r' msg).
Proof.
  intros Hrun HL Hm. revert Hrun. unfold AppendEntry. destruct (bool_decide_reflect (r_state r = Leader)) as [Hlead|]; [|done]. cbn [negb].
  fold (new_entry r command). fold (appended r command). assert (mirrored (appended r command)) as Hm1 by by apply mirrored_AppendLog.
  assert (based r (appended r command)) as Hb by (split_and!; done). case_match.
  - intros [= <- <- _]. set (s := set_commitIndex _ _). assert (based r s /\ mirrored s) as [Hbs Hms] by done.
    destruct (same_log_entries s _ (applyCommittedLogs_same_log s)) as (Hb1 & HL1 & HF1).
    split_and!; [done|by etransitivity|unfold mirrored; by rewrite HF1, HL1|by rewrite HL1|by intros ? ?%elem_of_nil].
  - destruct (replicateLog (appended r command)) as [l|] eqn:E; [|done]. intros [= <- <- _].
    split_and!; [done|done|done|done|]. intros msg ([i o] & Him & Ho)%list_elem_of_omap. cbn in Ho. subst o.
    revert E. unfold replicateLog. case_match; [intros [= <-]; by apply elem_of_nil in Him|].
    intros Hl%mapM_Some. apply list_elem_of_lookup_1 in Him as [k Hk]. destruct (Forall2_lookup_r _ _ _ _ _ Hl Hk) as (j & _ & Hj).
    destruct (replicateTo (appended r command) j) as [o|] eqn:Eo; [|done]. injection Hj as -> ->. by eapply replicateTo_sends.
Qed.

(** A start reads the disk and leaves it. *)
Lemma NewRaft_wal peers me disk r : NewRaft peers me disk = Some r -> r_wal r = RaftWAL.NewRaftWAL disk.
Proof.
  unfold NewRaft, readPersist. intros Hn. destruct (RaftWAL.LoadPersist _) as [p|]; [|done]. cbn [mbind option_bind] in Hn.
  destruct p as [data|e]; cbn -[RaftWAL.LoadLatestSnapshot] in Hn.
  - destruct (0 <? RaftWAL.LastIncludedIndex data) eqn:E; cbn -[RaftWAL.LoadLatestSnapshot] in Hn; rewrite E in Hn;
      [|by injection Hn as <-].
    destruct (RaftWAL.LoadLatestSnapshot _) as [[[[[?|] ?] ?]|]|]; (done || by injection Hn as <-).
  - by injection Hn as <-.
Qed.

End Steps.

(** ** The cluster *)

(** A node, and whom it has backed (see [commitment]). *)
Record member := mkMember { m_raft : Raft; m_backed : list (Z * Z) }.

(** The nodes and every message ever sent, a copy made when it was built ([LogShare.v]
    has the messages as they are, and says when that makes no difference).
    [chains] records the logs leaders have had, [leaders] the leaders by term. *)
Record net := mkNet { members : list member; soup : list rpc; chains : list (list LogEntry); leaders : list (Z * Z) }.

Definition sender (m : rpc) : Z := match m with SendAppendEntries a => ae_LeaderID a | SendInstallSnapshot a => is_LeaderID a end.
Definition arrival (m : rpc) : event := match m with SendAppendEntries a => EAppendEntries a | SendInstallSnapshot a => EInstallSnapshot a end.

Definition set_member (x : net) (i : nat) (m : member) : net := mkNet (<[i := m]> (members x)) (soup x) (chains x) (leaders x).
Definition send (x : net) (l : list rpc) : net := mkNet (members x) (l ++ soup x) (chains x) (leaders x).

Section Net.
Context `{RaftConfig}.

(** What the nodes do, in any order: everything round elections and replies (whose
    contents are arbitrary); a client's command, accepted; a heartbeat, from a node that has
    led; a message, delivered or not, once or again; a crash and a restart. *)
Inductive nstep (x : net) : net -> Prop :=
  | n_work i m ev r :
      members x !! i = Some m -> local ev = true -> event_ok (m_raft m) ev -> step (m_raft m) ev = Some r ->
      nstep x (mkNet (<[i := mkMember r (commitment (m_raft m) ev ++ m_backed m)]> (members x)) (soup x) (chains x)
                     (leads (m_raft m) ev ++ leaders x))
  | n_command i m command r msgs index :
      members x !! i = Some m -> log_entry_ok (new_entry (m_raft m) command) ->
      AppendEntry (m_raft m) command = Some (r, msgs, Ok index) ->
      nstep x (mkNet (<[i := mkMember r (m_backed m)]> (members x)) (omap snd msgs ++ soup x) (r_log r :: chains x) (leaders x))
  | n_beat i m j msg :
      members x !! i = Some m -> heartbeatTo (m_raft m) j = Some msg -> nstep x (send x [msg])
  | n_deliver i m msg r :
      members x !! i = Some m -> msg ∈ soup x -> sender msg <> r_me (m_raft m) -> step (m_raft m) (arrival msg) = Some r ->
      nstep x (set_member x i (mkMember r (m_backed m)))
  | n_crash i m r :
      members x !! i = Some m -> NewRaft (r_peers (m_raft m)) (r_me (m_raft m)) (r_wal (m_raft m)) = Some r ->
      nstep x (set_member x i (mkMember r (m_backed m))).

(** The nodes start from disks of their own, with the same snapshot and no entries. *)
Definition seeded (peers : list bytes) (L T : Z) (i : nat) (m : member) : Prop :=
  exists disk term vote data, NewRaft peers (Z.of_nat i) disk = Some (m_raft m) /\ m_backed m = [] /\
    RaftWAL.LoadState disk = (term, vote, None) /\ i64 term /\ i64 vote /\
    RaftWAL.logFile disk = Some (RaftWAL.log_bytes []) /\ RaftWAL.LoadLatestSnapshot disk = Some (Ok (Some data, L, T)).

Definition seed (peers : list bytes) (L T : Z) (x : net) : Prop :=
  0 < L /\ i64 (zlen (members x)) /\ soup x = [] /\ chains x = [[]] /\ leaders x = [] /\
  forall i m, members x !! i = Some m -> seeded peers L T i m.

(** No term has had two leaders. *)
Definition one_leader (x : net) : Prop := forall t i j, (t, i) ∈ leaders x -> (t, j) ∈ leaders x -> i = j.

(** ** The invariant *)

(** Every entry of term [t] in a log that ever was is in [l], with what precedes it. *)
Definition holds_term (cs : list (list LogEntry)) (t : Z) (l : list LogEntry) : Prop :=
  forall c k e, c ∈ cs -> c !! k = Some e -> Term e = t -> take (S k) c = take (S k) l.

Record member_ok (L T : Z) (cs : list (list LogEntry)) (ls : list (Z * Z)) (i : nat) (m : member) : Prop := {
  mo_vote : vote_inv (m_backed m) (m_raft m);
  mo_me : r_me (m_raft m) = Z.of_nat i;
  mo_base : r_LastIncludedIndex (m_raft m) = L /\ r_LastIncludedTerm (m_raft m) = T;
  mo_snap : exists data, RaftWAL.LoadLatestSnapshot (r_wal (m_raft m)) = Some (Ok (Some data, L, T));
  mo_file : mirrored (m_raft m);
  mo_log : r_log (m_raft m) ∈ cs;
  mo_lead : r_state (m_raft m) = Leader ->
    (r_Term (m_raft m), r_me (m_raft m)) ∈ ls /\ holds_term cs (r_Term (m_raft m)) (r_log (m_raft m));
  mo_led t : (t, r_me (m_raft m)) ∈ ls -> (t, r_me (m_raft m)) ∈ m_backed m;
}.

Definition msg_ok (L : Z) (cs : list (list LogEntry)) (ls : list (Z * Z)) (msg : rpc) : Prop :=
  match msg with
  | SendAppendEntries a => i64 (ae_Term a) /\ (ae_Entries a = [] \/
      (ae_Term a, ae_LeaderID a) ∈ ls /\ exists c p, c ∈ cs /\ carries L a c p)
  | SendInstallSnapshot a => i64 (is_Term a) /\ is_LastIncludedIndex a = L
  end.

Record net_ok (L T : Z) (x : net) : Prop := {
  ok_member i m : members x !! i = Some m -> member_ok L T (chains x) (leaders x) i m;
  ok_chain c : c ∈ chains x -> contiguous (L + 1) c /\ Forall log_entry_ok c;
  ok_agree c1 c2 : c1 ∈ chains x -> c2 ∈ chains x -> agree c1 c2;
  ok_term c e : c ∈ chains x -> e ∈ c -> exists j, (Term e, j) ∈ leaders x;
  ok_msg msg : msg ∈ soup x -> msg_ok L (chains x) (leaders x) msg;
}.

End Net.

(** *** Growing the ghost state *)

Lemma agree_snoc l d e :
  agree l d -> (forall e', d !! length l = Some e' -> Term e' <> Term e) -> agree (l ++ [e]) d.
Proof.
  intros Ha Hno k e1 e2 [H1|[H1 He]]%lookup_app_Some H2 HT.
  - rewrite take_app_le by (apply lookup_lt_Some in H1; lia). by apply (Ha k e1 e2).
  - apply list_lookup_singleton_Some in He as [? <-]. assert (k = length l) as -> by lia. by destruct (Hno e2 H2).
Qed.

Lemma take_S_length (c l : list LogEntry) k e : c !! k = Some e -> take (S k) c = take (S k) l -> (k < length l)%nat.
Proof. intros Hk Ht. apply take_S_lookup in Ht. rewrite Ht in Hk. by eapply lookup_lt_Some. Qed.

Lemma snap_same w w' : RaftWAL.snapDir w' = RaftWAL.snapDir w -> RaftWAL.LoadLatestSnapshot w' = RaftWAL.LoadLatestSnapshot w.
Proof. unfold RaftWAL.LoadLatestSnapshot. by intros ->. Qed.

Section Invariant.
Context `{RaftConfig} (L T : Z).

(** A node steps and its log is one that was known; leaders may be added. *)
Lemma member_step x i m m' ls :
  net_ok L T x -> members x !! i = Some m ->
  (forall t j, (t, j) ∈ ls -> j = r_me (m_raft m)) -> member_ok L T (chains x) (ls ++ leaders x) i m' ->
  net_ok L T (mkNet (<[i := m']> (members x)) (soup x) (chains x) (ls ++ leaders x)).
Proof.
  intros [H1 H2 H3 H4 H5] Hi Hls Hm'. assert (forall b, b ∈ leaders x -> b ∈ ls ++ leaders x) as Hmon by (intros; apply elem_of_app; by right).
  split; cbn; try done.
  - intros j mj [[-> [<- _]]|[Hj Hx]]%list_lookup_insert_Some; [done|]. destruct (H1 j mj Hx) as [? Hme ? ? ? ? Hlead Hled]. split; try done.
    + intros Hl. destruct (Hlead Hl). auto.
    + intros t [Ht|Ht]%elem_of_app; [|by apply Hled]. apply Hls in Ht. rewrite Hme, (mo_me _ _ _ _ _ _ (H1 i m Hi)) in Ht. lia.
  - intros c e Hc He. destruct (H4 c e Hc He) as [j Hj]. exists j. by apply Hmon.
  - intros [a|a] Hmsg; apply H5 in Hmsg; [|done]. destruct Hmsg as [? [?|[Ha ?]]]; split; auto.
Qed.

(** A leader's log grows by an entry of its term. *)
Section Extend.
Context (x : net) (i : nat) (m : member) (e : LogEntry).
Context (Hok : net_ok L T x) (Hone : one_leader x) (Hi : members x !! i = Some m) (Hlead : r_state (m_raft m) = Leader)
  (HT : Term e = r_Term (m_raft m)).
#[local] Abbreviation l := (r_log (m_raft m)).
#[local] Abbreviation c := (l ++ [e]).

Lemma extend_agree d : d ∈ chains x -> agree c d.
Proof.
  intros Hd. pose proof (ok_member _ _ _ Hok i m Hi) as Hm. destruct (mo_lead _ _ _ _ _ _ Hm Hlead) as [_ Hh].
  apply agree_snoc; [apply (ok_agree _ _ _ Hok); [apply Hm|done]|]. intros e' He' HT'. rewrite HT in HT'.
  pose proof (take_S_length d l _ e' He' (Hh d _ e' Hd He' HT')). lia.
Qed.

Lemma extend_holds : holds_term (c :: chains x) (r_Term (m_raft m)) c.
Proof.
  pose proof (ok_member _ _ _ Hok i m Hi) as Hm. destruct (mo_lead _ _ _ _ _ _ Hm Hlead) as [_ Hh].
  intros d k e' [->|Hd]%elem_of_cons Hk HT'; [done|]. pose proof (Hh d k e' Hd Hk HT') as Ht.
  rewrite Ht. symmetry. apply take_app_le. by pose proof (take_S_length d l _ e' Hk Ht).
Qed.

Lemma extend_other j mj :
  j <> i -> members x !! j = Some mj -> member_ok L T (c :: chains x) (leaders x) j mj.
Proof.
  intros Hj Hmj. pose proof (ok_member _ _ _ Hok i m Hi) as Hm. destruct (mo_lead _ _ _ _ _ _ Hm Hlead) as [Hin Hh].
  destruct (ok_member _ _ _ Hok j mj Hmj) as [? Hme ? ? ? Hlog Hleadj ?]. split; try done; [by right|].
  intros Hlj. destruct (Hleadj Hlj) as [Hinj Hhj]. split; [done|]. intros d k e' [->|Hd]%elem_of_cons Hk HT'; [|by eapply Hhj].
  apply lookup_app_Some in Hk as [Hk|[Hk He]].
  - rewrite take_app_le by (apply lookup_lt_Some in Hk; lia). apply (Hhj l k e'); [apply Hm|done..].
  - apply list_lookup_singleton_Some in He as [_ <-]. rewrite <- HT', HT in Hinj. pose proof (Hone _ _ _ Hin Hinj) as E.
    rewrite Hme, (mo_me _ _ _ _ _ _ Hm) in E. lia.
Qed.

Lemma extend_ok m' msgs :
  log_entry_ok e -> Index e = L + 1 + zlen l -> member_ok L T (c :: chains x) (leaders x) i m' ->
  (forall msg, msg ∈ msgs -> msg_ok L (c :: chains x) (leaders x) msg) ->
  net_ok L T (mkNet (<[i := m']> (members x)) (msgs ++ soup x) (c :: chains x) (leaders x)).
Proof.
  intros He HIx Hm' Hmsgs. pose proof (ok_member _ _ _ Hok i m Hi) as Hm. destruct (mo_lead _ _ _ _ _ _ Hm Hlead) as [Hin _].
  split; cbn.
  - intros j mj [[-> [<- _]]|[Hj Hx]]%list_lookup_insert_Some; [done|]. by apply extend_other.
  - intros d [->|Hd]%elem_of_cons; [|by apply Hok]. destruct (ok_chain _ _ _ Hok l) as [? ?]; [apply Hm|].
    split; [by apply contiguous_snoc|]. apply Forall_app. by auto.
  - intros c1 c2 [->|H1]%elem_of_cons [->|H2]%elem_of_cons.
    + apply agree_refl.
    + by apply extend_agree.
    + apply agree_sym. by apply extend_agree.
    + by apply (ok_agree _ _ _ Hok).
  - intros d e' [->|Hd]%elem_of_cons; [|by apply (ok_term _ _ _ Hok)]. intros [He'| ->%list_elem_of_singleton]%elem_of_app.
    + apply (ok_term _ _ _ Hok l); [apply Hm|done].
    + rewrite HT. by exists (r_me (m_raft m)).
  - intros msg [Hmsg|Hmsg]%elem_of_app; [by apply Hmsgs|]. apply (ok_msg _ _ _ Hok) in Hmsg. destruct msg as [a|a]; [|done].
    destruct Hmsg as [? [?|(? & d & p & ? & ?)]]; split; auto. right. split; [done|]. exists d, p. split; [by right|done].
Qed.

End Extend.

(** *** Every step keeps it *)

Lemma stays cs cs' ls ls' i m r G :
  member_ok L T cs ls i m -> based (m_raft m) r -> mirrored r -> r_log r ∈ cs' -> vote_inv G r -> r_me r = r_me (m_raft m) ->
  (r_state r = Leader -> (r_Term r, r_me r) ∈ ls' /\ holds_term cs' (r_Term r) (r_log r)) ->
  (forall t, (t, r_me (m_raft m)) ∈ ls' -> (t, r_me (m_raft m)) ∈ G) -> member_ok L T cs' ls' i (mkMember r G).
Proof.
  intros [? Hme [HL HT] [data Hs] ? ? ? ?] (Hb1 & Hb2 & Hb3) Hm Hl Hv Hm1 Hlead Hled. split; cbn; try done; try congruence.
  - split; congruence.
  - exists data. by rewrite (snap_same _ _ Hb3).
  - intros t. rewrite Hm1. apply Hled.
Qed.

Lemma same_mirrored r r' : same_entries r r' -> mirrored r -> mirrored r'.
Proof. intros (_ & HL & HF) Hm. unfold mirrored. by rewrite HL, HF. Qed.

(** A leader of [x] whose log and term stay. *)
Lemma still_leads cs ls i m r :
  member_ok L T cs ls i m -> moves (m_raft m) r -> r_log r = r_log (m_raft m) ->
  r_state r = Leader -> (r_Term r, r_me r) ∈ ls /\ holds_term cs (r_Term r) (r_log r).
Proof.
  intros Hm (Hme & _ & [[E1 E2]|[E1 _]]) HL Hlead; [|congruence]. rewrite E2, HL, Hme. apply Hm. congruence.
Qed.

Lemma work_ok x i m ev r :
  net_ok L T x -> members x !! i = Some m -> local ev = true -> event_ok (m_raft m) ev -> step (m_raft m) ev = Some r ->
  (forall t i j, (t, i) ∈ leads (m_raft m) ev ++ leaders x -> (t, j) ∈ leads (m_raft m) ev ++ leaders x -> i = j) ->
  net_ok L T (mkNet (<[i := mkMember r (commitment (m_raft m) ev ++ m_backed m)]> (members x)) (soup x) (chains x)
                    (leads (m_raft m) ev ++ leaders x)).
Proof.
  intros Hok Hi Hl He Hs Hone. pose proof (ok_member _ _ _ Hok i m Hi) as Hm. pose proof (local_entries _ _ _ Hl Hs) as Hsame.
  destruct (local_leads _ _ _ Hl Hs) as (Hme & Hnew & Hlead).
  apply (member_step x i m); [done|done| |].
  { intros t j Hin. destruct Hnew as [E|[E _]]; rewrite E in Hin; [by apply elem_of_nil in Hin|].
    apply list_elem_of_singleton in Hin. by injection Hin as _ ->. }
  pose proof Hsame as (Hb & HL & _).
  apply (stays (chains x) (chains x) (leaders x) _ i m); [done|done|by eapply same_mirrored, Hm|rewrite HL; apply Hm|eapply step_inv; [apply Hm|done|done]|done| |].
  - intros Hst. destruct (Hlead Hst) as [HT Hor]. rewrite HT, HL, Hme. destruct Hor as [Hold|Hel].
    { destruct (mo_lead _ _ _ _ _ _ Hm Hold). split; [apply elem_of_app; by right|done]. }
    split; [apply elem_of_app; by left|]. intros c k e Hc Hk HTe. exfalso.
    destruct (ok_term _ _ _ Hok c e Hc (list_elem_of_lookup_2 _ _ _ Hk)) as [j Hj]. rewrite HTe in Hj.
    assert (r_me (m_raft m) = j) as <- by (eapply Hone; apply elem_of_app; [by left|by right]).
    destruct Hnew as [E|[_ Hc1]]; [rewrite E in Hel; by apply elem_of_nil in Hel|].
    pose proof (vi_cand _ _ (mo_vote _ _ _ _ _ _ Hm) Hc1 _ _ (mo_led _ _ _ _ _ _ Hm _ Hj)). lia.
  - intros t [Ht|Ht]%elem_of_app; apply elem_of_app; [left; by apply leads_commitment|right; by apply Hm].
Qed.

Lemma command_ok x i m command r msgs index :
  net_ok L T x -> 0 < L -> one_leader x -> members x !! i = Some m -> log_entry_ok (new_entry (m_raft m) command) ->
  AppendEntry (m_raft m) command = Some (r, msgs, Ok index) ->
  net_ok L T (mkNet (<[i := mkMember r (m_backed m)]> (members x)) (omap snd msgs ++ soup x) (r_log r :: chains x) (leaders x)).
Proof.
  intros Hok HL Hone Hi He Hrun. pose proof (ok_member _ _ _ Hok i m Hi) as Hm. destruct (mo_base _ _ _ _ _ _ Hm) as [HI _].
  destruct (command_entries _ _ _ _ _ Hrun) as (Hlead & Hb & Hmir & HLog & Hsend); [by rewrite HI|apply Hm|].
  pose proof (AppendEntry_same_vote _ _ _ _ _ Hrun) as Hsv. assert (vote_inv (m_backed m) r) as Hv by (eapply vote_inv_same; [done|apply Hm]).
  destruct Hsv as (Hme & Hst & _ & HTm & _). destruct (ok_chain _ _ _ Hok _ (mo_log _ _ _ _ _ _ Hm)) as [Hc _].
  destruct (mo_lead _ _ _ _ _ _ Hm Hlead) as [Hin _].
  assert (Index (new_entry (m_raft m) command) = L + 1 + zlen (r_log (m_raft m))) as HIx.
  { cbn. rewrite getLastLogIndex_base; unfold log_base; rewrite HI, (proj2 (Z.ltb_lt _ _) HL); [lia|done]. }
  rewrite HLog. apply (extend_ok x i m); try done.
  - apply (stays (chains x) _ (leaders x) _ i m); try done; [rewrite HLog; by left| |apply Hm].
    intros _. rewrite HTm, Hme, HLog. split; [done|]. by apply (extend_holds x i m).
  - intros msg Hmsg. apply Hsend in Hmsg. destruct Hb as (Hb1 & _). pose proof (proj1 (vi_width _ _ Hv)) as Hw.
    destruct msg as [a|a]; cbn in Hmsg |- *; destruct Hmsg as (-> & HId & Hrest); [|split; [done|lia]].
    split; [done|]. destruct Hrest as [?|[p Hp]]; [by left|right]. rewrite HId, HTm, Hme. split; [done|].
    exists (r_log r), p. split; [rewrite HLog; by left|]. by rewrite <- HI, <- Hb1.
Qed.

Lemma beat_ok x i m j msg :
  net_ok L T x -> members x !! i = Some m -> heartbeatTo (m_raft m) j = Some msg -> net_ok L T (send x [msg]).
Proof.
  intros [H1 H2 H3 H4 H5] Hi Hb%heartbeatTo_beats. split; cbn; try done. intros msg' [->|Hin]%elem_of_cons; [|by apply H5].
  destruct (H1 i m Hi) as [Hv ? [HI _] ? ? ? ? ?]. pose proof (proj1 (vi_width _ _ Hv)).
  destruct msg as [a|a]; cbn in Hb |- *; destruct Hb as [-> Hb]; split; auto; lia.
Qed.

(** A message of another node reaches a leader of its term in vain. *)
Lemma deliver_ok x i m msg r :
  net_ok L T x -> 0 < L -> one_leader x -> members x !! i = Some m -> msg ∈ soup x -> sender msg <> r_me (m_raft m) ->
  step (m_raft m) (arrival msg) = Some r -> net_ok L T (set_member x i (mkMember r (m_backed m))).
Proof.
  intros Hok HL Hone Hi Hmsg Hme Hs. pose proof (ok_member _ _ _ Hok i m Hi) as Hm. apply (ok_msg _ _ _ Hok) in Hmsg.
  destruct (mo_base _ _ _ _ _ _ Hm) as [HI _].
  assert (moves (m_raft m) r) as Hmv by (eapply step_moves; [|done]; by destruct msg).
  assert (vote_inv (m_backed m) r) as Hv.
  { change (m_backed m) with ([] ++ m_backed m). replace [] with (commitment (m_raft m) (arrival msg)) by (by destruct msg).
    eapply step_inv; [apply Hm| |done]. destruct msg; apply Hmsg. }
  assert (based (m_raft m) r /\ mirrored r /\ r_log r ∈ chains x /\ (r_state r = Leader -> r_log r = r_log (m_raft m))) as (Hb & Hmir & Hlog & Hkeep).
  { assert (same_entries (m_raft m) r -> based (m_raft m) r /\ mirrored r /\ r_log r ∈ chains x /\ (r_state r = Leader -> r_log r = r_log (m_raft m))) as Hsame.
    { intros Hse. pose proof Hse as (Hb & HL1 & _). split_and!; [done|by eapply same_mirrored, Hm|rewrite HL1; apply Hm|done]. }
    destruct msg as [a|a]; cbn [arrival step] in Hs.
    - destruct (AppendEntries (m_raft m) a) as [[r1 reply]|] eqn:E; [|done]. injection Hs as ->.
      destruct Hmsg as [_ [Hno|(Hlead & c & p & Hc & Hcar)]]; [by eapply Hsame, no_entries|].
      pose proof (mo_log _ _ _ _ _ _ Hm) as Hl.
      destruct (deliver_entries L _ _ _ _ c p E) as (Hb & Hmir & Hor); try done; [by apply (ok_chain _ _ _ Hok)..|by apply (ok_agree _ _ _ Hok)|apply Hm|].
      split_and!; [done|done|by destruct Hor as [->| ->]|]. intros Hst. destruct (heard_term _ _ _ _ E) as [->|HT1]; [done|].
      exfalso. destruct Hmv as (_ & _ & [[E1 E2]|[E1 _]]); [|congruence]. rewrite E1 in Hst.
      destruct (mo_lead _ _ _ _ _ _ Hm Hst) as [Hin _]. rewrite <- E2, HT1 in Hin. by apply Hme, (Hone (ae_Term a)).
    - destruct (InstallSnapshot (m_raft m) a) as [[r1 reply]|] eqn:E; [|done]. injection Hs as ->.
      eapply Hsame, known_snapshot, E. destruct Hmsg as [_ ->]. lia. }
  apply (member_step x i m _ []); [done|done|by intros ? ? ?%elem_of_nil|].
  apply (stays (chains x) _ (leaders x) _ i m); try done; [apply Hmv| |apply Hm].
  intros Hst. eapply still_leads; [done|done|by apply Hkeep|done].
Qed.

Lemma crash_keeps x i m r :
  net_ok L T x -> 0 < L -> members x !! i = Some m -> NewRaft (r_peers (m_raft m)) (r_me (m_raft m)) (r_wal (m_raft m)) = Some r ->
  net_ok L T (set_member x i (mkMember r (m_backed m))).
Proof.
  intros Hok HL Hi Hn. pose proof (ok_member _ _ _ Hok i m Hi) as Hm. destruct (mo_base _ _ _ _ _ _ Hm) as [HI HIT].
  destruct (vi_disk _ _ (mo_vote _ _ _ _ _ _ Hm)) as (t & v & Hl & _). destruct (mo_snap _ _ _ _ _ _ Hm) as [data Hs].
  destruct (NewRaft_snapshot (r_peers (m_raft m)) (r_me (m_raft m)) _ _ t v L T data (mo_file _ _ _ _ _ _ Hm)) as (r' & Hn' & HL1 & _ & _ & HI1 & HT1 & _);
    [apply (ok_chain _ _ _ Hok), Hm|done|done|done|]. rewrite Hn in Hn'. injection Hn' as <-.
  destruct (NewRaft_state _ _ _ _ _ _ Hl Hn) as (Hme & Hst & _). pose proof (NewRaft_wal _ _ _ _ Hn) as Hw.
  pose proof (mo_file _ _ _ _ _ _ Hm) as Hmir.
  apply (member_step x i m _ []); [done|done|by intros ? ? ?%elem_of_nil|].
  apply (stays (chains x) _ (leaders x) _ i m); try done.
  - split_and!; [congruence|congruence|by rewrite Hw].
  - unfold mirrored in *. rewrite Hw, HL1. cbn. by rewrite Hmir.
  - rewrite HL1. apply Hm.
  - eapply restart_inv; [apply Hm|done].
  - congruence.
  - apply Hm.
Qed.

Lemma nstep_ok x x' : net_ok L T x -> 0 < L -> nstep x x' -> one_leader x' -> net_ok L T x'.
Proof.
  intros Hok HL Hs Hone. destruct Hs; [by eapply work_ok|by eapply command_ok|by eapply beat_ok|by eapply deliver_ok|by eapply crash_keeps].
Qed.

Lemma nstep_leaders x x' b : nstep x x' -> b ∈ leaders x -> b ∈ leaders x'.
Proof. intros Hs Hb. destruct Hs; cbn; try done. apply elem_of_app. by right. Qed.

Lemma one_leader_before x x' : nstep x x' -> one_leader x' -> one_leader x.
Proof. intros Hs Ho t i j Hi Hj. apply (Ho t); by eapply nstep_leaders. Qed.

Lemma seed_ok peers x : seed peers L T x -> 0 < L /\ net_ok L T x.
Proof.
  intros (HL & Hlen & Hsoup & Hch & Hls & Hm). split; [done|]. split; rewrite ?Hsoup, ?Hch, ?Hls.
  - intros i m Hi. destruct (Hm i m Hi) as (disk & term & vote & data & Hn & Hb & Hl & Ht & Hv & Hf & Hs).
    destruct (NewRaft_snapshot peers (Z.of_nat i) disk [] term vote L T data Hf) as (r & Hn' & HLg & HTm & HV & HI & HIT & _); try done.
    rewrite Hn in Hn'. injection Hn' as <-. destruct (NewRaft_state _ _ _ _ _ _ Hl Hn) as (Hme & Hst & _).
    pose proof (NewRaft_wal _ _ _ _ Hn) as Hw. apply lookup_lt_Some in Hi. unfold i64, zlen in Hlen.
    split; rewrite ?Hb; try done.
    + eapply life_inv; [exact Hl|done|done| | |by apply life_start]; unfold i64; lia.
    + exists data. by rewrite Hw.
    + unfold mirrored. rewrite Hw, HLg. cbn. by rewrite Hf.
    + rewrite HLg. by left.
    + congruence.
  - intros c ->%list_elem_of_singleton. split; [apply contiguous_nil|by constructor].
  - intros c1 c2 ->%list_elem_of_singleton ->%list_elem_of_singleton. apply agree_refl.
  - intros c e ->%list_elem_of_singleton ?%elem_of_nil. done.
  - by intros msg ?%elem_of_nil.
Qed.

Lemma run_ok peers x0 x : seed peers L T x0 -> rtc nstep x0 x -> one_leader x -> 0 < L /\ net_ok L T x.
Proof.
  intros [HL Hok]%seed_ok Hrun. revert Hrun Hok. revert x. refine (rtc_ind_r _ x0 _ _).
  - by intros Hok _.
  - intros y z _ Hs IH Hok Hone. split; [done|]. eapply nstep_ok; [|done|done|done]. apply IH; [done|]. by eapply one_leader_before.
Qed.

(** Log matching for messages that are copies, in a cluster whose nodes start from
    one snapshot and take no other: while no term has two leaders, two nodes whose
    logs have an entry of the same index and term hold the same entry there and the
    same entries before it; and each node's log file gives back the log it has in
    memory. *)
Lemma net_log_matching (peers : list bytes) (x0 x : net)
    (Hseed : seed peers L T x0) (Hrun : rtc nstep x0 x) (Hone : one_leader x) :
  (forall i m, members x !! i = Some m -> RaftWAL.LoadLogs (r_wal (m_raft m)) = Some (r_log (m_raft m))) /\
  forall i j m1 m2 e1 e2, members x !! i = Some m1 -> members x !! j = Some m2 ->
    e1 ∈ r_log (m_raft m1) -> e2 ∈ r_log (m_raft m2) -> Index e1 = Index e2 -> Term e1 = Term e2 ->
    e1 = e2 /\
    filter (fun e => L < Index e <= Index e1) (r_log (m_raft m1)) = filter (fun e => L < Index e <= Index e1) (r_log (m_raft m2)).
Proof.
  destruct (run_ok peers x0 x Hseed Hrun Hone) as [HL Hok].
  assert (forall i m, members x !! i = Some m -> mirrored (m_raft m) /\ r_log (m_raft m) ∈ chains x) as Hmem.
  { intros i m Hi. destruct (ok_member _ _ _ Hok i m Hi). done. }
  split.
  - intros i m Hi. destruct (Hmem i m Hi) as [Hm Hl]. apply RaftWAL.LoadLogs_bytes; [by apply (ok_chain _ _ _ Hok)|done].
  - intros i j m1 m2 e1 e2 Hi Hj [k1 H1]%list_elem_of_lookup_1 [k2 H2]%list_elem_of_lookup_1 HIx HT.
    destruct (Hmem i m1 Hi) as [_ Hl1], (Hmem j m2 Hj) as [_ Hl2].
    destruct (ok_chain _ _ _ Hok _ Hl1) as [Hc1 _], (ok_chain _ _ _ Hok _ Hl2) as [Hc2 _].
    pose proof (Hc1 _ _ H1) as HI1. rewrite (Hc2 _ _ H2) in HIx. assert (k2 = k1) as -> by lia.
    pose proof (ok_agree _ _ _ Hok _ _ Hl1 Hl2 k1 e1 e2 H1 H2 HT) as Ht. split.
    + apply take_S_lookup in Ht. rewrite H1, H2 in Ht. by injection Ht.
    + rewrite !(filter_contiguous (L + 1)) by done. replace (Z.to_nat (Index e1 + 1 - (L + 1))) with (S k1) by lia. by rewrite Ht.
Qed.

End Invariant.

(** ** Runs *)

#[export] Instance event_ok_dec r ev : Decision (event_ok r ev).
Proof.
  unfold event_ok, i64. destruct ev as [|[|]| | | | | |? [|]|? [|]| | |]; apply _.
Defined.
#[export] Instance log_entry_ok_dec e : Decision (log_entry_ok e).
Proof. unfold log_entry_ok, i64. apply _. Defined.

(** The steps as a function: what happens next; [k] is a place in the soup. *)
Inductive act := Work (i : nat) (ev : event) | Submit (i : nat) (command : bytes) | Beat (i j : nat) | Deliver (i k : nat) | Crash (i : nat).

Section Exec.
Context `{RaftConfig}.

Definition exec (x : net) (a : act) : option net :=
  match a with
  | Work i ev =>
      m ← members x !! i; guard (local ev = true);; guard (event_ok (m_raft m) ev);; r ← step (m_raft m) ev;
      Some (mkNet (<[i := mkMember r (commitment (m_raft m) ev ++ m_backed m)]> (members x)) (soup x) (chains x)
                  (leads (m_raft m) ev ++ leaders x))
  | Submit i command =>
      m ← members x !! i; guard (log_entry_ok (new_entry (m_raft m) command));; res ← AppendEntry (m_raft m) command;
      match res with
      | (r, msgs, Ok _) => Some (mkNet (<[i := mkMember r (m_backed m)]> (members x)) (omap snd msgs ++ soup x) (r_log r :: chains x) (leaders x))
      | _ => None
      end
  | Beat i j => m ← members x !! i; msg ← heartbeatTo (m_raft m) j; Some (send x [msg])
  | Deliver i k =>
      m ← members x !! i; msg ← soup x !! k; guard (sender msg <> r_me (m_raft m));; r ← step (m_raft m) (arrival msg);
      Some (set_member x i (mkMember r (m_backed m)))
  | Crash i =>
      m ← members x !! i; r ← NewRaft (r_peers (m_raft m)) (r_me (m_raft m)) (r_wal (m_raft m));
      Some (set_member x i (mkMember r (m_backed m)))
  end.

Lemma exec_step x a x' : exec x a = Some x' -> nstep x x'.
Proof.
  destruct a; unfold exec; intros Hx; simplify_option_eq; repeat case_match; simplify_option_eq.
  - by eapply n_work.
  - by eapply n_command.
  - by eapply n_beat.
  - eapply n_deliver; [done|by eapply list_elem_of_lookup_2|done|done].
  - by eapply n_crash.
Qed.

Fixpoint execs (x : net) (l : list act) : option net :=
  match l with [] => Some x | a :: l => x ← exec x a; execs x l end.

Lemma execs_run x l x' : execs x l = Some x' -> rtc nstep x x'.
Proof.
  revert x. induction l as [|a l IH]; intros x; cbn [execs]; [intros [= ->]; apply rtc_refl|].
  intros (y & Hy & Hx)%bind_Some. eapply rtc_l; [by eapply exec_step|by apply IH].
Qed.

End Exec.

(** A disk at term 1 with a snapshot up to index 4 and no entries. *)
Definition seed_disk : RaftWAL.RaftWAL :=
  RaftWAL.SaveSnapshot (RaftWAL.SaveState (RaftWAL.mkWAL (Some []) None None) 1 (-1)) (of_string "snap") 4 1.

Definition sample_net : net :=
  let start i := mkMember (default (sample_leader []) (NewRaft sample_peers i seed_disk)) [] in
  mkNet (start <$> [0; 1; 2]) [] [[]] [].

Lemma sample_seed : seed sample_peers 4 1 sample_net.
Proof.
  split_and!; [done|eval_closed|done|done|done|]. intros i m Hi.
  exists seed_disk, 1, (-1), (of_string "snap").
  assert (i < 3)%nat as Hlt by (by apply lookup_lt_Some in Hi).
  destruct i as [|[|[|i]]]; [injection Hi as <-..|lia]; by split_and!; vm_compute.
Qed.

(** What the hypothesis excludes, and the code does not: in a cluster of three, two
    nodes lead one term (see [two_leaders_in_one_term]). *)
Example two_leaders_split_logs :
  (fun x => (leaders x, r_log ∘ m_raft <$> members x)) <$>
    @execs sample_config sample_net
      [Work 0 EStartElection; Work 0 (EFinishElection []); Work 1 EStartElection; Work 1 (EFinishElection []);
       Submit 0 (of_string "a"); Submit 1 (of_string "b")] =
  Some ([(2, 1); (2, 0)], [[mkEntry 5 2 (of_string "a") false]; [mkEntry 5 2 (of_string "b") false]; []]).
Proof. vm_compute. reflexivity. Qed.

End LogMatch.
