(* ===== verification/LogSlice.v ===== *)
(** The log as the Go slice it is: [r.log] and the entries of a message that waits
    for its encoding share one array ([AppendEntry], [replicateLog], [TakeSnapshot] of
    [Raft/raft.go], [AppendEntries] of [Raft/rpc.go]).  The lists of [Raft.v] are
    what the slices show; a message shows what its sender's log has become. *)
From S2P Require Import Prelude Bytes RaftWAL Raft RaftLog LogMatch.
Import Raft Logs LogMatch.

Module Slices.

(** ** Slices *)

(** The arrays, by address; an array never changes its length. *)
#[local] Notation "'heap'" := (list (list LogEntry)).
Record slice := mkSlice { s_array : nat; s_off : nat; s_len : nat }.

Definition cells (h : heap) (s : slice) : list LogEntry := default [] (h !! s_array s).
Definition view (h : heap) (s : slice) : list LogEntry := take (s_len s) (drop (s_off s) (cells h s)).

(** [s[:k]] and [s[k:]]. *)
Definition upto (s : slice) (k : nat) : slice := mkSlice (s_array s) (s_off s) k.
Definition from (s : slice) (k : nat) : slice := mkSlice (s_array s) (s_off s + k) (s_len s - k).

Definition zero_entry : LogEntry := mkEntry 0 0 [] false.

(** A slice lies in its array. *)
Definition wf (h : heap) (s : slice) : Prop := (s_array s < length h /\ s_off s + s_len s <= length (cells h s))%nat.

Section Loop.
(** The room the runtime adds to a new array. *)
Context (spare : nat -> nat).

(** [append(s, e)]: in place while there is room. *)
Definition append (h : heap) (s : slice) (e : LogEntry) : heap * slice :=
  if (s_off s + s_len s <? length (cells h s))%nat
  then (<[s_array s := <[(s_off s + s_len s)%nat := e]> (cells h s)]> h, mkSlice (s_array s) (s_off s) (S (s_len s)))
  else (h ++ [view h s ++ e :: replicate (spare (S (s_len s))) zero_entry], mkSlice (length h) 0 (S (s_len s))).

(** The loop over [args.Entries] on the slice [r.log]. *)
Fixpoint entries_loop (lastIncluded : Z) (entries : list LogEntry) (h : heap) (s : slice) (needRebuild : bool) (newEntries : list LogEntry)
    : option (heap * slice * bool * list LogEntry) :=
  match entries with
  | [] => Some (h, s, needRebuild, newEntries)
  | entry :: rest =>
      let relativeIndex := Index entry - lastIncluded - 1 in
      '(s, needRebuild) ←
        (if relativeIndex <? Z.of_nat (s_len s) then
           old ← log_at (view h s) relativeIndex;
           if Term old =? Term entry then Some (s, needRebuild) else Some (upto s (Z.to_nat relativeIndex), true)
         else Some (s, needRebuild));
      if Z.of_nat (s_len s) <=? relativeIndex
      then let '(h, s) := append h s entry in entries_loop lastIncluded rest h s needRebuild (newEntries ++ [entry])
      else entries_loop lastIncluded rest h s needRebuild newEntries
  end.

(** [log = log[newLogStart:]] and the loop that numbers what is left, in place. *)
Definition compact (h : heap) (s : slice) (index lastIncluded : Z) : heap * slice :=
  let newLogStart := index + 1 - lastIncluded in
  if (0 <=? newLogStart) && (newLogStart <=? Z.of_nat (s_len s)) then
    let s' := from s (Z.to_nat newLogStart) in
    let numbered := imap (fun i e => mkEntry (index + 1 + Z.of_nat i) (Term e) (Command e) (IsSnapshot e)) (view h s') in
    (<[s_array s := take (s_off s') (cells h s) ++ numbered ++ drop (s_off s' + s_len s') (cells h s)]> h, s')
  else (h ++ [[]], mkSlice (length h) 0 0).

(** ** What the log shows *)

Lemma length_view h s : wf h s -> length (view h s) = s_len s.
Proof. intros [_ Hl]. unfold view. rewrite length_take, length_drop. lia. Qed.

Lemma cells_lookup h s : wf h s -> h !! s_array s = Some (cells h s).
Proof. intros [Hl _]. unfold cells. by destruct (lookup_lt_is_Some_2 h (s_array s) Hl) as [c ->]. Qed.

Lemma cells_insert h s c : (s_array s < length h)%nat -> cells (<[s_array s := c]> h) s = c.
Proof. intros Hl. unfold cells. by rewrite list_lookup_insert_eq. Qed.

Lemma view_upto h s k : wf h s -> (k <= s_len s)%nat -> view h (upto s k) = take k (view h s).
Proof. intros _ Hk. unfold view, upto. cbn. by rewrite take_take, Nat.min_l. Qed.

Lemma view_from h s k : view h (from s k) = drop k (view h s).
Proof. unfold view, from, cells. cbn. by rewrite skipn_firstn_comm, drop_drop. Qed.

Lemma append_view h s e h' s' :
  wf h s -> append h s e = (h', s') -> view h' s' = view h s ++ [e] /\ s_len s' = S (s_len s) /\ wf h' s'.
Proof.
  intros Hwf. pose proof Hwf as [Ha Hl]. unfold append. destruct (Nat.ltb_spec (s_off s + s_len s) (length (cells h s))) as [Hlt|Hge]; intros [= <- <-].
  - assert (forall c, cells (<[s_array s := c]> h) (mkSlice (s_array s) (s_off s) (S (s_len s))) = c) as Hcells
      by (intros c; unfold cells; cbn; by rewrite list_lookup_insert_eq).
    unfold wf, view. rewrite Hcells. cbn. rewrite !length_insert. split_and!; try lia.
    rewrite drop_insert_ge by lia. replace (s_off s + s_len s - s_off s)%nat with (s_len s) by lia.
    erewrite take_S_r; [|apply list_lookup_insert_eq; rewrite length_drop; lia]. by rewrite take_insert_ge.
  - assert (forall c, cells (h ++ [c]) (mkSlice (length h) 0 (S (s_len s))) = c) as Hcells
      by (intros c; unfold cells; cbn; by rewrite list_lookup_middle).
    unfold wf. rewrite Hcells. unfold view at 1. rewrite Hcells. cbn. rewrite !length_app. cbn. pose proof (length_view h s Hwf) as Hv. split_and!; try lia.
    rewrite drop_0, cons_middle, app_assoc, take_app_length'; [done|]. rewrite length_app, Hv. cbn. lia.
Qed.

(** ** The loop refines the one on lists *)

Lemma wf_upto h s k : wf h s -> (k <= s_len s)%nat -> wf h (upto s k).
Proof. intros [Ha Hl] Hk. split; [done|]. unfold cells, upto in *. cbn. lia. Qed.

Lemma entries_loop_refines lastIncluded entries h s rb ne :
  wf h s ->
  match entries_loop lastIncluded entries h s rb ne with
  | Some (h', s', rb', ne') => append_loop lastIncluded entries (view h s) rb ne = Some (view h' s', rb', ne') /\ wf h' s'
  | None => append_loop lastIncluded entries (view h s) rb ne = None
  end.
Proof.
  revert h s rb ne. induction entries as [|e entries IH]; intros h s rb ne Hwf; cbn [entries_loop append_loop]; [done|].
  set (i := Index e - lastIncluded - 1). assert (forall s, wf h s -> zlen (view h s) = Z.of_nat (s_len s)) as Hlen
    by (intros s0 Hs0; unfold zlen; by rewrite length_view).
  assert (forall s rb, wf h s ->
    match (if Z.of_nat (s_len s) <=? i then let '(h, s) := append h s e in entries_loop lastIncluded entries h s rb (ne ++ [e])
           else entries_loop lastIncluded entries h s rb ne) with
    | Some (h', s', rb', ne') => (if zlen (view h s) <=? i then append_loop lastIncluded entries (view h s ++ [e]) rb (ne ++ [e])
        else append_loop lastIncluded entries (view h s) rb ne) = Some (view h' s', rb', ne') /\ wf h' s'
    | None => (if zlen (view h s) <=? i then append_loop lastIncluded entries (view h s ++ [e]) rb (ne ++ [e])
        else append_loop lastIncluded entries (view h s) rb ne) = None
    end) as Hstep.
  { intros s0 rb0 Hs0. rewrite Hlen by done. destruct (_ <=? _); [|by apply IH].
    destruct (append h s0 e) as [h1 s1] eqn:E. destruct (append_view _ _ _ _ _ Hs0 E) as (<- & _ & Hw). by apply IH. }
  rewrite Hlen by done. destruct (Z.ltb_spec i (Z.of_nat (s_len s))) as [Hlt|]; [|by apply Hstep].
  destruct (log_at (view h s) i) as [old|] eqn:Eold; [|done]. cbn [mbind option_bind]. destruct (Term old =? Term e); cbn [mbind option_bind]; [by apply Hstep|].
  apply log_at_Some in Eold as [Hi _]. rewrite Hlen in Hi by done.
  rewrite <- (view_upto h s (Z.to_nat i)) by (done || lia). apply Hstep. apply wf_upto; [done|lia].
Qed.

(** What [TakeSnapshot] and [InstallSnapshot] leave. *)
Lemma compact_refines h s index lastIncluded h' s' :
  wf h s -> compact h s index lastIncluded = (h', s') -> view h' s' = compact_log (view h s) index lastIncluded.
Proof.
  intros Hwf. unfold compact, compact_log. unfold zlen. rewrite (length_view h s Hwf).
  destruct (Z.leb_spec 0 (index + 1 - lastIncluded)), (Z.leb_spec (index + 1 - lastIncluded) (Z.of_nat (s_len s))); cbn [andb];
    [|intros [= <- <-]; unfold view, cells; cbn; by rewrite list_lookup_middle..].
  set (k := Z.to_nat (index + 1 - lastIncluded)). rewrite <- view_from. intros [= <- <-].
  set (new := imap _ (view h (from s k))). assert (length new = (s_len s - k)%nat) as Hn.
  { unfold new. rewrite length_imap, view_from, length_drop, length_view by done. lia. }
  unfold view at 1, cells at 1. cbn. destruct Hwf as [Ha Hl]. rewrite list_lookup_insert_eq by done. cbn.
  rewrite drop_app_length'; [|rewrite length_take; lia]. by apply take_app_length'.
Qed.

(** ** Messages that wait for their encoding *)

(** A slice of the log as it was, or of another array. *)
Definition inside (s t : slice) : Prop := s_array t = s_array s -> (s_off t + s_len t <= s_off s + s_len s)%nat.

Lemma append_keeps h s t e h' s' :
  wf h s -> wf h t -> inside s t -> append h s e = (h', s') -> view h' t = view h t /\ wf h' t /\ inside s' t.
Proof.
  intros Hs [Ht1 Ht2] Hin. pose proof Hs as [Hs1 _]. unfold append. destruct (Nat.ltb_spec (s_off s + s_len s) (length (cells h s))) as [Hlt|Hge]; intros [= <- <-].
  - unfold wf, view. destruct (decide (s_array t = s_array s)) as [E|E].
    + assert (cells h t = cells h s) as Hc by (unfold cells; by rewrite E). specialize (Hin E).
      assert (forall c, cells (<[s_array s := c]> h) t = c) as Hins by (intros c; unfold cells; by rewrite E, list_lookup_insert_eq).
      rewrite Hins, Hc in *. rewrite !length_insert. split_and!; [|lia|lia|unfold inside; cbn; lia].
      rewrite drop_insert_ge by lia. rewrite take_insert_ge by lia. done.
    + assert (forall c, cells (<[s_array s := c]> h) t = cells h t) as -> by (intros c; unfold cells; by rewrite list_lookup_insert_ne).
      rewrite length_insert. split_and!; try done; by intros E2.
  - assert (forall c, cells (h ++ [c]) t = cells h t) as Hc by (intros c; unfold cells; by rewrite lookup_app_l).
    unfold wf, view. rewrite Hc, length_app. cbn. split_and!; [done|lia|done|]. unfold inside. cbn. lia.
Qed.

Lemma loop_marks lastIncluded entries h s rb ne h' s' rb' ne' :
  entries_loop lastIncluded entries h s rb ne = Some (h', s', rb', ne') -> rb = true -> rb' = true.
Proof.
  revert h s rb ne. induction entries as [|e entries IH]; intros h s rb ne; cbn [entries_loop]; [by intros [= _ _ <- _]|]. intros Hx ->.
  apply bind_Some in Hx as ([s1 rb1] & H1 & Hx). assert (rb1 = true) as ->.
  { destruct (Index e - lastIncluded - 1 <? Z.of_nat (s_len s)); [|by injection H1].
    apply bind_Some in H1 as (old & _ & H1). destruct (Term old =? Term e); by injection H1. }
  destruct (Z.of_nat (s_len s1) <=? _); [|by eapply IH]. destruct (append h s1 e). by eapply IH.
Qed.

(** A log that is not cut keeps what its messages show. *)
Lemma loop_keeps lastIncluded entries h s t rb ne h' s' ne' :
  wf h s -> wf h t -> inside s t -> entries_loop lastIncluded entries h s rb ne = Some (h', s', false, ne') ->
  view h' t = view h t /\ wf h' t /\ inside s' t.
Proof.
  revert h s rb ne. induction entries as [|e entries IH]; intros h s rb ne Hs Ht Hin; cbn [entries_loop]; [by intros [= -> -> _ _]|]. intros Hx.
  apply bind_Some in Hx as ([s1 rb1] & H1 & Hx). assert (s1 = s) as ->.
  { destruct (Index e - lastIncluded - 1 <? Z.of_nat (s_len s)); [|by injection H1].
    apply bind_Some in H1 as (old & _ & H1). destruct (Term old =? Term e); injection H1 as <- <-; [done|].
    destruct (Z.of_nat _ <=? _); [destruct (append _ _ _)|]; by pose proof (loop_marks _ _ _ _ _ _ _ _ _ _ Hx eq_refl). }
  destruct (Z.of_nat (s_len s) <=? _); [|exact (IH h s _ _ Hs Ht Hin Hx)]. destruct (append h s e) as [h1 s1] eqn:E.
  destruct (append_keeps _ _ _ _ _ _ Hs Ht Hin E) as (<- & Ht1 & Hin1). destruct (append_view _ _ _ _ _ Hs E) as (_ & _ & Hs1).
  exact (IH h1 s1 _ _ Hs1 Ht1 Hin1 Hx).
Qed.

(** The log grows, by its node's own commands or by what it is sent, and is not
    cut. *)
Inductive grows : heap * slice -> heap * slice -> Prop :=
  | g_append h s e h' s' : append h s e = (h', s') -> grows (h, s) (h', s')
  | g_loop h s lastIncluded es h' s' ne : entries_loop lastIncluded es h s false [] = Some (h', s', false, ne) -> grows (h, s) (h', s').

Lemma loop_wf lastIncluded entries h s rb ne h' s' rb' ne' :
  wf h s -> entries_loop lastIncluded entries h s rb ne = Some (h', s', rb', ne') -> wf h' s'.
Proof. intros Hwf E. pose proof (entries_loop_refines lastIncluded entries h s rb ne Hwf) as Hr. rewrite E in Hr. apply Hr. Qed.

(** Where a slice of the old log lies in the new one: in another array, or at the
    same place in a log that is no shorter. *)
Definition moved (h h' : heap) (s s' : slice) : Prop :=
  (length h <= length h')%nat /\ (s_array s' = s_array s /\ s_off s' = s_off s /\ (s_len s <= s_len s')%nat \/ (length h <= s_array s')%nat).

Lemma append_moves h s e h' s' : append h s e = (h', s') -> moved h h' s s'.
Proof.
  unfold append, moved. destruct (_ <? _)%nat; intros [= <- <-]; cbn; [rewrite length_insert|rewrite length_app; cbn]; lia.
Qed.

Lemma moved_trans h1 h2 h3 s1 s2 s3 : wf h1 s1 -> moved h1 h2 s1 s2 -> moved h2 h3 s2 s3 -> moved h1 h3 s1 s3.
Proof. unfold moved, wf. intros ? ? ?. lia. Qed.

Lemma loop_moves lastIncluded entries h s rb ne h' s' ne' :
  wf h s -> entries_loop lastIncluded entries h s rb ne = Some (h', s', false, ne') -> moved h h' s s'.
Proof.
  revert h s rb ne. induction entries as [|e entries IH]; intros h s rb ne Hs; cbn [entries_loop]; [intros [= -> -> _ _]; unfold moved; lia|].
  intros Hx. apply bind_Some in Hx as ([s1 rb1] & H1 & Hx). assert (s1 = s) as ->.
  { destruct (Index e - lastIncluded - 1 <? Z.of_nat (s_len s)); [|by injection H1].
    apply bind_Some in H1 as (old & _ & H1). destruct (Term old =? Term e); injection H1 as <- <-; [done|].
    destruct (Z.of_nat _ <=? _); [destruct (append _ _ _)|]; by pose proof (loop_marks _ _ _ _ _ _ _ _ _ _ Hx eq_refl). }
  destruct (Z.of_nat (s_len s) <=? _); [|exact (IH h s _ _ Hs Hx)]. destruct (append h s e) as [h1 s1] eqn:E.
  destruct (append_view _ _ _ _ _ Hs E) as (_ & _ & Hs1). eapply moved_trans; [done|by eapply append_moves|by eapply IH].
Qed.

Lemma grows_keeps x y t :
  rtc grows x y -> wf x.1 x.2 -> wf x.1 t -> inside x.2 t ->
  wf y.1 y.2 /\ view y.1 t = view x.1 t /\ wf y.1 t /\ inside y.2 t /\ moved x.1 y.1 x.2 y.2.
Proof.
  induction 1 as [x|x y z Hxy _ IH]; intros Hwf Ht Hin.
  { assert (moved x.1 x.1 x.2 x.2) by (unfold moved; lia). auto. }
  assert (wf y.1 y.2 /\ view y.1 t = view x.1 t /\ wf y.1 t /\ inside y.2 t /\ moved x.1 y.1 x.2 y.2) as (Hw & Hv & Ht1 & Hin1 & Hm).
  { destruct Hxy as [h s e h' s' E|h s lastIncluded es h' s' ne E]; cbn [fst snd] in *.
    - destruct (append_keeps _ _ _ _ _ _ Hwf Ht Hin E) as (? & ? & ?). destruct (append_view _ _ _ _ _ Hwf E) as (_ & _ & ?).
      pose proof (append_moves _ _ _ _ _ E). auto.
    - destruct (loop_keeps _ _ _ _ _ _ _ _ _ _ Hwf Ht Hin E) as (? & ? & ?).
      pose proof (loop_wf _ _ _ _ _ _ _ _ _ _ Hwf E). pose proof (loop_moves _ _ _ _ _ _ _ _ _ Hwf E). auto. }
  destruct (IH Hw Ht1 Hin1) as (? & Hv2 & ? & ? & Hm2). pose proof (moved_trans _ _ _ _ _ _ Hwf Hm Hm2).
  rewrite Hv2, Hv. auto.
Qed.

(** *** Cutting *)

(** [es] written over [l] from place [k] on. *)
Definition overwrite (k : nat) (es l : list LogEntry) : list LogEntry := take k l ++ es ++ drop (k + length es) l.

Lemma lookup_overwrite k es l i :
  (k <= length l)%nat -> overwrite k es l !! i = if decide (k <= i < k + length es)%nat then es !! (i - k)%nat else l !! i.
Proof.
  intros Hk. unfold overwrite. destruct (decide (i < k)%nat).
  { rewrite lookup_app_l by (rewrite length_take; lia). rewrite lookup_take_lt by done. by rewrite decide_False by lia. }
  rewrite lookup_app_r by (rewrite length_take; lia). rewrite length_take, Nat.min_l by done. case_decide.
  - by rewrite lookup_app_l by lia.
  - rewrite lookup_app_r by lia. rewrite lookup_drop. f_equal. lia.
Qed.

Lemma overwrite_cons k e es l :
  (k < length l)%nat -> overwrite (S k) es (<[k := e]> l) = overwrite k (e :: es) l.
Proof.
  intros Hk. apply list_eq. intros i. rewrite !lookup_overwrite by (rewrite ?length_insert; lia). cbn [length].
  destruct (decide (i = k)) as [->|Hne].
  - rewrite decide_False, decide_True, Nat.sub_diag by lia. by rewrite list_lookup_insert_eq.
  - rewrite list_lookup_insert_ne by done. destruct (decide (S k <= i < S k + length es)%nat).
    + rewrite decide_True by lia. by replace (i - k)%nat with (S (i - S k)) by lia.
    + by rewrite decide_False by lia.
Qed.

(** Entries behind the log are stored in place. *)
Lemma run_in_place lastIncluded es h s rb ne :
  wf h s -> (forall j e, es !! j = Some e -> Index e - lastIncluded - 1 = Z.of_nat (s_len s + j)) ->
  (s_off s + s_len s + length es <= length (cells h s))%nat ->
  entries_loop lastIncluded es h s rb ne =
    Some (<[s_array s := overwrite (s_off s + s_len s) es (cells h s)]> h,
          mkSlice (s_array s) (s_off s) (s_len s + length es), rb, ne ++ es).
Proof.
  revert h s ne. induction es as [|e es IH]; intros h s ne Hwf Hix Hroom; cbn [entries_loop].
  { unfold overwrite. cbn. rewrite !Nat.add_0_r, take_drop, app_nil_r, list_insert_id by (by apply cells_lookup). by destruct s. }
  cbn [length] in Hroom. pose proof (Hix 0%nat e eq_refl) as Hi. rewrite Nat.add_0_r in Hi. rewrite Hi, Z.ltb_irrefl. cbn [mbind option_bind]. rewrite Z.leb_refl.
  unfold append. destruct (Nat.ltb_spec (s_off s + s_len s) (length (cells h s))); [|lia]. destruct Hwf as [Ha Hl].
  assert (cells (<[s_array s := <[(s_off s + s_len s)%nat := e]> (cells h s)]> h) (mkSlice (s_array s) (s_off s) (S (s_len s))) =
          <[(s_off s + s_len s)%nat := e]> (cells h s)) as Hc by (unfold cells; cbn; by rewrite list_lookup_insert_eq).
  rewrite IH.
  - rewrite Hc. cbn [s_array s_off s_len]. rewrite list_insert_insert_eq, Nat.add_succ_r, overwrite_cons by lia.
    rewrite <- app_assoc. cbn [length]. by rewrite Nat.add_succ_comm.
  - unfold wf. rewrite Hc. cbn. rewrite !length_insert. lia.
  - intros j e' Hj. cbn. rewrite (Hix (S j) e' Hj). lia.
  - rewrite Hc. cbn. rewrite length_insert. lia.
Qed.

(** A conflict: the log is cut at [k], and goes on in the same array. *)
Lemma loop_cuts lastIncluded es h s k old e :
  view h s !! k = Some old -> es !! 0%nat = Some e -> Index e - lastIncluded - 1 = Z.of_nat k -> Term old <> Term e -> (k < s_len s)%nat ->
  entries_loop lastIncluded es h s false [] = entries_loop lastIncluded es h (upto s k) true [].
Proof.
  intros Hold He Hi HT Hk. destruct es as [|e' es]; [done|]. injection He as ->. cbn [entries_loop]. rewrite Hi, log_at_nat, Hold. cbn [s_len upto].
  rewrite Z.ltb_irrefl. destruct (Z.ltb_spec (Z.of_nat k) (Z.of_nat (s_len s))); [|lia]. cbn [mbind option_bind].
  destruct (Z.eqb_spec (Term old) (Term e)); [done|]. cbn [mbind option_bind]. by rewrite Nat2Z.id.
Qed.

Lemma view_overwritten h s k es :
  wf h s -> (k <= s_len s)%nat -> view (<[s_array s := overwrite (s_off s + k) es (cells h s)]> h) (mkSlice (s_array s) (s_off s) (k + length es)) =
    take k (view h s) ++ es.
Proof.
  intros [Ha Hl] Hk. unfold view at 1, cells at 1. cbn. rewrite list_lookup_insert_eq by done. cbn. unfold overwrite.
  rewrite drop_app_le by (rewrite length_take; lia). rewrite skipn_firstn_comm. replace (s_off s + k - s_off s)%nat with k by lia.
  unfold view. rewrite take_take, Nat.min_l by done. rewrite app_assoc. apply take_app_length'. rewrite length_app, length_take, length_drop. lia.
Qed.

(** What a message of the first [n] entries shows of a log written over. *)
Lemma message_overwritten h s k es p n :
  wf h s -> (k <= s_len s)%nat -> (n <= s_len s)%nat ->
  view (<[s_array s := overwrite (s_off s + k) es (cells h s)]> h) (from (upto s n) p) = drop p (take n (overwrite k es (view h s))).
Proof.
  intros Hwf Hk Hn. pose proof Hwf as [Ha Hl]. unfold view at 1, cells at 1. cbn. rewrite list_lookup_insert_eq by done. cbn.
  apply list_eq. intros i. rewrite lookup_drop. destruct (decide (p + i < n)%nat) as [Hi|Hi].
  - rewrite !lookup_take_lt by lia. rewrite lookup_drop, !lookup_overwrite by (rewrite ?(length_view h s Hwf); lia). case_decide.
    + rewrite decide_True by lia. f_equal. lia.
    + rewrite decide_False by lia. unfold view. rewrite lookup_take_lt by lia. rewrite lookup_drop. f_equal. lia.
  - rewrite (lookup_take_ge _ (n - p)), (lookup_take_ge _ n) by lia. done.
Qed.

(** A message as it is encoded: the header it was built with, and what its slice
    shows by then. *)
Definition encoded (h : heap) (message : slice) (m : rpc) : rpc :=
  match m with
  | SendAppendEntries a => SendAppendEntries (mkAppendArgs (ae_Term a) (ae_LeaderID a) (ae_PrevLogIndex a) (ae_PrevLogTerm a) (view h message) (ae_LeaderCommit a))
  | m => m
  end.

(** C6: a message of [replicateLog] shares the array of the sender's log: its term,
    previous index and previous term are those of the moment it was built, but its
    entries are what that part of the array holds when it is encoded, without the
    lock, once the peer is connected. However much the sender's log has grown
    since, by commands or by another leader's entries, the message is encoded as it
    was built. But when the sender then follows another leader and cuts its log at
    a conflict (at position [k] of the log, the array still being the same), and
    the new entries fit in the array, as they always do when they are no more than
    those they replace, they appear in the message under the old term and behind
    the old previous entry. *)
Theorem messages_follow_the_log (h : heap) (s : slice) (p : nat) (a : AppendEntriesArgs) (h1 : heap) (s1 : slice)
    (Hwf : wf h s) (Hp : (p <= s_len s)%nat) (Ha : ae_Entries a = drop p (view h s)) (Hgrow : rtc grows (h, s) (h1, s1)) :
  let message := from s p in
  encoded h1 message (SendAppendEntries a) = SendAppendEntries a /\
  (forall lastIncluded es k old e, s_array s1 = s_array s -> view h1 s1 !! k = Some old -> es !! 0%nat = Some e -> Term old <> Term e ->
     (forall j e', es !! j = Some e' -> Index e' = lastIncluded + 1 + Z.of_nat (k + j)) ->
     (s_off s1 + k + length es <= length (cells h1 s1))%nat ->
     exists h2 s2, entries_loop lastIncluded es h1 s1 false [] = Some (h2, s2, true, es) /\
       view h2 s2 = take k (view h1 s1) ++ es /\
       encoded h2 message (SendAppendEntries a) = SendAppendEntries (mkAppendArgs (ae_Term a) (ae_LeaderID a) (ae_PrevLogIndex a)
         (ae_PrevLogTerm a) (drop p (take (s_len s) (overwrite k es (view h1 s1)))) (ae_LeaderCommit a))).
Proof.
  assert (wf h (from s p) /\ inside s (from s p)) as [Ht Hin].
  { destruct Hwf as [Ha1 Hl]. unfold wf, inside, cells, from in *. cbn. lia. }
  destruct (grows_keeps _ _ (from s p) Hgrow Hwf Ht Hin) as (Hwf1 & Hv & _ & _ & Hm). cbn [fst snd] in *. split.
  { unfold encoded. rewrite Hv, view_from, <- Ha. by destruct a. }
  intros lastIncluded es k old e Harr Hold He HT Hix Hroom.
  pose proof (lookup_lt_Some _ _ _ Hold) as Hk. rewrite (length_view h1 s1 Hwf1) in Hk.
  rewrite (loop_cuts _ _ _ _ k old e); [|done|done|rewrite (Hix 0%nat e He); lia|done|done].
  assert (wf h1 (upto s1 k)) as Hu by (apply wf_upto; [done|lia]).
  rewrite run_in_place; [|done|intros j e' Hj; rewrite (Hix j e' Hj); cbn; lia|cbn; unfold cells in *; cbn; lia].
  assert (s_off s1 = s_off s /\ (s_len s <= s_len s1)%nat) as [Eo El].
  { destruct Hm as [_ [(_ & ? & ?)|Hfar]]; [done|]. destruct Hwf as [Hwf _]. lia. }
  eexists _, _. split; [done|]. cbn [upto s_array s_off s_len]. split; [apply (view_overwritten h1 s1 k); (done || lia)|].
  assert (from s p = from (upto s1 (s_len s)) p) as -> by (unfold from, upto; cbn; by rewrite Harr, Eo).
  unfold encoded. do 2 f_equal. apply (message_overwritten h1 s1 k); (done || lia).
Qed.
End Loop.
#[global] Arguments encoded : clear implicits.

(** ** What comes of it *)

(** A leader's log of two entries; its successor's entries replace both. *)
Definition entry (i t : Z) (c : string) : LogEntry := mkEntry i t (of_string c) false.
Definition old_log : list (list LogEntry) * slice := ([[entry 5 2 "a"; entry 6 2 "b"]], mkSlice 0 0 2).

Lemma messages_follow_the_log_witness :
  let '(h, s) := old_log in
  let message := SendAppendEntries (mkAppendArgs 2 0 5 2 [entry 6 2 "b"] 5) in
  encoded h (from s 1) message = message /\
  exists h' s', entries_loop (fun _ => 0%nat) 4 [entry 5 3 "x"; entry 6 3 "y"] h s false [] = Some (h', s', true, [entry 5 3 "x"; entry 6 3 "y"]) /\
    encoded h' (from s 1) message = SendAppendEntries (mkAppendArgs 2 0 5 2 [entry 6 3 "y"] 5).
Proof.
  destruct (messages_follow_the_log (fun _ => 0%nat) old_log.1 old_log.2 1 (mkAppendArgs 2 0 5 2 [entry 6 2 "b"] 5) old_log.1 old_log.2)
    as [Hkept Hcut]; [split; cbn; lia|cbn; lia|reflexivity|apply rtc_refl|]. split; [exact Hkept|].
  destruct (Hcut 4 [entry 5 3 "x"; entry 6 3 "y"] 0%nat (entry 5 2 "a") (entry 5 3 "x") eq_refl eq_refl eq_refl) as (h' & s' & Hrun & _ & Hv).
  - discriminate.
  - intros [|[|j]] e'; intros [= <-]; reflexivity.
  - cbn. lia.
  - exists h', s'. split; [exact Hrun|]. exact Hv.
Defined.

End Slices.
