(* ===== verification/LogShare.v ===== *)
(** Log matching for the program as it is: the logs are slices, a message of
    [replicateLog] shares its sender's array until the lock is long released and
    the peer connected ([Raft/raft.go], [Raft/rpc.go]). The cluster of [LogMatch.v],
    whose messages are copies, is what this one looks like as long as no node cuts
    its log while a message of its own is still to be encoded. *)
From S2P Require Import Prelude Bytes RaftWAL Raft RaftVote RaftLog LogMatch LogSlice.
Import Raft Voting Logs LogMatch Slices.

Module Shared.

(** ** The cluster with its memories *)

(** The arrays of a process, and where [r.log] lies in them. *)
Record memory := mkMemory { arrays : list (list LogEntry); log_slice : slice }.

(** A log that has just been read from disk. *)
Definition loaded (r : Raft) : memory := mkMemory [r_log r] (mkSlice 0 0 (length (r_log r))).

(** A message that waits for its encoding: whose it is, its header, its entries. *)
Record pending := mkPending { q_from : nat; q_header : rpc; q_entries : slice }.

(** The nodes with the messages that are encoded, their memories, and the messages
    that are not. *)
Record shared := mkShared { nodes : net; mem : list memory; waiting : list pending }.

(** The entries of a message of [replicateTo] that are a part of [s]. *)
Definition shares (r : Raft) (s : slice) (m : rpc) : option slice :=
  match m with
  | SendAppendEntries a =>
      let relativeStart := ae_PrevLogIndex a - r_LastIncludedIndex r in
      if relativeStart <? Z.of_nat (s_len s) then Some (from s (Z.to_nat relativeStart)) else None
  | SendInstallSnapshot _ => None
  end.

Definition to_encode (i : nat) (r : Raft) (s : slice) (msgs : list rpc) : list pending :=
  omap (fun m => mkPending i m <$> shares r s m) msgs.
Definition complete (r : Raft) (s : slice) (msgs : list rpc) : list rpc :=
  omap (fun m => match shares r s m with Some _ => None | None => Some m end) msgs.

Section Shared.
Context `{RaftConfig} (spare : nat -> nat).

(** What a message does to the log's memory, and whether it cuts the log. *)
Definition receive (r : Raft) (h : memory) (m : rpc) : option (memory * bool) :=
  match m with
  | SendAppendEntries a =>
      if ae_Term a <? r_Term r then Some (h, false) else
      if negb (prevMatches (adoptTerm r (ae_Term a)) a) then Some (h, false) else
      '(hp, s, rb, _) ← entries_loop spare (r_LastIncludedIndex r) (ae_Entries a) (arrays h) (log_slice h) false [];
      Some (mkMemory hp s, rb)
  | SendInstallSnapshot a =>
      if (is_Term a <? r_Term r) || (is_LastIncludedIndex a <=? r_LastIncludedIndex r) then Some (h, false) else
      let (hp, s) := compact (arrays h) (log_slice h) (is_LastIncludedIndex a) (r_LastIncludedIndex r) in Some (mkMemory hp s, true)
  end.

(** The steps of [nstep], with the memories; the label is the node that cuts its
    log, if one does. *)
Inductive sstep (x : shared) : option nat -> shared -> Prop :=
  | s_work i m ev r :
      members (nodes x) !! i = Some m -> local ev = true -> event_ok (m_raft m) ev -> step (m_raft m) ev = Some r ->
      sstep x None (mkShared (mkNet (<[i := mkMember r (commitment (m_raft m) ev ++ m_backed m)]> (members (nodes x))) (soup (nodes x))
                                    (chains (nodes x)) (leads (m_raft m) ev ++ leaders (nodes x))) (mem x) (waiting x))
  | s_command i m h command r msgs index a s :
      members (nodes x) !! i = Some m -> mem x !! i = Some h -> log_entry_ok (new_entry (m_raft m) command) ->
      AppendEntry (m_raft m) command = Some (r, msgs, Ok index) ->
      append spare (arrays h) (log_slice h) (new_entry (m_raft m) command) = (a, s) ->
      sstep x None (mkShared (mkNet (<[i := mkMember r (m_backed m)]> (members (nodes x))) (complete r s (omap snd msgs) ++ soup (nodes x))
                                    (r_log r :: chains (nodes x)) (leaders (nodes x)))
                             (<[i := mkMemory a s]> (mem x)) (to_encode i r s (omap snd msgs) ++ waiting x))
  | s_encode q1 q q2 h :
      waiting x = q1 ++ q :: q2 -> mem x !! q_from q = Some h ->
      sstep x None (mkShared (send (nodes x) [encoded (arrays h) (q_entries q) (q_header q)]) (mem x) (q1 ++ q2))
  | s_beat i m j msg :
      members (nodes x) !! i = Some m -> heartbeatTo (m_raft m) j = Some msg ->
      sstep x None (mkShared (send (nodes x) [msg]) (mem x) (waiting x))
  | s_deliver i m h msg r h' cut :
      members (nodes x) !! i = Some m -> mem x !! i = Some h -> msg ∈ soup (nodes x) -> sender msg <> r_me (m_raft m) ->
      step (m_raft m) (arrival msg) = Some r -> receive (m_raft m) h msg = Some (h', cut) ->
      sstep x (if cut then Some i else None) (mkShared (set_member (nodes x) i (mkMember r (m_backed m))) (<[i := h']> (mem x)) (waiting x))
  | s_crash i m r :
      members (nodes x) !! i = Some m -> NewRaft (r_peers (m_raft m)) (r_me (m_raft m)) (r_wal (m_raft m)) = Some r ->
      sstep x None (mkShared (set_member (nodes x) i (mkMember r (m_backed m))) (<[i := loaded r]> (mem x))
                             (filter (fun q => q_from q <> i) (waiting x))).

(** A node cuts its log only when its messages are encoded. *)
Definition prompt (x x' : shared) : Prop :=
  exists cut, sstep x cut x' /\ forall i q, cut = Some i -> q ∈ waiting x -> q_from q <> i.

Definition shared_seed (peers : list bytes) (L T : Z) (x : shared) : Prop :=
  seed peers L T (nodes x) /\ mem x = (fun m => loaded (m_raft m)) <$> members (nodes x) /\ waiting x = [].

(** ** What it looks like *)

Definition memory_ok (h : memory) (m : member) : Prop :=
  wf (arrays h) (log_slice h) /\ view (arrays h) (log_slice h) = r_log (m_raft m).

Definition pending_ok (sent : list rpc) (h : memory) (q : pending) : Prop :=
  wf (arrays h) (q_entries q) /\ inside (log_slice h) (q_entries q) /\ encoded (arrays h) (q_entries q) (q_header q) ∈ sent.

(** The cluster [y] of copies: the same nodes, and all that is encoded, or still
    to be encoded, is sent. *)
Record shows (x : shared) (y : net) : Prop := {
  sh_members : members y = members (nodes x);
  sh_chains : chains y = chains (nodes x);
  sh_leaders : leaders y = leaders (nodes x);
  sh_soup msg : msg ∈ soup (nodes x) -> msg ∈ soup y;
  sh_mem i m : members (nodes x) !! i = Some m -> exists h, mem x !! i = Some h /\ memory_ok h m;
  sh_wait q : q ∈ waiting x -> exists h, mem x !! q_from q = Some h /\ pending_ok (soup y) h q;
}.

Lemma loaded_ok r b : memory_ok (loaded r) (mkMember r b).
Proof. split; [split; cbn; lia|]. unfold view, cells. cbn. by rewrite firstn_all. Qed.

Lemma mem_set (ms : list member) (hs : list memory) i m' h' :
  (forall j m, ms !! j = Some m -> exists h, hs !! j = Some h /\ memory_ok h m) -> is_Some (hs !! i) -> memory_ok h' m' ->
  forall j m, <[i := m']> ms !! j = Some m -> exists h, <[i := h']> hs !! j = Some h /\ memory_ok h m.
Proof.
  intros Hall Hi Hok j m [(-> & <- & Hl)|[Hne Hj]]%list_lookup_insert_Some.
  - exists h'. split; [|done]. apply list_lookup_insert_eq. by apply lookup_lt_is_Some.
  - destruct (Hall j m Hj) as (h & Hh & ?). exists h. by rewrite list_lookup_insert_ne.
Qed.

Lemma wait_set (ws : list pending) (hs : list memory) sent sent' i h h' :
  (forall q, q ∈ ws -> exists h, hs !! q_from q = Some h /\ pending_ok sent h q) -> hs !! i = Some h ->
  (forall msg, msg ∈ sent -> msg ∈ sent') ->
  (forall q, q ∈ ws -> q_from q = i -> pending_ok sent h q -> pending_ok sent h' q) ->
  forall q, q ∈ ws -> exists h, <[i := h']> hs !! q_from q = Some h /\ pending_ok sent' h q.
Proof.
  intros Hall Hi Hsent Hkeep q Hq. destruct (Hall q Hq) as (h0 & Hh0 & Hok). destruct (decide (q_from q = i)) as [E|Hne].
  - exists h'. rewrite E. rewrite E, Hi in Hh0. injection Hh0 as <-. split; [apply list_lookup_insert_eq; by eapply lookup_lt_Some|].
    destruct (Hkeep q Hq E Hok) as (? & ? & ?). split_and!; auto.
  - exists h0. rewrite list_lookup_insert_ne by done. split; [done|]. destruct Hok as (? & ? & ?). split_and!; auto.
Qed.

(** *** Commands *)

Lemma command_sends r command r' msgs index msg :
  AppendEntry r command = Some (r', msgs, Ok index) -> msg ∈ omap snd msgs -> exists j, replicateTo r' j = Some (Some msg).
Proof.
  unfold AppendEntry. destruct (negb _); [done|]. case_match; [intros [= <- <- _]; by intros ?%elem_of_nil|].
  fold (new_entry r command). fold (appended r command). destruct (replicateLog (appended r command)) as [l|] eqn:E; [|done].
  intros [= <- <- _] ([i o] & Him & Ho)%list_elem_of_omap. cbn in Ho. subst o.
  revert E. unfold replicateLog. case_match; [intros [= <-]; by apply elem_of_nil in Him|].
  intros Hl%mapM_Some. apply list_elem_of_lookup_1 in Him as [k Hk]. destruct (Forall2_lookup_r _ _ _ _ _ Hl Hk) as (j & _ & Hj).
  exists j. destruct (replicateTo (appended r command) j) as [o|]; [|done]. by injection Hj as -> ->.
Qed.

(** What [replicateTo] copies is what the shared slice shows. *)
Lemma shares_view r j msg h s t :
  0 < r_LastIncludedIndex r -> replicateTo r j = Some (Some msg) -> shares r s msg = Some t -> wf h s -> view h s = r_log r ->
  wf h t /\ inside s t /\ encoded h t msg = msg.
Proof.
  intros HL Hrun Hsh Hwf Hv. pose proof (length_view h s Hwf) as Hlen. rewrite Hv in Hlen.
  destruct msg as [a|a]; [|done]. cbn [shares] in Hsh.
  assert (0 <= ae_PrevLogIndex a - r_LastIncludedIndex r /\
    (ae_PrevLogIndex a - r_LastIncludedIndex r < Z.of_nat (s_len s) ->
     ae_Entries a = drop (Z.to_nat (ae_PrevLogIndex a - r_LastIncludedIndex r)) (r_log r))) as [Hp He].
  { revert Hrun. unfold replicateTo. destruct (r_nextIndex r !! j) as [next|]; [|done]. cbn [mbind option_bind].
    unfold behindSnapshot. rewrite (proj2 (Z.ltb_lt _ _) HL), andb_true_r. destruct (Z.ltb_spec (next - 1) (r_LastIncludedIndex r)).
    { by destruct (RaftWAL.LoadLatestSnapshot (r_wal r)) as [[[[[data|] ?] ?]|]|]. }
    unfold relative, zlen. rewrite Hlen. destruct (Z.ltb_spec (next - r_LastIncludedIndex r - 1) (Z.of_nat (s_len s))).
    2: { intros [= <-]. cbn. split; lia. }
    replace (next - r_LastIncludedIndex r - 1) with (next - 1 - r_LastIncludedIndex r) in * by lia.
    unfold Bytes.slice, zlen. rewrite Hlen, !(proj2 (Z.leb_le _ _)) by lia. cbn [andb mbind option_bind].
    intros [= <-]. cbn. split; [lia|]. intros _. rewrite take_ge; [done|]. rewrite length_drop. lia. }
  destruct (Z.ltb_spec (ae_PrevLogIndex a - r_LastIncludedIndex r) (Z.of_nat (s_len s))); [|done]. injection Hsh as <-.
  set (p := Z.to_nat (ae_PrevLogIndex a - r_LastIncludedIndex r)) in *. assert (p < s_len s)%nat by lia. split_and!.
  - destruct Hwf as [Ha Hl]. unfold wf, cells, from in *. cbn. lia.
  - unfold inside, from. cbn. lia.
  - unfold encoded. rewrite view_from, Hv, <- He by done. by destruct a.
Qed.

(** *** Messages *)

Lemma receive_log r h msg r' h' cut b :
  receive r h msg = Some (h', cut) -> step r (arrival msg) = Some r' -> memory_ok h (mkMember r b) ->
  match msg with SendInstallSnapshot a => is_LastIncludedIndex a <= r_LastIncludedIndex r | _ => True end ->
  memory_ok h' (mkMember r' b) /\
  (cut = false -> forall t, wf (arrays h) t -> inside (log_slice h) t ->
     view (arrays h') t = view (arrays h) t /\ wf (arrays h') t /\ inside (log_slice h') t).
Proof.
  intros Hrec Hs [Hwf Hv] Hknown. cbn [m_raft] in Hv. destruct msg as [a|a]; cbn [arrival step receive] in *.
  - destruct (AppendEntries r a) as [[r1 reply]|] eqn:E; [|done]. injection Hs as ->. rewrite AppendEntries_stages in E.
    destruct (ae_Term a <? r_Term r); [injection Hrec as <- <-; by injection E as <- _|]. cbv zeta in E.
    destruct (adoptTerm_entries r (ae_Term a)) as ((HI & _) & HL & _). rewrite HI, HL in E.
    destruct (prevMatches _ a); cbn [negb] in *.
    2: { injection Hrec as <- <-. injection E as <- _. split; [|done]. split; [done|]. cbn. by rewrite HL. }
    pose proof (entries_loop_refines spare (r_LastIncludedIndex r) (ae_Entries a) (arrays h) (log_slice h) false [] Hwf) as Href.
    destruct (entries_loop _ _ _ _ _ _ _) as [[[[hp s] rb] ne]|] eqn:El; [|done]. injection Hrec as <- <-.
    destruct Href as [Happ Hw]. rewrite Hv in Happ. rewrite Happ in E. cbn [mbind option_bind] in E.
    destruct (store_entries_fields (adoptTerm r (ae_Term a)) (ae_Entries a) (view hp s, rb, ne)) as (HL1 & _).
    { intros Hnil. rewrite Hnil in Happ. cbn in Happ. rewrite HL. injection Happ as <- <- <-. by eexists _, _. }
    set (r1 := store_entries _ _ _) in *. clearbody r1. injection E as <- _. split.
    + split; [done|]. cbn [arrays log_slice m_raft]. destruct (follow_commit_entries r1 (ae_LeaderCommit a)) as (_ & -> & _). by rewrite HL1.
    + intros -> t Ht Hin. by apply (loop_keeps _ _ _ _ _ _ _ _ _ _ _ Hwf Ht Hin El).
  - destruct (InstallSnapshot r a) as [[r1 reply]|] eqn:E; [|done]. injection Hs as ->.
    destruct (known_snapshot r a r' reply Hknown E) as (_ & HL & _).
    rewrite (proj2 (Z.leb_le _ _) Hknown), orb_true_r in Hrec. injection Hrec as <- <-. split; [|done]. split; [done|]. cbn. by rewrite HL.
Qed.

(** *** The simulation *)

Section Simulation.
Context (L T : Z) (HL : 0 < L).

Lemma work_shows x i m ev r y :
  shows x y -> members (nodes x) !! i = Some m -> local ev = true -> event_ok (m_raft m) ev -> step (m_raft m) ev = Some r ->
  exists y', nstep y y' /\ shows (mkShared (mkNet (<[i := mkMember r (commitment (m_raft m) ev ++ m_backed m)]> (members (nodes x)))
    (soup (nodes x)) (chains (nodes x)) (leads (m_raft m) ev ++ leaders (nodes x))) (mem x) (waiting x)) y'.
Proof.
  intros [S1 S2 S3 S4 S5 S6] Hi Hl Hev Hs. eexists. split; [eapply n_work; [by rewrite S1|done..]|].
  destruct (S5 i m Hi) as (h & Hh & Hok). split; cbn; try done; [by rewrite S1|by rewrite S3|].
  intros j m' Hj. rewrite <- (list_insert_id (mem x) i h Hh). eapply (mem_set _ _ _ _ _ S5); [by eexists| |done].
  destruct Hok as [Hwf Hv]. split; [done|]. cbn. rewrite Hv. symmetry. by apply (local_entries (m_raft m) ev r).
Qed.

Lemma command_shows x i m h command r msgs index a s y :
  shows x y -> net_ok L T y -> members (nodes x) !! i = Some m -> mem x !! i = Some h ->
  log_entry_ok (new_entry (m_raft m) command) -> AppendEntry (m_raft m) command = Some (r, msgs, Ok index) ->
  append spare (arrays h) (log_slice h) (new_entry (m_raft m) command) = (a, s) ->
  exists y', nstep y y' /\ shows (mkShared (mkNet (<[i := mkMember r (m_backed m)]> (members (nodes x)))
    (complete r s (omap snd msgs) ++ soup (nodes x)) (r_log r :: chains (nodes x)) (leaders (nodes x)))
    (<[i := mkMemory a s]> (mem x)) (to_encode i r s (omap snd msgs) ++ waiting x)) y'.
Proof.
  intros [S1 S2 S3 S4 S5 S6] Hnet Hi Hh He Hrun Happ. rewrite <- S1 in Hi. pose proof (ok_member _ _ _ Hnet i m Hi) as Hm.
  destruct (mo_base _ _ _ _ _ _ Hm) as [HI _]. rewrite <- HI in HL.
  destruct (command_entries _ _ _ _ _ Hrun HL (mo_file _ _ _ _ _ _ Hm)) as (_ & (HI1 & _) & _ & Hlog & _).
  eexists. split; [by eapply n_command|]. rewrite S1 in Hi. destruct (S5 i m Hi) as (h0 & Hh0 & Hwf & Hv). rewrite Hh in Hh0. injection Hh0 as <-.
  destruct (append_view _ _ _ _ _ _ Hwf Happ) as (Hv1 & _ & Hwf1).
  split; cbn; [by rewrite S1|by rewrite S2|done|..].
  - intros msg [Hin|Hin]%elem_of_app; apply elem_of_app; [left|right; auto].
    unfold complete in Hin. apply list_elem_of_omap in Hin as (m0 & Hm0 & E). case_match; [done|]. by injection E as <-.
  - apply (mem_set _ _ _ _ _ S5); [by eexists|]. split; [done|]. cbn. by rewrite Hv1, Hv, Hlog.
  - intros q [Hin|Hin]%elem_of_app.
    + unfold to_encode in Hin. apply list_elem_of_omap in Hin as (m0 & Hm0 & E). destruct (shares r s m0) as [t|] eqn:Et; [|done].
      injection E as <-. cbn. exists (mkMemory a s). split; [apply list_lookup_insert_eq; by eapply lookup_lt_Some|].
      destruct (command_sends _ _ _ _ _ _ Hrun Hm0) as [j Hj].
      destruct (shares_view r j m0 a s t) as (? & ? & Henc); [by rewrite HI1|done..|by rewrite Hv1, Hv, Hlog|].
      split_and!; [done|done|]. cbn. rewrite Henc. apply elem_of_app. by left.
    + revert q Hin. apply (wait_set _ _ (soup y) _ _ h _ S6 Hh); [intros msg ?; apply elem_of_app; by right|].
      intros q _ _ (Ht & Hin & Henc). destruct (append_keeps _ _ _ _ _ _ _ Hwf Ht Hin Happ) as (Hv2 & ? & ?).
      split_and!; [done|done|]. destruct (q_header q); cbn in *; by rewrite ?Hv2.
Qed.

Lemma deliver_shows x i m h msg r h' cut y :
  shows x y -> net_ok L T y -> members (nodes x) !! i = Some m -> mem x !! i = Some h -> msg ∈ soup (nodes x) ->
  sender msg <> r_me (m_raft m) -> step (m_raft m) (arrival msg) = Some r -> receive (m_raft m) h msg = Some (h', cut) ->
  (cut = true -> forall q, q ∈ waiting x -> q_from q <> i) ->
  exists y', nstep y y' /\ shows (mkShared (set_member (nodes x) i (mkMember r (m_backed m))) (<[i := h']> (mem x)) (waiting x)) y'.
Proof.
  intros [S1 S2 S3 S4 S5 S6] Hnet Hi Hh Hmsg Hme Hs Hrec Hprompt.
  destruct (S5 i m Hi) as (h0 & Hh0 & Hok). rewrite Hh in Hh0. injection Hh0 as <-.
  assert (members y !! i = Some m) as Hiy by (by rewrite S1). pose proof (ok_member _ _ _ Hnet i m Hiy) as Hm.
  destruct (receive_log (m_raft m) h msg r h' cut (m_backed m) Hrec Hs Hok) as [Hok' Hkeep].
  { destruct msg as [a|a]; [done|]. destruct (ok_msg _ _ _ Hnet _ (S4 _ Hmsg)) as [_ ->]. destruct (mo_base _ _ _ _ _ _ Hm). lia. }
  eexists. split; [eapply n_deliver; [by rewrite S1|by apply S4|done|done]|].
  split; cbn; [by rewrite S1|done|done|done|..].
  - apply (mem_set _ _ _ _ _ S5); [by eexists|done].
  - apply (wait_set _ _ (soup y) _ _ h _ S6 Hh); [done|]. intros q Hq Hqi (Ht & Hin & Henc).
    destruct cut; [by destruct (Hprompt eq_refl q Hq)|]. destruct (Hkeep eq_refl _ Ht Hin) as (Hv & ? & ?).
    split_and!; [done|done|]. destruct (q_header q); cbn in *; by rewrite ?Hv.
Qed.

Lemma crash_shows x i m r y :
  shows x y -> members (nodes x) !! i = Some m -> NewRaft (r_peers (m_raft m)) (r_me (m_raft m)) (r_wal (m_raft m)) = Some r ->
  exists y', nstep y y' /\ shows (mkShared (set_member (nodes x) i (mkMember r (m_backed m))) (<[i := loaded r]> (mem x))
    (filter (fun q => q_from q <> i) (waiting x))) y'.
Proof.
  intros [S1 S2 S3 S4 S5 S6] Hi Hn. eexists. split; [eapply n_crash; [by rewrite S1|done]|].
  destruct (S5 i m Hi) as (h & Hh & _). split; cbn; [by rewrite S1|done|done|done|..].
  - apply (mem_set _ _ _ _ _ S5); [by eexists|apply loaded_ok].
  - intros q [Hne Hq]%list_elem_of_filter. destruct (S6 q Hq) as (hq & Hhq & ?). exists hq. by rewrite list_lookup_insert_ne.
Qed.

Lemma prompt_shows x x' y : prompt x x' -> shows x y -> net_ok L T y -> exists y', rtc nstep y y' /\ shows x' y'.
Proof.
  intros (cut & Hs & Hp) Hsh Hnet.
  assert (forall x', (exists y', nstep y y' /\ shows x' y') -> exists y', rtc nstep y y' /\ shows x' y') as Hone.
  { intros x2 (y' & Hy & ?). exists y'. split; [by eapply rtc_once|done]. }
  destruct Hs as [i m ev r Hi Hl Hev Hst|i m h command r msgs index a s Hi Hh He Hrun Ha|q1 q q2 h Hq Hh|i m j msg Hi Hb
    |i m h msg r h' cut Hi Hh Hmsg Hme Hst Hrec|i m r Hi Hn].
  - apply Hone. by eapply work_shows.
  - apply Hone. by eapply command_shows.
  - exists y. split; [apply rtc_refl|]. destruct Hsh as [S1 S2 S3 S4 S5 S6]. split; cbn; try done.
    + intros msg [->|Hin]%elem_of_cons; [|auto]. destruct (S6 q) as (h0 & Hh0 & _ & _ & ?); [rewrite Hq, elem_of_app, elem_of_cons; auto|].
      rewrite Hh in Hh0. by injection Hh0 as <-.
    + intros q' Hq'%elem_of_app. apply S6. rewrite Hq, elem_of_app, elem_of_cons. tauto.
  - apply Hone. destruct Hsh as [S1 S2 S3 S4 S5 S6]. eexists. split; [eapply n_beat; [by rewrite S1|done]|]. split; cbn; try done.
    + intros msg' [->|Hin]%elem_of_cons; apply elem_of_cons; auto.
    + intros q Hq. destruct (S6 q Hq) as (h & Hh & ? & ? & ?). exists h. split; [done|]. split_and!; try done. apply elem_of_cons. auto.
  - apply Hone. eapply deliver_shows; try done. intros -> q Hq. by apply Hp.
  - apply Hone. by eapply crash_shows.
Qed.

Lemma sstep_leaders x cut x' b : sstep x cut x' -> b ∈ leaders (nodes x) -> b ∈ leaders (nodes x').
Proof. intros Hs Hb. destruct Hs; cbn; try done. apply elem_of_app. by right. Qed.

Lemma shared_run peers x0 x :
  shared_seed peers L T x0 -> rtc prompt x0 x -> one_leader (nodes x) -> exists y, rtc nstep (nodes x0) y /\ shows x y.
Proof.
  intros (Hseed & Hmem & Hwait) Hrun. revert Hrun. revert x. refine (rtc_ind_r _ x0 _ _).
  - intros _. exists (nodes x0). split; [apply rtc_refl|]. split; try done.
    + intros i m Hi. exists (loaded (m_raft m)). rewrite Hmem, list_lookup_fmap, Hi. split; [done|]. destruct m. apply loaded_ok.
    + intros q Hq. rewrite Hwait in Hq. by apply elem_of_nil in Hq.
  - intros x x' _ Hp IH Hone. assert (one_leader (nodes x)) as Hone1.
    { destruct Hp as (cut & Hs & _). intros t i j Hi Hj. apply (Hone t); by eapply sstep_leaders. }
    destruct (IH Hone1) as (y & Hy & Hsh).
    assert (one_leader y) as Hone2 by (unfold one_leader; by rewrite (sh_leaders _ _ Hsh)).
    destruct (run_ok L T peers _ y Hseed Hy Hone2) as [_ Hnet].
    destruct (prompt_shows x x' y Hp Hsh Hnet) as (y' & Hy' & Hsh'). exists y'. split; [by etransitivity|done].
Qed.

End Simulation.

(** C5: log matching, in a cluster whose nodes start from one common snapshot and
    take no other: while no term has two leaders, and no node cuts its log at a
    conflict while a message that shares its array is still to be encoded, two
    nodes whose logs have an entry of the same index and term hold the same entry
    there and the same entries before it, whatever elections, commands, heartbeats,
    lost, late or repeated messages and crashes went before; and each node's log
    file gives back the log it has in memory, which is what its slice shows. (What
    comes of a log cut too early: [messages_follow_the_log].) *)
Theorem log_matching (L T : Z) (peers : list bytes) (x0 x : shared)
    (Hseed : shared_seed peers L T x0) (Hrun : rtc prompt x0 x) (Hone : one_leader (nodes x)) :
  (forall i m, members (nodes x) !! i = Some m ->
     RaftWAL.LoadLogs (r_wal (m_raft m)) = Some (r_log (m_raft m)) /\
     exists h, mem x !! i = Some h /\ view (arrays h) (log_slice h) = r_log (m_raft m)) /\
  forall i j m1 m2 e1 e2, members (nodes x) !! i = Some m1 -> members (nodes x) !! j = Some m2 ->
    e1 ∈ r_log (m_raft m1) -> e2 ∈ r_log (m_raft m2) -> Index e1 = Index e2 -> Term e1 = Term e2 ->
    e1 = e2 /\
    filter (fun e => L < Index e <= Index e1) (r_log (m_raft m1)) = filter (fun e => L < Index e <= Index e1) (r_log (m_raft m2)).
Proof.
  pose proof Hseed as (Hseed1 & _). destruct (seed_ok _ _ _ _ Hseed1) as [HL _].
  destruct (shared_run L T HL peers x0 x Hseed Hrun Hone) as (y & Hy & Hsh).
  assert (one_leader y) as Hone2 by (unfold one_leader; by rewrite (sh_leaders _ _ Hsh)).
  destruct (net_log_matching L T peers _ y Hseed1 Hy Hone2) as [Hfile Hmatch]. rewrite (sh_members _ _ Hsh) in *. split; [|exact Hmatch].
  intros i m Hi. split; [by eapply Hfile|]. destruct (sh_mem _ _ Hsh i m Hi) as (h & Hh & _ & Hv). by exists h.
Qed.

End Shared.
(** ** Runs *)

(** The steps as a function; [k] is a place among the messages that wait, or in the
    soup. *)
Inductive act := Work (i : nat) (ev : event) | Submit (i : nat) (command : bytes) | Encode (k : nat) | Beat (i j : nat) | Deliver (i k : nat) | Crash (i : nat).

Section Exec.
Context `{RaftConfig} (spare : nat -> nat).

Definition sexec (x : shared) (a : act) : option (shared * option nat) :=
  match a with
  | Work i ev =>
      m ← members (nodes x) !! i; guard (local ev = true);; guard (event_ok (m_raft m) ev);; r ← step (m_raft m) ev;
      Some (mkShared (mkNet (<[i := mkMember r (commitment (m_raft m) ev ++ m_backed m)]> (members (nodes x))) (soup (nodes x))
        (chains (nodes x)) (leads (m_raft m) ev ++ leaders (nodes x))) (mem x) (waiting x), None)
  | Submit i command =>
      m ← members (nodes x) !! i; h ← mem x !! i; guard (log_entry_ok (new_entry (m_raft m) command));; res ← AppendEntry (m_raft m) command;
      match res, append spare (arrays h) (log_slice h) (new_entry (m_raft m) command) with
      | (r, msgs, Ok _), (hp, s) =>
          Some (mkShared (mkNet (<[i := mkMember r (m_backed m)]> (members (nodes x))) (complete r s (omap snd msgs) ++ soup (nodes x))
            (r_log r :: chains (nodes x)) (leaders (nodes x))) (<[i := mkMemory hp s]> (mem x)) (to_encode i r s (omap snd msgs) ++ waiting x), None)
      | _, _ => None
      end
  | Encode k =>
      q ← waiting x !! k; h ← mem x !! q_from q;
      Some (mkShared (send (nodes x) [encoded (arrays h) (q_entries q) (q_header q)]) (mem x) (take k (waiting x) ++ drop (S k) (waiting x)), None)
  | Beat i j => m ← members (nodes x) !! i; msg ← heartbeatTo (m_raft m) j; Some (mkShared (send (nodes x) [msg]) (mem x) (waiting x), None)
  | Deliver i k =>
      m ← members (nodes x) !! i; h ← mem x !! i; msg ← soup (nodes x) !! k; guard (sender msg <> r_me (m_raft m));;
      r ← step (m_raft m) (arrival msg); '(h', cut) ← receive spare (m_raft m) h msg;
      Some (mkShared (set_member (nodes x) i (mkMember r (m_backed m))) (<[i := h']> (mem x)) (waiting x), match cut with true => Some i | false => None end)
  | Crash i =>
      m ← members (nodes x) !! i; r ← NewRaft (r_peers (m_raft m)) (r_me (m_raft m)) (r_wal (m_raft m));
      Some (mkShared (set_member (nodes x) i (mkMember r (m_backed m))) (<[i := loaded r]> (mem x)) (filter (fun q => q_from q <> i) (waiting x)), None)
  end.

Lemma sexec_step x a x' cut : sexec x a = Some (x', cut) -> sstep spare x cut x'.
Proof.
  destruct a; unfold sexec; intros Hx; simplify_option_eq; repeat case_match; simplify_option_eq.
  - by eapply s_work.
  - by eapply s_command.
  - eapply s_encode; [|done]. symmetry. by apply take_drop_middle.
  - by eapply s_beat.
  - eapply (s_deliver spare x i _ _ _ _ _ true); [done|done|by eapply list_elem_of_lookup_2|done..].
  - eapply (s_deliver spare x i _ _ _ _ _ false); [done|done|by eapply list_elem_of_lookup_2|done..].
  - by eapply s_crash.
Qed.

Definition still_waits (i : nat) (x : shared) : bool := existsb (fun q => Nat.eqb (q_from q) i) (waiting x).

(** A run; with [careful], one in which no log is cut too early. *)
Fixpoint sexecs (careful : bool) (x : shared) (l : list act) : option shared :=
  match l with
  | [] => Some x
  | a :: l =>
      '(y, cut) ← sexec x a;
      match cut with
      | Some i => if careful && still_waits i x then None else sexecs careful y l
      | None => sexecs careful y l
      end
  end.

Lemma sexecs_run x l x' : sexecs true x l = Some x' -> rtc (prompt spare) x x'.
Proof.
  revert x. induction l as [|a l IH]; intros x; cbn [sexecs]; [intros [= ->]; apply rtc_refl|].
  intros ([y cut] & Hy & Hx)%bind_Some. apply sexec_step in Hy. destruct cut as [i|].
  - cbn [andb] in Hx. destruct (still_waits i x) eqn:Hw; [done|]. eapply rtc_l; [|by apply IH]. exists (Some i). split; [done|].
    intros j q [= <-] Hq E. assert (still_waits i x = true) as Ht; [|congruence].
    apply existsb_exists. exists q. split; [by apply list_elem_of_In|]. by apply Nat.eqb_eq.
  - eapply rtc_l; [|by apply IH]. exists None. by split.
Qed.

End Exec.

Definition sample_shared : shared := mkShared sample_net ((fun m => loaded (m_raft m)) <$> members sample_net) [].

Lemma sample_shared_seed : shared_seed sample_peers 4 1 sample_shared.
Proof. split; [exact sample_seed|]. split; reflexivity. Qed.

(** Node 0 is elected and gets a command; node 1 receives it, crashes, and gets it again. *)
Definition sample_run : list act :=
  [Work 0 EStartElection; Work 0 (EFinishElection []); Submit 0 (of_string "set"); Encode 0; Deliver 1 0; Crash 1; Deliver 1 0].

Lemma log_matching_witness :
  exists x m1 m2 e, rtc (@prompt sample_config (fun _ => 0%nat)) sample_shared x /\
    members (nodes x) !! 0%nat = Some m1 /\ members (nodes x) !! 1%nat = Some m2 /\
    r_log (m_raft m1) = [e] /\ r_log (m_raft m2) = [e] /\ Index e = 5 /\
    filter (fun e => 4 < Index e <= 5) (r_log (m_raft m1)) = filter (fun e => 4 < Index e <= 5) (r_log (m_raft m2)).
Proof.
  set (e := mkEntry 5 2 (of_string "set") false).
  assert ((fun x => (leaders (nodes x), r_log ∘ m_raft <$> members (nodes x))) <$>
    @sexecs sample_config (fun _ => 0%nat) true sample_shared sample_run = Some ([(2, 0)], [[e]; [e]; []])) as Hx by (vm_compute; reflexivity).
  destruct (@sexecs sample_config _ true sample_shared sample_run) as [x|] eqn:Ex; [|discriminate Hx].
  cbn [fmap option_fmap option_map] in Hx. injection Hx as Hl Hlogs. apply sexecs_run in Ex.
  assert (one_leader (nodes x)) as Hone by (intros t i j; rewrite Hl; intros [= -> ->]%list_elem_of_singleton [= ->]%list_elem_of_singleton; done).
  destruct (members (nodes x)) as [|m1 [|m2 [|m3 [|]]]] eqn:Em; try discriminate Hlogs. injection Hlogs as H1 H2 H3.
  exists x, m1, m2, e. rewrite Em. split_and!; try done.
  destruct (@log_matching sample_config (fun _ => 0%nat) 4 1 sample_peers sample_shared x sample_shared_seed Ex Hone) as [_ Hmatch].
  apply (Hmatch 0%nat 1%nat m1 m2 e e); rewrite ?Em, ?H1, ?H2; try done; by left.
Defined.

(** What the hypothesis on cuts excludes, and the code does not. Node 0 leads term 2:
    [a] reaches node 2, the message with [b] waits. Node 1 leads term 3; its [x] and
    [y] replace node 0's log, and only then is node 0's message encoded. *)
Definition overtaken : list act :=
  [Work 0 EStartElection; Work 0 (EFinishElection []); Submit 0 (of_string "a"); Encode 1; Deliver 2 0;
   Work 0 (EAppendReply 2 (Some (mkAppendReply 2 true))); Submit 0 (of_string "b"); Beat 0 1; Deliver 1 0;
   Work 1 EStartElection; Work 1 (EFinishElection []); Submit 1 (of_string "x"); Submit 1 (of_string "y"); Encode 0; Deliver 0 0;
   Encode 4; Deliver 2 0].

(** With one leader per term, nodes 1 and 2 hold the same entry behind different ones. *)
Example late_message_breaks_matching :
  let es := [entry 5 3 "x"; entry 6 3 "y"] in
  (fun x => (leaders (nodes x), r_log ∘ m_raft <$> members (nodes x), head (soup (nodes x)))) <$>
    @sexecs sample_config (fun _ => 0%nat) false sample_shared overtaken =
  Some ([(3, 1); (2, 0)], [es; es; [entry 5 2 "a"; entry 6 3 "y"]],
        Some (SendAppendEntries (mkAppendArgs 2 0 5 2 [entry 6 3 "y"] 5))).
Proof. vm_compute. reflexivity. Qed.

End Shared.
