(* ===== verification/SkipList.v ===== *)
(** The skip list of [storage/zstorage/memtable.go], on an explicit heap of
    nodes: [search], [firstGTE], [insert], [collectAllEntry], and what they promise
    to the memtable. *)
From S2P Require Import Prelude Bytes.

(** An entry of a table: the key and its value, [None] being the nil value that
    marks a deletion ([istorage.LogEntry]). *)
Abbreviation entry := (bytes * option bytes)%type.

Definition value_len (v : option bytes) : Z := zlen (default [] v).
Definition entry_bytes (e : entry) : Z := zlen e.1 + value_len e.2.
Definition table_bytes (es : list entry) : Z := foldr (fun e n => entry_bytes e + n) 0 es.

Lemma table_bytes_cons e es : table_bytes (e :: es) = entry_bytes e + table_bytes es.
Proof. done. Qed.

Lemma table_bytes_app a b : table_bytes (a ++ b) = table_bytes a + table_bytes b.
Proof.
  induction a as [|e a IH]; [done|].
  change (entry_bytes e + table_bytes (a ++ b) = entry_bytes e + table_bytes a + table_bytes b). lia.
Qed.

(** ** Sorted association lists: the reference for every table *)

Definition key_lt (a b : entry) : Prop := blt a.1 b.1.
Definition sorted (es : list entry) : Prop := StronglySorted key_lt es.

Fixpoint find (k : bytes) (es : list entry) : option (option bytes) :=
  match es with
  | [] => None
  | e :: rest => if bool_decide (e.1 = k) then Some e.2 else find k rest
  end.

(** Insertion or overwriting at the place the order gives. *)
Definition put (k : bytes) (v : option bytes) (es : list entry) : list entry :=
  filter (fun e => blt e.1 k) es ++ (k, v) :: filter (fun e => blt k e.1) es.

Definition cut_at (k : bytes) (E1 E2 : list entry) : Prop :=
  (forall e, e ∈ E1 -> blt e.1 k) /\ (forall e, e ∈ E2 -> ~ blt e.1 k).

Lemma find_None k es : (forall e, e ∈ es -> e.1 <> k) -> find k es = None.
Proof.
  induction es as [|e es IH]; intros H; [done|]. cbn. rewrite bool_decide_false by (apply H; left).
  apply IH. intros e' ?. apply H. by right.
Qed.

Lemma find_app_lt k E1 E2 : (forall e, e ∈ E1 -> blt e.1 k) -> find k (E1 ++ E2) = find k E2.
Proof.
  induction E1 as [|e E1 IH]; intros H; [done|]. cbn.
  rewrite bool_decide_false by (apply blt_neq, H; left). apply IH. intros e' ?. apply H. by right.
Qed.

(** Behind a key, everything is larger. *)
Lemma sorted_tail e es e' : sorted (e :: es) -> e' ∈ es -> blt e.1 e'.1.
Proof.
  intros [_ Hall]%StronglySorted_inv Hin. rewrite Forall_forall in Hall. by apply Hall.
Qed.

Lemma sorted_app E1 E2 :
  sorted (E1 ++ E2) -> sorted E1 /\ sorted E2 /\ (forall a b, a ∈ E1 -> b ∈ E2 -> blt a.1 b.1).
Proof.
  induction E1 as [|e E1 IH]; cbn; intros Hs.
  { split_and!; [constructor|done|]. by intros a b ?%elem_of_nil. }
  pose proof Hs as [Hs' Hall]%StronglySorted_inv. destruct (IH Hs') as (H1 & H2 & H3).
  rewrite Forall_app, !Forall_forall in Hall. destruct Hall as [Ha Hb]. split_and!; [|done|].
  - constructor; [done|]. by rewrite Forall_forall.
  - intros a b [->|Ha']%elem_of_cons Hb'; [by apply Hb|by apply H3].
Qed.

Lemma sorted_glue E1 E2 :
  sorted E1 -> sorted E2 -> (forall a b, a ∈ E1 -> b ∈ E2 -> blt a.1 b.1) -> sorted (E1 ++ E2).
Proof.
  intros H1 H2 H3. induction H1 as [|e E1 H1 IH Hall]; [done|]. cbn. constructor.
  - apply IH. intros a b ? ?. apply H3; [by right|done].
  - rewrite Forall_app. split; [done|]. rewrite Forall_forall. intros b Hb. apply H3; [left|done].
Qed.

Lemma find_cut k E1 e E2 :
  cut_at k E1 (e :: E2) -> sorted (E1 ++ e :: E2) ->
  find k (E1 ++ e :: E2) = if decide (e.1 = k) then Some e.2 else None.
Proof.
  intros [H1 H2] (_ & Hs & _)%sorted_app. rewrite find_app_lt by done. cbn. case_decide.
  - by rewrite bool_decide_true.
  - rewrite bool_decide_false by done. apply find_None. intros e' He' Heq.
    apply (H2 e); [left|]. rewrite <- Heq. by eapply sorted_tail.
Qed.

(** [put] at a cut: overwrite the head of the second half or go before it. *)
Lemma put_cut_new k v E1 E2 :
  cut_at k E1 E2 -> (forall e, e ∈ E2 -> e.1 <> k) -> put k v (E1 ++ E2) = E1 ++ (k, v) :: E2.
Proof.
  intros [H1 H2] Hne. unfold put. rewrite !filter_app.
  rewrite (filter_all _ E1), (filter_none _ E2), (filter_none (fun e => blt k e.1) E1),
    (filter_all _ E2), !app_nil_r; [done| | |done|done].
  - intros e He. pose proof (H2 e He). pose proof (Hne e He).
    destruct (bcompare_spec e.1 k); congruence || done.
  - intros e He ?. eapply blt_asym; [by apply H1|done].
Qed.

Lemma put_cut_old k v E1 e E2 :
  cut_at k E1 (e :: E2) -> sorted (E1 ++ e :: E2) -> e.1 = k ->
  put k v (E1 ++ e :: E2) = E1 ++ (k, v) :: E2.
Proof.
  intros [H1 H2] (_ & Hs & _)%sorted_app Hk.
  assert (forall e', e' ∈ E2 -> blt k e'.1) as Hgt by (intros e' ?; rewrite <- Hk; by eapply sorted_tail).
  unfold put. rewrite !filter_app, !filter_cons.
  rewrite (decide_False (P := blt e.1 k)) by (rewrite Hk; apply blt_irrefl).
  rewrite (decide_False (P := blt k e.1)) by (rewrite Hk; apply blt_irrefl).
  rewrite (filter_all _ E1), (filter_none _ E2), (filter_none (fun e => blt k e.1) E1),
    (filter_all _ E2), !app_nil_r; try done.
  - intros e' He' ?. eapply blt_asym; [by apply H1|done].
  - intros e' He' ?. eapply blt_asym; [by apply Hgt|done].
Qed.

Lemma sorted_find es e : sorted es -> e ∈ es -> find e.1 es = Some e.2.
Proof.
  intros Hs [E1 [E2 ->]]%list_elem_of_split. destruct (sorted_app _ _ Hs) as (_ & H2 & H3).
  rewrite find_app_lt by (intros a Ha; apply H3; [done|left]). cbn. by rewrite bool_decide_true.
Qed.

Lemma find_elem k v es : find k es = Some v -> (k, v) ∈ es.
Proof.
  induction es as [|[k' v'] es IH]; cbn; [done|]. case_bool_decide.
  - intros [= <-]. cbn in *. subst. left.
  - intros. right. auto.
Qed.

Lemma sorted_filter (P : entry -> Prop) `{!forall e, Decision (P e)} es : sorted es -> sorted (filter P es).
Proof.
  induction 1 as [|e es Hs IH Hall]; [constructor|]. rewrite filter_cons. case_decide; [|done].
  constructor; [done|]. rewrite Forall_forall in Hall |- *.
  intros e' [_ ?]%list_elem_of_filter. auto.
Qed.

Lemma put_sorted k v es : sorted es -> sorted (put k v es).
Proof.
  intros Hs. unfold put. apply sorted_glue; [by apply sorted_filter| |].
  - constructor; [by apply sorted_filter|]. rewrite Forall_forall.
    by intros e [? _]%list_elem_of_filter.
  - intros a b [Ha _]%list_elem_of_filter [->|[Hb _]%list_elem_of_filter]%elem_of_cons; [done|].
    by etransitivity.
Qed.

Lemma elem_of_put k v es e : e ∈ put k v es <-> e = (k, v) \/ e ∈ es /\ e.1 <> k.
Proof.
  unfold put. rewrite elem_of_app, elem_of_cons, !list_elem_of_filter.
  destruct (bcompare_spec e.1 k) as [Heq|Hlt|Hgt].
  - split; [|by intros [?|[_ ?]]; auto].
    intros [[H _]|[?|[H _]]]; auto; rewrite Heq in H; by apply blt_irrefl in H.
  - pose proof (blt_neq _ _ Hlt). split; [intros [[_ ?]|[?|[_ ?]]]; auto|]. intros [?|[? _]]; auto.
  - assert (e.1 <> k) by (intros E; apply (blt_neq _ _ Hgt); by symmetry).
    split; [intros [[_ ?]|[?|[_ ?]]]; auto|]. intros [?|[? _]]; auto.
Qed.

Lemma find_put k v es k' : sorted es -> find k' (put k v es) = if decide (k = k') then Some v else find k' es.
Proof.
  intros Hs. pose proof (put_sorted k v es Hs) as Hs'.
  assert ((k, v) ∈ put k v es) as Hin by (apply elem_of_put; by left).
  case_decide as Hk; [subst; by apply (sorted_find _ (k', v))|].
  destruct (find k' es) as [v'|] eqn:E.
  - apply (sorted_find (put k v es) (k', v')); [done|]. apply elem_of_put. right. split; [by apply find_elem|].
    cbn. congruence.
  - apply find_None. intros e He Heq. apply elem_of_put in He as [->|[He _]]; [done|].
    apply sorted_find in He; [|done]. congruence.
Qed.

Lemma find_app k a b : find k (a ++ b) = match find k a with Some v => Some v | None => find k b end.
Proof. induction a as [|e a IH]; [done|]. cbn. by case_bool_decide. Qed.

Lemma find_head e es : find e.1 (e :: es) = Some e.2.
Proof. cbn. by rewrite bool_decide_true. Qed.

Lemma find_tail e es k : sorted (e :: es) -> find k es = if decide (k = e.1) then None else find k (e :: es).
Proof.
  intros Hs. destruct (decide (k = e.1)) as [->|Hne]; [|cbn; by rewrite bool_decide_false by congruence].
  apply find_None. intros e' He' E. pose proof (sorted_tail e es e' Hs He') as Hlt. rewrite E in Hlt.
  by apply blt_irrefl in Hlt.
Qed.

Lemma sorted_head_le e es e' : sorted (e :: es) -> e' ∈ e :: es -> ble e.1 e'.1.
Proof. intros Hs [->|He]%elem_of_cons; [apply ble_refl|by apply blt_ble, (sorted_tail e es e')]. Qed.

(** A sorted list is determined by its lookups. *)
Lemma find_ext a b : sorted a -> sorted b -> (forall k, find k a = find k b) -> a = b.
Proof.
  revert b. induction a as [|x a IH]; intros [|y b] Ha Hb E.
  - done.
  - specialize (E y.1). rewrite find_head in E. done.
  - specialize (E x.1). rewrite find_head in E. done.
  - pose proof (E x.1) as Ex. pose proof (E y.1) as Ey. rewrite find_head in Ex, Ey.
    assert (ble y.1 x.1) as H1 by (by apply (sorted_head_le y b (x.1, x.2)), find_elem).
    assert (ble x.1 y.1) as H2 by (by apply (sorted_head_le x a (y.1, y.2)), find_elem).
    assert (x.1 = y.1) as Exy.
    { apply ble_lteq in H1 as [H1|]; [|done]. by apply not_blt in H2. }
    rewrite Exy, find_head in Ex. injection Ex as Ev.
    assert (x = y) as -> by (destruct x, y; cbn in *; congruence). f_equal.
    inversion Ha; inversion Hb; subst. apply IH; [done..|]. intros k.
    rewrite (find_tail y a), (find_tail y b) by done. destruct (decide _); [done|apply E].
Qed.

(** ** The interface of a table

    What the memtable uses of a skip list, and the laws it relies on: [t_rep t es]
    says that [t] holds the entries [es].  The outer [option] of an operation is a
    Go panic (or a loop that never ends). *)
Class OrderedTable (T : Type) := {
  t_rep : T -> list entry -> Prop;
  t_new : T;
  t_search : T -> bytes -> option (option (option bytes));
  t_insert : T -> bytes -> option bytes -> list bool -> option (T * Z);
  t_scan : T -> bytes -> option (list entry);
  t_collect : T -> option (list entry);
  t_size : T -> Z;
  t_byteSize : T -> Z;
}.

Class OrderedTableLaws (T : Type) `{OrderedTable T} : Prop := {
  law_sorted t es : t_rep t es -> sorted es;
  law_new : t_rep t_new [];
  law_search t es k : t_rep t es -> t_search t k = Some (find k es);
  law_insert t es k v coins : t_rep t es ->
    exists t', t_insert t k v coins = Some (t', table_bytes (put k v es) - table_bytes es) /\
      t_rep t' (put k v es);
  law_scan t es k : t_rep t es -> t_scan t k = Some (filter (fun e => ~ blt e.1 k) es);
  law_collect t es : t_rep t es -> t_collect t = Some es;
  law_size t es : t_rep t es -> t_size t = zlen es;
  law_byteSize t es : t_rep t es -> t_byteSize t = table_bytes es;
}.

Module SkipList.

Abbreviation ptr := nat.

Record SkipNode := mkNode {
  Next : list (option ptr);
  Key : bytes;
  Value : option bytes;
}.

(** Addresses are positions; a new node gets the next one. *)
Abbreviation heap := (list SkipNode).

Record SkipList := mkSL {
  size : Z;
  level : nat;
  head : ptr;
  byteSize : Z;
}.

(** The list and the nodes it can reach. *)
Record table := mkTable { nodes : heap; sl : SkipList }.

Section WithMaxLevel.
(** [config.G.MaxMemTableLevel]. *)
Context (maxLevel : nat).

Definition newSkipNode (lvl : nat) (key : bytes) (value : option bytes) : SkipNode :=
  mkNode (replicate lvl None) key value.

Definition newSkipList : table :=
  mkTable [newSkipNode maxLevel [] None] (mkSL 0 0%nat 0%nat 0).

(** [randomLevel]: [coins] are the outcomes of [rand.Float64() < probability]. *)
Fixpoint randomLevel_loop (coins : list bool) (lvl : nat) : nat :=
  match coins with
  | c :: coins' => if c && (lvl <? maxLevel)%nat then randomLevel_loop coins' (S lvl) else lvl
  | [] => lvl
  end.
Definition randomLevel (coins : list bool) : nat := randomLevel_loop coins 1.

(** [p.Next[i]]; [None] is a nil dereference or an index out of range. *)
Definition next (h : heap) (p : ptr) (i : nat) : option (option ptr) :=
  n ← h !! p; Next n !! i.

(** [p.Next[i] = q]. *)
Definition set_next (h : heap) (p : ptr) (i : nat) (q : option ptr) : option heap :=
  n ← h !! p;
  if (i <? length (Next n))%nat
  then Some (<[p := mkNode (<[i := q]> (Next n)) (Key n) (Value n)]> h) else None.

(** [for p.Next[i] != nil && bytes.Compare(p.Next[i].Key, key) < 0 { p = p.Next[i] }];
    every turn moves to another node, so one more turn than there are nodes is
    enough. *)
Fixpoint walk (fuel : nat) (h : heap) (key : bytes) (i : nat) (p : ptr) : option ptr :=
  match fuel with
  | O => None
  | S fuel' =>
      q ← next h p i;
      match q with
      | None => Some p
      | Some q => n ← h !! q; if decide (blt (Key n) key) then walk fuel' h key i q else Some p
      end
  end.

Definition turns (h : heap) : nat := S (length h).

(** [for i := level - 1; i >= 0; i--]: the final [p] and [update], lowest level
    first. *)
Fixpoint descend (lvl : nat) (h : heap) (key : bytes) (p : ptr) (update : list ptr)
    : option (ptr * list ptr) :=
  match lvl with
  | O => Some (p, update)
  | S i => p ← walk (turns h) h key i p; descend i h key p (p :: update)
  end.

Definition search (t : table) (key : bytes) : option (option (option bytes)) :=
  '(p, _) ← descend (level (sl t)) (nodes t) key (head (sl t)) [];
  q ← next (nodes t) p 0;
  match q with
  | None => Some None
  | Some q => n ← nodes t !! q; Some (if decide (Key n = key) then Some (Value n) else None)
  end.

Definition firstGTE (t : table) (key : bytes) : option (option ptr) :=
  '(p, _) ← descend (level (sl t)) (nodes t) key (head (sl t)) [];
  next (nodes t) p 0.

(** The nodes a cursor still visits through [Next[0]]. *)
Fixpoint from (fuel : nat) (h : heap) (p : option ptr) : option (list entry) :=
  match p with
  | None => Some []
  | Some p =>
      match fuel with
      | O => None
      | S fuel' =>
          n ← h !! p; q ← Next n !! 0%nat; rest ← from fuel' h q;
          Some ((Key n, Value n) :: rest)
      end
  end.

Definition collectAllEntry (t : table) : option (list entry) :=
  q ← next (nodes t) (head (sl t)) 0; from (turns (nodes t)) (nodes t) q.

(** Splice the new node behind [update[i]], level by level. *)
Fixpoint link (todo i : nat) (h : heap) (update : list ptr) (new : ptr) : option heap :=
  match todo with
  | O => Some h
  | S todo' =>
      u ← update !! i;
      q ← next h u i;
      h ← set_next h new i q;
      h ← set_next h u i (Some new);
      link todo' (S i) h update new
  end.

Definition insert (t : table) (key : bytes) (value : option bytes) (coins : list bool)
    : option (table * Z) :=
  let s := sl t in
  '(p, update) ← descend (level s) (nodes t) key (head s) [];
  q ← next (nodes t) p 0;
  existing ← (match q with
              | None => Some None
              | Some q => n ← nodes t !! q; Some (if decide (Key n = key) then Some (q, n) else None)
              end);
  match existing with
  | Some (q, n) =>
      let delta := value_len value - value_len (Value n) in
      Some (mkTable (<[q := mkNode (Next n) (Key n) value]> (nodes t))
              (mkSL (size s) (level s) (head s) (byteSize s + delta)), delta)
  | None =>
      let newLevel := randomLevel coins in
      let update := update ++ replicate (newLevel - level s) (head s) in
      let lvl := Nat.max (level s) newLevel in
      let new := length (nodes t) in
      h ← link newLevel 0%nat (nodes t ++ [newSkipNode newLevel key value]) update new;
      let delta := zlen key + value_len value in
      Some (mkTable h (mkSL (size s + 1) lvl (head s) (byteSize s + delta)), delta)
  end.

(** ** The invariant *)

Definition height (h : heap) (p : ptr) : nat :=
  match h !! p with Some n => length (Next n) | None => 0 end.
Definition key_of (h : heap) (p : ptr) : bytes :=
  match h !! p with Some n => Key n | None => [] end.
Definition entry_of (h : heap) (p : ptr) : entry :=
  match h !! p with Some n => (Key n, Value n) | None => ([], None) end.

(** The pointers [Next[i]] lead from [p] through [qs] to nil. *)
Fixpoint chain (h : heap) (i : nat) (p : ptr) (qs : list ptr) : Prop :=
  match qs with
  | [] => next h p i = Some None
  | q :: qs' => next h p i = Some (Some q) /\ chain h i q qs'
  end.

(** The nodes that take part in level [i]. *)
Definition at_level (h : heap) (i : nat) (ps : list ptr) : list ptr :=
  filter (fun p => (i < height h p)%nat) ps.

Record inv (t : table) (ps : list ptr) : Prop := {
  i_max : (0 < maxLevel)%nat /\ (level (sl t) <= maxLevel)%nat;
  i_head : height (nodes t) (head (sl t)) = maxLevel;
  i_nodup : NoDup (head (sl t) :: ps);
  i_height : forall p, p ∈ ps -> (1 <= height (nodes t) p <= level (sl t))%nat;
  i_chain : forall i, (i < maxLevel)%nat -> chain (nodes t) i (head (sl t)) (at_level (nodes t) i ps);
  i_sorted : sorted (entry_of (nodes t) <$> ps);
  i_size : size (sl t) = zlen ps;
  i_bytes : byteSize (sl t) = table_bytes (entry_of (nodes t) <$> ps);
}.

(** What a skip list holds, forgetting its pointers. *)
Definition rep (t : table) (es : list entry) : Prop :=
  exists ps, inv t ps /\ es = entry_of (nodes t) <$> ps.


(** ** Chains *)

Lemma chain_lookup h i p qs : chain h i p qs -> is_Some (h !! p).
Proof.
  destruct qs as [|q qs]; cbn; unfold next.
  - destruct (h !! p); [by eexists|done].
  - intros [H _]. destruct (h !! p); [by eexists|done].
Qed.

Lemma chain_app h i p A B : chain h i p (A ++ B) -> chain h i (default p (last A)) B.
Proof.
  revert p. induction A as [|q A IH]; intros p; [done|]. cbn [app chain]. intros [_ H].
  apply IH in H. rewrite last_cons. by destruct (last A).
Qed.

Lemma chain_next h i p A B : chain h i p (A ++ B) -> next h (default p (last A)) i = Some (hd_error B).
Proof. intros H%chain_app. destruct B; [done|]. by destruct H. Qed.

Lemma chain_elem h i p qs q : chain h i p qs -> q ∈ qs -> is_Some (h !! q).
Proof.
  revert p. induction qs as [|q' qs IH]; intros p; [by intros _ ?%elem_of_nil|].
  intros [_ Hc] [->|Hin]%elem_of_cons; [by eapply chain_lookup|by eapply IH].
Qed.

(** The stopping point of [walk]. *)
Lemma walk_spec h key i p A B fuel :
  chain h i p (A ++ B) -> (forall q, q ∈ A -> blt (key_of h q) key) ->
  (forall q, hd_error B = Some q -> ~ blt (key_of h q) key) -> (length A < fuel)%nat ->
  walk fuel h key i p = Some (default p (last A)).
Proof.
  revert p fuel. induction A as [|q A IH]; intros p fuel Hc HA HB Hf;
    (destruct fuel as [|fuel]; [cbn in Hf; lia|]); cbn [walk].
  - pose proof (chain_next h i p [] B Hc) as E. cbn in E. rewrite E. destruct B as [|q B]; cbn; [done|].
    destruct (chain_elem _ _ _ _ q Hc) as [n Hn]; [left|]. specialize (HB q eq_refl).
    unfold key_of in HB. rewrite Hn in *. cbn. by rewrite decide_False.
  - destruct Hc as [Hnext Hc]. rewrite Hnext. cbn.
    destruct (chain_lookup _ _ _ _ Hc) as [n Hn]. assert (blt (key_of h q) key) as Hq by (apply HA; left).
    unfold key_of in Hq. rewrite Hn in *. cbn. rewrite decide_True by done.
    rewrite (IH q fuel Hc); [|intros q' ?; apply HA; by right|done|cbn in Hf; lia].
    rewrite last_cons. by destruct (last A).
Qed.

(** From the middle of the chain the walk stops at the same place. *)
Lemma walk_from h key i p L R q fuel :
  chain h i p (L ++ R) -> (forall q, q ∈ L -> blt (key_of h q) key) ->
  (forall q, hd_error R = Some q -> ~ blt (key_of h q) key) -> (length L < fuel)%nat -> q ∈ p :: L ->
  walk fuel h key i q = Some (default p (last L)).
Proof.
  intros Hc HL HR Hf [->|Hq]%elem_of_cons; [by eapply walk_spec|].
  apply list_elem_of_split in Hq as (L1 & L2 & ->).
  assert (chain h i q (L2 ++ R)) as Hq.
  { replace ((L1 ++ q :: L2) ++ R) with ((L1 ++ [q]) ++ L2 ++ R) in Hc by (by rewrite <- !app_assoc).
    apply chain_app in Hc. by rewrite last_snoc in Hc. }
  rewrite (walk_spec h key i q L2 R fuel); try done.
  - rewrite last_app_cons, last_cons. by destruct (last L2).
  - intros q' ?. apply HL. apply elem_of_app. right. by right.
  - rewrite length_app in Hf. cbn in Hf. lia.
Qed.

(** ** The descent *)

Lemma entry_key h p : (entry_of h p).1 = key_of h p.
Proof. unfold entry_of, key_of. by destruct (h !! p). Qed.

Lemma at_level_app h i P Q : at_level h i (P ++ Q) = at_level h i P ++ at_level h i Q.
Proof. apply filter_app. Qed.

Lemma elem_of_at_level h i P p : p ∈ at_level h i P <-> (i < height h p)%nat /\ p ∈ P.
Proof. unfold at_level. by rewrite list_elem_of_filter. Qed.

Lemma at_level_zero h P : (forall p, p ∈ P -> (1 <= height h p)%nat) -> at_level h 0 P = P.
Proof.
  intros H. induction P as [|p P IH]; [done|]. unfold at_level in *. rewrite filter_cons, decide_True.
  - rewrite IH; [done|]. intros q ?. apply H. by right.
  - assert (1 <= height h p)%nat by (apply H; left). lia.
Qed.

Lemma at_level_nil h i P : (forall p, p ∈ P -> (height h p <= i)%nat) -> at_level h i P = [].
Proof.
  intros H. induction P as [|p P IH]; [done|]. unfold at_level in *. rewrite filter_cons, decide_False.
  - apply IH. intros q ?. apply H. by right.
  - assert (height h p <= i)%nat by (apply H; left). lia.
Qed.

(** The predecessor on level [i] of the first node outside [P]. *)
Definition pred (h : heap) (hd : ptr) (P : list ptr) (i : nat) : ptr := default hd (last (at_level h i P)).

Lemma pred_elem h hd P i : pred h hd P i ∈ hd :: at_level h i P.
Proof.
  unfold pred. destruct (last (at_level h i P)) as [q|] eqn:E; [|left].
  right. apply last_Some in E as [l ->]. apply elem_of_app. right. left.
Qed.

Lemma pred_down h hd P i : pred h hd P (S i) ∈ hd :: at_level h i P.
Proof.
  pose proof (pred_elem h hd P (S i)) as Hp.
  apply elem_of_cons in Hp as [->|Hp]; [left|right]. apply elem_of_at_level in Hp as [? ?].
  apply elem_of_at_level. split; [lia|done].
Qed.

Lemma pointers_bounded (h : heap) (ps : list ptr) :
  NoDup ps -> (forall p, p ∈ ps -> is_Some (h !! p)) -> (length ps <= length h)%nat.
Proof.
  intros Hnd Hps. rewrite <- (length_seq (length h) 0). apply submseteq_length, NoDup_submseteq; [done|].
  intros p Hp. apply elem_of_seq. apply Hps, lookup_lt_is_Some_1 in Hp. lia.
Qed.

(** A search key cuts the list in two. *)
Definition cut (h : heap) (key : bytes) (P Q : list ptr) : Prop :=
  (forall p, p ∈ P -> blt (key_of h p) key) /\ (forall q, q ∈ Q -> ~ blt (key_of h q) key).

Lemma sorted_cut h key ps :
  sorted (entry_of h <$> ps) -> exists P Q, ps = P ++ Q /\ cut h key P Q.
Proof.
  induction ps as [|p ps IH]; intros Hs.
  { exists [], []. split; [done|]. by split; intros ? ?%elem_of_nil. }
  rewrite fmap_cons in Hs. apply StronglySorted_inv in Hs as [Hs Hall].
  destruct (decide (blt (key_of h p) key)) as [Hlt|Hge].
  - destruct (IH Hs) as (P & Q & -> & HP & HQ). exists (p :: P), Q. split; [done|]. split; [|done].
    by intros q [->|?]%elem_of_cons; [|apply HP].
  - exists [], (p :: ps). split; [done|]. split; [by intros ? ?%elem_of_nil|].
    intros q [->|Hq]%elem_of_cons; [done|]. intros Hlt. apply Hge.
    rewrite Forall_forall in Hall. specialize (Hall (entry_of h q)). unfold key_lt in Hall.
    rewrite !entry_key in Hall. etransitivity; [apply Hall; by apply list_elem_of_fmap_2|done].
Qed.

Section Invariant.
Context (t : table) (ps : list ptr) (Hinv : inv t ps).

Lemma inv_elem p : p ∈ ps -> is_Some (nodes t !! p).
Proof. intros Hp. apply (i_height _ _ Hinv) in Hp. unfold height in Hp. destruct (nodes t !! p); [by eexists|lia]. Qed.

Lemma inv_length : (length ps < turns (nodes t))%nat.
Proof.
  unfold turns. apply Nat.lt_succ_r, pointers_bounded; [|apply inv_elem].
  pose proof (i_nodup _ _ Hinv) as H. by apply NoDup_cons in H as [_ ?].
Qed.

Lemma descend_spec key P Q lvl update :
  ps = P ++ Q -> cut (nodes t) key P Q -> (lvl <= level (sl t))%nat ->
  descend lvl (nodes t) key (pred (nodes t) (head (sl t)) P lvl) update =
    Some (pred (nodes t) (head (sl t)) P 0, (pred (nodes t) (head (sl t)) P <$> seq 0 lvl) ++ update).
Proof.
  intros Hps [HP HQ]. revert update. induction lvl as [|lvl IH]; intros update Hl; [done|].
  cbn [descend]. destruct (i_max _ _ Hinv) as [_ Hm].
  pose proof (i_chain _ _ Hinv lvl ltac:(lia)) as Hc. rewrite Hps, at_level_app in Hc.
  rewrite (walk_from _ key lvl _ _ _ (pred (nodes t) (head (sl t)) P (S lvl)) (turns (nodes t)) Hc).
  - cbn [mbind option_bind]. fold (pred (nodes t) (head (sl t)) P lvl). rewrite IH by lia.
    by rewrite seq_S, fmap_app, <- app_assoc.
  - intros q Hq. apply elem_of_at_level in Hq as [_ ?]. by apply HP.
  - intros q Hq. apply HQ. apply (elem_of_at_level (nodes t) lvl).
    destruct (at_level _ lvl Q); cbn in Hq; [done|]. injection Hq as ->. left.
  - pose proof inv_length as Hlen. rewrite Hps, length_app in Hlen.
    pose proof (length_filter (fun p => lvl < height (nodes t) p)%nat P) as Hf. unfold at_level. lia.
  - apply pred_down.
Qed.

Lemma descend_top key P Q :
  ps = P ++ Q -> cut (nodes t) key P Q ->
  descend (level (sl t)) (nodes t) key (head (sl t)) [] =
    Some (pred (nodes t) (head (sl t)) P 0, pred (nodes t) (head (sl t)) P <$> seq 0 (level (sl t))).
Proof.
  intros Hps Hcut. pose proof (descend_spec key P Q (level (sl t)) [] Hps Hcut (le_n _)) as Hd.
  rewrite app_nil_r in Hd. unfold pred at 1 in Hd. rewrite at_level_nil in Hd; [done|].
  intros p Hp. apply (i_height _ _ Hinv p). rewrite Hps. apply elem_of_app. by left.
Qed.

Lemma at_level_zero_ps P Q : ps = P ++ Q -> at_level (nodes t) 0 P = P /\ at_level (nodes t) 0 Q = Q.
Proof.
  intros Hps. split; apply at_level_zero; intros p Hp; apply (i_height _ _ Hinv); rewrite Hps;
    apply elem_of_app; auto.
Qed.

Lemma next_zero P Q : ps = P ++ Q -> next (nodes t) (pred (nodes t) (head (sl t)) P 0) 0 = Some (hd_error Q).
Proof.
  intros Hps. destruct (i_max _ _ Hinv) as [Hm _]. pose proof (i_chain _ _ Hinv 0%nat Hm) as Hc.
  destruct (at_level_zero_ps P Q Hps) as [HP HQ]. rewrite Hps, at_level_app, HP, HQ in Hc.
  unfold pred. rewrite HP. by apply chain_next.
Qed.

End Invariant.

(** ** Reading *)

Lemma entries_cut h key P Q : cut h key P Q -> cut_at key (entry_of h <$> P) (entry_of h <$> Q).
Proof.
  intros [HP HQ]. split; intros e [p [-> Hp]]%list_elem_of_fmap; rewrite entry_key; auto.
Qed.

Lemma entry_at (h : heap) q n : h !! q = Some n -> entry_of h q = (Key n, Value n).
Proof. unfold entry_of. by intros ->. Qed.

Lemma search_spec t ps key :
  inv t ps -> search t key = Some (find key (entry_of (nodes t) <$> ps)).
Proof.
  intros Hinv. destruct (sorted_cut (nodes t) key ps (i_sorted _ _ Hinv)) as (P & Q & Hps & Hcut).
  unfold search. rewrite (descend_top t ps Hinv key P Q Hps Hcut). cbn [mbind option_bind].
  rewrite (next_zero t ps Hinv P Q Hps). cbn [mbind option_bind].
  apply entries_cut in Hcut as Hce. pose proof (i_sorted _ _ Hinv) as Hs. rewrite Hps, fmap_app in Hs |- *.
  destruct Q as [|q Q]; cbn [hd_error].
  - rewrite find_app_lt by apply Hce. done.
  - destruct (inv_elem t ps Hinv q) as [n Hn]; [rewrite Hps; apply elem_of_app; right; left|].
    rewrite fmap_cons in *. rewrite find_cut by done. rewrite (entry_at _ q n Hn), Hn. done.
Qed.

Lemma from_spec h p qs fuel :
  chain h 0 p qs -> (length qs < fuel)%nat -> from fuel h (hd_error qs) = Some (entry_of h <$> qs).
Proof.
  revert p fuel. induction qs as [|q qs IH]; intros p fuel Hc Hf; [by destruct fuel|].
  destruct fuel as [|fuel]; [lia|]. destruct Hc as [_ Hc]. cbn [hd_error from].
  pose proof (chain_next h 0 q [] qs Hc) as Hn. cbn in Hn. unfold next in Hn.
  destruct (h !! q) as [n|] eqn:Hq; [|done]. cbn in Hn |- *. rewrite Hn. cbn.
  rewrite (IH q fuel Hc) by (cbn in Hf; lia). cbn. by rewrite (entry_at _ q n Hq).
Qed.

Lemma chain_from t ps P Q :
  inv t ps -> ps = P ++ Q ->
  from (turns (nodes t)) (nodes t) (hd_error Q) = Some (entry_of (nodes t) <$> Q).
Proof.
  intros Hinv Hps. apply (from_spec _ (pred (nodes t) (head (sl t)) P 0)).
  - destruct (at_level_zero_ps t ps Hinv P Q Hps) as [HP HQ]. unfold pred. rewrite HP.
    apply (chain_app _ _ _ P). rewrite <- HP, <- HQ at 1. rewrite <- at_level_app, <- Hps.
    apply (i_chain _ _ Hinv), (i_max _ _ Hinv).
  - pose proof (inv_length t ps Hinv) as Hl. rewrite Hps, length_app in Hl. lia.
Qed.

Lemma collect_spec t ps : inv t ps -> collectAllEntry t = Some (entry_of (nodes t) <$> ps).
Proof.
  intros Hinv. unfold collectAllEntry.
  pose proof (next_zero t ps Hinv [] ps eq_refl) as Hn. unfold pred in Hn. cbn in Hn. rewrite Hn. cbn.
  by apply (chain_from t ps []).
Qed.

(** The cursor of a range scan visits the entries from the start key on. *)
Lemma firstGTE_spec t ps key :
  inv t ps -> exists q, firstGTE t key = Some q /\
    from (turns (nodes t)) (nodes t) q =
      Some (filter (fun e => ~ blt e.1 key) (entry_of (nodes t) <$> ps)).
Proof.
  intros Hinv. destruct (sorted_cut (nodes t) key ps (i_sorted _ _ Hinv)) as (P & Q & Hps & Hcut).
  unfold firstGTE. rewrite (descend_top t ps Hinv key P Q Hps Hcut). cbn [mbind option_bind].
  rewrite (next_zero t ps Hinv P Q Hps). eexists. split; [done|].
  rewrite (chain_from t ps P Q Hinv Hps). f_equal. apply entries_cut in Hcut as [H1 H2].
  rewrite Hps, fmap_app, filter_app, (filter_none _ (entry_of _ <$> P)), (filter_all _ (entry_of _ <$> Q)); auto.
Qed.

Lemma new_inv : (0 < maxLevel)%nat -> inv newSkipList [].
Proof.
  intros Hm. split; cbn; auto; try done.
  - split; [done|lia].
  - unfold height. cbn. by rewrite length_replicate.
  - apply NoDup_singleton.
  - by intros p ?%elem_of_nil.
  - intros i Hi. unfold next. cbn. by apply lookup_replicate_2.
  - constructor.
Qed.

(** ** Overwriting *)

Lemma set_value_next h q n v p i :
  h !! q = Some n -> next (<[q := mkNode (Next n) (Key n) v]> h) p i = next h p i.
Proof.
  intros Hq. unfold next. destruct (decide (p = q)) as [->|Hne].
  - rewrite list_lookup_insert_eq by (by eapply lookup_lt_Some). by rewrite Hq.
  - by rewrite list_lookup_insert_ne.
Qed.

Lemma chain_ext h h' i p qs :
  (forall p, next h' p i = next h p i) -> chain h i p qs -> chain h' i p qs.
Proof.
  intros Hn. revert p. induction qs as [|q qs IH]; intros p; cbn; rewrite Hn; [done|].
  intros [? ?]. auto.
Qed.

(** ** Splicing *)

(** Same nodes, up to their pointers. *)
Definition same_nodes (h h' : heap) : Prop :=
  forall p, height h' p = height h p /\ key_of h' p = key_of h p /\ entry_of h' p = entry_of h p.

Lemma set_next_spec h p i q :
  (i < height h p)%nat ->
  exists h', set_next h p i q = Some h' /\ same_nodes h h' /\
    forall p' j, next h' p' j = if decide (p' = p /\ j = i) then Some q else next h p' j.
Proof.
  unfold height, set_next. destruct (h !! p) as [n|] eqn:Hp; [|lia]. intros Hi.
  cbn [mbind option_bind]. rewrite (proj2 (Nat.ltb_lt _ _) Hi). eexists. split; [done|].
  assert (p < length h)%nat as Hlt by (by eapply lookup_lt_Some). split.
  - intros p'. unfold height, key_of, entry_of. destruct (decide (p' = p)) as [->|Hne].
    + rewrite list_lookup_insert_eq by done. rewrite Hp. cbn. by rewrite length_insert.
    + by rewrite list_lookup_insert_ne.
  - intros p' j. unfold next. destruct (decide (p' = p)) as [->|Hne].
    + rewrite list_lookup_insert_eq by done. rewrite Hp. cbn. case_decide as Hd.
      * destruct Hd as [_ ->]. by apply list_lookup_insert_eq.
      * apply list_lookup_insert_ne. naive_solver.
    + rewrite list_lookup_insert_ne by done. rewrite decide_False by naive_solver. done.
Qed.

Lemma same_nodes_trans h1 h2 h3 : same_nodes h1 h2 -> same_nodes h2 h3 -> same_nodes h1 h3.
Proof. intros H1 H2 p. destruct (H1 p) as (? & ? & ?), (H2 p) as (? & ? & ?). split_and!; congruence. Qed.

Lemma link_spec todo i h update new :
  (i + todo <= height h new)%nat ->
  (forall l, (i <= l < i + todo)%nat -> exists u, update !! l = Some u /\ u <> new /\ (l < height h u)%nat) ->
  exists h', link todo i h update new = Some h' /\ same_nodes h h' /\
    forall p l, next h' p l =
      if decide (i <= l < i + todo)%nat
      then (if decide (p = new) then (u ← update !! l; next h u l)
            else if decide (update !! l = Some p) then Some (Some new) else next h p l)
      else next h p l.
Proof.
  revert i h. induction todo as [|todo IH]; intros i h Hnew Hup; cbn [link].
  { exists h. split; [done|]. split; [by intros p|]. intros p l. rewrite decide_False by lia. done. }
  destruct (Hup i) as (u & Hu & Hune & Huh); [lia|]. rewrite Hu. cbn.
  assert (exists q, next h u i = Some q) as [q Hq].
  { unfold next, height in *. destruct (h !! u) as [n|]; [|lia]. cbn. by apply lookup_lt_is_Some_2. }
  rewrite Hq. cbn.
  destruct (set_next_spec h new i q) as (h1 & -> & Hs1 & Hn1); [lia|]. cbn.
  destruct (set_next_spec h1 u i (Some new)) as (h2 & -> & Hs2 & Hn2);
    [destruct (Hs1 u) as [-> _]; done|]. cbn.
  pose proof (same_nodes_trans _ _ _ Hs1 Hs2) as Hs.
  destruct (IH (S i) h2) as (h' & -> & Hs' & Hn').
  { destruct (Hs new) as [-> _]. lia. }
  { intros l Hl. destruct (Hup l) as (u' & ? & ? & ?); [lia|]. exists u'.
    destruct (Hs u') as [-> _]. done. }
  exists h'. split; [done|]. split; [by eapply same_nodes_trans|].
  assert (forall p l, (l <> i)%nat -> next h2 p l = next h p l) as Hother
    by (intros p l ?; rewrite Hn2, Hn1, !decide_False by naive_solver; done).
  intros p l. rewrite Hn'. destruct (decide (l = i)) as [->|Hl].
  - rewrite (decide_False (P := (S i <= i < S i + todo)%nat)) by lia.
    rewrite (decide_True (P := (i <= i < i + S todo)%nat)) by lia. rewrite Hu. cbn. rewrite Hn2, Hn1.
    repeat case_decide; naive_solver.
  - destruct (decide (S i <= l < S i + todo)%nat).
    + rewrite (decide_True (P := (i <= l < i + S todo)%nat)) by lia.
      destruct (update !! l) as [u'|]; cbn; by rewrite !Hother.
    + rewrite decide_False by lia. by apply Hother.
Qed.

(** The chain with the new node behind the last node of its first half. *)
Lemma chain_splice h h' i p A B new :
  chain h i p (A ++ B) -> NoDup (p :: A ++ B) -> new ∉ p :: A ++ B ->
  next h' new i = next h (default p (last A)) i -> next h' (default p (last A)) i = Some (Some new) ->
  (forall q, q ∈ p :: A ++ B -> q <> default p (last A) -> next h' q i = next h q i) ->
  chain h' i p (A ++ new :: B).
Proof.
  revert p. induction A as [|a A IH]; intros p Hc Hnd Hnew Hn1 Hn2 Hn3; cbn in *.
  - split; [done|].
    assert (forall q, q ∈ B -> next h' q i = next h q i) as HB.
    { intros q Hq. apply Hn3; [by right|]. intros ->. by apply NoDup_cons in Hnd as [[] _]. }
    clear Hn3 Hnew Hnd.
    destruct B as [|b B]; cbn in *; [by rewrite Hn1|]. destruct Hc as [Hb Hc].
    split; [by rewrite Hn1|]. clear Hn1 Hn2 Hb.
    revert b HB Hc. induction B as [|b' B IHB]; intros b HB Hc; cbn in *.
    + rewrite HB; [done|left].
    + destruct Hc as [Hb Hc]. split; [rewrite HB; [done|left]|].
      apply IHB; [|done]. intros q ?. apply HB. by right.
  - destruct Hc as [Hp Hc]. rewrite last_cons in *.
    assert (default p (match last A with Some y => Some y | None => Some a end) = default a (last A)) as Hdef
      by (by destruct (last A)). rewrite Hdef in *.
    apply NoDup_cons in Hnd as [Hpn Hnd]. split.
    + rewrite Hn3; [done|left|]. intros ->. apply Hpn.
      destruct (last A) as [x|] eqn:E; cbn; [|left].
      apply last_Some in E as [l ->]. right. apply elem_of_app. left. apply elem_of_app. right. left.
    + apply IH; try done.
      * intros Hin. apply Hnew. by right.
      * intros q ? ?. apply Hn3; [by right|done].
Qed.

(** ** Insertion *)

Lemma randomLevel_bounds coins : (0 < maxLevel)%nat -> (1 <= randomLevel coins <= maxLevel)%nat.
Proof.
  intros Hm. unfold randomLevel.
  assert (forall l, (1 <= l <= maxLevel)%nat -> (1 <= randomLevel_loop coins l <= maxLevel)%nat) as H;
    [|apply H; lia].
  induction coins as [|c coins IH]; intros l Hl; [done|]. cbn [randomLevel_loop].
  destruct c; cbn [andb]; [|done]. destruct (Nat.ltb_spec l maxLevel); [apply IH; lia|done].
Qed.

(** A new node at the end of the heap is invisible to the old ones. *)
Lemma snoc_old (h : heap) n p :
  (p < length h)%nat -> (forall i, next (h ++ [n]) p i = next h p i) /\
  height (h ++ [n]) p = height h p /\ key_of (h ++ [n]) p = key_of h p /\
  entry_of (h ++ [n]) p = entry_of h p.
Proof.
  intros Hp. unfold next, height, key_of, entry_of. by rewrite lookup_app_l.
Qed.

Lemma at_level_ext h h' i (ps : list ptr) :
  (forall p, p ∈ ps -> height h' p = height h p) -> at_level h' i ps = at_level h i ps.
Proof.
  intros H. induction ps as [|p ps IH]; [done|]. unfold at_level in *. rewrite !filter_cons, H by left.
  rewrite IH by (intros q ?; apply H; by right). done.
Qed.

Lemma entries_ext (h h' : heap) (ps : list ptr) :
  (forall p, p ∈ ps -> entry_of h' p = entry_of h p) -> entry_of h' <$> ps = entry_of h <$> ps.
Proof. intros H. apply list_fmap_ext. intros i p Hp. apply H. by eapply list_elem_of_lookup_2. Qed.

Lemma chain_ext_in h h' i p qs :
  (forall q, q ∈ p :: qs -> next h' q i = next h q i) -> chain h i p qs -> chain h' i p qs.
Proof.
  revert p. induction qs as [|q qs IH]; intros p Hn; cbn; rewrite Hn by left; [done|].
  intros [? ?]. split; [done|]. apply IH; [|done]. intros q' ?. apply Hn. by right.
Qed.

Lemma overwrite_inv t ps q n value P Q :
  inv t ps -> ps = P ++ q :: Q -> nodes t !! q = Some n ->
  let delta := value_len value - value_len (Value n) in
  let t' := mkTable (<[q := mkNode (Next n) (Key n) value]> (nodes t))
              (mkSL (size (sl t)) (level (sl t)) (head (sl t)) (byteSize (sl t) + delta)) in
  inv t' ps /\
  entry_of (nodes t') <$> ps = (entry_of (nodes t) <$> P) ++ (Key n, value) :: (entry_of (nodes t) <$> Q).
Proof.
  intros Hinv Hps Hq delta t'.
  assert (forall p, height (nodes t') p = height (nodes t) p) as Hh.
  { intros p. unfold height, t'. cbn. destruct (decide (p = q)) as [->|Hne].
    - by rewrite list_lookup_insert_eq, Hq by (by eapply lookup_lt_Some).
    - by rewrite list_lookup_insert_ne. }
  assert (forall p, p <> q -> entry_of (nodes t') p = entry_of (nodes t) p) as He
    by (intros p ?; unfold entry_of, t'; cbn; by rewrite list_lookup_insert_ne).
  assert (entry_of (nodes t') q = (Key n, value)) as Heq
    by (unfold entry_of, t'; cbn; by rewrite list_lookup_insert_eq by (by eapply lookup_lt_Some)).
  pose proof (i_nodup _ _ Hinv) as Hnd. rewrite Hps in Hnd.
  assert ((q ∉ P) /\ (q ∉ Q)) as [HqP HqQ].
  { apply NoDup_cons in Hnd as [_ Hnd]. apply NoDup_app in Hnd as (_ & HP & HQ).
    apply NoDup_cons in HQ as [? _]. split; [|done]. intros ?. apply (HP q); [done|left]. }
  assert (entry_of (nodes t') <$> ps =
    (entry_of (nodes t) <$> P) ++ (Key n, value) :: (entry_of (nodes t) <$> Q)) as Hes.
  { rewrite Hps, fmap_app, fmap_cons, Heq.
    rewrite !(entries_ext (nodes t) (nodes t')); [done|intros p ?; apply He; intros ->; done..]. }
  split; [|done]. pose proof (i_sorted _ _ Hinv) as Hs. pose proof (i_bytes _ _ Hinv) as Hb.
  rewrite Hps, fmap_app, fmap_cons, (entry_at _ q n Hq) in Hs, Hb.
  split; rewrite ?Hes; try apply Hinv.
  - rewrite Hh. apply Hinv.
  - intros p Hp. rewrite Hh. by apply (i_height _ _ Hinv).
  - intros i Hi. rewrite (at_level_ext (nodes t)) by auto.
    eapply chain_ext; [|by apply (i_chain _ _ Hinv)]. intros p. by apply set_value_next.
  - destruct (sorted_app _ _ Hs) as (H1 & H2 & H3). apply StronglySorted_inv in H2 as [H2 Hall].
    apply sorted_glue; [done|by constructor|].
    intros a b Ha [->|Hb']%elem_of_cons; [apply (H3 a (Key n, Value n)); [done|left]|].
    apply H3; [done|by right].
  - cbn. unfold delta. rewrite Hb, !table_bytes_app.
    rewrite !table_bytes_cons. unfold entry_bytes. cbn [fst snd]. lia.
Qed.

(** The predecessors of a new node, on every level it takes part in. *)
Lemma update_lookup t ps P Q nl l :
  inv t ps -> ps = P ++ Q -> (l < nl)%nat ->
  ((pred (nodes t) (head (sl t)) P <$> seq 0 (level (sl t))) ++
     replicate (nl - level (sl t)) (head (sl t))) !! l = Some (pred (nodes t) (head (sl t)) P l).
Proof.
  intros Hinv Hps Hl. destruct (decide (l < level (sl t))%nat) as [Hlt|Hge].
  - rewrite lookup_app_l by (by rewrite length_fmap, length_seq).
    rewrite list_lookup_fmap, lookup_seq_lt by done. done.
  - rewrite lookup_app_r; rewrite length_fmap, length_seq; [|lia].
    unfold pred. rewrite at_level_nil; [apply lookup_replicate_2; lia|].
    intros p Hp. assert (p ∈ ps) as Hin by (rewrite Hps; apply elem_of_app; by left).
    apply (i_height _ _ Hinv) in Hin. lia.
Qed.

(** A new node [new] of [nl] levels between the two halves of the list: [h'] is
    the heap the linking leaves. *)
Section Splice.
Context (t : table) (ps P Q : list ptr) (key : bytes) (value : option bytes) (nl : nat) (h' : heap).
Let hd := head (sl t).
Let h0 := nodes t ++ [newSkipNode nl key value].
Let new := length (nodes t).
Context (Hinv : inv t ps) (Hps : ps = P ++ Q) (Hcut : cut (nodes t) key P Q)
  (Hne : forall q, q ∈ Q -> key_of (nodes t) q <> key) (Hnl : (1 <= nl <= maxLevel)%nat)
  (Hsame : same_nodes h0 h')
  (Hnext : forall p l, next h' p l =
     if decide (0 <= l < 0 + nl)%nat
     then (if decide (p = new) then next h0 (pred (nodes t) hd P l) l
           else if decide (pred (nodes t) hd P l = p) then Some (Some new) else next h0 p l)
     else next h0 p l).

Lemma splice_old p : p ∈ hd :: ps -> (p < new)%nat.
Proof.
  intros Hp. apply lookup_lt_is_Some_1. apply elem_of_cons in Hp as [->|Hp]; [|by eapply inv_elem].
  pose proof (i_head _ _ Hinv) as Hh. pose proof (i_max _ _ Hinv). unfold height in Hh. fold hd in Hh.
  destruct (nodes t !! hd); [by eexists|lia].
Qed.

Lemma splice_keep p :
  p ∈ hd :: ps -> height h' p = height (nodes t) p /\ entry_of h' p = entry_of (nodes t) p /\
    forall i, next h0 p i = next (nodes t) p i.
Proof.
  intros Hp. destruct (Hsame p) as (-> & _ & ->).
  by destruct (snoc_old (nodes t) (newSkipNode nl key value) p (splice_old p Hp)) as (? & ? & _ & ?).
Qed.

Lemma splice_new : height h' new = nl /\ entry_of h' new = (key, value) /\ new ∉ hd :: ps.
Proof.
  assert (h0 !! new = Some (newSkipNode nl key value)) as Hnew by (by apply list_lookup_middle).
  destruct (Hsame new) as (-> & _ & ->). unfold height, entry_of. rewrite Hnew. cbn.
  rewrite length_replicate. split_and!; [done..|]. intros H%splice_old. lia.
Qed.

Lemma splice_left p : p ∈ P -> p ∈ hd :: ps.
Proof. intros ?. right. rewrite Hps. apply elem_of_app. by left. Qed.
Lemma splice_right p : p ∈ Q -> p ∈ hd :: ps.
Proof. intros ?. right. rewrite Hps. apply elem_of_app. by right. Qed.

Lemma splice_entries :
  entry_of h' <$> (P ++ new :: Q) = (entry_of (nodes t) <$> P) ++ (key, value) :: (entry_of (nodes t) <$> Q).
Proof.
  destruct splice_new as (_ & Hen & _). rewrite fmap_app, fmap_cons, Hen.
  rewrite !(entries_ext (nodes t) h'); [done|intros p ?; apply splice_keep..];
    auto using splice_left, splice_right.
Qed.

Lemma splice_nodup : NoDup (hd :: P ++ new :: Q).
Proof.
  destruct splice_new as (_ & _ & Hnin). pose proof (i_nodup _ _ Hinv) as Hnd. fold hd in Hnd.
  rewrite Hps in Hnd, Hnin. apply NoDup_cons in Hnd as [Hh Hnd]. apply NoDup_cons. split.
  - rewrite elem_of_app, elem_of_cons in *. intros [?|[E|?]]; [apply Hh; auto| |apply Hh; auto].
    apply Hnin. left. by symmetry.
  - apply NoDup_app in Hnd as (HP & HPQ & HQ). apply NoDup_app. split_and!; [done| |].
    + intros p Hp [->|Hq]%elem_of_cons; [apply Hnin; right; apply elem_of_app; by left|].
      by apply (HPQ p).
    + apply NoDup_cons. split; [|done]. intros Hq. apply Hnin. right. apply elem_of_app. by right.
Qed.

Lemma splice_chain i : (i < maxLevel)%nat -> chain h' i hd (at_level h' i (P ++ new :: Q)).
Proof.
  intros Hi. destruct splice_new as (Hhn & _ & Hnin). pose proof (i_nodup _ _ Hinv) as Hnd. fold hd in Hnd.
  pose proof (i_chain _ _ Hinv i Hi) as Hc. fold hd in Hc. rewrite Hps, at_level_app in Hc.
  rewrite at_level_app. unfold at_level at 2. rewrite filter_cons. fold (at_level h' i Q).
  rewrite !(at_level_ext (nodes t) h')
    by (intros p ?; apply splice_keep; auto using splice_left, splice_right). rewrite Hhn.
  assert (forall q, q ∈ hd :: at_level (nodes t) i P ++ at_level (nodes t) i Q -> q ∈ hd :: ps) as Hsub.
  { intros q [->|[Hq|Hq]%elem_of_app]%elem_of_cons; [left|apply splice_left|apply splice_right];
      by apply elem_of_at_level in Hq as [_ ?]. }
  set (u := pred (nodes t) hd P i).
  assert (u ∈ hd :: ps) as Hu.
  { apply Hsub. pose proof (pred_elem (nodes t) hd P i) as [E|Hp]%elem_of_cons; [unfold u; rewrite E; left|right].
    apply elem_of_app. by left. }
  destruct (decide (i < nl)%nat) as [Hlt|Hge].
  - apply (chain_splice (nodes t)); fold (pred (nodes t) hd P i); fold u; [done| | | | |].
    + rewrite Hps in Hnd. rewrite <- at_level_app. apply NoDup_cons in Hnd as [Hh Hnd].
      apply NoDup_cons. split; [|by apply NoDup_filter]. by intros [_ ?]%elem_of_at_level.
    + by intros H%Hsub.
    + rewrite Hnext, !decide_True by (done || lia). by apply splice_keep.
    + rewrite Hnext, decide_True, decide_False, decide_True; [done..| |lia].
      intros E. apply Hnin. by rewrite <- E.
    + intros q Hq Hqne. rewrite Hnext, decide_True, !decide_False; [by apply splice_keep, Hsub|done| |lia].
      intros ->. by apply Hnin, Hsub.
  - apply (chain_ext_in (nodes t)); [|done]. intros q Hq. rewrite Hnext, decide_False by lia.
    by apply splice_keep, Hsub.
Qed.

Lemma splice_sorted :
  sorted ((entry_of (nodes t) <$> P) ++ (key, value) :: (entry_of (nodes t) <$> Q)).
Proof.
  pose proof (i_sorted _ _ Hinv) as Hs. rewrite Hps, fmap_app in Hs.
  destruct Hcut as [HcutP HcutQ], (sorted_app _ _ Hs) as (H1 & H2 & H3).
  apply sorted_glue; [done| |].
  - constructor; [done|]. rewrite Forall_forall. intros b [p [-> Hp]]%list_elem_of_fmap.
    unfold key_lt. cbn. rewrite entry_key. specialize (HcutQ p Hp). specialize (Hne p Hp).
    destruct (bcompare_spec (key_of (nodes t) p) key); congruence || done.
  - intros a b Ha [->|?]%elem_of_cons; [|by apply H3].
    apply list_elem_of_fmap in Ha as [p [-> ?]]. rewrite entry_key. auto.
Qed.

Lemma splice_inv :
  inv (mkTable h' (mkSL (size (sl t) + 1) (Nat.max (level (sl t)) nl) hd
                    (byteSize (sl t) + (zlen key + value_len value)))) (P ++ new :: Q).
Proof.
  destruct splice_new as (Hhn & _ & _). pose proof (i_max _ _ Hinv) as [Hm1 Hm2].
  split; cbn [nodes sl level head size byteSize]; rewrite ?splice_entries.
  - lia.
  - destruct (splice_keep hd) as [-> _]; [left|]. apply Hinv.
  - apply splice_nodup.
  - intros p [Hp|[->|Hp]%elem_of_cons]%elem_of_app; [|lia|];
      (destruct (splice_keep p) as [-> _]; [auto using splice_left, splice_right|]);
      (assert (p ∈ ps) as Hin by (rewrite Hps; apply elem_of_app; auto));
      apply (i_height _ _ Hinv) in Hin; lia.
  - apply splice_chain.
  - apply splice_sorted.
  - rewrite (i_size _ _ Hinv), Hps. len_lia.
  - rewrite (i_bytes _ _ Hinv), Hps, fmap_app, !table_bytes_app, table_bytes_cons. unfold entry_bytes.
    cbn [fst snd]. lia.
Qed.
End Splice.

Definition predecessors (t : table) (P : list ptr) : list ptr :=
  pred (nodes t) (head (sl t)) P <$> seq 0 (level (sl t)).

Lemma link_fresh t ps P Q key value nl :
  inv t ps -> ps = P ++ Q -> cut (nodes t) key P Q ->
  (forall q, q ∈ Q -> key_of (nodes t) q <> key) -> (1 <= nl <= maxLevel)%nat ->
  exists h', link nl 0 (nodes t ++ [newSkipNode nl key value])
               (predecessors t P ++ replicate (nl - level (sl t)) (head (sl t))) (length (nodes t)) = Some h' /\
    inv (mkTable h' (mkSL (size (sl t) + 1) (Nat.max (level (sl t)) nl) (head (sl t))
           (byteSize (sl t) + (zlen key + value_len value)))) (P ++ length (nodes t) :: Q) /\
    entry_of h' <$> (P ++ length (nodes t) :: Q) =
      (entry_of (nodes t) <$> P) ++ (key, value) :: (entry_of (nodes t) <$> Q).
Proof.
  intros Hinv Hps Hcut Hne Hnl. set (new := length (nodes t)).
  set (update := predecessors t P ++ _). set (h0 := nodes t ++ _).
  assert (forall l, (l < nl)%nat -> update !! l = Some (pred (nodes t) (head (sl t)) P l)) as Hup
    by (intros l ?; by apply (update_lookup t ps P Q)).
  assert (forall l, (l < nl)%nat -> pred (nodes t) (head (sl t)) P l ∈ head (sl t) :: ps) as Hin.
  { intros l Hl. pose proof (pred_elem (nodes t) (head (sl t)) P l) as [->|Hp]%elem_of_cons; [left|right].
    apply elem_of_at_level in Hp as [_ ?]. rewrite Hps. apply elem_of_app. by left. }
  destruct (link_spec nl 0 h0 update new) as (h' & Hlink & Hsame & Hnext).
  { unfold height, h0, new. rewrite list_lookup_middle by done. cbn. by rewrite length_replicate. }
  { intros l Hl. exists (pred (nodes t) (head (sl t)) P l). split; [apply Hup; lia|].
    pose proof (Hin l ltac:(lia)) as Hl'. apply (splice_old t ps nl Hinv Hnl) in Hl' as Hold.
    split; [unfold new; lia|]. unfold h0.
    destruct (snoc_old (nodes t) (newSkipNode nl key value) _ Hold) as (_ & -> & _).
    pose proof (pred_elem (nodes t) (head (sl t)) P l) as [->|Hp]%elem_of_cons.
    - rewrite (i_head _ _ Hinv). lia.
    - by apply elem_of_at_level in Hp as [? _]. }
  assert (forall p l, next h' p l =
     if decide (0 <= l < 0 + nl)%nat
     then (if decide (p = new) then next h0 (pred (nodes t) (head (sl t)) P l) l
           else if decide (pred (nodes t) (head (sl t)) P l = p) then Some (Some new) else next h0 p l)
     else next h0 p l) as Hnext'.
  { intros p l. rewrite Hnext. destruct (decide (0 <= l < 0 + nl)%nat); [|done].
    rewrite Hup by lia. cbn. repeat case_decide; congruence. }
  exists h'. split_and!; [done| |].
  - by eapply splice_inv.
  - by apply (splice_entries t ps P Q key value nl h').
Qed.

Lemma insert_spec t ps key value coins :
  inv t ps -> exists t' ps', insert t key value coins =
    Some (t', table_bytes (put key value (entry_of (nodes t) <$> ps)) - table_bytes (entry_of (nodes t) <$> ps)) /\
    inv t' ps' /\ entry_of (nodes t') <$> ps' = put key value (entry_of (nodes t) <$> ps).
Proof.
  intros Hinv. destruct (sorted_cut (nodes t) key ps (i_sorted _ _ Hinv)) as (P & Q & Hps & Hcut).
  pose proof (entries_cut _ _ _ _ Hcut) as Hce. pose proof (i_sorted _ _ Hinv) as Hs.
  set (E := entry_of (nodes t) <$> ps) in *.
  assert (E = (entry_of (nodes t) <$> P) ++ (entry_of (nodes t) <$> Q)) as HE
    by (unfold E; by rewrite Hps, fmap_app).
  pose proof (randomLevel_bounds coins ltac:(apply (i_max _ _ Hinv))) as Hnl.
  unfold insert. rewrite (descend_top t ps Hinv key P Q Hps Hcut). cbn [mbind option_bind].
  rewrite (next_zero t ps Hinv P Q Hps). cbn [mbind option_bind]. fold (predecessors t P).
  assert ((exists q n Q', Q = q :: Q' /\ nodes t !! q = Some n /\ Key n = key) \/
          (forall q, q ∈ Q -> key_of (nodes t) q <> key) /\
          (match hd_error Q with
           | None => Some None
           | Some q => n ← nodes t !! q; Some (if decide (Key n = key) then Some (q, n) else None)
           end) = Some None) as [(q & n & Q' & -> & Hq & Hk)|[Hne Hnone]].
  { destruct Q as [|q Q']; [right; split; [by intros ? ?%elem_of_nil|done]|].
    destruct (inv_elem t ps Hinv q) as [n Hn]; [rewrite Hps; apply elem_of_app; right; left|].
    cbn [hd_error]. rewrite Hn. cbn. destruct (decide (Key n = key)) as [Hk|Hk].
    - left. by exists q, n, Q'.
    - right. split; [|done]. intros q' [->|Hq']%elem_of_cons; [unfold key_of; by rewrite Hn|].
      intros Heq. destruct Hcut as [_ HQ]. apply (HQ q); [left|]. rewrite <- Heq.
      unfold E in Hs. rewrite Hps, fmap_app, fmap_cons in Hs. apply sorted_app in Hs as (_ & Hs & _).
      apply (sorted_tail _ _ (entry_of (nodes t) q')) in Hs; [by rewrite !entry_key in Hs|].
      by apply list_elem_of_fmap_2. }
  - cbn [hd_error]. rewrite Hq. cbn [mbind option_bind]. rewrite decide_True by done.
    destruct (overwrite_inv t ps q n value P Q' Hinv Hps Hq) as [Hinv' Hes].
    rewrite fmap_cons, (entry_at _ q n Hq), Hk in HE, Hce. rewrite Hk in *.
    rewrite HE in Hs |- *. rewrite put_cut_old by done.
    eexists _, ps. split; [|by split]. do 2 f_equal. rewrite !table_bytes_app, !table_bytes_cons. unfold entry_bytes. cbn [fst snd Value]. lia.
  - rewrite Hnone. cbn [mbind option_bind].
    destruct (link_fresh t ps P Q key value (randomLevel coins)) as (h' & -> & Hinv' & Hes); try done.
    cbn [mbind option_bind]. rewrite HE, put_cut_new; [|done|].
    2: { intros e [p [-> ?]]%list_elem_of_fmap. rewrite entry_key. auto. }
    eexists _, _. split; [|by split]. do 2 f_equal. rewrite !table_bytes_app, !table_bytes_cons. unfold entry_bytes. cbn [fst snd Value]. lia.
Qed.

(** ** The skip list implements the interface *)

(** The cursor of [firstGTE] with the nodes it visits. *)
Definition scan (t : table) (key : bytes) : option (list entry) :=
  q ← firstGTE t key; from (turns (nodes t)) (nodes t) q.

#[global] Instance skip_list : OrderedTable table := {
  t_rep := rep; t_new := newSkipList; t_search := search; t_insert := insert; t_scan := scan;
  t_collect := collectAllEntry; t_size t := size (sl t); t_byteSize t := byteSize (sl t);
}.

Lemma skip_list_laws : (0 < maxLevel)%nat -> OrderedTableLaws table.
Proof.
  intros Hm. split; cbn.
  - intros t es (ps & Hinv & ->). apply Hinv.
  - exists []. split; [by apply new_inv|done].
  - intros t es k (ps & Hinv & ->). by apply search_spec.
  - intros t es k v coins (ps & Hinv & ->).
    destruct (insert_spec t ps k v coins Hinv) as (t' & ps' & Hins & Hinv' & Hes).
    exists t'. split; [done|]. by exists ps'.
  - intros t es k (ps & Hinv & ->). unfold scan.
    by destruct (firstGTE_spec t ps k Hinv) as (q & -> & ?).
  - intros t es (ps & Hinv & ->). by apply collect_spec.
  - intros t es (ps & Hinv & ->). rewrite (i_size _ _ Hinv). unfold zlen. by rewrite length_fmap.
  - intros t es (ps & Hinv & ->). apply Hinv.
Qed.

End WithMaxLevel.

(** ** A run of insertions *)

Section Run.
Context {T : Type} `{OrderedTableLaws T}.

Definition write := (bytes * option bytes * list bool)%type.

Definition insert_all (t : T) (ops : list write) : option T :=
  foldl (fun t '(k, v, coins) => t ← t; '(t, _) ← t_insert t k v coins; Some t) (Some t) ops.

(** The map after these writes. *)
Definition written (ops : list write) : gmap bytes (option bytes) :=
  foldl (fun m '(k, v, _) => <[k := v]> m) ∅ ops.

Lemma insert_all_spec ops :
  exists t es, insert_all t_new ops = Some t /\ t_rep t es /\ sorted es /\
    forall k, find k es = written ops !! k.
Proof.
  induction ops as [|[[k v] coins] ops (t & es & Hrun & Hrep & Hs & Hfind)] using rev_ind.
  { exists t_new, []. split_and!; [done|apply law_new|constructor|]. intros k. symmetry. apply lookup_empty. }
  unfold insert_all, written in *. rewrite foldl_app, Hrun. cbn.
  destruct (law_insert t es k v coins Hrep) as (t' & -> & Hrep'). cbn.
  exists t', (put k v es). split_and!; [done|done|by apply put_sorted|].
  intros k'. rewrite find_put, foldl_app by done. cbn. rewrite lookup_insert, Hfind. done.
Qed.

End Run.

(** the skip list refines a finite map: after any sequence of inserts
    (overwrites and tombstones included) with any outcome of the level coins, no
    pointer operation panics, searching any key returns its last written value,
    [collectAllEntry] lists exactly the live entries in strictly increasing key
    order, a range cursor visits exactly those from its start key on, and [size]
    and [byteSize] are their number and their bytes. *)
Theorem skip_list_refines_map (maxLevel : nat) (ops : list write) (Hlevel : (0 < maxLevel)%nat) :
  exists t es,
    @insert_all _ (skip_list maxLevel) (newSkipList maxLevel) ops = Some t /\
    collectAllEntry t = Some es /\ sorted es /\
    (forall k, search t k = Some (written ops !! k)) /\
    (forall k v, (k, v) ∈ es <-> written ops !! k = Some v) /\
    (forall k, scan t k = Some (filter (fun e => ~ blt e.1 k) es)) /\
    size (sl t) = zlen es /\ byteSize (sl t) = table_bytes es.
Proof.
  pose proof (skip_list_laws maxLevel Hlevel) as Hlaws.
  destruct (@insert_all_spec _ (skip_list maxLevel) Hlaws ops) as (t & es & Hrun & Hrep & Hs & Hfind).
  exists t, es. split_and!; [done|by apply (@law_collect _ _ Hlaws)|done| | | |
    by apply (@law_size _ _ Hlaws)|by apply (@law_byteSize _ _ Hlaws)].
  - intros k. rewrite <- Hfind. by apply (@law_search _ _ Hlaws).
  - intros k v. rewrite <- Hfind. split; [by apply (sorted_find es (k, v))|apply find_elem].
  - intros k. by apply (@law_scan _ _ Hlaws).
Qed.

Lemma skip_list_refines_map_witness :
  let ops := [(of_string "b", Some (of_string "1"), [true; false]); (of_string "a", None, [true; true]);
              (of_string "b", Some (of_string "2"), [])] in
  exists t es,
    @insert_all _ (skip_list 3) (newSkipList 3) ops = Some t /\
    collectAllEntry t = Some es /\ sorted es /\
    (forall k, search t k = Some (written ops !! k)) /\
    (forall k v, (k, v) ∈ es <-> written ops !! k = Some v) /\
    (forall k, scan t k = Some (filter (fun e => ~ blt e.1 k) es)) /\
    size (sl t) = zlen es /\ byteSize (sl t) = table_bytes es.
Proof. intros ops. apply (skip_list_refines_map 3 ops). lia. Defined.

(** A concrete run, with its heap evaluated. *)
Example skip_list_run :
  (t ← @insert_all _ (skip_list 3) (newSkipList 3)
         [(of_string "b", Some (of_string "1"), [true; false]); (of_string "a", None, [true; true]);
          (of_string "b", Some (of_string "2"), [])];
   es ← collectAllEntry t; Some (es, level (sl t), byteSize (sl t)))
  = Some ([(of_string "a", None); (of_string "b", Some (of_string "2"))], 3%nat, 3).
Proof. vm_compute. reflexivity. Qed.

End SkipList.
