(* ===== verification/SkipDelete.v ===== *)
(** Deletion in the skip list of [storage/zstorage/memtable.go] ([SkipList.delete],
    which nothing calls: the memtable deletes by inserting a nil value), and the
    skip list as a finite map under inserts and deletes together. *)
From S2P Require Import Prelude Bytes SkipList.

Module SkipDelete.
Import SkipList.

(** [for i := 0; i < sl.level; i++]: take [p] out of the levels it takes part in;
    the first level where [update[i]] does not lead to it ends the loop. *)
Fixpoint unlink (todo i : nat) (h : heap) (update : list ptr) (p : ptr) : option heap :=
  match todo with
  | O => Some h
  | S todo' =>
      u ← update !! i;
      q ← next h u i;
      if decide (q = Some p)
      then q' ← next h p i; h ← set_next h u i q'; unlink todo' (S i) h update p
      else Some h
  end.

(** [for sl.level > 0 && sl.head.Next[sl.level-1] == nil { sl.level-- }] *)
Fixpoint shrink (lvl : nat) (h : heap) (hd : ptr) : option nat :=
  match lvl with
  | O => Some 0%nat
  | S l => q ← next h hd l; match q with None => shrink l h hd | Some _ => Some lvl end
  end.

(** [byteSize] is left as it was. *)
Definition delete (t : table) (key : bytes) : option (table * bool) :=
  let s := sl t in
  '(p, update) ← descend (level s) (nodes t) key (head s) [];
  q ← next (nodes t) p 0;
  match q with
  | None => Some (t, false)
  | Some q =>
      n ← nodes t !! q;
      if decide (Key n = key)
      then h ← unlink (level s) 0 (nodes t) update q;
           lvl ← shrink (level s) h (head s);
           Some (mkTable h (mkSL (size s - 1) lvl (head s) (byteSize s)), true)
      else Some (t, false)
  end.

(** ** The loops *)

(** [q] leaves exactly the levels below its height. *)
Lemma unlink_spec todo i h update q :
  (forall l, (i <= l < i + todo)%nat -> exists u x, update !! l = Some u /\ u <> q /\
     (l < height h u)%nat /\ next h u l = Some x /\ (x = Some q <-> (l < height h q)%nat)) ->
  exists h', unlink todo i h update q = Some h' /\ same_nodes h h' /\
    forall p l, next h' p l =
      if decide (i <= l < i + todo /\ l < height h q)%nat
      then (if decide (update !! l = Some p) then next h q l else next h p l)
      else next h p l.
Proof.
  revert i h. induction todo as [|todo IH]; intros i h Hup; cbn [unlink].
  { exists h. split; [done|]. split; [by intros p|]. intros p l. rewrite decide_False by lia. done. }
  destruct (Hup i) as (u & x & Hu & Hune & Huh & Hx & Hxq); [lia|]. rewrite Hu. cbn. rewrite Hx. cbn.
  destruct (decide (x = Some q)) as [Hq|Hq].
  2: { exists h. split; [done|]. split; [by intros p|]. intros p l.
       destruct (decide _) as [[Hl Hlq]|]; [|done]. exfalso. apply Hq, Hxq. lia. }
  apply Hxq in Hq as Hiq.
  assert (exists y, next h q i = Some y) as [y Hy].
  { unfold next, height in *. destruct (h !! q) as [n|]; [|lia]. cbn. by apply lookup_lt_is_Some_2. }
  rewrite Hy. cbn. destruct (set_next_spec h u i y Huh) as (h1 & -> & Hs1 & Hn1). cbn.
  destruct (IH (S i) h1) as (h' & -> & Hs' & Hn').
  { intros l Hl. destruct (Hup l) as (u' & x' & ? & ? & ? & ? & ?); [lia|]. exists u', x'.
    destruct (Hs1 u') as [-> _], (Hs1 q) as [-> _]. rewrite Hn1, decide_False by lia. done. }
  exists h'. split; [done|]. split; [by eapply same_nodes_trans|].
  intros p l. rewrite Hn'. destruct (Hs1 q) as [-> _]. destruct (decide (l = i)) as [->|Hl].
  - rewrite (decide_False (P := (S i <= i < S i + todo /\ _)%nat)) by lia.
    rewrite (decide_True (P := (i <= i < i + S todo /\ _)%nat)) by lia. rewrite Hn1, Hu.
    repeat case_decide; naive_solver.
  - rewrite !Hn1, !(decide_False (P := _ /\ l = i)) by naive_solver.
    repeat case_decide; done || lia.
Qed.

(** The level left is the least above which the head leads nowhere. *)
Lemma shrink_spec lvl h hd :
  (lvl <= height h hd)%nat ->
  exists lvl', shrink lvl h hd = Some lvl' /\ (lvl' <= lvl)%nat /\
    forall l, (lvl' <= l < lvl)%nat -> next h hd l = Some None.
Proof.
  induction lvl as [|l IH]; intros Hh; cbn [shrink].
  { exists 0%nat. split_and!; [done..|]. lia. }
  assert (exists x, next h hd l = Some x) as [x Hx].
  { unfold next, height in *. destruct (h !! hd) as [n|]; [|lia]. cbn. by apply lookup_lt_is_Some_2. }
  rewrite Hx. cbn. destruct x as [x|].
  - exists (S l). split_and!; [done..|]. lia.
  - destruct IH as (lvl' & -> & ? & Hnil); [lia|]. exists lvl'. split_and!; [done|lia|].
    intros l' Hl'. destruct (decide (l' = l)) as [->|]; [done|]. apply Hnil. lia.
Qed.

(** The chain with the node [q] taken out. *)
Lemma chain_unlink h h' i p A q B :
  chain h i p (A ++ q :: B) -> NoDup (p :: A ++ q :: B) ->
  next h' (default p (last A)) i = next h q i ->
  (forall q', q' ∈ p :: A ++ B -> q' <> default p (last A) -> next h' q' i = next h q' i) ->
  chain h' i p (A ++ B).
Proof.
  revert p. induction A as [|a A IH]; intros p Hc Hnd Hn1 Hn2; cbn in *.
  - destruct Hc as [_ Hc]. apply NoDup_cons in Hnd as [Hp Hnd].
    assert (forall q', q' ∈ B -> next h' q' i = next h q' i) as HB.
    { intros q' Hq'. apply Hn2; [by right|]. intros ->. apply Hp. by right. }
    destruct B as [|b B]; cbn in *; [by rewrite Hn1|]. destruct Hc as [Hb Hc]. split; [by rewrite Hn1|].
    apply (chain_ext_in h); [|done]. intros q' ?. by apply HB.
  - destruct Hc as [Hp Hc]. rewrite last_cons in *.
    assert (default p (match last A with Some y => Some y | None => Some a end) = default a (last A)) as Hdef
      by (by destruct (last A)). rewrite Hdef in *.
    apply NoDup_cons in Hnd as [Hpn Hnd]. split.
    + rewrite Hn2; [done|left|]. intros ->. apply Hpn.
      destruct (last A) as [x|] eqn:E; cbn; [|left].
      apply last_Some in E as [l ->]. right. apply elem_of_app. left. apply elem_of_app. right. left.
    + apply IH; try done. intros q' ? ?. apply Hn2; [by right|done].
Qed.

(** ** A deletion *)

Section Cut.
Context (maxLevel : nat) (t : table) (ps P Q : list ptr) (q : ptr).
Context (Hinv : inv maxLevel t ps) (Hps : ps = P ++ q :: Q).
Let hd := head (sl t).

Lemma cut_fresh : q ∉ hd :: P /\ q ∉ Q /\ NoDup (hd :: P ++ Q).
Proof.
  pose proof (i_nodup _ _ _ Hinv) as Hnd. fold hd in Hnd. rewrite Hps in Hnd.
  assert ((hd :: P ++ q :: Q) ≡ₚ (q :: hd :: P ++ Q)) as Hp
    by (rewrite <- Permutation_middle; constructor).
  rewrite Hp in Hnd. apply NoDup_cons in Hnd as [Hq Hnd].
  split_and!; [| |done]; intros Hin; apply Hq; rewrite elem_of_cons, elem_of_app.
  - apply elem_of_cons in Hin. tauto.
  - tauto.
Qed.

(** The predecessors know whether the node takes part in their level. *)
Lemma cut_pred l :
  (l < level (sl t))%nat ->
  let u := pred (nodes t) hd P l in
  u <> q /\ (l < height (nodes t) u)%nat /\
  exists x, next (nodes t) u l = Some x /\ (x = Some q <-> (l < height (nodes t) q)%nat).
Proof.
  intros Hl u. destruct cut_fresh as (HqP & HqQ & _). pose proof (i_max _ _ _ Hinv) as [_ Hm].
  pose proof (pred_elem (nodes t) hd P l) as Hu. fold u in Hu. split_and!.
  - intros ->. apply HqP. apply elem_of_cons in Hu as [->|Hu]; [left|right]. by apply elem_of_at_level in Hu as [_ ?].
  - apply elem_of_cons in Hu as [->|Hu]; [|by apply elem_of_at_level in Hu as [? _]].
    unfold hd. rewrite (i_head _ _ _ Hinv). lia.
  - pose proof (i_chain _ _ _ Hinv l ltac:(lia)) as Hc. fold hd in Hc. rewrite Hps, at_level_app in Hc.
    apply chain_next in Hc. eexists. split; [exact Hc|]. unfold at_level. rewrite filter_cons.
    case_decide; [by cbn|]. split; [|done]. intros E. exfalso. apply HqQ.
    apply (elem_of_at_level (nodes t) l). fold (at_level (nodes t) l Q) in E.
    destruct (at_level (nodes t) l Q); cbn in E; [done|]. injection E as ->. left.
Qed.

(** The heap without the node. *)
Lemma cut_unlink :
  exists h', unlink (level (sl t)) 0 (nodes t) (pred (nodes t) hd P <$> seq 0 (level (sl t))) q = Some h' /\
    same_nodes (nodes t) h' /\
    forall i, (i < maxLevel)%nat -> chain h' i hd (at_level h' i (P ++ Q)).
Proof.
  destruct cut_fresh as (HqP & HqQ & Hnd'). set (update := _ <$> _).
  assert (forall l, (l < level (sl t))%nat -> update !! l = Some (pred (nodes t) hd P l)) as Hup
    by (intros l Hl; unfold update; by rewrite list_lookup_fmap, lookup_seq_lt).
  destruct (unlink_spec (level (sl t)) 0 (nodes t) update q) as (h' & Hrun & Hsame & Hnext).
  { intros l Hl. destruct (cut_pred l) as (? & ? & x & ? & ?); [lia|].
    exists (pred (nodes t) hd P l), x. rewrite Hup by lia. done. }
  exists h'. split_and!; [done|done|]. intros i Hi.
  pose proof (i_chain _ _ _ Hinv i Hi) as Hc. fold hd in Hc. rewrite Hps, at_level_app in Hc.
  rewrite (at_level_ext (nodes t)) by (intros p _; apply Hsame). rewrite at_level_app.
  unfold at_level at 2 in Hc. rewrite filter_cons in Hc. fold (at_level (nodes t) i Q) in Hc.
  assert (q ∈ ps) as Hq by (rewrite Hps; apply elem_of_app; right; left).
  apply (i_height _ _ _ Hinv) in Hq. destruct (decide (i < height (nodes t) q)%nat) as [Hlt|Hge].
  - apply (chain_unlink (nodes t) h' i hd _ q); [done| | |]; fold (pred (nodes t) hd P i).
    + pose proof (i_nodup _ _ _ Hinv) as Hnd. fold hd in Hnd. rewrite Hps in Hnd.
      apply NoDup_cons in Hnd as [Hh Hnd].
      replace (at_level (nodes t) i P ++ q :: at_level (nodes t) i Q) with (at_level (nodes t) i (P ++ q :: Q))
        by (rewrite at_level_app; f_equal; unfold at_level; by rewrite filter_cons, decide_True).
      apply NoDup_cons. split; [|by apply NoDup_filter]. by intros [_ ?]%elem_of_at_level.
    + rewrite Hnext, decide_True, Hup, decide_True by (done || lia). done.
    + intros q' _ Hne. rewrite Hnext, decide_True, Hup, decide_False by (congruence || lia). done.
  - apply (chain_ext_in (nodes t)); [|done]. intros q' _. rewrite Hnext, decide_False by lia. done.
Qed.

Lemma cut_height h' lvl :
  same_nodes (nodes t) h' -> (forall i, (i < maxLevel)%nat -> chain h' i hd (at_level h' i (P ++ Q))) ->
  (forall l, (lvl <= l < level (sl t))%nat -> next h' hd l = Some None) ->
  forall p, p ∈ P ++ Q -> (1 <= height h' p <= lvl)%nat.
Proof.
  intros Hsame Hc Hnil p Hp. pose proof (i_max _ _ _ Hinv) as [_ Hm].
  assert (p ∈ ps) as Hin by (rewrite Hps; apply elem_of_app; apply elem_of_app in Hp as [?|?]; [by left|right; by right]).
  apply (i_height _ _ _ Hinv) in Hin. destruct (Hsame p) as [Hh _]. rewrite Hh. split; [lia|].
  destruct (decide (height (nodes t) p <= lvl)%nat) as [|Hgt]; [done|exfalso].
  set (l := (height (nodes t) p - 1)%nat).
  pose proof (Hc l ltac:(lia)) as Hcl. pose proof (Hnil l ltac:(lia)) as Hnl.
  assert (p ∈ at_level h' l (P ++ Q)) as Hpl by (apply elem_of_at_level; split; [rewrite Hh; lia|done]).
  destruct (at_level h' l (P ++ Q)) as [|x xs]; [by apply elem_of_nil in Hpl|].
  destruct Hcl as [E _]. rewrite E in Hnl. done.
Qed.

(** What is left is a skip list of the other nodes, once its bytes are corrected. *)
Lemma cut_inv h' lvl :
  same_nodes (nodes t) h' -> (forall i, (i < maxLevel)%nat -> chain h' i hd (at_level h' i (P ++ Q))) ->
  (lvl <= level (sl t))%nat -> (forall l, (lvl <= l < level (sl t))%nat -> next h' hd l = Some None) ->
  inv maxLevel (mkTable h' (mkSL (size (sl t) - 1) lvl hd (byteSize (sl t) - entry_bytes (entry_of (nodes t) q))))
    (P ++ Q) /\
  entry_of h' <$> (P ++ Q) = (entry_of (nodes t) <$> P) ++ (entry_of (nodes t) <$> Q).
Proof.
  intros Hsame Hc Hl Hnil. destruct cut_fresh as (_ & _ & Hnd). pose proof (i_max _ _ _ Hinv) as [Hm1 Hm2].
  assert (entry_of h' <$> (P ++ Q) = (entry_of (nodes t) <$> P) ++ (entry_of (nodes t) <$> Q)) as Hes
    by (rewrite (entries_ext (nodes t)), fmap_app; [done|]; intros p _; apply Hsame).
  split; [|done]. pose proof (i_sorted _ _ _ Hinv) as Hs. pose proof (i_bytes _ _ _ Hinv) as Hb.
  rewrite Hps, fmap_app, fmap_cons in Hs, Hb.
  split; cbn [nodes sl level head size byteSize]; rewrite ?Hes; try done.
  - split; [done|lia].
  - destruct (Hsame hd) as [-> _]. apply Hinv.
  - by apply cut_height.
  - destruct (sorted_app _ _ Hs) as (H1 & H2 & H3). apply StronglySorted_inv in H2 as [H2 _].
    apply sorted_glue; [done|done|]. intros a b ? ?. apply H3; [done|by right].
  - rewrite (i_size _ _ _ Hinv), Hps. len_lia.
  - rewrite Hb, !table_bytes_app, table_bytes_cons. lia.
Qed.
End Cut.

(** The table with its byte counter set. *)
Definition with_bytes (t : table) (n : Z) : table :=
  mkTable (nodes t) (mkSL (size (sl t)) (level (sl t)) (head (sl t)) n).

Definition freed (key : bytes) (found : option (option bytes)) : Z :=
  match found with Some v => entry_bytes (key, v) | None => 0 end.

Lemma with_bytes_same t : with_bytes t (byteSize (sl t)) = t.
Proof. by destruct t as [h []]. Qed.

Lemma delete_spec maxLevel t ps key :
  inv maxLevel t ps ->
  let es := entry_of (nodes t) <$> ps in
  exists t' ps', delete t key = Some (t', bool_decide (is_Some (find key es))) /\
    byteSize (sl t') = byteSize (sl t) /\
    inv maxLevel (with_bytes t' (byteSize (sl t) - freed key (find key es))) ps' /\
    entry_of (nodes t') <$> ps' = filter (fun e => e.1 <> key) es.
Proof.
  intros Hinv es. destruct (sorted_cut (nodes t) key ps (i_sorted _ _ _ Hinv)) as (P & Q & Hps & Hcut).
  pose proof (i_sorted _ _ _ Hinv) as Hs. pose proof (entries_cut _ _ _ _ Hcut) as Hce.
  assert (es = (entry_of (nodes t) <$> P) ++ (entry_of (nodes t) <$> Q)) as Hes
    by (unfold es; by rewrite Hps, fmap_app).
  fold es in Hs. rewrite Hes in Hs |- *. clear es Hes.
  assert (forall e, e ∈ entry_of (nodes t) <$> P -> e.1 <> key) as HPne by (intros e ?; by apply blt_neq, Hce).
  unfold delete. rewrite (descend_top maxLevel t ps Hinv key P Q Hps Hcut). cbn [mbind option_bind].
  rewrite (next_zero maxLevel t ps Hinv P Q Hps). cbn [mbind option_bind].
  destruct Q as [|q Q]; cbn [hd_error].
  { exists t, ps. cbn [fmap list_fmap]. rewrite app_nil_r, find_None by done. cbn [freed].
    rewrite Z.sub_0_r, with_bytes_same. split_and!; [done..|]. rewrite filter_all by done.
    by rewrite Hps, app_nil_r. }
  destruct (inv_elem maxLevel t ps Hinv q) as [n Hn]; [rewrite Hps; apply elem_of_app; right; left|].
  rewrite fmap_cons, (entry_at _ q n Hn) in *. rewrite Hn, find_cut by done. cbn [fst snd mbind option_bind].
  assert (forall e, e ∈ entry_of (nodes t) <$> Q -> blt (Key n) e.1) as Hgt
    by (intros e He; apply sorted_app in Hs as (_ & Hs & _); by apply (sorted_tail _ _ e Hs)).
  destruct (decide (Key n = key)) as [<-|Hk].
  - destruct (cut_unlink maxLevel t ps P Q q Hinv Hps) as (h' & -> & Hsame & Hc). cbn [mbind option_bind].
    pose proof (i_max _ _ _ Hinv) as [_ Hm].
    destruct (shrink_spec (level (sl t)) h' (head (sl t))) as (lvl & -> & Hl & Hnil);
      [destruct (Hsame (head (sl t))) as [-> _]; by rewrite (i_head _ _ _ Hinv)|]. cbn [mbind option_bind].
    destruct (cut_inv maxLevel t ps P Q q Hinv Hps h' lvl Hsame Hc Hl Hnil) as [Hinv' Hes'].
    rewrite (entry_at _ q n Hn) in Hinv'. eexists _, (P ++ Q).
    split_and!; [done|done|exact Hinv'|]. cbn [nodes]. rewrite Hes', filter_app, filter_cons.
    rewrite decide_False by (cbn; tauto). rewrite !filter_all; [done| |done].
    intros e He Heq. pose proof (Hgt e He) as Hlt. rewrite Heq in Hlt. by apply blt_irrefl in Hlt.
  - exists t, ps. cbn [freed]. rewrite Z.sub_0_r, with_bytes_same. split_and!; [done..|].
    rewrite Hps, fmap_app, fmap_cons, (entry_at _ q n Hn). symmetry. apply filter_all.
    intros e [He|[->|He]%elem_of_cons]%elem_of_app; [by apply HPne|done|]. intros Heq.
    destruct Hce as [_ Hce]. apply (Hce (Key n, Value n)); [left|]. cbn. rewrite <- Heq. by apply Hgt.
Qed.

(** ** The byte counter is only counted *)

Lemma insert_with_bytes maxLevel t n key value coins :
  insert maxLevel (with_bytes t n) key value coins =
    (fun '(t', d) => (with_bytes t' (n + d), d)) <$> insert maxLevel t key value coins.
Proof.
  unfold insert, with_bytes. cbn [nodes sl level head size byteSize].
  destruct (descend _ _ _ _ _) as [[p update]|]; [|done]. cbn [mbind option_bind].
  destruct (next _ _ _) as [q|]; [|done]. cbn [mbind option_bind].
  destruct (match q with None => _ | Some _ => _ end) as [[[? ?]|]|]; [done| |done]. cbn [mbind option_bind].
  by destruct (link _ _ _ _ _).
Qed.

Lemma delete_with_bytes t n key :
  delete (with_bytes t n) key = (fun '(t', b) => (with_bytes t' n, b)) <$> delete t key.
Proof.
  unfold delete, with_bytes. cbn [nodes sl level head size byteSize].
  destruct (descend _ _ _ _ _) as [[p update]|]; [|done]. cbn [mbind option_bind].
  destruct (next _ _ _) as [[q|]|]; [|done..]. cbn [mbind option_bind].
  destruct (nodes t !! q) as [nd|]; [|done]. cbn [mbind option_bind].
  case_decide; [|done]. destruct (unlink _ _ _ _ _); [|done]. cbn [mbind option_bind].
  by destruct (shrink _ _ _).
Qed.

(** What a list holds when its counter is [slack] too high. *)
Definition holds (maxLevel : nat) (slack : Z) (t : table) (es : list entry) : Prop :=
  rep maxLevel (with_bytes t (byteSize (sl t) - slack)) es.

Lemma insert_holds maxLevel slack t es key value coins :
  holds maxLevel slack t es ->
  exists t' d, insert maxLevel t key value coins = Some (t', d) /\ holds maxLevel slack t' (put key value es).
Proof.
  intros (ps & Hinv & ->).
  destruct (insert_spec maxLevel _ ps key value coins Hinv) as (t1 & ps1 & Hins & Hinv1 & Hes).
  rewrite insert_with_bytes in Hins. destruct (insert maxLevel t key value coins) as [[t' d]|] eqn:E; [|done].
  cbn in Hins. injection Hins as <- Hd. exists t', d. split; [done|]. exists ps1. split; [|done].
  assert (byteSize (sl t') = byteSize (sl t) + d) as ->.
  { clear -E. unfold insert in E. destruct (descend _ _ _ _ _) as [[p update]|]; [|done]. cbn in E.
    destruct (next _ _ _) as [q|]; [|done]. cbn [mbind option_bind] in E.
    destruct (match q with None => _ | Some _ => _ end) as [[[? ?]|]|]; [|cbn in E|done].
    - cbn in E. by injection E as <- <-.
    - destruct (link _ _ _ _ _); [|done]. cbn in E. by injection E as <- <-. }
  replace (byteSize (sl t) + d - slack) with (byteSize (sl t) - slack + d) by lia. exact Hinv1.
Qed.

Lemma delete_holds maxLevel slack t es key :
  holds maxLevel slack t es ->
  exists t', delete t key = Some (t', bool_decide (is_Some (find key es))) /\
    holds maxLevel (slack + freed key (find key es)) t' (filter (fun e => e.1 <> key) es).
Proof.
  intros (ps & Hinv & ->).
  destruct (delete_spec maxLevel _ ps key Hinv) as (t1 & ps1 & Hdel & Hb & Hinv1 & Hes).
  rewrite delete_with_bytes in Hdel. destruct (delete t key) as [[t' b]|] eqn:E; [|done].
  cbn in Hdel. injection Hdel as <- ->. exists t'. split; [done|]. exists ps1. split; [|done].
  assert (byteSize (sl t') = byteSize (sl t)) as ->.
  { clear -E. unfold delete in E. destruct (descend _ _ _ _ _) as [[p update]|]; [|done]. cbn in E.
    destruct (next _ _ _) as [[q|]|]; [|cbn in E; by injection E as <- _|done]. cbn in E.
    destruct (nodes t !! q) as [nd|]; [|done]. cbn in E. case_decide; [|by injection E as <- _].
    destruct (unlink _ _ _ _ _); [|done]. cbn in E. destruct (shrink _ _ _); [|done]. cbn in E.
    by injection E as <- _. }
  cbn in Hinv1. rewrite Z.sub_add_distr. exact Hinv1.
Qed.

(** ** A run of inserts and deletes *)

Inductive edit :=
| Insert (key : bytes) (value : option bytes) (coins : list bool)
| Delete (key : bytes).

Definition edit_one (maxLevel : nat) (t : table) (e : edit) : option table :=
  match e with
  | Insert k v coins => fst <$> insert maxLevel t k v coins
  | Delete k => fst <$> delete t k
  end.

Definition edit_all (maxLevel : nat) (t : table) (ops : list edit) : option table :=
  foldl (fun t e => t ← t; edit_one maxLevel t e) (Some t) ops.

(** The map after these edits, and the bytes of the entries they took out. *)
Definition edited_one (s : gmap bytes (option bytes) * Z) (e : edit) : gmap bytes (option bytes) * Z :=
  match e with
  | Insert k v _ => (<[k := v]> s.1, s.2)
  | Delete k => (base.delete k s.1, s.2 + freed k (s.1 !! k))
  end.

Definition edited (ops : list edit) : gmap bytes (option bytes) * Z := foldl edited_one (∅, 0) ops.

Lemma find_without k k' es :
  find k' (filter (fun e => e.1 <> k) es) = if decide (k = k') then None else find k' es.
Proof.
  induction es as [|e es IH]; [by case_decide|]. rewrite filter_cons.
  destruct (decide (e.1 <> k)) as [Hne|Heq]; cbn; rewrite IH; repeat case_bool_decide; repeat case_decide;
    done || congruence || (exfalso; apply Heq; congruence).
Qed.

Lemma edit_all_spec maxLevel ops :
  (0 < maxLevel)%nat ->
  exists t es, edit_all maxLevel (newSkipList maxLevel) ops = Some t /\
    holds maxLevel (edited ops).2 t es /\ sorted es /\ forall k, find k es = (edited ops).1 !! k.
Proof.
  intros Hm. induction ops as [|e ops (t & es & Hrun & Hrep & Hs & Hfind)] using rev_ind.
  { exists (newSkipList maxLevel), []. split_and!; [done| |constructor|].
    - exists []. split; [by apply new_inv|done].
    - intros k. symmetry. apply lookup_empty. }
  unfold edit_all, edited in *. rewrite !foldl_app, Hrun. cbn.
  destruct e as [k v coins|k]; cbn.
  - destruct (insert_holds maxLevel _ t es k v coins Hrep) as (t' & d & -> & Hrep'). cbn.
    exists t', (put k v es). split_and!; [done|done|by apply put_sorted|].
    intros k'. by rewrite find_put, lookup_insert, Hfind.
  - destruct (delete_holds maxLevel _ t es k Hrep) as (t' & -> & Hrep'). cbn.
    exists t', (filter (fun e => e.1 <> k) es). rewrite <- Hfind.
    split_and!; [done|done|by apply sorted_filter|].
    intros k'. rewrite find_without, lookup_delete, Hfind. by case_decide.
Qed.

(** C15: the skip list refines a finite map under inserts and deletes: after any
    sequence of inserts (overwrites and tombstones included, with any outcome of
    the level coins) and [delete]s (of absent keys too), no pointer operation
    panics and no loop runs on; searching any key returns the value the map has,
    [collectAllEntry] lists exactly the map's entries in strictly increasing key
    order, a range cursor visits exactly those from its start key on, the next
    [delete] of any key reports whether the map has it, and [size] is the number of
    entries.  [byteSize] is their bytes plus those of every entry ever deleted:
    [delete] does not give any back. *)
Theorem skip_list_edits_refine_map (maxLevel : nat) (ops : list edit) (Hlevel : (0 < maxLevel)%nat) :
  exists t es,
    edit_all maxLevel (newSkipList maxLevel) ops = Some t /\
    collectAllEntry t = Some es /\ sorted es /\
    (forall k, search t k = Some ((edited ops).1 !! k)) /\
    (forall k v, (k, v) ∈ es <-> (edited ops).1 !! k = Some v) /\
    (forall k, scan t k = Some (filter (fun e => ~ blt e.1 k) es)) /\
    (forall k, exists t', delete t k = Some (t', bool_decide (is_Some ((edited ops).1 !! k)))) /\
    size (sl t) = zlen es /\ byteSize (sl t) = table_bytes es + (edited ops).2.
Proof.
  destruct (edit_all_spec maxLevel ops Hlevel) as (t & es & Hrun & Hrep & Hs & Hfind).
  pose proof (skip_list_laws maxLevel Hlevel) as Hlaws. exists t, es. split_and!; [done| |done| | | | | |].
  - apply (@law_collect _ _ Hlaws _ _ Hrep).
  - intros k. rewrite <- Hfind. apply (@law_search _ _ Hlaws _ _ k Hrep).
  - intros k v. rewrite <- Hfind. split; [by apply (sorted_find es (k, v))|apply find_elem].
  - intros k. apply (@law_scan _ _ Hlaws _ _ k Hrep).
  - intros k. rewrite <- Hfind. destruct (delete_holds maxLevel _ t es k Hrep) as (t' & ? & _). by exists t'.
  - apply (@law_size _ _ Hlaws _ _ Hrep).
  - pose proof (@law_byteSize _ _ Hlaws _ _ Hrep) as Hb. cbn in Hb. lia.
Qed.

Lemma skip_list_edits_refine_map_witness :
  let ops := [Insert (of_string "b") (Some (of_string "1")) [true; false]; Insert (of_string "a") None [true; true];
              Delete (of_string "b"); Insert (of_string "c") (Some (of_string "22")) []] in
  exists t es,
    edit_all 3 (newSkipList 3) ops = Some t /\
    collectAllEntry t = Some es /\ sorted es /\
    (forall k, search t k = Some ((edited ops).1 !! k)) /\
    (forall k v, (k, v) ∈ es <-> (edited ops).1 !! k = Some v) /\
    (forall k, scan t k = Some (filter (fun e => ~ blt e.1 k) es)) /\
    (forall k, exists t', delete t k = Some (t', bool_decide (is_Some ((edited ops).1 !! k)))) /\
    size (sl t) = zlen es /\ byteSize (sl t) = table_bytes es + (edited ops).2.
Proof. intros ops. apply (skip_list_edits_refine_map 3 ops). lia. Defined.

(** Deleting the tallest node lowers the list. *)
Example delete_lowers_list :
  (t ← edit_all 3 (newSkipList 3)
         [Insert (of_string "b") (Some (of_string "1")) []; Insert (of_string "a") None [true; true];
          Delete (of_string "a")];
   es ← collectAllEntry t; Some (es, level (sl t), size (sl t), byteSize (sl t)))
  = Some ([(of_string "b", Some (of_string "1"))], 1%nat, 1, 3).
Proof. vm_compute. reflexivity. Qed.

End SkipDelete.
