(* ===== verification/Bloom.v ===== *)
(** Bloom filters: [storage/zstorage/bloom.go] and [partitioned_bloom.go]. *)
From S2P Require Import Prelude Bytes Strconv.

(** ** [math] as the sizing formulas use it

    [optimal_m n] stands for [uint64(math.Ceil(-float64(n)*math.Log(p)/(ln2*ln2)))]
    and [optimal_k m n] for [uint64(math.Round(float64(m)/float64(n)*ln2))] at the
    configured false-positive rate: floating-point logarithms, of which the code
    needs nothing but a value of the type; sizes of 2^63 bits and more cannot be
    allocated. *)
Class BloomMath := {
  optimal_m : Z -> Z;
  optimal_k : Z -> Z -> Z;
}.
Class BloomMathLaws `{BloomMath} : Prop := {
  optimal_m_range n : 0 <= optimal_m n < 2 ^ 63;
  optimal_k_range m n : 0 <= optimal_k m n < 2 ^ 64;
}.

Module Bloom.

Record BloomFilter := mkBloom {
  bits : list Z; (* []uint64 *)
  m : Z;
  k : Z;
}.

#[global] Instance BloomFilter_eq_dec : EqDecision BloomFilter.
Proof. solve_decision. Defined.

Definition bloomMinBits : Z := 64.
Definition fnvOffset64 : Z := 14695981039346656037.
Definition fnvPrime64 : Z := 1099511628211.
Definition bloomSeed2 : Z := 11400714819323198485. (* 0x9e3779b97f4a7c15 *)

Definition NewBloomFilter `{BloomMath} (n : Z) : BloomFilter :=
  let n := if n <=? 0 then 1 else n in
  let m := optimal_m n in
  let m := if m <? bloomMinBits then bloomMinBits else m in
  let k := optimal_k m n in
  let k := if k <? 1 then 1 else k in
  mkBloom (replicate (Z.to_nat (wrap64 (m + 63) / 64)) 0) m k.

Definition fnv1a (data : bytes) (seed : Z) : Z :=
  foldl (fun h c => wrap64 (Z.lxor h (bval c) * fnvPrime64)) (Z.lxor fnvOffset64 seed) data.

Definition hashPair (key : bytes) : Z * Z := (fnv1a key 0, fnv1a key bloomSeed2).

(** [(h1 + i*h2) % b.m] in 64-bit arithmetic. *)
Definition position (b : BloomFilter) (h : Z * Z) (i : nat) : Z :=
  wrap64 (h.1 + Z.of_nat i * h.2) mod m b.

(** [bits[i]]; [None] is an index out of range. *)
Definition word_at (bits : list Z) (i : Z) : option Z :=
  if i <? zlen bits then bits !! Z.to_nat i else None.

(** [bits[pos/64] |= 1 << (pos%64)]. *)
Definition set_bit (bits : list Z) (pos : Z) : option (list Z) :=
  w ← word_at bits (pos / 64);
  Some (<[Z.to_nat (pos / 64) := Z.lor w (Z.shiftl 1 (pos mod 64))]> bits).

(** [bits[pos/64]&(1<<(pos%64)) == 0]. *)
Definition bit_clear (bits : list Z) (pos : Z) : option bool :=
  w ← word_at bits (pos / 64);
  Some (Z.land w (Z.shiftl 1 (pos mod 64)) =? 0).

(** The loop of [Add] from [i] on, [todo] turns left. *)
Fixpoint add_loop (b : BloomFilter) (h : Z * Z) (todo i : nat) (bits : list Z) : option (list Z) :=
  match todo with
  | O => Some bits
  | S todo' => bits ← set_bit bits (position b h i); add_loop b h todo' (S i) bits
  end.

Definition Add (b : BloomFilter) (key : bytes) : option BloomFilter :=
  bs ← add_loop b (hashPair key) (Z.to_nat (k b)) 0%nat (bits b);
  Some (mkBloom bs (m b) (k b)).

Fixpoint contain_loop (b : BloomFilter) (h : Z * Z) (todo i : nat) : option bool :=
  match todo with
  | O => Some true
  | S todo' =>
      clear ← bit_clear (bits b) (position b h i);
      if (clear : bool) then Some false else contain_loop b h todo' (S i)
  end.

Definition MayContain (b : BloomFilter) (key : bytes) : option bool :=
  contain_loop b (hashPair key) (Z.to_nat (k b)) 0%nat.

Definition Encode (b : BloomFilter) : bytes :=
  be_enc 8 (m b) ++ be_enc 8 (k b) ++ concat (be_enc 8 <$> bits b).

(** [n] consecutive 64-bit words. *)
Fixpoint read_words (n : nat) (data : bytes) : result (list Z) :=
  match n with
  | O => Ok []
  | S n' => let? (w, data) := read_be 8 data in let? ws := read_words n' data in Ok (w :: ws)
  end.

Definition DecodeBloomFilter (data : bytes) : result BloomFilter :=
  if zlen data <? 16 then Error (Err "bloom: data too short") else
  let? (m, data) := read_be 8 data in
  let? (k, data) := read_be 8 data in
  let words := wrap64 (m + 63) / 64 in
  if (k =? 0) || (m =? 0) || negb (zlen data =? wrap64 (words * 8))
  then Error (Err "bloom: corrupt data") else
  let? bits := read_words (Z.to_nat words) data in
  Ok (mkBloom bits m k).

(** ** The invariant *)

Record ok (b : BloomFilter) : Prop := {
  ok_m : 0 < m b < 2 ^ 63;
  ok_k : 0 < k b < 2 ^ 64;
  ok_words : zlen (bits b) = (m b + 63) / 64;
  ok_width : Forall u64 (bits b);
}.

Lemma u64_bits z : u64 z <-> z mod 2 ^ 64 = z.
Proof.
  unfold u64. split; [apply Z.mod_small|]. intros <-. apply Z.mod_pos_bound. lia.
Qed.

Lemma u64_lor a b : u64 a -> u64 b -> u64 (Z.lor a b).
Proof.
  rewrite !u64_bits. intros Ha Hb. apply Z.bits_inj'. intros i Hi.
  destruct (Z.ltb_spec i 64).
  - by rewrite Z.mod_pow2_bits_low.
  - rewrite Z.mod_pow2_bits_high, Z.lor_spec, <- Ha, <- Hb, !Z.mod_pow2_bits_high by lia. done.
Qed.

(** A bit of the array. *)
Definition bit (bits : list Z) (pos : Z) : bool :=
  match bits !! Z.to_nat (pos / 64) with
  | Some w => Z.testbit w (pos mod 64)
  | None => false
  end.

Lemma bit_clear_spec bs pos :
  0 <= pos -> pos / 64 < zlen bs -> bit_clear bs pos = Some (negb (bit bs pos)).
Proof.
  intros Hp Hl. unfold bit_clear, word_at, bit. rewrite (proj2 (Z.ltb_lt _ _) Hl).
  destruct (lookup_lt_is_Some_2 bs (Z.to_nat (pos / 64))) as [w ->].
  { unfold zlen in Hl. pose proof (Z.div_pos pos 64). lia. }
  cbn. f_equal. set (j := pos mod 64). assert (0 <= j) by (apply Z.mod_pos_bound; lia).
  destruct (Z.testbit w j) eqn:E.
  - cbn. apply Z.eqb_neq. intros H0. apply (f_equal (fun z => Z.testbit z j)) in H0.
    rewrite Z.land_spec, Z.shiftl_1_l, Z.pow2_bits_true, E, Z.bits_0 in H0 by done. done.
  - cbn. apply Z.eqb_eq, Z.bits_inj. intros i. rewrite Z.land_spec, Z.shiftl_1_l, Z.bits_0.
    destruct (decide (i = j)) as [->|Hne]; [by rewrite E|].
    rewrite Z.pow2_bits_false by done. apply andb_false_r.
Qed.

Lemma set_bit_spec bs pos :
  0 <= pos -> pos / 64 < zlen bs -> Forall u64 bs ->
  exists bs', set_bit bs pos = Some bs' /\ length bs' = length bs /\ Forall u64 bs' /\
    bit bs' pos = true /\ (forall p, bit bs p = true -> bit bs' p = true).
Proof.
  intros Hp Hl Hw. unfold set_bit, word_at. rewrite (proj2 (Z.ltb_lt _ _) Hl).
  destruct (lookup_lt_is_Some_2 bs (Z.to_nat (pos / 64))) as [w Hat].
  { unfold zlen in Hl. pose proof (Z.div_pos pos 64). lia. }
  rewrite Hat. cbn. pose proof (lookup_lt_Some _ _ _ Hat) as Hlt.
  pose proof (Z.mod_pos_bound pos 64). eexists. split; [done|]. split_and!.
  - apply length_insert.
  - apply Forall_insert; [done|]. apply (Forall_lookup_1 _ _ _ _ Hw) in Hat. unfold u64 in *.
    apply u64_lor; [done|]. rewrite Z.shiftl_1_l. unfold u64. split; [apply Z.pow_nonneg; lia|].
    apply Z.pow_lt_mono_r; lia.
  - unfold bit. rewrite list_lookup_insert_eq by done.
    rewrite Z.lor_spec, Z.shiftl_1_l, Z.pow2_bits_true by lia. apply orb_true_r.
  - intros p. unfold bit. destruct (decide (Z.to_nat (p / 64) = Z.to_nat (pos / 64))) as [->|Hne].
    + rewrite list_lookup_insert_eq, Hat by done. rewrite Z.lor_spec. by intros ->.
    + by rewrite list_lookup_insert_ne.
Qed.

(** ** Adding keys *)

(** Every position of a key falls into the array. *)
Lemma position_range b h i : ok b -> 0 <= position b h i /\ position b h i / 64 < zlen (bits b).
Proof.
  intros Hok. pose proof (ok_m b Hok). unfold position.
  pose proof (Z.mod_pos_bound (wrap64 (h.1 + Z.of_nat i * h.2)) (m b)) as Hb.
  split; [lia|]. rewrite (ok_words b Hok).
  apply Z.lt_le_trans with ((m b - 1) / 64 + 1).
  - assert (wrap64 (h.1 + Z.of_nat i * h.2) mod m b <= m b - 1) as Hle by lia.
    apply (Z.div_le_mono _ _ 64) in Hle; lia.
  - rewrite <- Z.div_add by lia. apply Z.div_le_mono; lia.
Qed.

Lemma add_loop_spec b h todo i bs :
  ok b -> length bs = length (bits b) -> Forall u64 bs ->
  exists bs', add_loop b h todo i bs = Some bs' /\ length bs' = length (bits b) /\ Forall u64 bs' /\
    (forall p, bit bs p = true -> bit bs' p = true) /\
    (forall j, (i <= j < i + todo)%nat -> bit bs' (position b h j) = true).
Proof.
  intros Hok. revert i bs. induction todo as [|todo IH]; intros i bs Hl Hw; cbn [add_loop].
  { exists bs. split_and!; auto. intros j Hj. lia. }
  destruct (position_range b h i Hok) as [Hp0 Hp1].
  destruct (set_bit_spec bs (position b h i)) as (bs1 & -> & Hl1 & Hw1 & Hset & Hmono);
    [done|by unfold zlen in *; rewrite Hl|done|]. cbn.
  destruct (IH (S i) bs1) as (bs' & -> & Hl' & Hw' & Hm' & Hpos); [by rewrite Hl1|done|].
  exists bs'. split_and!; auto. intros j Hj. destruct (decide (j = i)) as [->|Hne]; [auto|].
  apply Hpos. lia.
Qed.

(** All [k] bits of a key. *)
Definition has (b : BloomFilter) (key : bytes) : Prop :=
  forall j, (j < Z.to_nat (k b))%nat -> bit (bits b) (position b (hashPair key) j) = true.

Lemma Add_spec b key :
  ok b -> exists b', Add b key = Some b' /\ ok b' /\ has b' key /\ (forall key', has b key' -> has b' key').
Proof.
  intros Hok. unfold Add.
  destruct (add_loop_spec b (hashPair key) (Z.to_nat (k b)) 0 (bits b) Hok eq_refl (ok_width b Hok))
    as (bs & -> & Hl & Hw & Hm & Hpos). cbn. eexists. split; [done|].
  split_and!.
  - split; cbn; try apply Hok; [|done]. unfold zlen. rewrite Hl. apply Hok.
  - intros j Hj. cbn in Hj. apply Hpos. lia.
  - intros key' Hk j Hj. by apply Hm, Hk.
Qed.

Lemma contain_loop_spec b h todo i :
  ok b -> contain_loop b h todo i = Some (forallb (fun j => bit (bits b) (position b h j)) (seq i todo)).
Proof.
  intros Hok. revert i. induction todo as [|todo IH]; intros i; cbn [contain_loop]; [done|].
  destruct (position_range b h i Hok). rewrite bit_clear_spec by done. cbn.
  destruct (bit (bits b) (position b h i)); [by rewrite IH|done].
Qed.

Lemma MayContain_spec b key :
  ok b -> exists r, MayContain b key = Some r /\ (r = true <-> has b key).
Proof.
  intros Hok. unfold MayContain. rewrite contain_loop_spec by done. eexists. split; [done|].
  unfold has. rewrite forallb_forall. setoid_rewrite in_seq. split; intros H j Hj; apply H; lia.
Qed.

Lemma New_ok `{BloomMathLaws} n : ok (NewBloomFilter n).
Proof.
  unfold NewBloomFilter. set (n' := if n <=? 0 then 1 else n).
  pose proof (optimal_m_range n'). unfold bloomMinBits.
  set (m' := if optimal_m n' <? 64 then 64 else optimal_m n').
  assert (0 < m' < 2 ^ 63) by (unfold m'; destruct (Z.ltb_spec (optimal_m n') 64); lia).
  pose proof (optimal_k_range m' n').
  split; cbn.
  - done.
  - destruct (Z.ltb_spec (optimal_k m' n') 1); lia.
  - unfold zlen. rewrite length_replicate, wrap64_small by lia. apply Z2Nat.id, Z.div_pos; lia.
  - apply Forall_replicate. unfold u64. lia.
Qed.

(** ** Encoding *)

Lemma read_words_app ws : Forall u64 ws ->
  read_words (length ws) (concat (be_enc 8 <$> ws)) = Ok ws.
Proof.
  induction 1 as [|w ws Hw _ IH]; [done|]. cbn [length read_words].
  rewrite fmap_cons. cbn [concat]. rewrite read_be8_app by done. cbn [rbind]. by rewrite IH.
Qed.

Lemma zlen_words ws : zlen (concat (be_enc 8 <$> ws)) = 8 * zlen ws.
Proof.
  induction ws as [|w ws IH]; [done|]. rewrite fmap_cons. cbn [concat]. len_lia.
Qed.

Lemma Decode_Encode b : ok b -> DecodeBloomFilter (Encode b) = Ok b.
Proof.
  intros Hok. destruct (ok_m b Hok) as [Hm0 Hm1], (ok_k b Hok) as [Hk0 Hk1].
  pose proof (ok_words b Hok) as Hw. unfold DecodeBloomFilter, Encode.
  rewrite !zlen_app, !zlen_be_enc, zlen_words. pose proof (zlen_nonneg (bits b)).
  destruct (Z.ltb_spec (Z.of_nat 8 + (Z.of_nat 8 + 8 * zlen (bits b))) 16); [lia|].
  rewrite read_be8_app by (unfold u64; lia). cbn [rbind].
  rewrite read_be8_app by (unfold u64; lia). cbn [rbind].
  rewrite zlen_words, (wrap64_small (m b + 63)), <- Hw by lia.
  rewrite (proj2 (Z.eqb_neq (k b) 0)), (proj2 (Z.eqb_neq (m b) 0)) by lia. cbn [orb].
  assert (zlen (bits b) < 2 ^ 58) as Hlt by (rewrite Hw; apply Z.div_lt_upper_bound; lia).
  rewrite (wrap64_small (zlen (bits b) * 8)) by lia.
  rewrite (proj2 (Z.eqb_eq (8 * zlen (bits b)) (zlen (bits b) * 8))) by lia. cbn [negb].
  rewrite zlen_to_nat, read_words_app by apply Hok. cbn [rbind]. by destruct b.
Qed.

End Bloom.

(** ** Partitioned filters ([partitioned_bloom.go]) *)
Module Partitioned.
Import Bloom.

Definition DefaultNamespaceSep : byte := byte_of 58.

Record PartitionedBloom := mkPB {
  sep : byte;
  n : Z;
  partitions : gmap bytes BloomFilter;
}.

Definition NewPartitionedBloom (sep : byte) (nPerPartition : Z) : PartitionedBloom :=
  mkPB sep nPerPartition ∅.

Definition splitNamespace (key : bytes) (sep : byte) : bytes * bytes :=
  match cut_byte sep key with
  | Some (ns, suffix) => (ns, suffix)
  | None => ([], key)
  end.

(** [counts[ns]++] over all keys. *)
Definition count_namespaces (keys : list bytes) (sep : byte) : gmap bytes Z :=
  foldl (fun counts key => let ns := (splitNamespace key sep).1 in
           <[ns := default 0 (counts !! ns) + 1]> counts) ∅ keys.

(** [pb.partitions[ns].Add(suf)]; [None] is the nil dereference. *)
Definition add_to (parts : gmap bytes BloomFilter) (key : bytes) (sep : byte)
    : option (gmap bytes BloomFilter) :=
  let '(ns, suf) := splitNamespace key sep in
  bf ← parts !! ns; bf ← Bloom.Add bf suf; Some (<[ns := bf]> parts).

Definition BuildPartitionedBloom `{BloomMath} (keys : list bytes) (sep : byte) : option PartitionedBloom :=
  let parts := NewBloomFilter <$> count_namespaces keys sep in
  parts ← foldl (fun parts key => parts ← parts; add_to parts key sep) (Some parts) keys;
  Some (mkPB sep (zlen keys) parts).

Definition Add `{BloomMath} (pb : PartitionedBloom) (key : bytes) : option PartitionedBloom :=
  let '(ns, suffix) := splitNamespace key (sep pb) in
  let bf := default (NewBloomFilter (n pb)) (partitions pb !! ns) in
  bf ← Bloom.Add bf suffix;
  Some (mkPB (sep pb) (n pb) (<[ns := bf]> (partitions pb))).

Definition MayContain (pb : PartitionedBloom) (key : bytes) : option bool :=
  let '(ns, suffix) := splitNamespace key (sep pb) in
  match partitions pb !! ns with
  | None => Some false
  | Some bf => Bloom.MayContain bf suffix
  end.

Definition encode_partition (p : bytes * BloomFilter) : bytes :=
  let enc := Bloom.Encode p.2 in
  be_enc 4 (zlen p.1) ++ p.1 ++ be_enc 4 (zlen enc) ++ enc.

(** The iteration order of a Go map is not specified: [order] is the one this run
    of the loop takes. *)
Definition Encode (pb : PartitionedBloom) (order : list (bytes * BloomFilter)) : bytes :=
  [sep pb] ++ be_enc 4 (Z.of_nat (size (partitions pb))) ++ concat (encode_partition <$> order).

Fixpoint read_partitions (count : nat) (r : bytes) (parts : gmap bytes BloomFilter)
    : result (gmap bytes BloomFilter) :=
  match count with
  | O => Ok parts
  | S count' =>
      let? (nsLen, r) := read_be 4 r in
      let? (ns, r) := read_full nsLen r in
      let? (bloomLen, r) := read_be 4 r in
      let? (bloomBytes, r) := read_full bloomLen r in
      let? bf := DecodeBloomFilter bloomBytes in
      read_partitions count' r (<[ns := bf]> parts)
  end.

Definition DecodePartitionedBloom (data : bytes) (nPerPartition : Z) : result PartitionedBloom :=
  if zlen data <? 5 then Error (Err "partitioned bloom: data too short") else
  match data with
  | [] => Error (Err "partitioned bloom: data too short")
  | sep :: r =>
      let? (partCount, r) := read_be 4 r in
      let? parts := read_partitions (Z.to_nat partCount) r ∅ in
      Ok (mkPB sep nPerPartition parts)
  end.

(** ** The invariant and what the filter promises *)

Definition pb_ok (parts : gmap bytes BloomFilter) : Prop := map_Forall (fun _ => ok) parts.

(** A key whose bits are all set in its partition. *)
Definition contains (parts : gmap bytes BloomFilter) (sep : byte) (key : bytes) : Prop :=
  exists bf, parts !! (splitNamespace key sep).1 = Some bf /\ has bf (splitNamespace key sep).2.

Lemma add_to_spec parts key sep :
  pb_ok parts -> is_Some (parts !! (splitNamespace key sep).1) ->
  exists parts', add_to parts key sep = Some parts' /\ pb_ok parts' /\ contains parts' sep key /\
    (forall ns, is_Some (parts !! ns) -> is_Some (parts' !! ns)) /\
    (forall key', contains parts sep key' -> contains parts' sep key').
Proof.
  intros Hok [bf Hbf]. unfold add_to, contains. destruct (splitNamespace key sep) as [ns suf]. cbn in *.
  rewrite Hbf. cbn. destruct (Add_spec bf suf) as (bf' & -> & Hok' & Hhas & Hmono); [by eapply Hok|]. cbn.
  exists (<[ns := bf']> parts). split_and!; [done| | | |].
  - by apply map_Forall_insert_2.
  - exists bf'. by rewrite lookup_insert_eq.
  - intros ns' [bf1 H1]. destruct (decide (ns = ns')) as [->|?]; [rewrite lookup_insert_eq|rewrite lookup_insert_ne by done]; eauto.
  - intros key' (bf1 & H1 & H2). destruct (decide (ns = (splitNamespace key' sep).1)) as [Heq|Hne].
    + exists bf'. rewrite Heq, lookup_insert_eq. split; [done|]. apply Hmono.
      rewrite <- Heq, Hbf in H1. by injection H1 as ->.
    + exists bf1. by rewrite lookup_insert_ne.
Qed.

Lemma add_all_spec keys sep parts :
  pb_ok parts -> (forall key, key ∈ keys -> is_Some (parts !! (splitNamespace key sep).1)) ->
  exists parts', foldl (fun parts key => parts ← parts; add_to parts key sep) (Some parts) keys = Some parts' /\
    pb_ok parts' /\ (forall key, contains parts sep key -> contains parts' sep key) /\
    (forall key, key ∈ keys -> contains parts' sep key).
Proof.
  revert parts. induction keys as [|key keys IH]; intros parts Hok Hns; cbn [foldl].
  { exists parts. split_and!; auto. by intros ? ?%elem_of_nil. }
  cbn [mbind option_bind].
  destruct (add_to_spec parts key sep Hok) as (p1 & -> & Hok1 & Hk & Hkeep & Hmono); [apply Hns; left|].
  destruct (IH p1 Hok1) as (p' & -> & Hok' & Hmono' & Hall); [intros key' ?; apply Hkeep, Hns; by right|].
  exists p'. split_and!; auto. intros key' [->|?]%elem_of_cons; auto.
Qed.

Lemma count_namespaces_has keys sep key :
  key ∈ keys -> is_Some (count_namespaces keys sep !! (splitNamespace key sep).1).
Proof.
  unfold count_namespaces. induction keys as [|k' keys IH] using rev_ind; [by intros ?%elem_of_nil|].
  rewrite foldl_app. cbn. set (counts := foldl _ ∅ keys) in *. set (ns := (splitNamespace k' sep).1).
  intros [Hin|Heq%list_elem_of_singleton]%elem_of_app.
  - destruct (decide (ns = (splitNamespace key sep).1)) as [->|Hne];
      [rewrite lookup_insert_eq; by eexists|rewrite lookup_insert_ne by done; auto].
  - rewrite Heq. fold ns. rewrite lookup_insert_eq. by eexists.
Qed.

Lemma Build_spec `{BloomMathLaws} keys sp :
  exists pb, BuildPartitionedBloom keys sp = Some pb /\ sep pb = sp /\ pb_ok (partitions pb) /\
    forall key, key ∈ keys -> contains (partitions pb) sp key.
Proof.
  unfold BuildPartitionedBloom.
  destruct (add_all_spec keys sp (NewBloomFilter <$> count_namespaces keys sp)) as (p & -> & Hok & _ & Hall).
  - intros ns bf. rewrite lookup_fmap, fmap_Some. intros (c & _ & ->). apply New_ok.
  - intros key Hin. rewrite lookup_fmap. destruct (count_namespaces_has keys sp key Hin) as [c ->]. by eexists.
  - eexists. split; [done|]. done.
Qed.

Lemma MayContain_contains pb key :
  pb_ok (partitions pb) -> contains (partitions pb) (sep pb) key -> MayContain pb key = Some true.
Proof.
  intros Hok (bf & Hbf & Hhas). unfold MayContain. destruct (splitNamespace key (sep pb)) as [ns suf]. cbn in *.
  rewrite Hbf. destruct (MayContain_spec bf suf) as (r & -> & Hr); [by eapply Hok|].
  by rewrite (proj2 Hr Hhas).
Qed.

(** A lookup never panics on a well-formed filter. *)
Lemma MayContain_total pb key : pb_ok (partitions pb) -> is_Some (MayContain pb key).
Proof.
  intros Hok. unfold MayContain. destruct (splitNamespace key (sep pb)) as [ns suf].
  destruct (partitions pb !! ns) as [bf|] eqn:E; [|by eexists].
  destruct (MayContain_spec bf suf) as (r & -> & _); [by eapply Hok|by eexists].
Qed.

(** Sizes that fit the format. *)
Definition encodable (pb : PartitionedBloom) : Prop :=
  pb_ok (partitions pb) /\ u32 (Z.of_nat (size (partitions pb))) /\
  map_Forall (fun ns bf => u32 (zlen ns) /\ u32 (zlen (Bloom.Encode bf))) (partitions pb).

Lemma read_partitions_app order parts :
  (forall ns bf, (ns, bf) ∈ order -> ok bf /\ u32 (zlen ns) /\ u32 (zlen (Bloom.Encode bf))) ->
  read_partitions (length order) (concat (encode_partition <$> order)) parts =
    Ok (foldl (fun m p => <[p.1 := p.2]> m) parts order).
Proof.
  revert parts. induction order as [|[ns bf] order IH]; intros parts Hall; [done|].
  cbn [length read_partitions]. rewrite fmap_cons. cbn [concat].
  destruct (Hall ns bf) as (Hok & Hns & Henc); [left|].
  unfold encode_partition at 1. cbn [fst snd]. rewrite <- !app_assoc.
  rewrite read_be4_app by done. cbn [rbind]. rewrite read_full_app by done. cbn [rbind].
  rewrite read_be4_app by done. cbn [rbind]. rewrite read_full_app by done. cbn [rbind].
  rewrite Decode_Encode by done. cbn [rbind]. rewrite IH; [done|]. intros ? ? ?. apply Hall. by right.
Qed.

Lemma foldl_insert_list_to_map (order : list (bytes * BloomFilter)) :
  NoDup order.*1 -> forall m : gmap bytes BloomFilter,
  foldl (fun m p => <[p.1 := p.2]> m) m order = list_to_map order ∪ m.
Proof.
  intros Hnd m. revert m. induction order as [|[ns bf] order IH]; intros m; cbn; [by rewrite (left_id_L ∅ _)|].
  apply NoDup_cons in Hnd as [Hni Hnd]. rewrite IH by done.
  rewrite <- insert_union_r; [by rewrite insert_union_l|].
  by apply not_elem_of_list_to_map_1.
Qed.

Lemma Decode_Encode_pb pb order np :
  encodable pb -> order ≡ₚ map_to_list (partitions pb) ->
  DecodePartitionedBloom (Encode pb order) np = Ok (mkPB (sep pb) np (partitions pb)).
Proof.
  intros (Hok & Hsz & Hall) Hord. unfold DecodePartitionedBloom, Encode.
  pose proof (zlen_nonneg (concat (encode_partition <$> order))).
  rewrite !zlen_app, zlen_be_enc. cbn [app].
  destruct (Z.ltb_spec (zlen [sep pb] + (Z.of_nat 4 + zlen (concat (encode_partition <$> order)))) 5) as [Hlt|_];
    [rewrite zlen_cons in Hlt; pose proof (zlen_nonneg (@nil byte)); lia|].
  rewrite read_be4_app by done. cbn [rbind].
  assert (length order = size (partitions pb)) as Hlen by (by rewrite Hord, length_map_to_list).
  rewrite Nat2Z.id, <- Hlen, read_partitions_app; cbn [rbind].
  - do 2 f_equal. rewrite foldl_insert_list_to_map, (right_id_L ∅ _).
    + rewrite <- (list_to_map_to_list (partitions pb)). symmetry.
      apply list_to_map_proper; [apply NoDup_fst_map_to_list|by symmetry].
    + rewrite Hord. apply NoDup_fst_map_to_list.
  - intros ns bf Hin. rewrite Hord, elem_of_map_to_list in Hin.
    split; [by eapply Hok|by apply (Hall ns bf)].
Qed.

(** A blob of moderate size has only fields that fit. *)
Lemma encodable_small pb order :
  pb_ok (partitions pb) -> order ≡ₚ map_to_list (partitions pb) -> zlen (Encode pb order) < 2 ^ 32 ->
  encodable pb.
Proof.
  intros Hok Hord Hlen. unfold Encode in Hlen. rewrite !zlen_app, zlen_be_enc in Hlen.
  assert (forall l : list (bytes * BloomFilter),
    zlen l <= zlen (concat (encode_partition <$> l)) /\
    forall ns bf, (ns, bf) ∈ l -> zlen ns <= zlen (concat (encode_partition <$> l)) /\
      zlen (Bloom.Encode bf) <= zlen (concat (encode_partition <$> l))) as Hl.
  { induction l as [|[ns bf] l [IH1 IH2]]; [split; [done|by intros ? ? ?%elem_of_nil]|].
    rewrite fmap_cons. cbn [concat].
    assert (zlen (encode_partition (ns, bf)) = 8 + zlen ns + zlen (Bloom.Encode bf)) as He
      by (unfold encode_partition; cbn [fst snd]; len_lia).
    pose proof (zlen_nonneg ns). pose proof (zlen_nonneg (Bloom.Encode bf)).
    pose proof (zlen_nonneg (concat (encode_partition <$> l))).
    rewrite zlen_app, zlen_cons, He. split; [lia|].
    intros ns' bf' [[= -> ->]|Hin]%elem_of_cons; [lia|]. apply IH2 in Hin. lia. }
  destruct (Hl order) as [H1 H2]. pose proof (zlen_nonneg [sep pb]). split_and!; [done| |].
  - rewrite <- length_map_to_list, <- Hord. unfold u32, zlen in *. lia.
  - intros ns bf Hbf. destruct (H2 ns bf) as [H3 H4]; [by rewrite Hord, elem_of_map_to_list|].
    pose proof (zlen_nonneg ns). pose proof (zlen_nonneg (Bloom.Encode bf)). unfold u32. lia.
Qed.

(** C27: a table's bloom filter never hides a stored key: the partitioned filter
    built from any list of keys is built without panicking and answers
    [MayContain] for each of them, also after it was encoded (in whatever order
    Go iterates its map) and decoded again. *)
Theorem bloom_no_false_negative `{BloomMathLaws} (keys : list bytes) (sp : byte) (np : Z) :
  exists pb, BuildPartitionedBloom keys sp = Some pb /\
    (forall key, key ∈ keys -> MayContain pb key = Some true) /\
    (forall key, is_Some (MayContain pb key)) /\
    (encodable pb -> forall order, order ≡ₚ map_to_list (partitions pb) ->
       exists pb', DecodePartitionedBloom (Encode pb order) np = Ok pb' /\
         (forall key, MayContain pb' key = MayContain pb key) /\
         (forall key, key ∈ keys -> MayContain pb' key = Some true)).
Proof.
  destruct (Build_spec keys sp) as (pb & Hpb & Hsep & Hok & Hall). exists pb.
  assert (forall key, key ∈ keys -> MayContain pb key = Some true) as Hmay
    by (intros key Hin; apply MayContain_contains; [done|rewrite Hsep; auto]).
  split_and!; [done|done|intros; by apply MayContain_total|].
  intros Henc order Hord. exists (mkPB (sep pb) np (partitions pb)).
  split; [by apply Decode_Encode_pb|]. done.
Qed.

(** A sizing: ten bits per key and seven probes. *)
Definition sample_math : BloomMath :=
  {| optimal_m := fun n => Z.min (Z.max 0 (10 * n)) (2 ^ 62); optimal_k := fun _ _ => 7 |}.

Lemma sample_math_laws : @BloomMathLaws sample_math.
Proof. split; intros; cbn [optimal_m optimal_k sample_math]; lia. Qed.

Lemma bloom_no_false_negative_witness :
  let keys := [of_string "log:1"; of_string "order:2"; of_string "plain"] in
  exists pb, @BuildPartitionedBloom sample_math keys DefaultNamespaceSep = Some pb /\
    (forall key, key ∈ keys -> MayContain pb key = Some true) /\
    (forall key, is_Some (MayContain pb key)) /\
    (encodable pb -> forall order, order ≡ₚ map_to_list (partitions pb) ->
       exists pb', DecodePartitionedBloom (Encode pb order) 3 = Ok pb' /\
         (forall key, MayContain pb' key = MayContain pb key) /\
         (forall key, key ∈ keys -> MayContain pb' key = Some true)).
Proof. intros keys. apply (@bloom_no_false_negative sample_math sample_math_laws keys). Defined.

(** The filter does reject keys, of unknown namespaces and within a known one. *)
Example bloom_rejects :
  (pb ← @BuildPartitionedBloom sample_math [of_string "log:1"; of_string "log:2"] DefaultNamespaceSep;
   a ← MayContain pb (of_string "order:1"); b ← MayContain pb (of_string "log:3"); Some (a, b))
  = Some (false, false).
Proof. vm_compute. reflexivity. Qed.

(** A filter whose size wraps the word count decodes without an error and panics
    on its first query. *)
Example decode_huge_m_panics :
  (match DecodeBloomFilter (be_enc 8 (2 ^ 64 - 1) ++ be_enc 8 1) with
   | Ok b => Some (Bloom.MayContain b (of_string "x"))
   | Error _ => None
   end) = Some None.
Proof. vm_compute. reflexivity. Qed.

End Partitioned.
