(* ===== verification/SSTable.v ===== *)
(** Sorted tables on disk: [storage/zstorage/SSTable.go], the per-file iterator
    of [iterator.go] and [SSTableMata.EnsureMeta] of [storage/istorage/Entry.go]. *)
From S2P Require Import Prelude Bytes Strconv SkipList Bloom.
Import Partitioned.

Module SSTable.

Definition SSTableBlockSize : nat := 64.
Definition indexFooterMagic : Z := 1229211718. (* 0x49445846 *)
Definition indexFooterSize : Z := 16.
Definition bloomTrailerMagic : Z := 1112296774. (* 0x424c4d46 *)
Definition bloomTrailerSize : Z := 12.
Definition maxBloomSectionBytes : Z := 1073741824.
Definition tombstoneValLen : Z := 4294967295.

Record BlockIndexEntry := mkBlk { LastKey : bytes; BlockOffset : Z }.

(** [istorage.SSTableMata]; [ident] is the pointer, [ensured] the [sync.Once]. *)
Record SSTableMata := mkMeta {
  ident : nat;
  Level : Z;
  Filepath : bytes;
  MinKey : bytes;
  MaxKey : bytes;
  Size : Z;
  ensured : bool;
  MaxKeyLoaded : bool;
}.

(** The table list, the caches and the files of the directory [config.G.SSTablePath]
    (paths are names in it); [next_ident] allocates pointers. *)
Record SSTable := mkSS {
  mata : list SSTableMata;
  indexCache : gmap bytes (list BlockIndexEntry);
  bloomCache : gmap bytes (option PartitionedBloom);
  files : gmap bytes bytes;
  next_ident : nat;
}.

Definition NewSSTable (disk : gmap bytes bytes) : SSTable := mkSS [] ∅ ∅ disk 0%nat.

Definition set_mata (ss : SSTable) (m : list SSTableMata) : SSTable :=
  mkSS m (indexCache ss) (bloomCache ss) (files ss) (next_ident ss).
Definition set_index (ss : SSTable) (p : bytes) (idx : list BlockIndexEntry) : SSTable :=
  mkSS (mata ss) (<[p := idx]> (indexCache ss)) (bloomCache ss) (files ss) (next_ident ss).
Definition set_bloom (ss : SSTable) (p : bytes) (pb : option PartitionedBloom) : SSTable :=
  mkSS (mata ss) (indexCache ss) (<[p := pb]> (bloomCache ss)) (files ss) (next_ident ss).
Definition set_file (ss : SSTable) (p : bytes) (f : bytes) : SSTable :=
  mkSS (mata ss) (indexCache ss) (bloomCache ss) (<[p := f]> (files ss)) (next_ident ss).

(** ** Writing *)

Definition encode_value (v : option bytes) : bytes :=
  match v with
  | None => be_enc 4 tombstoneValLen
  | Some v => be_enc 4 (zlen v) ++ v
  end.
Definition encode_entry (e : entry) : bytes := be_enc 4 (zlen e.1) ++ e.1 ++ encode_value e.2.

(** One turn of the write loop: the entry's number, the data so far and the
    blocks. *)
Definition write_entry (acc : nat * bytes * list BlockIndexEntry) (e : entry)
    : nat * bytes * list BlockIndexEntry :=
  let '(i, buf, blockIdx) := acc in
  let bi := (i / SSTableBlockSize)%nat in
  let blockIdx := if (i mod SSTableBlockSize =? 0)%nat
                  then blockIdx ++ [mkBlk [] (zlen buf)] else blockIdx in
  let blockIdx := alter (fun b => mkBlk e.1 (BlockOffset b)) bi blockIdx in
  (S i, buf ++ encode_entry e, blockIdx).

Definition write_entries (entries : list entry) : nat * bytes * list BlockIndexEntry :=
  foldl write_entry (0%nat, [], []) entries.

Definition encode_blk (b : BlockIndexEntry) : bytes :=
  be_enc 4 (zlen (LastKey b)) ++ LastKey b ++ be_enc 8 (BlockOffset b).

Definition encode_index (blockIdx : list BlockIndexEntry) : bytes := concat (encode_blk <$> blockIdx).

Definition bloom_section (blob : bytes) : bytes := blob ++ be_enc 8 (zlen blob) ++ be_enc 4 bloomTrailerMagic.

Definition footer (blockCount indexStart : Z) : bytes :=
  be_enc 4 blockCount ++ be_enc 8 indexStart ++ be_enc 4 indexFooterMagic.

Definition file_of (buf : bytes) (blockIdx : list BlockIndexEntry) (blob : bytes) : bytes :=
  buf ++ encode_index blockIdx ++ bloom_section blob ++ footer (zlen blockIdx) (zlen buf).

(** What the checked system calls of one write do: all succeed, or the first
    failing one, with the bytes that reached the file. *)
Inductive io_result :=
  | IOFine
  | IOMkdirFails
  | IOCreateFails
  | IODataFails (written : nat)
  | IOBloomFails (written : nat)
  | IOSyncFails
  | IOStatFails.

(** The nondeterminism of a write: the clock ([time.Now().UnixNano()]), the
    iteration order of the bloom's map and the system calls. *)
Record world := mkWorld {
  now : Z;
  order : PartitionedBloom -> list (bytes * Bloom.BloomFilter);
  io : io_result;
}.

Definition sstName (now : Z) : bytes := of_string "sstable_" ++ FormatInt now ++ of_string ".sst".
Definition mergedName (now : Z) : bytes := of_string "sstable_merged_" ++ FormatInt now ++ of_string ".sst".

Definition AddMata (ss : SSTable) (meta : SSTableMata) : SSTable :=
  mkSS (mata ss ++ [meta]) (indexCache ss) (bloomCache ss) (files ss) (S (next_ident ss)).

(** The tail both writers share, from the block index on: [fullPath] holds the
    data; level and key range of the new table. *)
Definition finish_write `{BloomMath} (w : world) (ss : SSTable) (fullPath : bytes) (buf : bytes)
    (blockIdx : list BlockIndexEntry) (keys : list bytes) (level : Z) (minKey maxKey : bytes)
    : option (SSTable * result unit) :=
  pb ← BuildPartitionedBloom keys DefaultNamespaceSep;
  let blob := Encode pb (order w pb) in
  match io w with
  | IOBloomFails n =>
      Some (set_file ss fullPath (buf ++ encode_index blockIdx ++ take n (bloom_section blob)), Error (Err "write"))
  | _ =>
      let f := file_of buf blockIdx blob in
      let ss := set_index (set_file ss fullPath f) fullPath blockIdx in
      match io w with
      | IOSyncFails => Some (ss, Error (Err "sync SSTable file failed"))
      | _ =>
          let ss := set_bloom ss fullPath (Some pb) in
          match io w with
          | IOStatFails => Some (ss, Error (Err "stat SSTable file failed"))
          | _ => Some (AddMata ss (mkMeta (next_ident ss) level fullPath minKey maxKey (zlen f) false true), Ok tt)
          end
      end
  end.

Definition WriteToSSTable `{BloomMath} (w : world) (ss : SSTable) (entries : list entry)
    : option (SSTable * result unit) :=
  match entries with
  | [] => Some (ss, Error (Err "dont keep"))
  | e0 :: _ =>
      let fullPath := sstName (now w) in
      match io w with
      | IOMkdirFails => Some (ss, Error (Err "create data directory failed"))
      | IOCreateFails => Some (ss, Error (Err "create SSTable file failed"))
      | IODataFails n =>
          let '(_, buf, _) := write_entries entries in
          Some (set_file ss fullPath (take n buf), Error (Err "write"))
      | _ =>
          let '(_, buf, blockIdx) := write_entries entries in
          finish_write w (set_file ss fullPath buf) fullPath buf blockIdx (fst <$> entries) 0
            e0.1 (default [] (fst <$> last entries))
      end
  end.

(** ** Reading whole files *)

(** [f.Seek(-n, io.SeekEnd)]. *)
Definition seek_end (n : Z) (f : bytes) : option bytes :=
  if zlen f <? n then None else Some (drop (Z.to_nat (zlen f - n)) f).

(** An unchecked [binary.Read] leaves its variable zero. *)
Definition read_footer (s : bytes) : Z * Z * Z :=
  match read_be 4 s with
  | Error _ => (0, 0, 0)
  | Ok (blockCount, s) =>
      match read_i64 s with
      | Error _ => (blockCount, 0, 0)
      | Ok (indexOffset, s) =>
          match read_be 4 s with
          | Error _ => (blockCount, indexOffset, 0)
          | Ok (magic, _) => (blockCount, indexOffset, magic)
          end
      end
  end.

(** [sstableDataEnd] of iterator.go. *)
Definition sstableDataEnd (f : bytes) : Z :=
  match seek_end indexFooterSize f with
  | None => -1
  | Some s =>
      let '(blockCount, indexOffset, magic) := read_footer s in
      if (magic =? indexFooterMagic) && (0 <? blockCount) && (0 <? indexOffset) then indexOffset else -1
  end.

(** The rest of a record behind its key length. *)
Definition read_record (keyLen : Z) (s : bytes) : result (entry * bytes) :=
  let? (key, s) := read_full keyLen s in
  let? (valueLen, s) := read_be 4 s in
  if valueLen =? tombstoneValLen then Ok ((key, None), s) else
  let? (value, s) := read_full valueLen s in Ok ((key, Some value), s).

(** The loop of [ReadAllFromSSTable]; [f] is the file, [s] what is left of it.
    A record takes eight bytes, so the length of the file bounds the turns. *)
Fixpoint read_all (fuel : nat) (f s : bytes) (dataEnd : Z) (entries : list entry) : result (list entry) :=
  match fuel with
  | O => Ok entries
  | S fuel' =>
      if (0 <? dataEnd) && (dataEnd <=? zlen f - zlen s) then Ok entries else
      match read_be 4 s with
      | Error EOF => Ok entries
      | Error _ => Error (Err "failed to read key length")
      | Ok (keyLen, s) =>
          match read_record keyLen s with
          | Error e => Error e
          | Ok (e, s) => read_all fuel' f s dataEnd (entries ++ [e])
          end
      end
  end.

Definition ReadAllFromSSTable (ss : SSTable) (filepath : bytes) : result (list entry) :=
  match files ss !! filepath with
  | None => Error (Err "open")
  | Some f => read_all (S (length f)) f f (sstableDataEnd f) []
  end.

(** ** Point lookups *)

Definition loadBloomFromFile (ss : SSTable) (filepath : bytes) : option PartitionedBloom :=
  f ← files ss !! filepath;
  s ← seek_end (indexFooterSize + bloomTrailerSize) f;
  match (let? (bloomLen, s) := read_be 8 s in let? (magic, s) := read_be 4 s in Ok (bloomLen, magic)) with
  | Error _ => None
  | Ok (bloomLen, magic) =>
      if negb (magic =? bloomTrailerMagic) || (bloomLen =? 0) || (maxBloomSectionBytes <? bloomLen)
      then None else
      s ← seek_end (indexFooterSize + bloomTrailerSize + bloomLen) f;
      match (let? (blob, _) := read_full bloomLen s in DecodePartitionedBloom blob 0) with
      | Error _ => None
      | Ok pb => Some pb
      end
  end.

Definition getBloom (ss : SSTable) (filepath : bytes) : SSTable * option PartitionedBloom :=
  match bloomCache ss !! filepath with
  | Some pb => (ss, pb)
  | None => let pb := loadBloomFromFile ss filepath in (set_bloom ss filepath pb, pb)
  end.

Fixpoint read_index (count : nat) (s : bytes) : option (list BlockIndexEntry) :=
  match count with
  | O => Some []
  | S count' =>
      match (let? (keyLen, s) := read_be 4 s in
             let? (key, s) := read_full keyLen s in
             let? (offset, s) := read_i64 s in Ok (mkBlk key offset, s)) with
      | Error _ => None
      | Ok (b, s) => idx ← read_index count' s; Some (b :: idx)
      end
  end.

(** [f.Seek(off, io.SeekStart)]; past the end is allowed, negative is not. *)
Definition seek_start (off : Z) (f : bytes) : option bytes :=
  if off <? 0 then None else Some (if off <? zlen f then drop (Z.to_nat off) f else []).

Definition loadBlockIndexFromFile (ss : SSTable) (filepath : bytes) : option (list BlockIndexEntry) :=
  f ← files ss !! filepath;
  s ← seek_end indexFooterSize f;
  let '(blockCount, indexOffset, magic) := read_footer s in
  if negb (magic =? indexFooterMagic) || (blockCount =? 0) || (indexOffset <=? 0) then None else
  s ← seek_start indexOffset f;
  read_index (Z.to_nat blockCount) s.

(** A file without an index is looked up again every time. *)
Definition getBlockIndex (ss : SSTable) (filepath : bytes) : SSTable * option (list BlockIndexEntry) :=
  match indexCache ss !! filepath with
  | Some idx => (ss, Some idx)
  | None =>
      match loadBlockIndexFromFile ss filepath with
      | None => (ss, None)
      | Some idx => (set_index ss filepath idx, Some idx)
      end
  end.

(** The binary search of [searchBlock] over [idx[lo..hi]]; the interval halves,
    so [hi - lo] turns are enough. *)
Fixpoint bsearch (fuel : nat) (idx : list BlockIndexEntry) (key : bytes) (lo hi : Z) : option Z :=
  match fuel with
  | O => Some lo
  | S fuel' =>
      if lo <? hi then
        let mid := (lo + hi) / 2 in
        b ← idx !! Z.to_nat mid;
        if decide (ble key (LastKey b)) then bsearch fuel' idx key lo mid
        else bsearch fuel' idx key (mid + 1) hi
      else Some lo
  end.

(** The scan inside a block: at most [SSTableBlockSize] records.  The result is
    the value (nil for a tombstone) when the key is found. *)
Fixpoint scan_block (j : nat) (s : bytes) (key : bytes) : option (option bytes) :=
  match j with
  | O => None
  | S j' =>
      match (let? (kLen, s) := read_be 4 s in read_record kLen s) with
      | Error _ => None
      | Ok ((k, v), s) =>
          match bcompare k key with
          | Eq => Some v
          | Gt => None
          | Lt => scan_block j' s key
          end
      end
  end.

Definition searchBlock (ss : SSTable) (filepath : bytes) (key : bytes) (idx : list BlockIndexEntry)
    : option (option (option bytes)) :=
  lo ← bsearch (length idx) idx key 0 (zlen idx - 1);
  if zlen idx <=? lo then Some None else
  match files ss !! filepath with
  | None => Some None
  | Some f =>
      b ← idx !! Z.to_nat lo;
      match seek_start (BlockOffset b) f with
      | None => Some None
      | Some s => Some (scan_block SSTableBlockSize s key)
      end
  end.

Definition readFromSSTableFull (ss : SSTable) (filepath : bytes) (key : bytes) : option (option bytes) :=
  match ReadAllFromSSTable ss filepath with
  | Error _ => None
  | Ok entries => find key entries
  end.

(** The table (its caches may have grown) and the value when found. *)
Definition ReadFromSSTable (ss : SSTable) (filepath : bytes) (key : bytes)
    : option (SSTable * option (option bytes)) :=
  let '(ss, bloom) := getBloom ss filepath in
  may ← (match bloom with Some pb => MayContain pb key | None => Some true end);
  if negb may then Some (ss, None) else
  let '(ss, idx) := getBlockIndex ss filepath in
  match idx with
  | Some idx => r ← searchBlock ss filepath key idx; Some (ss, r)
  | None => Some (ss, readFromSSTableFull ss filepath key)
  end.

(** ** The table list *)

Definition GetAllMata (ss : SSTable) : list SSTableMata := mata ss.

Definition GetLevelFiles (ss : SSTable) (level : Z) : list SSTableMata :=
  filter (fun meta => Level meta = level) (mata ss).

(** Removes the first occurrence of the pointer. *)
Fixpoint remove_meta (target : SSTableMata) (l : list SSTableMata) : list SSTableMata :=
  match l with
  | [] => []
  | m :: l' => if (ident m =? ident target)%nat then l' else m :: remove_meta target l'
  end.
Definition RemoveMata (ss : SSTable) (target : SSTableMata) : SSTable :=
  set_mata ss (remove_meta target (mata ss)).

Definition DeleteSSTable (ss : SSTable) (meta : SSTableMata) : SSTable :=
  mkSS (mata ss) (delete (Filepath meta) (indexCache ss)) (delete (Filepath meta) (bloomCache ss))
    (delete (Filepath meta) (files ss)) (next_ident ss).

(** The loop of [EnsureMeta]: the last key whose record was skipped over. *)
Fixpoint last_key (fuel : nat) (s : bytes) (maxKey : bytes) : bytes :=
  match fuel with
  | O => maxKey
  | S fuel' =>
      match (let? (keyLen, s) := read_be 4 s in
             let? (key, s) := read_full keyLen s in
             let? (valueLen, s) := read_be 4 s in
             Ok (key, if valueLen <? zlen s then drop (Z.to_nat valueLen) s else [])) with
      | Error _ => maxKey
      | Ok (key, s) => last_key fuel' s key
      end
  end.

Definition EnsureMeta (disk : gmap bytes bytes) (meta : SSTableMata) : SSTableMata :=
  if ensured meta then meta else
  let done max loaded := mkMeta (ident meta) (Level meta) (Filepath meta) (MinKey meta) max (Size meta) true loaded in
  if MaxKeyLoaded meta then done (MaxKey meta) true else
  match disk !! Filepath meta with
  | None => done (MaxKey meta) false
  | Some f => done (last_key (S (length f)) f []) true
  end.

(** [filepath.Ext(name) == ".sst"]. *)
Definition is_sst (name : bytes) : bool :=
  match trim_suffix (of_string ".sst") name with Some _ => true | None => false end.

(** One directory entry of [LoadSSTableMetaList]. *)
Definition load_meta (p : bytes * bytes) : option SSTableMata :=
  if negb (is_sst p.1) then None else
  match (let? (keyLen, s) := read_be 4 p.2 in read_full keyLen s) with
  | Error _ => None
  | Ok (key, _) => Some (mkMeta 0 0 p.1 key [] (zlen p.2) false false)
  end.

Definition path_le (a b : SSTableMata) : Prop := ble (Filepath a) (Filepath b).
#[export] Instance path_le_dec a b : Decision (path_le a b).
Proof. unfold path_le. apply _. Defined.

(** The list replaces the current one; the index and the bloom of every file are
    warmed, the key ranges completed ([EnsureMeta]) in the background. *)
Definition LoadSSTableMetaList (ss : SSTable) : SSTable :=
  let metas := merge_sort path_le (omap load_meta (map_to_list (files ss))) in
  let metas := imap (fun i m => mkMeta (next_ident ss + i) (Level m) (Filepath m) (MinKey m) (MaxKey m)
                                  (Size m) (ensured m) (MaxKeyLoaded m)) metas in
  let ss := mkSS metas (indexCache ss) (bloomCache ss) (files ss) (next_ident ss + length metas) in
  foldl (fun ss m => (getBloom (getBlockIndex ss (Filepath m)).1 (Filepath m)).1) ss metas.

(** ** The data section and its blocks *)

Definition data (es : list entry) : bytes := concat (encode_entry <$> es).

Lemma data_app a b : data (a ++ b) = data a ++ data b.
Proof. unfold data. by rewrite fmap_app, concat_app. Qed.

Lemma data_cons e es : data (e :: es) = encode_entry e ++ data es.
Proof. done. Qed.

(** Block [b]: the last key of entries [64b .. 64b+63] and where they start. *)
Definition blk_at (es : list entry) (b : nat) : BlockIndexEntry :=
  mkBlk (default [] (fst <$> last (take (SSTableBlockSize * S b) es)))
        (zlen (data (take (SSTableBlockSize * b) es))).

Definition nblocks (n : nat) : nat := ((n + 63) / SSTableBlockSize)%nat.

Definition index_of (es : list entry) : list BlockIndexEntry := blk_at es <$> seq 0 (nblocks (length es)).

Lemma blk_at_app es e b :
  (SSTableBlockSize * S b <= length es)%nat -> blk_at (es ++ [e]) b = blk_at es b.
Proof. intros H. unfold blk_at. unfold SSTableBlockSize in *. by rewrite !take_app_le by lia. Qed.

Lemma index_of_snoc es e :
  index_of (es ++ [e]) =
    alter (fun b => mkBlk e.1 (BlockOffset b)) (length es / SSTableBlockSize)%nat
      (if (length es mod SSTableBlockSize =? 0)%nat
       then index_of es ++ [mkBlk [] (zlen (data es))] else index_of es).
Proof.
  unfold index_of. rewrite length_app. cbn [length].
  set (n := length es). set (q := (n / SSTableBlockSize)%nat).
  pose proof (Nat.div_mod_eq n SSTableBlockSize) as Hdm. fold q in Hdm.
  pose proof (Nat.mod_upper_bound n SSTableBlockSize ltac:(done)) as Hmod.
  assert (nblocks (n + 1) = S q) as ->.
  { unfold nblocks, q, SSTableBlockSize in *.
    replace (n + 1 + 63)%nat with (n + 1 * 64)%nat by lia. rewrite Nat.div_add by lia. lia. }
  assert (blk_at (es ++ [e]) <$> seq 0 q = blk_at es <$> seq 0 q) as Hold.
  { apply list_fmap_ext. intros i b [-> Hb]%lookup_seq. cbn. apply blk_at_app. fold n.
    unfold SSTableBlockSize in *. lia. }
  assert (blk_at (es ++ [e]) q = mkBlk e.1 (zlen (data (take (SSTableBlockSize * q) es)))) as Hnew.
  { unfold blk_at. rewrite take_ge by (rewrite length_app; cbn [length]; fold n; unfold SSTableBlockSize in *; lia).
    rewrite last_snoc. cbn [fmap option_fmap option_map default]. f_equal.
    rewrite take_app_le by (fold n; unfold SSTableBlockSize in *; lia). done. }
  rewrite seq_S, fmap_app, Hold. cbn [Nat.add fmap list_fmap]. rewrite Hnew.
  destruct (Nat.eqb_spec (n mod SSTableBlockSize) 0) as [Hz|Hnz].
  - assert (nblocks n = q) as ->.
    { unfold nblocks. replace (n + 63)%nat with (63 + q * SSTableBlockSize)%nat by lia.
      by rewrite Nat.div_add. }
    rewrite alter_app_r_alt by (by rewrite length_fmap, length_seq).
    rewrite length_fmap, length_seq, Nat.sub_diag. cbn [alter list_alter BlockOffset].
    rewrite (take_ge es); [done|]. fold n. lia.
  - assert (nblocks n = S q) as ->.
    { unfold nblocks, SSTableBlockSize in *.
      replace (n + 63)%nat with ((n mod 64 - 1) + S q * 64)%nat by lia.
      rewrite Nat.div_add, Nat.div_small by lia. done. }
    rewrite seq_S, fmap_app. rewrite alter_app_r_alt by (by rewrite length_fmap, length_seq).
    rewrite length_fmap, length_seq, Nat.sub_diag. done.
Qed.

Lemma write_entries_spec es : write_entries es = (length es, data es, index_of es).
Proof.
  unfold write_entries. induction es as [|e es IH] using rev_ind; [done|].
  rewrite foldl_app, IH, index_of_snoc, length_app, data_app. cbn [foldl write_entry length].
  rewrite Nat.add_1_r. unfold data at 4. cbn [fmap list_fmap concat]. by rewrite app_nil_r.
Qed.

(** ** Reading records back *)

(** Lengths that fit the format; the sentinel is not a length. *)
Definition entry_ok (e : entry) : Prop :=
  u32 (zlen e.1) /\ match e.2 with Some v => zlen v < tombstoneValLen | None => True end.

Lemma read_record_entry e rest :
  entry_ok e -> read_record (zlen e.1) (e.1 ++ encode_value e.2 ++ rest) = Ok (e, rest).
Proof.
  intros [Hk Hv]. unfold read_record. rewrite read_full_app by done. cbn [rbind].
  destruct e as [k [v|]]; cbn [fst snd encode_value] in *.
  - pose proof (zlen_nonneg v). rewrite <- app_assoc.
    rewrite read_be4_app by (unfold u32, tombstoneValLen in *; lia). cbn [rbind].
    destruct (Z.eqb_spec (zlen v) tombstoneValLen); [lia|].
    by rewrite read_full_app.
  - by rewrite read_be4_app by (unfold u32, tombstoneValLen in *; lia).
Qed.

Lemma read_entry e rest :
  entry_ok e ->
  (let? (kLen, s) := read_be 4 (encode_entry e ++ rest) in read_record kLen s) = Ok (e, rest).
Proof.
  intros He. unfold encode_entry. rewrite <- !app_assoc, read_be4_app by apply He. cbn [rbind].
  by apply read_record_entry.
Qed.

Lemma zlen_encode_entry e : 8 <= zlen (encode_entry e).
Proof.
  unfold encode_entry, encode_value. destruct e as [k [v|]]; cbn [fst snd];
    pose proof (zlen_nonneg k); try pose proof (zlen_nonneg v); len_lia.
Qed.

Lemma length_data es : (length es <= length (data es))%nat.
Proof.
  induction es as [|e es IH]; [done|]. rewrite data_cons, length_app. cbn [length].
  pose proof (zlen_encode_entry e). unfold zlen in *. lia.
Qed.

(** The scan finds the key as long as some record of the block is not below it. *)
Lemma scan_block_spec j es rest key :
  Forall entry_ok es -> sorted es -> (exists i e, es !! i = Some e /\ (i < j)%nat /\ ~ blt e.1 key) ->
  scan_block j (data es ++ rest) key = find key es.
Proof.
  revert j. induction es as [|e es IH]; intros j Hok Hs (i & e' & Hi & Hij & Hge); [done|].
  destruct j as [|j]; [lia|]. cbn [scan_block]. rewrite data_cons, <- app_assoc.
  apply Forall_cons in Hok as [He Hok]. rewrite read_entry by done. destruct e as [k v]. cbn [find fst snd].
  destruct (bcompare_spec k key) as [Heq|Hlt|Hgt].
  - by rewrite bool_decide_true.
  - rewrite bool_decide_false by (by apply blt_neq). apply IH; [done|by apply StronglySorted_inv in Hs as [? _]|].
    destruct i as [|i]; [injection Hi as <-; done|]. exists i, e'. split_and!; [done|lia|done].
  - rewrite bool_decide_false by (intros ->; by apply blt_irrefl in Hgt).
    symmetry. apply find_None. intros e2 He2 Heq.
    pose proof (sorted_tail _ _ _ Hs He2) as Hlt. cbn in Hlt. rewrite Heq in Hlt. by eapply blt_asym.
Qed.

(** ** The binary search *)

Lemma bsearch_spec idx key fuel lo hi :
  0 <= lo <= hi -> hi < zlen idx -> hi - lo <= Z.of_nat fuel ->
  (forall i j a b, (i <= j)%nat -> idx !! i = Some a -> idx !! j = Some b -> ble (LastKey a) (LastKey b)) ->
  exists r, bsearch fuel idx key lo hi = Some r /\ lo <= r <= hi /\
    (forall i b, lo <= Z.of_nat i < r -> idx !! i = Some b -> blt (LastKey b) key) /\
    (r < hi -> forall b, idx !! Z.to_nat r = Some b -> ble key (LastKey b)).
Proof.
  intros Hlo Hhi Hf Hmono. revert lo hi Hlo Hhi Hf. induction fuel as [|fuel IH]; intros lo hi Hlo Hhi Hf.
  { exists lo. cbn. split_and!; try done; lia. }
  cbn [bsearch]. destruct (Z.ltb_spec lo hi) as [Hlt|Hge].
  2: { exists lo. split_and!; try done; lia. }
  pose proof (Z.div_mod (lo + hi) 2 ltac:(lia)) as Hd. pose proof (Z.mod_pos_bound (lo + hi) 2 ltac:(lia)) as Hm.
  set (mid := (lo + hi) / 2) in *.
  destruct (lookup_lt_is_Some_2 idx (Z.to_nat mid)) as [b Hb]; [unfold zlen in *; lia|].
  rewrite Hb. cbn. destruct (decide (ble key (LastKey b))) as [Hle|Hgt].
  - destruct (IH lo mid) as (r & -> & Hr & H1 & H2); [lia..|]. exists r. split_and!; try done; [lia..|].
    intros _ b' Hb'. destruct (decide (r < mid)); [by apply H2|].
    assert (r = mid) as -> by lia. by simplify_eq.
  - destruct (IH (mid + 1) hi) as (r & -> & Hr & H1 & H2); [lia..|]. exists r. split_and!; try done; [lia..|].
    intros i b' Hi Hb'. destruct (decide (mid + 1 <= Z.of_nat i)); [apply (H1 i); [lia|done]|].
    assert (blt (LastKey b) key) as Hbk.
    { destruct (bcompare_spec key (LastKey b)) as [->|?|?]; [|destruct Hgt; by apply blt_ble|done].
      destruct Hgt. apply ble_refl. }
    eapply ble_blt_trans; [|exact Hbk]. apply (Hmono i (Z.to_nat mid)); [lia|done|done].
Qed.

(** ** Sorted tables and their index *)

Lemma sorted_lookup es i j a b :
  sorted es -> (i <= j)%nat -> es !! i = Some a -> es !! j = Some b -> ble a.1 b.1.
Proof.
  intros Hs. revert i j. induction Hs as [|e es Hs IH Hall]; intros i j Hij Hi Hj; [done|].
  destruct i as [|i], j as [|j]; try lia; cbn in Hi, Hj.
  - simplify_eq. apply ble_refl.
  - simplify_eq. apply blt_ble. rewrite Forall_forall in Hall. apply Hall. by eapply list_elem_of_lookup_2.
  - eapply IH; [|done|done]. lia.
Qed.

Lemma last_take {A} (l : list A) m : (0 < m)%nat -> last (take m l) = l !! (Nat.min m (length l) - 1)%nat.
Proof.
  intros Hm. rewrite last_lookup, length_take. rewrite lookup_take. case_decide; [by f_equal; lia|].
  symmetry. apply lookup_ge_None. lia.
Qed.

Lemma nblocks_bound n b : (b < nblocks n)%nat <-> (SSTableBlockSize * b < n)%nat.
Proof.
  unfold nblocks, SSTableBlockSize. pose proof (Nat.div_mod_eq (n + 63) 64) as Hd.
  pose proof (Nat.mod_upper_bound (n + 63) 64 ltac:(done)). lia.
Qed.

Lemma index_lookup es b blk :
  index_of es !! b = Some blk ->
  (SSTableBlockSize * b < length es)%nat /\ BlockOffset blk = zlen (data (take (SSTableBlockSize * b) es)) /\
  exists e, es !! (Nat.min (SSTableBlockSize * S b) (length es) - 1)%nat = Some e /\ LastKey blk = e.1.
Proof.
  unfold index_of. rewrite list_lookup_fmap. intros (b' & Hb & ->)%fmap_Some.
  apply lookup_seq in Hb as [-> Hb]. cbn [Nat.add]. apply nblocks_bound in Hb.
  unfold blk_at. cbn [BlockOffset LastKey]. split_and!; [done|done|].
  rewrite last_take by (unfold SSTableBlockSize; lia).
  destruct (lookup_lt_is_Some_2 es (Nat.min (SSTableBlockSize * S b) (length es) - 1)) as [e He];
    [unfold SSTableBlockSize in *; lia|]. rewrite He. by exists e.
Qed.

Lemma length_index es : length (index_of es) = nblocks (length es).
Proof. unfold index_of. by rewrite length_fmap, length_seq. Qed.

Lemma index_mono es i j a b :
  sorted es -> (i <= j)%nat -> index_of es !! i = Some a -> index_of es !! j = Some b ->
  ble (LastKey a) (LastKey b).
Proof.
  intros Hs Hij (_ & _ & ea & Hea & ->)%index_lookup (_ & _ & eb & Heb & ->)%index_lookup.
  eapply sorted_lookup; [done| |exact Hea|exact Heb]. unfold SSTableBlockSize. lia.
Qed.

(** The search lands on the block that can hold the key. *)
Lemma bsearch_index es key m :
  sorted es -> last es = Some m -> ble key m.1 ->
  exists r, bsearch (length (index_of es)) (index_of es) key 0 (zlen (index_of es) - 1) = Some (Z.of_nat r) /\
    (SSTableBlockSize * r < length es)%nat /\
    (forall e, e ∈ take (SSTableBlockSize * r) es -> blt e.1 key) /\
    (exists i e, drop (SSTableBlockSize * r) es !! i = Some e /\ (i < SSTableBlockSize)%nat /\ ~ blt e.1 key).
Proof.
  intros Hs Hlast Hle. assert (0 < length es)%nat as Hne.
  { destruct es; [done|]. cbn. lia. }
  assert (0 < nblocks (length es))%nat as Hnb by (apply nblocks_bound; lia).
  destruct (bsearch_spec (index_of es) key (length (index_of es)) 0 (zlen (index_of es) - 1))
    as (r & Hr & Hrange & Hbelow & Habove).
  { unfold zlen. rewrite length_index. lia. }
  { lia. }
  { unfold zlen. lia. }
  { intros i j a b. by apply index_mono. }
  exists (Z.to_nat r). rewrite Z2Nat.id by lia. split; [done|].
  assert (Z.to_nat r < nblocks (length es))%nat as Hrn by (unfold zlen in Hrange; rewrite length_index in Hrange; lia).
  pose proof (proj1 (nblocks_bound _ _) Hrn) as Hrl. split; [done|]. split.
  - intros e [i [Hi Hit]%lookup_take_Some]%list_elem_of_lookup_1.
    assert (0 < r) by (unfold SSTableBlockSize in *; lia).
    destruct (lookup_lt_is_Some_2 (index_of es) (Z.to_nat r - 1)) as [b Hb]; [rewrite length_index; lia|].
    pose proof (Hbelow (Z.to_nat r - 1)%nat b ltac:(lia) Hb) as Hlt.
    apply index_lookup in Hb as (_ & _ & eb & Heb & Hkey). rewrite Hkey in Hlt.
    eapply ble_blt_trans; [|exact Hlt]. eapply sorted_lookup; [done| |exact Hi|exact Heb].
    unfold SSTableBlockSize in *. lia.
  - destruct (lookup_lt_is_Some_2 (index_of es) (Z.to_nat r)) as [b Hb]; [rewrite length_index; lia|].
    pose proof Hb as (_ & _ & eb & Heb & Hkey)%index_lookup.
    assert (ble key eb.1) as Hge.
    { destruct (decide (r < zlen (index_of es) - 1)) as [Hlt|Hnlt].
      - rewrite <- Hkey. by apply Habove.
      - assert (Z.to_nat r = nblocks (length es) - 1)%nat as Hrq
          by (unfold zlen in *; rewrite length_index in *; lia).
        assert (~ (SSTableBlockSize * S (Z.to_nat r) < length es)%nat) as Hall
          by (rewrite <- nblocks_bound; lia).
        rewrite Nat.min_r in Heb by lia. rewrite last_lookup in Hlast.
        replace (Init.Nat.pred (length es)) with (length es - 1)%nat in Hlast by lia. by simplify_eq. }
    exists (Nat.min (SSTableBlockSize * S (Z.to_nat r)) (length es) - 1 - SSTableBlockSize * Z.to_nat r)%nat, eb.
    rewrite lookup_drop. split_and!; [|unfold SSTableBlockSize in *; lia|by apply not_blt].
    rewrite <- Heb. f_equal. unfold SSTableBlockSize in *. lia.
Qed.

(** ** The file *)

Lemma seek_end_app n (a b : bytes) : n = zlen b -> seek_end n (a ++ b) = Some b.
Proof.
  intros ->. unfold seek_end. rewrite zlen_app. pose proof (zlen_nonneg a).
  destruct (Z.ltb_spec (zlen a + zlen b) (zlen b)); [lia|].
  replace (zlen a + zlen b - zlen b) with (zlen a) by lia. by rewrite drop_zlen_app.
Qed.

Lemma seek_start_app o (a b : bytes) : o = zlen a -> seek_start o (a ++ b) = Some b.
Proof.
  intros ->. unfold seek_start. pose proof (zlen_nonneg a). pose proof (zlen_nonneg b).
  destruct (Z.ltb_spec (zlen a) 0); [lia|]. rewrite zlen_app.
  destruct (Z.ltb_spec (zlen a) (zlen a + zlen b)); [by rewrite drop_zlen_app|].
  destruct b as [|c b]; [done|]. rewrite zlen_cons in *. pose proof (zlen_nonneg b). lia.
Qed.

Lemma zlen_footer c i : zlen (footer c i) = indexFooterSize.
Proof. unfold footer, indexFooterSize. len_lia. Qed.

Lemma read_footer_spec c i : u32 c -> i64 i -> read_footer (footer c i) = (c, i, indexFooterMagic).
Proof.
  intros Hc Hi. unfold read_footer, footer. rewrite read_be4_app by done. rewrite read_i64_app by done.
  rewrite <- (app_nil_r (be_enc 4 indexFooterMagic)). by rewrite read_be4_app.
Qed.

Definition blk_ok (b : BlockIndexEntry) : Prop := u32 (zlen (LastKey b)) /\ i64 (BlockOffset b).

Lemma read_index_app idx rest :
  Forall blk_ok idx -> read_index (length idx) (encode_index idx ++ rest) = Some idx.
Proof.
  induction 1 as [|b idx [Hk Ho] _ IH]; [done|]. cbn [length read_index].
  change (encode_index (b :: idx)) with (encode_blk b ++ encode_index idx). unfold encode_blk.
  rewrite <- !app_assoc.
  rewrite read_be4_app by done. cbn [rbind]. rewrite read_full_app by done. cbn [rbind].
  rewrite read_i64_app by done. cbn [rbind]. rewrite IH. by destruct b.
Qed.

(** A complete file: its entries and the bloom blob. *)
Definition table_file (es : list entry) (blob : bytes) : bytes := file_of (data es) (index_of es) blob.

(** Sizes within the format. *)
Record table_fits (es : list entry) (blob : bytes) : Prop := {
  tf_entries : Forall entry_ok es;
  tf_sorted : sorted es;
  tf_nonempty : es <> [];
  tf_size : zlen (table_file es blob) < 2 ^ 63;
  tf_blocks : u32 (zlen (index_of es));
}.

Section File.
Context (es : list entry) (blob : bytes) (Hfits : table_fits es blob).

Lemma data_positive : 0 < zlen (data es).
Proof.
  pose proof (tf_nonempty _ _ Hfits). destruct es as [|e l]; [done|]. rewrite data_cons, zlen_app.
  pose proof (zlen_encode_entry e). pose proof (zlen_nonneg (data l)). lia.
Qed.

Lemma file_sizes : zlen (data es) < 2 ^ 63 /\ zlen blob < 2 ^ 63.
Proof.
  pose proof (tf_size _ _ Hfits) as Hsz. unfold table_file, file_of, bloom_section in Hsz.
  rewrite !zlen_app, zlen_footer, !zlen_be_enc in Hsz. unfold indexFooterSize in Hsz.
  pose proof (zlen_nonneg (data es)). pose proof (zlen_nonneg blob).
  pose proof (zlen_nonneg (encode_index (index_of es))). lia.
Qed.

Lemma index_ok : Forall blk_ok (index_of es).
Proof.
  rewrite Forall_lookup. intros b blk Hb. apply index_lookup in Hb as (Hlt & Hoff & e & He & Hkey).
  pose proof (Forall_lookup_1 _ _ _ _ (tf_entries _ _ Hfits) He) as [Hk _]. split; [by rewrite Hkey|].
  pose proof file_sizes as [Hd _]. rewrite Hoff.
  rewrite <- (take_drop (SSTableBlockSize * b) es), data_app, zlen_app in Hd.
  pose proof (zlen_nonneg (data (take (SSTableBlockSize * b) es))).
  pose proof (zlen_nonneg (data (drop (SSTableBlockSize * b) es))). unfold i64. lia.
Qed.

Lemma index_count : 0 < zlen (index_of es).
Proof.
  unfold zlen. rewrite length_index. pose proof (tf_nonempty _ _ Hfits).
  assert (0 < nblocks (length es))%nat; [|lia]. apply nblocks_bound. destruct es; [done|]. cbn. lia.
Qed.

Lemma footer_at_end :
  exists s, seek_end indexFooterSize (table_file es blob) = Some s /\
    read_footer s = (zlen (index_of es), zlen (data es), indexFooterMagic).
Proof.
  unfold table_file, file_of. rewrite !app_assoc. eexists. split.
  - apply seek_end_app. by rewrite zlen_footer.
  - apply read_footer_spec; [apply tf_blocks with blob; done|].
    pose proof file_sizes as [? _]. pose proof data_positive. unfold i64. lia.
Qed.

Lemma dataEnd_file : sstableDataEnd (table_file es blob) = zlen (data es).
Proof.
  unfold sstableDataEnd. destruct footer_at_end as (s & -> & ->). rewrite Z.eqb_refl.
  pose proof index_count. pose proof data_positive.
  by rewrite !(proj2 (Z.ltb_lt _ _)) by done.
Qed.

Lemma loadBlockIndex_file ss p :
  files ss !! p = Some (table_file es blob) -> loadBlockIndexFromFile ss p = Some (index_of es).
Proof.
  intros Hf. unfold loadBlockIndexFromFile. rewrite Hf. cbn [mbind option_bind].
  destruct footer_at_end as (s & -> & Hr). cbn [mbind option_bind]. rewrite Hr, Z.eqb_refl.
  pose proof index_count. pose proof data_positive.
  rewrite (proj2 (Z.eqb_neq (zlen (index_of es)) 0)), (proj2 (Z.leb_gt (zlen (data es)) 0)) by lia. cbn [negb orb].
  unfold table_file, file_of. rewrite seek_start_app by done. cbn [mbind option_bind].
  rewrite zlen_to_nat. by apply read_index_app, index_ok.
Qed.

(** The bloom of the file, as loading decides. *)
Lemma loadBloom_file ss p :
  files ss !! p = Some (table_file es blob) ->
  loadBloomFromFile ss p =
    if (zlen blob =? 0) || (maxBloomSectionBytes <? zlen blob) then None
    else match DecodePartitionedBloom blob 0 with Ok pb => Some pb | Error _ => None end.
Proof.
  intros Hf. unfold loadBloomFromFile. rewrite Hf. cbn [mbind option_bind].
  pose proof file_sizes as [_ Hb]. pose proof (zlen_nonneg blob).
  set (tail := be_enc 8 (zlen blob) ++ be_enc 4 bloomTrailerMagic ++
               footer (zlen (index_of es)) (zlen (data es))).
  assert (table_file es blob = (data es ++ encode_index (index_of es)) ++ blob ++ tail) as Heq.
  { unfold table_file, file_of, bloom_section, tail. by rewrite <- !app_assoc. }
  assert (zlen tail = indexFooterSize + bloomTrailerSize) as Ht.
  { unfold tail. rewrite !zlen_app, zlen_footer, !zlen_be_enc. unfold bloomTrailerSize. lia. }
  assert (seek_end (indexFooterSize + bloomTrailerSize) (table_file es blob) = Some tail) as ->.
  { rewrite Heq, app_assoc. by apply seek_end_app. }
  cbn [mbind option_bind]. unfold tail at 1.
  rewrite read_be8_app by (unfold u64; lia). cbn [rbind].
  rewrite read_be4_app by (unfold u32, bloomTrailerMagic; lia). cbn [rbind]. rewrite Z.eqb_refl. cbn [negb orb].
  destruct ((zlen blob =? 0) || (maxBloomSectionBytes <? zlen blob)); [done|].
  assert (seek_end (indexFooterSize + bloomTrailerSize + zlen blob) (table_file es blob) = Some (blob ++ tail)) as ->.
  { rewrite Heq. apply seek_end_app. rewrite zlen_app. lia. }
  cbn [mbind option_bind]. rewrite read_full_app by done. cbn [rbind].
  by destruct (DecodePartitionedBloom blob 0).
Qed.

Lemma read_all_spec fuel es1 es2 tail acc :
  es = es1 ++ es2 -> (length es2 < fuel)%nat ->
  read_all fuel (data es ++ tail) (data es2 ++ tail) (zlen (data es)) acc = Ok (acc ++ es2).
Proof.
  revert es1 es2 acc. induction fuel as [|fuel IH]; intros es1 es2 acc Hes Hf; [lia|]. cbn [read_all].
  assert (zlen (data es) = zlen (data es1) + zlen (data es2)) as Hz by (by rewrite Hes, data_app, zlen_app).
  rewrite !zlen_app, (proj2 (Z.ltb_lt _ _)) by apply data_positive. cbn [andb].
  destruct es2 as [|e es2].
  - assert (zlen (data []) = 0) as Hd by done. rewrite Hd in *.
    rewrite (proj2 (Z.leb_le _ _)) by lia. by rewrite app_nil_r.
  - pose proof (tf_entries _ _ Hfits) as Hok. rewrite Hes in Hok.
    apply Forall_app in Hok as [_ [He _]%Forall_cons].
    rewrite data_cons in *. rewrite zlen_app in *. pose proof (zlen_encode_entry e).
    pose proof (zlen_nonneg (data es2)). rewrite (proj2 (Z.leb_gt _ _)) by lia.
    unfold encode_entry at 1. rewrite <- !app_assoc. rewrite read_be4_app by apply He.
    rewrite read_record_entry by done. rewrite (IH (es1 ++ [e])); [by rewrite <- app_assoc| |cbn in Hf; lia].
    by rewrite <- app_assoc.
Qed.

Lemma ReadAll_file ss p :
  files ss !! p = Some (table_file es blob) -> ReadAllFromSSTable ss p = Ok es.
Proof.
  intros Hf. unfold ReadAllFromSSTable. rewrite Hf, dataEnd_file. unfold table_file, file_of.
  rewrite (read_all_spec _ [] es); [done|done|]. rewrite length_app. pose proof (length_data es). lia.
Qed.

(** A lookup that goes through the index. *)
Lemma searchBlock_file ss p key m :
  files ss !! p = Some (table_file es blob) -> last es = Some m -> ble key m.1 ->
  searchBlock ss p key (index_of es) = Some (find key es).
Proof.
  intros Hf Hm Hle. unfold searchBlock.
  destruct (bsearch_index es key m (tf_sorted _ _ Hfits) Hm Hle) as (r & -> & Hr & Hbelow & Hin).
  cbn [mbind option_bind].
  assert (r < length (index_of es))%nat as Hri by (rewrite length_index; by apply nblocks_bound).
  rewrite (proj2 (Z.leb_gt _ _)) by (unfold zlen; lia). rewrite Hf, Nat2Z.id.
  destruct (lookup_lt_is_Some_2 (index_of es) r Hri) as [b Hb]. rewrite Hb. cbn [mbind option_bind].
  apply index_lookup in Hb as (_ & -> & _). unfold table_file, file_of.
  rewrite <- (take_drop (SSTableBlockSize * r) es) at 2.
  rewrite data_app, <- app_assoc, seek_start_app by done. f_equal.
  rewrite scan_block_spec; [|by apply Forall_drop, (tf_entries _ _ Hfits)| |].
  - rewrite <- (take_drop (SSTableBlockSize * r) es) at 2. by rewrite find_app_lt.
  - pose proof (tf_sorted _ _ Hfits) as Hs. rewrite <- (take_drop (SSTableBlockSize * r) es) in Hs.
    by apply sorted_app in Hs as (_ & ? & _).
  - done.
Qed.

End File.

(** ** A table on disk and in the caches *)

(** A filter that never hides a key of the table. *)
Definition bloom_fine (es : list entry) (bl : option PartitionedBloom) : Prop :=
  match bl with
  | None => True
  | Some pb => (forall key, key ∈ es.*1 -> MayContain pb key = Some true) /\
               (forall key, is_Some (MayContain pb key))
  end.

(** The file [p] holds these entries, and what is cached for it agrees. *)
Definition holds (ss : SSTable) (p : bytes) (es : list entry) : Prop :=
  exists blob, table_fits es blob /\ files ss !! p = Some (table_file es blob) /\
    (zlen blob <= maxBloomSectionBytes -> forall pb, DecodePartitionedBloom blob 0 = Ok pb -> bloom_fine es (Some pb)) /\
    (forall idx, indexCache ss !! p = Some idx -> idx = index_of es) /\
    (forall bl, bloomCache ss !! p = Some bl -> bloom_fine es bl).

(** Reading only grows the caches. *)
Definition only_caches (ss ss' : SSTable) : Prop :=
  mata ss' = mata ss /\ files ss' = files ss /\ next_ident ss' = next_ident ss /\
  (forall p es, holds ss p es -> holds ss' p es).

#[export] Instance only_caches_preorder : PreOrder only_caches.
Proof.
  split; [by intros ss|]. intros x y z (H1 & H2 & H3 & H4) (G1 & G2 & G3 & G4).
  split_and!; [congruence..|auto].
Qed.

Lemma find_fst es key v : find key es = Some v -> key ∈ es.*1.
Proof. intros H%find_elem. by eapply elem_of_fst. Qed.

Lemma table_file_inj_find es es' blob blob' :
  table_fits es blob -> table_fits es' blob' -> table_file es blob = table_file es' blob' -> es = es'.
Proof.
  intros H H' E. set (ss := NewSSTable {[ [] := table_file es blob ]}).
  assert (ReadAllFromSSTable ss [] = Ok es) as H1 by (apply (ReadAll_file es blob H), lookup_singleton_eq).
  assert (ReadAllFromSSTable ss [] = Ok es') as H2
    by (apply (ReadAll_file es' blob' H'); rewrite <- E; apply lookup_singleton_eq).
  congruence.
Qed.

Lemma getBloom_spec ss p es :
  holds ss p es -> exists bl, (getBloom ss p).2 = bl /\ bloom_fine es bl /\ only_caches ss (getBloom ss p).1.
Proof.
  intros (blob & Hf & Hfile & Hdec & Hidx & Hbc). unfold getBloom.
  destruct (bloomCache ss !! p) as [bl|] eqn:E; [exists bl; split_and!; [done|auto|reflexivity]|].
  assert (bloom_fine es (loadBloomFromFile ss p)) as Hload.
  { rewrite (loadBloom_file es blob Hf ss p Hfile).
    destruct (Z.eqb_spec (zlen blob) 0); [done|]. destruct (Z.ltb_spec maxBloomSectionBytes (zlen blob)); [done|].
    cbn [orb]. destruct (DecodePartitionedBloom blob 0) eqn:Ed; [|done]. by apply Hdec. }
  eexists. split; [done|]. split; [done|]. split_and!; try done. intros p' es' Hp'.
  destruct (decide (p = p')) as [->|Hne].
  - destruct Hp' as (blob' & Hf' & Hfile' & Hdec' & Hidx' & Hbc'). exists blob'. split_and!; try done.
    cbn. intros bl'. rewrite lookup_insert_eq. intros [= <-].
    rewrite Hfile in Hfile'. injection Hfile' as Hsame.
    by rewrite <- (table_file_inj_find _ _ _ _ Hf Hf' Hsame).
  - destruct Hp' as (blob' & ? & ? & ? & ? & Hbc'). exists blob'. split_and!; try done.
    cbn. intros bl'. rewrite lookup_insert_ne by done. apply Hbc'.
Qed.

Lemma getBlockIndex_spec ss p es :
  holds ss p es -> (getBlockIndex ss p).2 = Some (index_of es) /\ only_caches ss (getBlockIndex ss p).1.
Proof.
  intros (blob & Hf & Hfile & Hdec & Hidx & Hbc). unfold getBlockIndex.
  destruct (indexCache ss !! p) as [idx|] eqn:E; [split; [by rewrite (Hidx idx)|reflexivity]|].
  rewrite (loadBlockIndex_file es blob Hf ss p Hfile). split; [done|]. split_and!; try done.
  intros p' es' (blob' & Hf' & Hfile' & Hdec' & Hidx' & Hbc'). exists blob'. split_and!; try done.
  cbn. intros idx. destruct (decide (p = p')) as [->|Hne]; [|rewrite lookup_insert_ne by done; apply Hidx'].
  rewrite lookup_insert_eq. intros [= <-]. rewrite Hfile in Hfile'. injection Hfile' as Hsame.
  by rewrite (table_file_inj_find _ _ _ _ Hf Hf' Hsame).
Qed.

Lemma ReadFromSSTable_spec ss p es key m :
  holds ss p es -> last es = Some m -> ble key m.1 ->
  exists ss', ReadFromSSTable ss p key = Some (ss', find key es) /\ only_caches ss ss'.
Proof.
  intros Hh Hm Hle. unfold ReadFromSSTable.
  destruct (getBloom_spec ss p es Hh) as (bl & Hbl & Hfine & Hc1).
  destruct (getBloom ss p) as [ss1 bl'] eqn:E1. cbn in Hbl, Hc1. subst bl'.
  assert (holds ss1 p es) as Hh1 by (by apply Hc1).
  assert (exists may, (match bl with Some pb => MayContain pb key | None => Some true end) = Some may /\
            (may = false -> find key es = None)) as (may & -> & Hmay).
  { destruct bl as [pb|]; [|by exists true]. destruct Hfine as [Hin Htot]. destruct (Htot key) as [may Hmay].
    exists may. split; [done|]. intros ->. destruct (find key es) as [v|] eqn:Ef; [|done].
    apply find_fst, Hin in Ef. congruence. }
  cbn [mbind option_bind]. destruct may; cbn [negb].
  2: { exists ss1. rewrite Hmay by done. done. }
  destruct (getBlockIndex_spec ss1 p es Hh1) as [Hidx Hc2].
  destruct (getBlockIndex ss1 p) as [ss2 idx] eqn:E2. cbn [fst snd] in Hidx, Hc2. subst idx.
  destruct Hh1 as (blob & Hf & Hfile & _). destruct Hc2 as (C1 & C2 & C3 & C4).
  cbv beta iota. rewrite (searchBlock_file es blob Hf ss2 p key m); [|by rewrite C2|done|done]. cbn.
  exists ss2. split; [done|]. etransitivity; [exact Hc1|]. by split_and!.
Qed.

(** ** Writing a table *)

Section Write.
Context `{BloomMathLaws}.

(** Go iterates a map in some order. *)
Definition world_ok (w : world) : Prop := forall pb, order w pb ≡ₚ map_to_list (partitions pb).

(** The file the writer produces for these entries is within the format. *)
Definition writable (w : world) (es : list entry) : Prop :=
  forall pb, BuildPartitionedBloom es.*1 DefaultNamespaceSep = Some pb ->
    table_fits es (Encode pb (order w pb)).

Lemma built_bloom w es pb :
  world_ok w -> BuildPartitionedBloom es.*1 DefaultNamespaceSep = Some pb ->
  bloom_fine es (Some pb) /\
  (zlen (Encode pb (order w pb)) <= maxBloomSectionBytes ->
   forall pb', DecodePartitionedBloom (Encode pb (order w pb)) 0 = Ok pb' -> bloom_fine es (Some pb')).
Proof.
  intros Hw Hpb. destruct (Build_spec es.*1 DefaultNamespaceSep) as (pb0 & Hpb0 & Hsep & Hok & Hall).
  assert (pb0 = pb) as -> by congruence. clear Hpb0.
  assert (bloom_fine es (Some pb)) as Hfine.
  { split; [|intros key; by apply MayContain_total].
    intros key Hin. apply MayContain_contains; [done|rewrite Hsep; auto]. }
  split; [done|]. intros Hlen pb' Hdec.
  rewrite (Decode_Encode_pb pb (order w pb) 0) in Hdec; [|apply (encodable_small pb (order w pb))|apply Hw].
  - injection Hdec as <-. exact Hfine.
  - done.
  - apply Hw.
  - unfold maxBloomSectionBytes in Hlen. lia.
Qed.

Lemma finish_write_spec w ss path es level mn mx :
  world_ok w -> writable w es -> io w = IOFine ->
  exists ss' size, finish_write w ss path (data es) (index_of es) es.*1 level mn mx = Some (ss', Ok tt) /\
    mata ss' = mata ss ++ [mkMeta (next_ident ss) level path mn mx size false true] /\
    next_ident ss' = S (next_ident ss) /\ holds ss' path es /\
    (forall p es', p <> path -> holds ss p es' -> holds ss' p es') /\
    (forall p, p <> path -> files ss' !! p = files ss !! p).
Proof.
  intros Hw Hfits Hio. unfold finish_write.
  destruct (Build_spec es.*1 DefaultNamespaceSep) as (pb & Hpb & _). rewrite Hpb. cbn [mbind option_bind].
  rewrite Hio. destruct (built_bloom w es pb Hw Hpb) as [Hfine Hdec]. eexists _, _. split; [done|].
  cbn. split_and!; [done|done| | |].
  - exists (Encode pb (order w pb)). cbn. rewrite !lookup_insert_eq. split_and!; [by apply Hfits|done|done| |].
    + by intros idx [= <-].
    + by intros bl [= <-].
  - intros p es' Hne (blob & ? & Hfile & ? & Hidx & Hbc). exists blob. cbn.
    rewrite !lookup_insert_ne by done. by split_and!.
  - intros p Hne. by rewrite lookup_insert_ne.
Qed.

Lemma WriteToSSTable_spec w ss es e0 m :
  world_ok w -> writable w es -> io w = IOFine -> head es = Some e0 -> last es = Some m ->
  exists ss' size, WriteToSSTable w ss es = Some (ss', Ok tt) /\
    mata ss' = mata ss ++ [mkMeta (next_ident ss) 0 (sstName (now w)) e0.1 m.1 size false true] /\
    next_ident ss' = S (next_ident ss) /\ holds ss' (sstName (now w)) es /\
    (forall p es', p <> sstName (now w) -> holds ss p es' -> holds ss' p es') /\
    (forall p, p <> sstName (now w) -> files ss' !! p = files ss !! p).
Proof.
  intros Hw Hfits Hio Hhd Hm. unfold WriteToSSTable. destruct es as [|e es]; [done|].
  cbn in Hhd. injection Hhd as ->. rewrite Hio, write_entries_spec, Hm. cbn [fmap option_fmap option_map default].
  set (ss1 := set_file ss (sstName (now w)) (data (e0 :: es))).
  destruct (finish_write_spec w ss1 (sstName (now w)) (e0 :: es) 0 e0.1 m.1 Hw Hfits Hio)
    as (ss' & size & Hrun & Hmata & Hid & Hh & Hkeep & Hfiles).
  exists ss', size. split_and!; try done.
  - intros p es' Hne Hp. apply Hkeep; [done|]. destruct Hp as (blob & ? & ? & ? & ? & ?).
    exists blob. cbn. rewrite lookup_insert_ne by done. by split_and!.
  - intros p Hne. rewrite Hfiles by done. cbn. by rewrite lookup_insert_ne.
Qed.

(** C14: table round trip: a sorted, non-empty batch written without an I/O error
    becomes the newest table with the batch's key range, and its file answers
    every lookup up to its largest key with the batch's value, tombstones
    included, with warm caches and, from any later process that only finds the
    file, with cold ones; reading the whole file gives the batch back, and the
    tables already there still answer as before. *)
Theorem table_write_then_read (w : world) (ss : SSTable) (es : list entry) (e0 m : entry)
    (Hworld : world_ok w) (Hio : io w = IOFine) (Hfits : writable w es)
    (Hmin : head es = Some e0) (Hmax : last es = Some m) :
  exists ss' size, WriteToSSTable w ss es = Some (ss', Ok tt) /\
    mata ss' = mata ss ++ [mkMeta (next_ident ss) 0 (sstName (now w)) e0.1 m.1 size false true] /\
    ReadAllFromSSTable ss' (sstName (now w)) = Ok es /\
    (forall key, ble key m.1 ->
       exists ss1, ReadFromSSTable ss' (sstName (now w)) key = Some (ss1, find key es)) /\
    (forall key, ble key m.1 ->
       exists ss1, ReadFromSSTable (NewSSTable (files ss')) (sstName (now w)) key = Some (ss1, find key es)) /\
    (forall p es', p <> sstName (now w) -> holds ss p es' -> holds ss' p es').
Proof.
  destruct (WriteToSSTable_spec w ss es e0 m Hworld Hfits Hio Hmin Hmax)
    as (ss' & size & Hrun & Hmata & _ & Hh & Hkeep & _).
  exists ss', size. split_and!; try done.
  - destruct Hh as (blob & Hf & Hfile & _). by apply (ReadAll_file es blob Hf).
  - intros key Hle. destruct (ReadFromSSTable_spec ss' _ es key m Hh Hmax Hle) as (ss1 & Hr & _). by exists ss1.
  - intros key Hle. assert (holds (NewSSTable (files ss')) (sstName (now w)) es) as Hcold.
    { destruct Hh as (blob & ? & ? & ? & _). exists blob. split_and!; try done; intros ?; cbn; by rewrite lookup_empty. }
    destruct (ReadFromSSTable_spec _ _ es key m Hcold Hmax Hle) as (ss1 & Hr & _). by exists ss1.
Qed.

End Write.

(** A concrete batch is sorted; the file a sample world writes for it fits. *)
Ltac sorted_tac := repeat (constructor || vm_compute; try reflexivity).
Ltac writable_tac :=
  intros pb Hpb; vm_compute in Hpb; injection Hpb as <-; split;
  [ repeat constructor; vm_compute; try reflexivity; intros H; discriminate H
  | sorted_tac
  | discriminate
  | vm_compute; reflexivity
  | split; vm_compute; [intros H; discriminate H|reflexivity] ].

Definition sample_world (t : Z) : world := mkWorld t (fun pb => map_to_list (partitions pb)) IOFine.
Definition sample_table : list entry :=
  [(of_string "a:1", Some (of_string "x")); (of_string "b:2", None); (of_string "c", Some [])].

Lemma sample_world_ok t : world_ok (sample_world t).
Proof. by intros pb. Qed.

Lemma sample_sorted : sorted sample_table.
Proof. sorted_tac. Qed.

Lemma sample_writable t : @writable sample_math (sample_world t) sample_table.
Proof. writable_tac. Qed.

Lemma table_write_then_read_witness :
  exists ss' size,
    @WriteToSSTable sample_math (sample_world 7) (NewSSTable ∅) sample_table = Some (ss', Ok tt) /\
    mata ss' = [] ++ [mkMeta 0 0 (sstName 7) (of_string "a:1") (of_string "c") size false true] /\
    ReadAllFromSSTable ss' (sstName 7) = Ok sample_table /\
    (forall key, ble key (of_string "c") ->
       exists ss1, ReadFromSSTable ss' (sstName 7) key = Some (ss1, find key sample_table)) /\
    (forall key, ble key (of_string "c") ->
       exists ss1, ReadFromSSTable (NewSSTable (files ss')) (sstName 7) key = Some (ss1, find key sample_table)) /\
    (forall p es', p <> sstName 7 -> holds (NewSSTable ∅) p es' -> holds ss' p es').
Proof.
  apply (@table_write_then_read sample_math sample_math_laws (sample_world 7) (NewSSTable ∅) sample_table
    (of_string "a:1", Some (of_string "x")) (of_string "c", Some []));
    [apply sample_world_ok|reflexivity|apply sample_writable|reflexivity|reflexivity].
Defined.

(** ** A restart *)

Lemma last_key_data fuel es tail acc :
  Forall entry_ok es -> (forall e, e ∈ es -> e.2 <> None) ->
  last_key (length es + fuel) (data es ++ tail) acc =
    last_key fuel tail (default acc (fst <$> last es)).
Proof.
  revert acc. induction es as [|e es IH]; intros acc Hok Hv; [done|].
  apply Forall_cons in Hok as [[Hk Hval] Hok]. cbn [length Nat.add last_key]. rewrite data_cons.
  unfold encode_entry. rewrite <- !app_assoc. rewrite read_be4_app by done. cbn [rbind].
  rewrite read_full_app by done. cbn [rbind].
  destruct e as [k [v|]]; [|by destruct (Hv (k, None)); [left|]]. cbn [fst snd encode_value] in *.
  pose proof (zlen_nonneg v). rewrite <- app_assoc, read_be4_app by (unfold u32, tombstoneValLen in *; lia).
  cbn [rbind]. rewrite zlen_app. pose proof (zlen_nonneg (data es ++ tail)).
  assert ((if zlen v <? zlen v + zlen (data es ++ tail) then drop (Z.to_nat (zlen v)) (v ++ data es ++ tail) else [])
          = data es ++ tail) as ->.
  { rewrite drop_zlen_app. destruct (Z.ltb_spec (zlen v) (zlen v + zlen (data es ++ tail))); [done|].
    destruct (data es ++ tail); [done|]. rewrite zlen_cons in *. pose proof (zlen_nonneg l). lia. }
  rewrite IH by (done || (intros e' ?; apply Hv; by right)).
  rewrite last_cons. by destruct (last es).
Qed.

(** The first four bytes of a blob, read as a length, are huge. *)
Lemma blob_as_length c rest :
  exists n rest', read_be 4 ([DefaultNamespaceSep] ++ be_enc 4 c ++ rest) = Ok (n, rest') /\ 973078528 <= n /\
    zlen rest' < zlen rest + 8.
Proof.
  pose proof (length_be_enc 4 c) as Hlen. destruct (be_enc 4 c) as [|b3 [|b2 [|b1 [|b0 [|? ?]]]]]; try done.
  exists (be_dec [DefaultNamespaceSep; b3; b2; b1]), (b0 :: rest). split_and!.
  - unfold read_be. cbn [app]. change (DefaultNamespaceSep :: b3 :: b2 :: b1 :: b0 :: rest)
      with ([DefaultNamespaceSep; b3; b2; b1] ++ (b0 :: rest)). by rewrite read_full_app.
  - unfold be_dec. cbn [reverse rev_append]. change (reverse [DefaultNamespaceSep; b3; b2; b1])
      with [b1; b2; b3; DefaultNamespaceSep]. unfold le_dec.
    pose proof (bval_range b1). pose proof (bval_range b2). pose proof (bval_range b3).
    assert (bval DefaultNamespaceSep = 58) by done. lia.
  - rewrite zlen_cons. lia.
Qed.

(** [EnsureMeta] past the data: one index record, then the head of the blob. *)
Lemma last_key_tail n key c rest acc :
  u32 (zlen key) -> zlen rest < 950000000 ->
  last_key (3 + n) (encode_blk (mkBlk key 0) ++ [DefaultNamespaceSep] ++ be_enc 4 c ++ rest) acc = [].
Proof.
  intros Hk Hr. destruct (blob_as_length c rest) as (v & rest' & Hread & Hv & Hlen).
  set (tail := [DefaultNamespaceSep] ++ be_enc 4 c ++ rest) in *.
  unfold encode_blk. cbn [LastKey BlockOffset].
  assert (be_enc 8 0 = be_enc 4 0 ++ be_enc 4 0) as -> by (vm_compute; reflexivity).
  rewrite <- !app_assoc. cbn [Nat.add last_key]. rewrite read_be4_app by done. cbn [rbind].
  rewrite read_full_app by done. cbn [rbind]. rewrite read_be4_app by eval_closed. cbn [rbind].
  pose proof (zlen_nonneg tail). rewrite zlen_app, zlen_be_enc.
  rewrite (proj2 (Z.ltb_lt _ _)) by lia. change (Z.to_nat 0) with 0%nat. rewrite drop_0.
  rewrite read_be4_app by eval_closed. cbn [rbind].
  change tail with ([] ++ tail) at 1. rewrite read_full_app by done. cbn [rbind]. rewrite Hread. cbn [rbind].
  rewrite (proj2 (Z.ltb_ge _ _)) by lia. done.
Qed.

(** the key range of a table does not survive a restart: for a table of one
    block without tombstones (below 900 MB), [EnsureMeta] on the entry that
    [LoadSSTableMetaList] makes for its file reads on past the data section, takes
    the index and the bloom for records and ends with the empty string as
    [MaxKey], so that the range check of [getFromSSTables] skips the file for every
    non-empty key. *)
Theorem restart_hides_table (p : bytes) (es : list entry) (e0 : entry) (pb : PartitionedBloom)
    (l : list (bytes * Bloom.BloomFilter))
    (Hfits : table_fits es (Encode pb l)) (Hsep : sep pb = DefaultNamespaceSep)
    (Hblock : (length es <= SSTableBlockSize)%nat) (Hhead : head es = Some e0)
    (Hvalues : forall e, e ∈ es -> e.2 <> None) (Hsize : zlen (table_file es (Encode pb l)) < 900000000)
    (Hname : is_sst p = true) :
  exists meta, load_meta (p, table_file es (Encode pb l)) = Some meta /\ MinKey meta = e0.1 /\
    MaxKey (EnsureMeta {[ p := table_file es (Encode pb l) ]} meta) = [] /\
    (forall key, key <> [] -> blt (MaxKey (EnsureMeta {[ p := table_file es (Encode pb l) ]} meta)) key).
Proof.
  pose proof (tf_entries _ _ Hfits) as Hok. destruct es as [|e es']; [done|].
  injection Hhead as ->. set (es := e0 :: es') in *. set (f := table_file es (Encode pb l)) in *.
  exists (mkMeta 0 0 p e0.1 [] (zlen f) false false).
  assert (load_meta (p, f) = Some (mkMeta 0 0 p e0.1 [] (zlen f) false false)) as Hload.
  { unfold load_meta. cbn [fst snd]. rewrite Hname. cbn [negb]. apply Forall_cons in Hok as [[Hk _] _].
    unfold f at 1, table_file, file_of, es. rewrite data_cons. unfold encode_entry.
    rewrite <- !app_assoc. rewrite read_be4_app by done. cbn [rbind]. by rewrite read_full_app. }
  assert (MaxKey (EnsureMeta {[p := f]} (mkMeta 0 0 p e0.1 [] (zlen f) false false)) = []) as Hmax.
  { unfold EnsureMeta. cbn [ensured MaxKeyLoaded Filepath]. rewrite lookup_singleton_eq. cbn [MaxKey].
    assert (index_of es = [mkBlk (default [] (fst <$> last es)) 0]) as Hidx.
    { unfold index_of. assert (nblocks (length es) = 1%nat) as ->.
      { assert (0 < nblocks (length es))%nat by (apply nblocks_bound; cbn; lia).
        assert (~ (1 < nblocks (length es))%nat) by (rewrite nblocks_bound; lia). lia. }
      cbn [seq fmap list_fmap]. unfold blk_at. rewrite take_ge by lia. done. }
    assert (u32 (zlen (default [] (fst <$> last es)))) as Hlk.
    { destruct (last es) as [m|] eqn:Em; [|by apply last_None in Em]. cbn.
      rewrite last_lookup in Em. by apply (Forall_lookup_1 _ _ _ _ Hok Em). }
    unfold f at 2, table_file, file_of. rewrite Hidx. cbn [encode_index fmap list_fmap concat].
    rewrite app_nil_r. unfold bloom_section, Encode at 1. rewrite Hsep. rewrite <- !app_assoc.
    set (rest := concat _ ++ _).
    assert (zlen rest <= zlen f) as Hrest.
    { assert (exists pre, f = pre ++ rest) as [pre ->].
      { exists (data es ++ encode_blk (mkBlk (default [] (fst <$> last es)) 0) ++ [DefaultNamespaceSep] ++
                be_enc 4 (Z.of_nat (size (partitions pb)))).
        unfold f, rest, table_file, file_of, bloom_section, Encode at 1. rewrite Hidx, Hsep.
        cbn [encode_index fmap list_fmap concat]. by rewrite app_nil_r, <- !app_assoc. }
      rewrite zlen_app. pose proof (zlen_nonneg pre). lia. }
    assert (length es + 3 <= S (length f))%nat as Hfuel.
    { unfold f, table_file, file_of. rewrite !length_app. pose proof (length_data es).
      pose proof (zlen_footer (zlen (index_of es)) (zlen (data es))) as Hfoot.
      unfold zlen in Hfoot at 1. unfold indexFooterSize in Hfoot. lia. }
    replace (S (length f)) with (length es + (3 + (S (length f) - length es - 3)))%nat by lia.
    rewrite last_key_data by done. apply last_key_tail; [done|lia]. }
  split_and!; [done|done|done|]. intros key Hkey. rewrite Hmax. destruct key; [done|]. reflexivity.
Qed.

Lemma restart_hides_table_witness :
  let es := [(of_string "a", Some (of_string "x"))] in
  let pb := mkPB DefaultNamespaceSep 1 ∅ in
  exists meta, load_meta (sstName 7, table_file es (Encode pb [])) = Some meta /\ MinKey meta = of_string "a" /\
    MaxKey (EnsureMeta {[ sstName 7 := table_file es (Encode pb []) ]} meta) = [] /\
    (forall key, key <> [] -> blt (MaxKey (EnsureMeta {[ sstName 7 := table_file es (Encode pb []) ]} meta)) key).
Proof.
  apply (restart_hides_table (sstName 7) [(of_string "a", Some (of_string "x"))] (of_string "a", Some (of_string "x"))
           (mkPB DefaultNamespaceSep 1 ∅) []); try (vm_compute; reflexivity).
  - split; [repeat constructor; vm_compute; try reflexivity; intros H; discriminate H
           |repeat constructor|discriminate|vm_compute; reflexivity
           |split; vm_compute; [intros H; discriminate H|reflexivity]].
  - cbn. unfold SSTableBlockSize. lia.
  - intros e ->%list_elem_of_singleton. discriminate.
Defined.

End SSTable.
