(* ===== verification/Merge.v ===== *)
(** Compaction: [storage/zstorage/iterator.go], [merge_iterator.go] and
    [SSTable.MergeSSTable]. *)
From S2P Require Import Prelude Bytes Strconv SkipList Bloom SSTable.
Import Partitioned SSTable.

Module Merge.

(** ** The iterator over one file *)

Record sstableIterator := mkIt {
  it_file : bytes;     (* the open file *)
  it_rest : bytes;     (* what is left behind the read position *)
  it_dataEnd : Z;
  it_key : bytes;
  it_value : option bytes;
  it_err : option goerr;
}.

Definition newSSTableIterator (ss : SSTable) (path : bytes) : result sstableIterator :=
  match files ss !! path with
  | None => Error (Err "open")
  | Some f => Ok (mkIt f f (sstableDataEnd f) [] None None)
  end.

Definition it_fail (it : sstableIterator) (rest : bytes) (e : goerr) : sstableIterator :=
  mkIt (it_file it) rest (it_dataEnd it) (it_key it) (it_value it) (Some e).

Definition Next (it : sstableIterator) : sstableIterator * bool :=
  if it_err it is Some _ then (it, false) else
  let pos := zlen (it_file it) - zlen (it_rest it) in
  if (0 <? it_dataEnd it) && (it_dataEnd it <=? pos) then (it, false) else
  match read_be 4 (it_rest it) with
  | Error EOF => (it, false)
  | Error e => (it_fail it [] e, false)
  | Ok (keyLen, s) =>
      match read_record keyLen s with
      | Error e => (it_fail it [] e, false)
      | Ok ((key, value), s) => (mkIt (it_file it) s (it_dataEnd it) key value None, true)
      end
  end.

(** ** The merge *)

(** A nil key ([None]) is an exhausted source. *)
Record mergeSource := mkSource {
  src_it : sstableIterator;
  srcIdx : Z;
  src_key : option bytes;
  src_value : option bytes;
  src_prev : option bytes;
}.

Definition pull (s : mergeSource) : mergeSource * option goerr :=
  let '(it, more) := Next (src_it s) in
  if (more : bool) then
    let k := it_key it in
    if (match src_prev s with Some prev => bool_decide (ble k prev) | None => false end)
    then (mkSource it (srcIdx s) (src_key s) (src_value s) (src_prev s), Some (Err "merge: source not sorted ascending"))
    else (mkSource it (srcIdx s) (Some k) (it_value it) (Some k), None)
  else match it_err it with
       | Some e => (mkSource it (srcIdx s) (src_key s) (src_value s) (src_prev s), Some e)
       | None => (mkSource it (srcIdx s) None None (src_prev s), None)
       end.

Definition heap_key (s : mergeSource) : bytes := default [] (src_key s).

(** [mergeHeap.Less]. *)
Definition less (a b : mergeSource) : bool :=
  match bcompare (heap_key a) (heap_key b) with
  | Lt => true
  | Gt => false
  | Eq => srcIdx b <? srcIdx a
  end.

(** [container/heap] on a [mergeHeap]: [h[0]] and [heap.Pop] give the minimum by
    [Less]; the remaining elements stay in the heap. *)
Fixpoint heap_pop (h : list mergeSource) : option (mergeSource * list mergeSource) :=
  match h with
  | [] => None
  | x :: h' =>
      match heap_pop h' with
      | None => Some (x, [])
      | Some (m, r) => if less m x then Some (m, x :: r) else Some (x, h')
      end
  end.

Definition heap_push (h : list mergeSource) (s : mergeSource) : list mergeSource := h ++ [s].

(** [newMergeIterator]: every source is pulled once; the error stops it. *)
Fixpoint init_heap (idx : Z) (iters : list sstableIterator) (h : list mergeSource)
    : result (list mergeSource) :=
  match iters with
  | [] => Ok h
  | it :: iters' =>
      let '(s, err) := pull (mkSource it idx None None None) in
      match err with
      | Some e => Error e
      | None => init_heap (idx + 1) iters' (if src_key s is Some _ then heap_push h s else h)
      end
  end.

Definition newMergeIterator (iters : list sstableIterator) : result (list mergeSource) :=
  init_heap 0 iters [].

Definition advance (h : list mergeSource) (s : mergeSource) : list mergeSource * option goerr :=
  let '(s, err) := pull s in
  match err with
  | Some e => (h, Some e)
  | None => (if src_key s is Some _ then heap_push h s else h, None)
  end.

(** The loop that drops older versions of [dupKey]; every source holds it at most
    once, so the size of the heap bounds the turns. *)
Fixpoint drop_dups (fuel : nat) (h : list mergeSource) (dupKey : bytes) : list mergeSource * option goerr :=
  match fuel with
  | O => (h, None)
  | S fuel' =>
      match heap_pop h with
      | None => (h, None)
      | Some (dup, rest) =>
          if bool_decide (heap_key dup = dupKey) then
            let '(h, err) := advance rest dup in
            match err with Some e => (h, Some e) | None => drop_dups fuel' h dupKey end
          else (h, None)
      end
  end.

(** [mergeIterator.Next]: exhausted, an error, or the next key and value. *)
Inductive next_result :=
  | Exhausted
  | NextError (e : goerr)
  | NextEntry (h : list mergeSource) (k : bytes) (v : option bytes).

Definition mergeNext (h : list mergeSource) : next_result :=
  match heap_pop h with
  | None => Exhausted
  | Some (top, rest) =>
      let dupKey := heap_key top in
      let '(h, err) := advance rest top in
      match err with
      | Some e => NextError e
      | None =>
          let '(h, err) := drop_dups (length h) h dupKey in
          match err with
          | Some e => NextError e
          | None => NextEntry h dupKey (src_value top)
          end
      end
  end.

(** The output loop of [MergeSSTable]: number of entries, offset, data, blocks,
    keys, smallest and largest key. *)
Record merged := mkMerged {
  mg_count : nat;
  mg_offset : Z;
  mg_buf : bytes;
  mg_blocks : list BlockIndexEntry;
  mg_keys : list bytes;
  mg_min : bytes;
  mg_max : bytes;
}.

Definition emit (o : merged) (k : bytes) (v : option bytes) : merged :=
  let bi := (mg_count o / SSTableBlockSize)%nat in
  let blocks := if (mg_count o mod SSTableBlockSize =? 0)%nat
                then mg_blocks o ++ [mkBlk [] (mg_offset o)] else mg_blocks o in
  let blocks := alter (fun b => mkBlk k (BlockOffset b)) bi blocks in
  mkMerged (S (mg_count o))
    (mg_offset o + match v with None => 8 + zlen k | Some v => 8 + zlen k + zlen v end)
    (mg_buf o ++ be_enc 4 (zlen k) ++ k ++ encode_value v) blocks (mg_keys o ++ [k])
    (if (mg_count o =? 0)%nat then k else mg_min o) k.

Fixpoint merge_loop (fuel : nat) (h : list mergeSource) (o : merged) : merged * option goerr :=
  match fuel with
  | O => (o, None)
  | S fuel' =>
      match mergeNext h with
      | Exhausted => (o, None)
      | NextError e => (o, Some e)
      | NextEntry h k v => merge_loop fuel' h (emit o k v)
      end
  end.

(** Every turn consumes a record of some file. *)
Definition merge_fuel (h : list mergeSource) : nat := S (sum_list_with (fun s => S (length (it_rest (src_it s)))) h).

Definition open_all (ss : SSTable) (metas : list SSTableMata) : result (list sstableIterator) :=
  foldr (fun meta acc => let? it := newSSTableIterator ss (Filepath meta) in let? its := acc in Ok (it :: its))
    (Ok []) metas.

(** The new table's entry, or nil. *)
Definition MergeSSTable `{BloomMath} (w : world) (ss : SSTable) (metas : list SSTableMata) (targetLevel : Z)
    : option (SSTable * option SSTableMata) :=
  match metas with
  | [] => Some (ss, None)
  | _ =>
      match (let? iters := open_all ss metas in newMergeIterator iters) with
      | Error _ => Some (ss, None)
      | Ok h =>
          let fullPath := mergedName (now w) in
          match io w with
          | IOCreateFails => Some (ss, None)
          | _ =>
              let '(o, err) := merge_loop (merge_fuel h) h (mkMerged 0 0 [] [] [] [] []) in
              let partial n := Some (set_file ss fullPath (take n (mg_buf o)), None) in
              match io w, err with
              | IODataFails n, _ => partial n
              | _, Some _ => partial 0%nat
              | _, None =>
                  if (mg_count o =? 0)%nat then partial 0%nat else
                  '(ss', res) ← finish_write w (set_file ss fullPath (mg_buf o)) fullPath (mg_buf o)
                                  (mg_blocks o) (mg_keys o) targetLevel (mg_min o) (mg_max o);
                  match res with
                  | Error _ => Some (ss', None)
                  | Ok _ => Some (ss', last (mata ss'))
                  end
              end
          end
      end
  end.

(** ** What a source still holds *)

Definition it_left (it : sstableIterator) : list entry :=
  match read_all (S (length (it_file it))) (it_file it) (it_rest it) (it_dataEnd it) [] with
  | Ok l => l
  | Error _ => []
  end.

(** The iterator stands at [l] inside the data section of a table file. *)
Definition it_at (it : sstableIterator) (l : list entry) : Prop :=
  exists es blob pre tail, table_fits es blob /\ es = pre ++ l /\
    it_file it = data es ++ tail /\ it_rest it = data l ++ tail /\ it_dataEnd it = zlen (data es) /\
    it_err it = None.

Lemma it_at_left it l : it_at it l -> it_left it = l.
Proof.
  intros (es & blob & pre & tail & Hf & Hes & H1 & H2 & H3 & _). unfold it_left. rewrite H1, H2, H3.
  rewrite (read_all_spec es blob Hf _ pre l); [done|done|].
  rewrite length_app. pose proof (length_data es). rewrite Hes in *. rewrite length_app in *. lia.
Qed.

Lemma it_at_sorted it l : it_at it l -> sorted l.
Proof.
  intros (es & blob & pre & tail & Hf & -> & _). pose proof (tf_sorted _ _ Hf) as Hs.
  by apply sorted_app in Hs as (_ & ? & _).
Qed.

Lemma Next_nil it : it_at it [] -> Next it = (it, false).
Proof.
  intros (es & blob & pre & tail & Hf & Hes & H1 & H2 & H3 & H4). unfold Next. rewrite H4, H1, H2, H3.
  cbn [data]. rewrite (proj2 (Z.ltb_lt _ _)) by (by eapply data_positive). cbn [andb].
  rewrite (proj2 (Z.leb_le _ _)); [done|]. rewrite zlen_app. change (data [] ++ tail) with tail. lia.
Qed.

Lemma Next_cons it e l :
  it_at it (e :: l) -> exists it', Next it = (it', true) /\ it_key it' = e.1 /\ it_value it' = e.2 /\ it_at it' l.
Proof.
  intros (es & blob & pre & tail & Hf & Hes & H1 & H2 & H3 & H4). unfold Next. rewrite H4, H1, H2, H3.
  rewrite (proj2 (Z.ltb_lt _ _)) by (by eapply data_positive). cbn [andb].
  pose proof (tf_entries _ _ Hf) as Hok. rewrite Hes in Hok.
  apply Forall_app in Hok as [_ [He _]%Forall_cons].
  assert (zlen (data es) = zlen (data pre) + zlen (data (e :: l))) as Hz by (by rewrite Hes, data_app, zlen_app).
  rewrite data_cons, !zlen_app in *. pose proof (zlen_encode_entry e). pose proof (zlen_nonneg (data l)).
  rewrite (proj2 (Z.leb_gt _ _)) by lia.
  unfold encode_entry at 1. rewrite <- !app_assoc. rewrite read_be4_app by apply He.
  rewrite read_record_entry by done. destruct e as [k v].
  eexists. split; [done|]. cbn. split_and!; [done|done|].
  exists es, blob, (pre ++ [(k, v)]), tail. rewrite <- app_assoc. by split_and!.
Qed.

(** The entries a source has not given out: its current one and the rest. *)
Definition content (s : mergeSource) : list entry :=
  match src_key s with
  | Some k => (k, src_value s) :: it_left (src_it s)
  | None => []
  end.

(** A source in the heap. *)
Definition src_ok (s : mergeSource) : Prop :=
  exists k l, src_key s = Some k /\ src_prev s = Some k /\ it_at (src_it s) l /\ sorted ((k, src_value s) :: l).

Lemma src_ok_content s : src_ok s -> exists k l, src_key s = Some k /\ content s = (k, src_value s) :: l /\
  src_prev s = Some k /\ it_at (src_it s) l /\ sorted (content s) /\ heap_key s = k.
Proof.
  intros (k & l & Hk & Hp & Hit & Hs). exists k, l. unfold content, heap_key. rewrite Hk.
  rewrite (it_at_left _ _ Hit). by split_and!.
Qed.

(** Pulling a source that stands at [l] with a smaller previous key. *)
Lemma pull_spec s l :
  it_at (src_it s) l -> (forall prev e, src_prev s = Some prev -> e ∈ l -> blt prev e.1) ->
  exists s', pull s = (s', None) /\ srcIdx s' = srcIdx s /\ content s' = l /\ (l <> [] -> src_ok s') /\
    (l = [] -> src_key s' = None).
Proof.
  intros Hit Hprev. unfold pull. destruct l as [|e l].
  - rewrite (Next_nil _ Hit). destruct Hit as (? & ? & ? & ? & ? & ? & ? & ? & ? & Herr). rewrite Herr.
    eexists. by split_and!.
  - destruct (Next_cons _ _ _ Hit) as (it' & -> & Hk & Hv & Hit'). rewrite Hk, Hv.
    assert ((match src_prev s with Some prev => bool_decide (ble e.1 prev) | None => false end) = false) as ->.
    { destruct (src_prev s) as [prev|]; [|done]. apply bool_decide_eq_false. rewrite <- not_blt.
      intros Hn. apply Hn. by apply Hprev; [|left]. }
    eexists. split; [done|]. split; [done|]. unfold content. cbn. rewrite (it_at_left _ _ Hit').
    split_and!; [by destruct e| |done]. intros _. exists e.1, l. cbn. split_and!; try done.
    apply it_at_sorted in Hit. by destruct e.
Qed.

(** ** The heap *)

Lemma less_spec a b :
  less a b = true <-> blt (heap_key a) (heap_key b) \/ heap_key a = heap_key b /\ srcIdx b < srcIdx a.
Proof.
  unfold less. destruct (bcompare_spec (heap_key a) (heap_key b)) as [E|E|E].
  - rewrite Z.ltb_lt. split; [auto|]. intros [H|[_ H]]; [|done]. rewrite E in H. by apply blt_irrefl in H.
  - split; auto.
  - split; [done|]. intros [H|[H _]]; [by destruct (blt_asym _ _ E H)|].
    rewrite H in E. by apply blt_irrefl in E.
Qed.

Lemma less_asym a b : less a b = true -> less b a = false.
Proof.
  intros H. destruct (less b a) eqn:E; [|done]. apply less_spec in H, E.
  destruct H as [H|[H1 H2]], E as [E|[E1 E2]].
  - by destruct (blt_asym _ _ H E).
  - rewrite E1 in H. by apply blt_irrefl in H.
  - rewrite H1 in E. by apply blt_irrefl in E.
  - lia.
Qed.

(** [less] is a strict weak order. *)
Lemma less_weak a b c : less b a = false -> less c a = true -> less c b = true.
Proof.
  intros Hba. rewrite !less_spec. destruct (bcompare_spec (heap_key b) (heap_key a)) as [E|E|E].
  - intros [H|[H1 H2]]; [left; by rewrite E|]. right. rewrite E. split; [done|].
    destruct (decide (srcIdx a < srcIdx b)) as [Hlt|]; [|lia].
    assert (less b a = true) as Hc by (apply less_spec; auto). congruence.
  - assert (less b a = true) as Hc by (apply less_spec; auto). congruence.
  - intros [H|[H1 H2]]; left; [by etransitivity|by rewrite H1].
Qed.

(** No element of the heap is [less] than the popped one, and nothing is lost. *)
Lemma heap_pop_spec h :
  match heap_pop h with
  | None => h = []
  | Some (m, r) => h ≡ₚ m :: r /\ forall x, x ∈ r -> less x m = false
  end.
Proof.
  induction h as [|x h IH]; [done|]. cbn [heap_pop]. destruct (heap_pop h) as [[m r]|]; [|rewrite IH; split; [done|by intros ? ?%elem_of_nil]].
  destruct IH as [Hp Hmin]. destruct (less m x) eqn:E.
  - split; [rewrite Hp; constructor|]. intros y [->|Hy]%elem_of_cons; [by apply less_asym|auto].
  - split; [done|]. intros y Hy. rewrite Hp in Hy. apply elem_of_cons in Hy as [->|Hy]; [done|].
    destruct (less y x) eqn:E'; [|done]. rewrite <- (less_weak x m y E E'). by apply Hmin.
Qed.

(** ** What the heap holds *)

Definition heap_ok (h : list mergeSource) : Prop := forall s, s ∈ h -> src_ok s.

(** Source [i] still has [k] with value [v]. *)
Definition in_source (h : list mergeSource) (k : bytes) (i : Z) (v : option bytes) : Prop :=
  exists s, s ∈ h /\ srcIdx s = i /\ find k (content s) = Some v.

Definition total (h : list mergeSource) : nat := sum_list_with (fun s => length (content s)) h.

Lemma in_source_perm h h' k i v : h ≡ₚ h' -> in_source h k i v <-> in_source h' k i v.
Proof. intros Hp. unfold in_source. by setoid_rewrite Hp. Qed.

Lemma in_source_cons s h k i v :
  in_source (s :: h) k i v <-> (srcIdx s = i /\ find k (content s) = Some v) \/ in_source h k i v.
Proof.
  unfold in_source. setoid_rewrite elem_of_cons. split.
  - intros (x & [->|Hx] & ? & ?); [by left|right; by exists x].
  - intros [[? ?]|(x & ? & ? & ?)]; [exists s; auto|exists x; auto].
Qed.

Lemma total_perm h h' : h ≡ₚ h' -> total h = total h'.
Proof. intros Hp. unfold total. by rewrite Hp. Qed.

Lemma advance_spec rest s :
  heap_ok rest -> src_ok s ->
  exists h', advance rest s = (h', None) /\ heap_ok h' /\
    (forall k i v, k <> heap_key s -> in_source h' k i v <-> in_source (s :: rest) k i v) /\
    S (total h') = total (s :: rest) /\
    (forall x, x ∈ h' -> x ∈ rest \/ blt (heap_key s) (heap_key x)) /\
    (length h' <= S (length rest))%nat.
Proof.
  intros Hrest Hs. destruct (src_ok_content s Hs) as (k & l & Hk & Hc & Hp & Hit & Hsort & Hkey).
  rewrite Hkey. unfold advance.
  destruct (pull_spec s l Hit) as (s' & -> & Hidx & Hc' & Hok' & Hnil).
  { intros prev e Hprev He. rewrite Hp in Hprev. injection Hprev as <-. rewrite Hc in Hsort.
    by apply (sorted_tail _ _ e Hsort). }
  assert (forall x i v, x <> k -> find x l = Some v /\ srcIdx s' = i <->
            srcIdx s = i /\ find x (content s) = Some v) as Hfind.
  { intros x i v Hx. rewrite Hc, Hidx. cbn. rewrite bool_decide_false by done. tauto. }
  destruct l as [|e l].
  - rewrite (Hnil eq_refl). exists rest. split_and!; [done|done| | |by left|lia].
    + intros x i v Hx. rewrite in_source_cons, <- (Hfind x i v Hx). split; [by right|]. by intros [[? _]|?].
    + unfold total. cbn. by rewrite Hc.
  - destruct (Hok' ltac:(done)) as (k' & l' & Hk' & Hp' & Hit' & Hs'). rewrite Hk'.
    assert (heap_push rest s' ≡ₚ s' :: rest) as Hpush by (unfold heap_push; by rewrite Permutation_app_comm).
    exists (heap_push rest s'). split_and!; [done| | | | |].
    + intros x Hx. rewrite Hpush in Hx. apply elem_of_cons in Hx as [->|Hx]; [by apply Hok'|auto].
    + intros x i v Hx. rewrite (in_source_perm _ _ x i v Hpush), !in_source_cons, <- (Hfind x i v Hx), Hc'. tauto.
    + rewrite (total_perm _ _ Hpush). unfold total. cbn. rewrite Hc, Hc'. cbn. lia.
    + intros x Hx. rewrite Hpush in Hx. apply elem_of_cons in Hx as [->|Hx]; [right|by left].
      assert (heap_key s' = e.1) as ->.
      { destruct (src_ok_content s' (Hok' ltac:(done))) as (k2 & l2 & _ & Hc2 & _ & _ & _ & ->).
        rewrite Hc' in Hc2. by injection Hc2 as -> _. }
      rewrite Hc in Hsort. apply (sorted_tail _ _ e Hsort). left.
    + unfold heap_push. rewrite length_app. cbn. lia.
Qed.

(** ** Dropping older versions *)

Definition heads (h : list mergeSource) (k : bytes) : nat := length (filter (fun s => heap_key s = k) h).

Lemma heads_bound h k : (heads h k <= length h)%nat.
Proof. apply length_filter. Qed.

Lemma heads_zero h k s : heads h k = 0%nat -> s ∈ h -> heap_key s <> k.
Proof.
  intros H Hs Hk. assert (s ∈ filter (fun s => heap_key s = k) h) as Hin by (by rewrite list_elem_of_filter).
  unfold heads in H. apply nil_length_inv in H. rewrite H in Hin. by apply elem_of_nil in Hin.
Qed.

Lemma heads_advance rest s h' k :
  heap_ok rest -> src_ok s -> advance rest s = (h', None) -> heap_key s = k -> heads h' k = heads rest k.
Proof.
  intros Hrest Hs Hadv Hk. destruct (src_ok_content s Hs) as (k0 & l & _ & Hc & Hp & Hit & Hsort & Hkey).
  unfold advance in Hadv.
  destruct (pull_spec s l Hit) as (s' & Hpull & Hidx & Hc' & Hok' & Hnil).
  { intros prev e Hprev He. rewrite Hp in Hprev. injection Hprev as <-. rewrite Hc in Hsort.
    by apply (sorted_tail _ _ e Hsort). }
  rewrite Hpull in Hadv. destruct (src_key s') as [k'|] eqn:Ek; injection Hadv as <-; [|done].
  unfold heads, heap_push. rewrite filter_app, filter_cons, decide_False.
  { cbn. by rewrite app_nil_r. }
  destruct l as [|e l]; [specialize (Hnil eq_refl); congruence|].
  destruct (src_ok_content s' (Hok' ltac:(done))) as (k2 & l2 & _ & Hc2 & _ & _ & _ & Hk2).
  rewrite Hc' in Hc2. injection Hc2 as -> _. rewrite Hk2. rewrite Hc in Hsort.
  pose proof (sorted_tail _ _ (k2, src_value s') Hsort ltac:(left)) as Hlt. cbn in Hlt.
  intros E. rewrite E, <- Hk, Hkey in Hlt. by apply blt_irrefl in Hlt.
Qed.

Lemma drop_dups_spec fuel h k :
  heap_ok h -> (forall s, s ∈ h -> ble k (heap_key s)) -> (heads h k <= fuel)%nat ->
  exists h', drop_dups fuel h k = (h', None) /\ heap_ok h' /\ (forall s, s ∈ h' -> blt k (heap_key s)) /\
    (forall k' i v, k' <> k -> in_source h' k' i v <-> in_source h k' i v) /\ (total h' <= total h)%nat.
Proof.
  revert h. induction fuel as [|fuel IH]; intros h Hok Hge Hf; cbn [drop_dups].
  { exists h. split_and!; try done. intros s Hs. assert (heap_key s <> k) by (apply (heads_zero h); [lia|done]).
    apply Hge, ble_lteq in Hs as [|]; congruence. }
  pose proof (heap_pop_spec h) as Hpop. destruct (heap_pop h) as [[dup rest]|].
  2: { rewrite Hpop. exists []. split_and!; try done; by intros ? ?%elem_of_nil. }
  destruct Hpop as [Hperm Hmin].
  assert (src_ok dup /\ heap_ok rest) as [Hdup Hrest]
    by (split; [|intros s Hs]; apply Hok; rewrite Hperm; [left|by right]).
  case_bool_decide as Hk.
  - destruct (advance_spec rest dup Hrest Hdup) as (h1 & Hadv & Hok1 & Hin1 & Htot1 & Hkeys1 & _).
    rewrite Hadv. assert (heads h1 k <= fuel)%nat as Hf1.
    { rewrite (heads_advance rest dup h1 k) by done.
      assert (heads h k = S (heads rest k)); [|lia]. unfold heads. rewrite Hperm, filter_cons, decide_True by done. done. }
    destruct (IH h1 Hok1) as (h' & -> & Hok' & Hgt & Hin & Htot); [|done|].
    { intros s Hs. destruct (Hkeys1 s Hs) as [Hr|Hlt]; [apply Hge; rewrite Hperm; by right|].
      rewrite <- Hk. by apply blt_ble. }
    exists h'. split_and!; try done.
    + intros k' i v Hne. rewrite Hin, (Hin1 k' i v), (in_source_perm h _ k' i v Hperm) by congruence. done.
    + rewrite (total_perm _ _ Hperm), <- Htot1. lia.
  - exists h. split_and!; try done. intros s Hs.
    assert (blt k (heap_key dup)) as Hlt.
    { assert (ble k (heap_key dup)) as Hle by (apply Hge; rewrite Hperm; left).
      apply ble_lteq in Hle as [|]; congruence. }
    rewrite Hperm in Hs. apply elem_of_cons in Hs as [->|Hs]; [done|].
    specialize (Hmin s Hs). eapply blt_ble_trans; [exact Hlt|]. apply not_blt. intros Hc.
    assert (less s dup = true) as Hl by (apply less_spec; by left). congruence.
Qed.

(** ** One output *)

(** The newest version of a key among the sources. *)
Definition newest (h : list mergeSource) (k : bytes) (v : option bytes) : Prop :=
  exists i, in_source h k i v /\ forall i' v', in_source h k i' v' -> i' <= i.

(** A key of a source is at least the source's head. *)
Lemma in_source_head h k i v : heap_ok h -> in_source h k i v ->
  exists s, s ∈ h /\ srcIdx s = i /\ find k (content s) = Some v /\ ble (heap_key s) k.
Proof.
  intros Hok (s & Hs & Hi & Hf). exists s. split_and!; try done.
  destruct (src_ok_content s (Hok s Hs)) as (k0 & l & _ & Hc & _ & _ & Hsort & ->).
  apply find_elem in Hf. rewrite Hc in *. apply elem_of_cons in Hf as [[= -> _]|Hf]; [apply ble_refl|].
  apply blt_ble. by apply (sorted_tail _ _ (k, v) Hsort).
Qed.

Lemma mergeNext_spec h :
  heap_ok h -> h <> [] ->
  exists h' k v, mergeNext h = NextEntry h' k v /\ heap_ok h' /\
    (forall s, s ∈ h -> ble k (heap_key s)) /\ (exists s, s ∈ h /\ heap_key s = k) /\
    (forall s, s ∈ h' -> blt k (heap_key s)) /\
    newest h k v /\ (forall k' i v', k' <> k -> in_source h' k' i v' <-> in_source h k' i v') /\
    (total h' < total h)%nat.
Proof.
  intros Hok Hne. unfold mergeNext. pose proof (heap_pop_spec h) as Hpop.
  destruct (heap_pop h) as [[top rest]|]; [|done]. destruct Hpop as [Hperm Hmin].
  assert (top ∈ h) as Htin by (rewrite Hperm; left).
  assert (src_ok top /\ heap_ok rest) as [Htop Hrest]
    by (split; [by apply Hok|intros s Hs; apply Hok; rewrite Hperm; by right]).
  set (k := heap_key top).
  assert (forall s, s ∈ h -> ble k (heap_key s)) as Hge.
  { intros s Hs. rewrite Hperm in Hs. apply elem_of_cons in Hs as [->|Hs]; [apply ble_refl|].
    specialize (Hmin s Hs). apply not_blt. intros Hc.
    assert (less s top = true) as Hl by (apply less_spec; by left). congruence. }
  destruct (advance_spec rest top Hrest Htop) as (h1 & -> & Hok1 & Hin1 & Htot1 & Hkeys1 & _).
  destruct (drop_dups_spec (length h1) h1 k Hok1) as (h' & -> & Hok' & Hgt & Hin & Htot).
  { intros s Hs. destruct (Hkeys1 s Hs) as [Hr|Hlt]; [apply Hge; rewrite Hperm; by right|by apply blt_ble]. }
  { apply heads_bound. }
  exists h', k, (src_value top). split_and!; try done.
  - by exists top.
  - destruct (src_ok_content top Htop) as (k0 & l & _ & Hc & _ & _ & _ & Hk0).
    exists (srcIdx top). split.
    + exists top. split_and!; [done|done|]. rewrite Hc. cbn. by rewrite bool_decide_true.
    + intros i' v' Hi'. destruct (in_source_head h k i' v' Hok Hi') as (s & Hs & <- & _ & Hle).
      specialize (Hge s Hs). rewrite Hperm in Hs. apply elem_of_cons in Hs as [->|Hs]; [done|].
      specialize (Hmin s Hs). destruct (decide (srcIdx top < srcIdx s)) as [Hlt|]; [|lia].
      assert (heap_key s = heap_key top) as Heq.
      { destruct (bcompare_spec (heap_key s) k) as [|Hb|Hb]; [done| |].
        - by apply not_blt in Hge.
        - by apply not_blt in Hle. }
      assert (less s top = true) as Hl by (apply less_spec; by right). congruence.
  - intros k' i v' Hk'. rewrite Hin, Hin1, (in_source_perm h _ k' i v' Hperm) by done. done.
  - rewrite (total_perm _ _ Hperm), <- Htot1. lia.
Qed.

(** ** The whole output *)

Definition emit_all (o : merged) (es : list entry) : merged := foldl (fun o e => emit o e.1 e.2) o es.

Lemma merge_loop_spec fuel h o :
  heap_ok h -> (total h < fuel)%nat ->
  exists out, merge_loop fuel h o = (emit_all o out, None) /\ sorted out /\
    (forall b, (forall s, s ∈ h -> blt b (heap_key s)) -> forall e, e ∈ out -> blt b e.1) /\
    (forall k v, find k out = Some v -> newest h k v) /\
    (forall k, find k out = None -> forall i v, ~ in_source h k i v).
Proof.
  revert h o. induction fuel as [|fuel IH]; intros h o Hok Hf; [lia|]. cbn [merge_loop].
  destruct (decide (h = [])) as [->|Hne].
  { exists []. split_and!; [done|constructor| |done|].
    - by intros b _ e ?%elem_of_nil.
    - intros k _ i v (s & Hs & _). by apply elem_of_nil in Hs. }
  destruct (mergeNext_spec h Hok Hne) as (h' & k & v & -> & Hok' & Hge & (s0 & Hs0 & Hk0) & Hgt & Hnew & Hin & Htot).
  destruct (IH h' (emit o k v) Hok') as (out & -> & Hs & Hlow & Hfind & Hnone); [lia|].
  assert (forall e, e ∈ out -> blt k e.1) as Hout by (by apply Hlow).
  exists ((k, v) :: out). split_and!.
  - done.
  - constructor; [done|]. by rewrite Forall_forall.
  - intros b Hb e [->|He]%elem_of_cons; [cbn; rewrite <- Hk0; by apply Hb|].
    etransitivity; [|by apply Hout]. rewrite <- Hk0. by apply Hb.
  - intros k' v'. cbn. case_bool_decide as E; [intros [= <-]; by rewrite <- E|].
    intros (i & Hi & Hmax)%Hfind. exists i. split; [by apply Hin|]. intros i' v2 Hi'. eapply Hmax. by apply Hin.
  - intros k'. cbn. case_bool_decide as E; [done|]. intros Hn i v' Hi. apply (Hnone k' Hn i v'). by apply Hin.
Qed.

(** The running sums of the output loop are those of the batch writer. *)
Lemma emit_all_spec es :
  let o := emit_all (mkMerged 0%nat 0 [] [] [] [] []) es in
  mg_count o = length es /\ mg_offset o = zlen (data es) /\ mg_buf o = data es /\ mg_blocks o = index_of es /\
  mg_keys o = es.*1 /\ mg_min o = default [] (fst <$> head es) /\ mg_max o = default [] (fst <$> last es).
Proof.
  induction es as [|e es IH] using rev_ind; [done|]. destruct IH as (H1 & H2 & H3 & H4 & H5 & H6 & H7).
  unfold emit_all in *. rewrite foldl_app. cbn [foldl].
  set (o := foldl _ _ es) in *. unfold emit. cbv zeta. cbn [mg_count mg_offset mg_buf mg_blocks mg_keys mg_min mg_max].
  rewrite H1, H2, H3, H4, H5, H6, index_of_snoc, data_app, length_app, fmap_app, last_snoc.
  assert (data [e] = be_enc 4 (zlen e.1) ++ e.1 ++ encode_value e.2) as He
    by (unfold data; cbn; by rewrite app_nil_r).
  rewrite He. split_and!; try done.
  - cbn. lia.
  - rewrite !zlen_app, zlen_be_enc. destruct e as [k [v|]]; cbn [fst snd encode_value]; len_lia.
  - destruct es; done.
Qed.

(** ** Opening the sources *)

Lemma holds_iterator ss path es :
  holds ss path es -> exists it, newSSTableIterator ss path = Ok it /\ it_at it es /\ es <> [].
Proof.
  intros (blob & Hf & Hfile & _). unfold newSSTableIterator. rewrite Hfile. eexists. split; [done|].
  split; [|by apply tf_nonempty in Hf]. exists es, blob, []. eexists. split_and!; [done|done|done|done| |done].
  cbn. by apply dataEnd_file.
Qed.

Lemma open_all_spec ss metas tables :
  Forall2 (fun meta es => holds ss (Filepath meta) es) metas tables ->
  exists iters, open_all ss metas = Ok iters /\ Forall2 (fun it es => it_at it es /\ es <> []) iters tables.
Proof.
  induction 1 as [|meta es metas tables Hh _ (iters & Hrun & IH)]; [by exists []|].
  destruct (holds_iterator _ _ _ Hh) as (it & Hit & Hat). exists (it :: iters).
  cbn. rewrite Hit. cbn. unfold open_all in Hrun. rewrite Hrun. split; [done|by constructor].
Qed.

(** Source [j] of the merge is the [j]-th file. *)
Definition in_tables (idx : Z) (tables : list (list entry)) (k : bytes) (i : Z) (v : option bytes) : Prop :=
  exists j es, tables !! j = Some es /\ i = idx + Z.of_nat j /\ find k es = Some v.

Lemma init_heap_spec idx iters tables h :
  heap_ok h -> Forall2 (fun it es => it_at it es /\ es <> []) iters tables ->
  exists h', init_heap idx iters h = Ok h' /\ heap_ok h' /\
    (forall k i v, in_source h' k i v <-> in_source h k i v \/ in_tables idx tables k i v) /\
    (h' = [] -> tables = []).
Proof.
  intros Hok Hall. revert idx h Hok. induction Hall as [|it es iters tables [Hit Hne] _ IH]; intros idx h Hok.
  { exists h. split_and!; try done. intros k i v. split; [by left|]. intros [?|(j & es & Hj & _)]; [done|].
    by rewrite lookup_nil in Hj. }
  cbn [init_heap].
  destruct (pull_spec (mkSource it idx None None None) es Hit ltac:(done)) as (s & -> & Hidx & Hc & Hsok & _).
  destruct (src_ok_content s (Hsok Hne)) as (k0 & l & Hk0 & _). rewrite Hk0.
  assert (heap_push h s ≡ₚ s :: h) as Hpush by (unfold heap_push; by rewrite Permutation_app_comm).
  destruct (IH (idx + 1) (heap_push h s)) as (h' & -> & Hok' & Hin & Hnil).
  { intros x Hx. rewrite Hpush in Hx. apply elem_of_cons in Hx as [->|Hx]; [by apply Hsok|by apply Hok]. }
  exists h'. split_and!; [done|done| |].
  - intros k i v. rewrite Hin, (in_source_perm _ _ k i v Hpush), in_source_cons, Hc, Hidx. cbn [srcIdx]. split.
    + intros [[[<- Hf]|?]|(j & es' & Hj & -> & Hf)]; [right; exists 0%nat, es; split_and!; [done|lia|done]|by left|].
      right. exists (S j), es'. split_and!; [done|lia|done].
    + intros [?|([|j] & es' & Hj & -> & Hf)]; [by left; right| |].
      * injection Hj as <-. left. left. split; [lia|done].
      * right. exists j, es'. split_and!; [done|lia|done].
  - intros E. exfalso. assert (in_source h' (heap_key s) (srcIdx s) (src_value s)) as (x & Hx & _); [|by rewrite E in Hx; apply elem_of_nil in Hx].
    apply Hin. left. apply (in_source_perm _ _ _ _ _ Hpush). apply in_source_cons. left. split; [done|].
    destruct (src_ok_content s (Hsok Hne)) as (k1 & l1 & _ & Hc1 & _ & _ & _ & ->). rewrite Hc1. cbn.
    by rewrite bool_decide_true.
Qed.

Lemma merge_fuel_enough h : heap_ok h -> (total h < merge_fuel h)%nat.
Proof.
  intros Hok. unfold total, merge_fuel. apply Nat.lt_succ_r.
  induction h as [|s h IH]; [done|]. cbn.
  assert (heap_ok h) as Hh by (intros x ?; apply Hok; by right). specialize (IH Hh).
  destruct (src_ok_content s (Hok s ltac:(left))) as (k & l & _ & -> & _ & Hit & _).
  destruct Hit as (es & blob & pre & tail & _ & _ & _ & Hrest & _). rewrite Hrest, length_app.
  pose proof (length_data l). cbn [length]. lia.
Qed.

(** ** The specification of a merge: the last table that has a key wins *)

Fixpoint newest_find (k : bytes) (tables : list (list entry)) : option (option bytes) :=
  match tables with
  | [] => None
  | es :: rest => match newest_find k rest with Some v => Some v | None => find k es end
  end.

Lemma newest_find_spec idx tables k :
  match newest_find k tables with
  | Some v => exists i, in_tables idx tables k i v /\ forall i' v', in_tables idx tables k i' v' ->
                i' < i \/ i' = i /\ v' = v
  | None => forall i v, ~ in_tables idx tables k i v
  end.
Proof.
  revert idx. induction tables as [|es tables IH]; intros idx; cbn [newest_find].
  { intros i v (j & es & Hj & _). by rewrite lookup_nil in Hj. }
  assert (forall i v, in_tables idx (es :: tables) k i v <->
            (i = idx /\ find k es = Some v) \/ in_tables (idx + 1) tables k i v) as Hcons.
  { intros i v. split.
    - intros ([|j] & es' & Hj & -> & Hf); [injection Hj as <-; left; split; [lia|done]|].
      right. exists j, es'. split_and!; [done|lia|done].
    - intros [[-> Hf]|(j & es' & Hj & -> & Hf)]; [exists 0%nat, es; split_and!; [done|lia|done]|].
      exists (S j), es'. split_and!; [done|lia|done]. }
  assert (forall i v, in_tables (idx + 1) tables k i v -> idx < i) as Hgt
    by (intros i v (j & ? & _ & -> & _); lia).
  specialize (IH (idx + 1)). destruct (newest_find k tables) as [v|].
  - destruct IH as (i & Hi & Hmax). exists i. split; [apply Hcons; by right|].
    intros i' v' [[-> _]|H]%Hcons; [left; by eapply Hgt|by apply Hmax].
  - destruct (find k es) as [v|] eqn:E.
    + exists idx. split; [apply Hcons; by left|]. intros i' v' [[-> Hf]|H]%Hcons; [right|by destruct (IH i' v')].
      split; [done|congruence].
    + intros i v [[_ ?]|H]%Hcons; [done|by destruct (IH i v)].
Qed.

(** The merge of the open files is the list that looks up like the newest table. *)
Lemma merge_files ss metas tables o :
  metas <> [] -> Forall2 (fun meta es => holds ss (Filepath meta) es) metas tables ->
  exists h out, (let? iters := open_all ss metas in newMergeIterator iters) = Ok h /\
    merge_loop (merge_fuel h) h o = (emit_all o out, None) /\ sorted out /\ out <> [] /\
    forall k, find k out = newest_find k tables.
Proof.
  intros Hne Hall. destruct (open_all_spec _ _ _ Hall) as (iters & -> & Hits). cbn [rbind].
  destruct (init_heap_spec 0 iters tables [] ltac:(by intros ? ?%elem_of_nil) Hits) as (h & Hh & Hok & Hin & Hnil).
  destruct (merge_loop_spec (merge_fuel h) h o Hok (merge_fuel_enough h Hok)) as (out & Hrun & Hs & _ & Hfind & Hnone).
  assert (forall k, find k out = newest_find k tables) as Hspec.
  { intros k. pose proof (newest_find_spec 0 tables k) as Hn.
    assert (forall i v, in_source h k i v <-> in_tables 0 tables k i v) as Hsame.
    { intros i v. rewrite Hin. split; [|by right]. intros [(s & Hx & _)|?]; [by apply elem_of_nil in Hx|done]. }
    destruct (find k out) as [v|] eqn:E.
    - apply Hfind in E as (i & Hi & Hmax). apply Hsame in Hi. destruct (newest_find k tables) as [v'|].
      + destruct Hn as (i' & Hi' & Hmax'). apply Hmax' in Hi as [Hlt|[_ ->]]; [|done].
        apply Hsame, Hmax in Hi'. lia.
      + by destruct (Hn i v).
    - destruct (newest_find k tables) as [v'|]; [|done]. destruct Hn as (i & Hi & _).
      apply Hsame in Hi. by destruct (Hnone k E i v'). }
  exists h, out. split_and!; try done. intros ->.
  destruct Hall as [|meta es metas tables Hh' _]; [done|].
  destruct Hh' as (blob & Hf & _). pose proof (tf_nonempty _ _ Hf) as He. pose proof (tf_sorted _ _ Hf) as Hse.
  destruct es as [|e es]; [done|]. specialize (Hspec e.1). cbn in Hspec.
  rewrite bool_decide_true in Hspec by done. by destruct (newest_find e.1 tables).
Qed.

(** A merge without an I/O error. *)
Lemma MergeSSTable_spec `{BloomMathLaws} (w : world) (ss : SSTable) (metas : list SSTableMata)
    (tables : list (list entry)) (targetLevel : Z)
    (Hworld : world_ok w) (Hio : io w = IOFine) (Hne : metas <> [])
    (Htables : Forall2 (fun meta es => holds ss (Filepath meta) es) metas tables)
    (Hfits : forall out, sorted out -> out <> [] -> (forall k, find k out = newest_find k tables) -> writable w out) :
  exists ss' meta out e0 m, MergeSSTable w ss metas targetLevel = Some (ss', Some meta) /\
    sorted out /\ (forall k, find k out = newest_find k tables) /\
    head out = Some e0 /\ last out = Some m /\
    mata ss' = mata ss ++ [meta] /\ ident meta = next_ident ss /\ next_ident ss' = S (next_ident ss) /\
    Level meta = targetLevel /\ Filepath meta = mergedName (now w) /\
    MinKey meta = e0.1 /\ MaxKey meta = m.1 /\ MaxKeyLoaded meta = true /\ holds ss' (mergedName (now w)) out /\
    (forall p es, p <> mergedName (now w) -> holds ss p es -> holds ss' p es) /\
    (forall p, p <> mergedName (now w) -> files ss' !! p = files ss !! p).
Proof.
  destruct (merge_files ss metas tables (mkMerged 0%nat 0 [] [] [] [] []) Hne Htables)
    as (h & out & Hopen & Hloop & Hs & Hout & Hfind).
  unfold MergeSSTable. destruct metas as [|m0 metas]; [done|]. rewrite Hopen, Hio, Hloop.
  destruct (emit_all_spec out) as (H1 & H2 & H3 & H4 & H5 & H6 & H7).
  set (o := emit_all _ out) in *. cbv zeta.
  assert (length out <> 0%nat) as Hlen by (by destruct out).
  rewrite H1, (proj2 (Nat.eqb_neq _ _) Hlen), H3, H4, H5, H6, H7.
  set (ss1 := set_file ss (mergedName (now w)) (data out)).
  destruct (finish_write_spec w ss1 (mergedName (now w)) out targetLevel (default [] (fst <$> head out))
              (default [] (fst <$> last out)) Hworld (Hfits out Hs Hout Hfind) Hio)
    as (ss' & size & Hrun & Hmata & Hid & Hh & Hkeep & Hfiles). rewrite Hrun. cbn [mbind option_bind].
  destruct out as [|e0 out']; [done|]. destruct (last (e0 :: out')) as [m|] eqn:Em; [|by apply last_None in Em].
  eexists ss', _, (e0 :: out'), e0, m. rewrite Hmata, last_snoc. split_and!; try done.
  2: { intros p Hp. rewrite Hfiles by done. cbn. by rewrite lookup_insert_ne. }
  intros p es Hp (blob & ? & ? & ? & ? & ?). apply Hkeep; [done|]. exists blob. cbn.
  rewrite lookup_insert_ne by done. by split_and!.
Qed.

(** C13: compaction refines the newest-version union: merging tables that are on
    disk (oldest first) without an I/O error adds one table at the target level
    that holds, for every key of any source, exactly the version of the last table
    that has it, tombstones kept, in strictly ascending order, under its own key
    range; every other table still answers as before. *)
Theorem merge_keeps_newest `{BloomMathLaws} (w : world) (ss : SSTable) (metas : list SSTableMata)
    (tables : list (list entry)) (targetLevel : Z)
    (Hworld : world_ok w) (Hio : io w = IOFine) (Hne : metas <> [])
    (Htables : Forall2 (fun meta es => holds ss (Filepath meta) es) metas tables)
    (Hfits : forall out, sorted out -> out <> [] -> (forall k, find k out = newest_find k tables) -> writable w out) :
  exists ss' meta out e0 m, MergeSSTable w ss metas targetLevel = Some (ss', Some meta) /\
    sorted out /\ (forall k, find k out = newest_find k tables) /\
    head out = Some e0 /\ last out = Some m /\
    mata ss' = mata ss ++ [meta] /\ Level meta = targetLevel /\ Filepath meta = mergedName (now w) /\
    MinKey meta = e0.1 /\ MaxKey meta = m.1 /\ holds ss' (mergedName (now w)) out /\
    (forall p es, p <> mergedName (now w) -> holds ss p es -> holds ss' p es).
Proof.
  destruct (MergeSSTable_spec w ss metas tables targetLevel Hworld Hio Hne Htables Hfits)
    as (ss' & meta & out & e0 & m & ? & ? & ? & ? & ? & ? & ? & ? & ? & ? & ? & ? & ? & ? & ? & ?).
  exists ss', meta, out, e0, m. by split_and!.
Qed.

(** Two tables; the second deletes a key of the first and overwrites another. *)
Definition sample_newer : list entry :=
  [(of_string "a:1", None); (of_string "b:2", Some (of_string "y")); (of_string "d", Some (of_string "z"))].
Definition sample_merged : list entry :=
  [(of_string "a:1", None); (of_string "b:2", Some (of_string "y")); (of_string "c", Some []);
   (of_string "d", Some (of_string "z"))].

Lemma sample_merged_find k : find k sample_merged = newest_find k [sample_table; sample_newer].
Proof.
  unfold sample_merged, sample_table, sample_newer. cbn [newest_find find fst snd].
  repeat case_bool_decide; subst; try done; match goal with H : of_string _ = of_string _ |- _ => solve [vm_compute in H; discriminate H] end.
Qed.

Lemma sample_newer_writable t : @writable sample_math (sample_world t) sample_newer.
Proof. writable_tac. Qed.

Lemma sample_merged_writable t : @writable sample_math (sample_world t) sample_merged.
Proof. writable_tac. Qed.

Lemma merge_keeps_newest_witness :
  exists ss metas ss' meta out,
    Forall2 (fun meta es => holds ss (Filepath meta) es) metas [sample_table; sample_newer] /\
    @MergeSSTable sample_math (sample_world 3) ss metas 1 = Some (ss', Some meta) /\
    out = sample_merged /\ holds ss' (mergedName 3) out.
Proof.
  destruct (@WriteToSSTable_spec sample_math sample_math_laws (sample_world 1) (NewSSTable ∅) sample_table
    (of_string "a:1", Some (of_string "x")) (of_string "c", Some []))
    as (ss1 & n1 & _ & Hm1 & _ & Hh1 & _); [apply sample_world_ok|apply sample_writable|reflexivity..|].
  destruct (@WriteToSSTable_spec sample_math sample_math_laws (sample_world 2) ss1 sample_newer
    (of_string "a:1", None) (of_string "d", Some (of_string "z")))
    as (ss2 & n2 & _ & Hm2 & _ & Hh2 & Hkeep & _); [apply sample_world_ok|apply sample_newer_writable|reflexivity..|].
  assert (sstName 1 <> sstName 2) as Hne by (intros E; vm_compute in E; discriminate E).
  apply (Hkeep (sstName 1) sample_table Hne) in Hh1. rewrite Hm1 in Hm2.
  assert (Forall2 (fun meta es => holds ss2 (Filepath meta) es) (mata ss2) [sample_table; sample_newer]) as Hall
    by (rewrite Hm2; repeat constructor; [exact Hh1|exact Hh2]).
  destruct (@merge_keeps_newest sample_math sample_math_laws (sample_world 3) ss2 (mata ss2)
    [sample_table; sample_newer] 1) as (ss' & meta & out & e0 & m & Hrun & Hs & Hf & _ & _ & _ & _ & _ & _ & _ & Hh & _).
  - apply sample_world_ok.
  - reflexivity.
  - rewrite Hm2. discriminate.
  - exact Hall.
  - intros out Hs _ Hf. rewrite (find_ext out sample_merged); [apply sample_merged_writable|exact Hs| |].
    + sorted_tac.
    + intros k. rewrite Hf. symmetry. apply sample_merged_find.
  - exists ss2, (mata ss2), ss', meta, out. split; [exact Hall|]. split; [exact Hrun|]. split; [|exact Hh].
    apply find_ext; [exact Hs|sorted_tac|]. intros k. rewrite Hf. symmetry. apply sample_merged_find.
Defined.

End Merge.
