(* ===== verification/MemTable.v ===== *)
(** The memtable of [storage/zstorage/memtable.go]: the active and the dirty
    table, the reads that fall through to the tables on disk, the flush in its
    locked and unlocked parts, byte credit and compaction. *)
From S2P Require Import Prelude Bytes Credit SkipList Bloom SSTable Merge.
Import Credits Partitioned SSTable Merge.

(** The settings of [config.G] the storage reads. *)
Class StorageConfig := {
  MaxMemTableSize : Z;
  MemTableMaxInflightBytes : Z;
  MaxCompactionSize : Z;
}.

Module MemTable.

Section MemTable.
Context `{BloomMath} `{StorageConfig} {T : Type} `{OrderedTable T}.

(** A channel of capacity one that carries no data is a flag. *)
Record MemTable := mkMT {
  active : option T;
  dirty : option T;
  sst : SSTable;
  credits : Pool;
  FlushChan : bool;
  compactCh : bool;
}.

Definition set_active (m : MemTable) (t : option T) : MemTable :=
  mkMT t (dirty m) (sst m) (credits m) (FlushChan m) (compactCh m).
Definition set_dirty (m : MemTable) (t : option T) : MemTable :=
  mkMT (active m) t (sst m) (credits m) (FlushChan m) (compactCh m).
Definition set_sst (m : MemTable) (ss : SSTable) : MemTable :=
  mkMT (active m) (dirty m) ss (credits m) (FlushChan m) (compactCh m).
Definition set_credits (m : MemTable) (p : Pool) : MemTable :=
  mkMT (active m) (dirty m) (sst m) p (FlushChan m) (compactCh m).

Definition NewMemTable (disk : gmap bytes bytes) : MemTable :=
  mkMT (Some t_new) None (NewSSTable disk) (New MemTableMaxInflightBytes) false false.

(** The non-blocking sends. *)
Definition StartFlush (m : MemTable) : MemTable :=
  mkMT (active m) (dirty m) (sst m) (credits m) true (compactCh m).
Definition StartCompact (m : MemTable) : MemTable :=
  mkMT (active m) (dirty m) (sst m) (credits m) (FlushChan m) true.

Definition Size (m : MemTable) : Z := match active m with None => 0 | Some t => t_size t end.

Definition InflightBytes (m : MemTable) : Z := Used (credits m).

(** ** Reads *)

(** [EnsureMeta] writes through the pointer the list holds. *)
Definition update_meta (ss : SSTable) (meta : SSTableMata) : SSTable :=
  set_mata ss ((fun m => if (ident m =? ident meta)%nat then meta else m) <$> mata ss).

(** The loop of [getFromSSTables]; [metas] are the tables still to visit. *)
Fixpoint visit (ss : SSTable) (metas : list SSTableMata) (key : bytes)
    : option (SSTable * option (option bytes)) :=
  match metas with
  | [] => Some (ss, None)
  | meta :: rest =>
      let meta := EnsureMeta (files ss) meta in
      let ss := update_meta ss meta in
      if bool_decide (blt key (MinKey meta)) || bool_decide (blt (MaxKey meta) key) then visit ss rest key else
      '(ss, found) ← ReadFromSSTable ss (Filepath meta) key;
      match found with
      | Some value => Some (ss, Some value)
      | None => visit ss rest key
      end
  end.

Definition getFromSSTables (m : MemTable) (key : bytes) : option (MemTable * option (option bytes)) :=
  '(ss, r) ← visit (sst m) (reverse (GetAllMata (sst m))) key; Some (set_sst m ss, r).

(** A nil value is a deletion. *)
Definition visible (v : option bytes) : result bytes :=
  match v with None => Error (Err "Key not found") | Some v => Ok v end.

Definition search_dirty (m : MemTable) (key : bytes) : option (option (option bytes)) :=
  match dirty m with None => Some None | Some t => t_search t key end.

Definition Get (m : MemTable) (key : bytes) : option (MemTable * result bytes) :=
  match active m with
  | None => Some (m, Error (Err "NO DATA IN MEM"))
  | Some t =>
      a ← t_search t key;
      match a with
      | Some v => Some (m, visible v)
      | None =>
          d ← search_dirty m key;
          match d with
          | Some v => Some (m, visible v)
          | None =>
              '(m, r) ← getFromSSTables m key;
              Some (m, match r with Some v => visible v | None => Error (Err "Key not found") end)
          end
      end
  end.

(** The two cursors of [ScanRange]: every turn moves at least one, so the lengths
    of both bound the turns.  [fn] gets and returns the caller's state and says
    whether to go on. *)
Fixpoint scan_loop {S} (fuel : nat) (fn : S -> bytes -> bytes -> S * bool) (end_ : bytes)
    (a d : list entry) (s : S) : S :=
  match fuel with
  | O => s
  | Datatypes.S fuel' =>
      let take_a (e : entry) a' d' :=
        if (0 <? zlen end_) && bool_decide (blt end_ e.1) then s else
        match e.2 with
        | None => scan_loop fuel' fn end_ a' d' s
        | Some val => let '(s, go) := fn s e.1 val in if go then scan_loop fuel' fn end_ a' d' s else s
        end in
      match a, d with
      | [], [] => s
      | e :: a', [] => take_a e a' []
      | [], e :: d' => take_a e [] d'
      | e :: a', e' :: d' =>
          if bool_decide (blt e.1 e'.1) then take_a e a' d
          else if bool_decide (blt e'.1 e.1) then take_a e' a d'
          else take_a e a' d'
      end
  end.

Definition from_start (t : option T) (start : bytes) : option (list entry) :=
  match t with None => Some [] | Some t => t_scan t start end.

Definition ScanRange {S} (m : MemTable) (start end_ : bytes) (fn : S -> bytes -> bytes -> S * bool) (s : S)
    : option S :=
  a ← from_start (active m) start;
  d ← from_start (dirty m) start;
  Some (scan_loop (length a + length d) fn end_ a d s).

(** ** Writes *)

(** The attempt and, when it fails, the request for a flush; [false] is a writer
    that now waits in [Acquire]. *)
Definition acquireCredit (m : MemTable) (n : Z) : MemTable * bool :=
  let '(ok, p) := TryAcquire (credits m) n in
  if ok then (set_credits m p, true)
  else
    let m := StartFlush m in
    match Acquire (credits m) n with
    | Some p => (set_credits m p, true)
    | None => (m, false)
    end.

(** The part under the lock: the change of the table's bytes. *)
Definition write_locked (m : MemTable) (key : bytes) (value : option bytes) (coins : list bool)
    : option (MemTable * result Z) :=
  match active m with
  | None => Some (m, Error (Err "NO DATA IN MEMTABLE"))
  | Some t =>
      '(t, delta) ← t_insert t key value coins;
      let m := set_active m (Some t) in
      Some (if MaxMemTableSize <? t_size t then StartFlush m else m, Ok delta)
  end.

Definition release (m : MemTable) (n : Z) : MemTable := set_credits m (Release (credits m) n).

(** What follows the lock: the credit that was not needed, or all of it. *)
Definition write_end (m : MemTable) (full : Z) (r : result Z) : MemTable * result unit :=
  match r with
  | Error e => (release m full, Error e)
  | Ok delta => let over := full - delta in (if over =? 0 then m else release m over, Ok tt)
  end.

(** [None] inside is a writer left waiting for credit. *)
Definition Put (m : MemTable) (key : bytes) (value : option bytes) (coins : list bool)
    : option (MemTable * option (result unit)) :=
  let full := zlen key + value_len value in
  let '(m, ok) := acquireCredit m full in
  if negb ok then Some (m, None) else
  '(m, r) ← write_locked m key value coins;
  let '(m, r) := write_end m full r in Some (m, Some r).

Definition Delete (m : MemTable) (key : bytes) (coins : list bool) : option (MemTable * option (result unit)) :=
  let full := zlen key in
  let '(m, ok) := acquireCredit m full in
  if negb ok then Some (m, None) else
  '(m, r) ← write_locked m key None coins;
  let '(m, r) := write_end m full r in Some (m, Some r).

(** ** Flush *)

(** Under the lock: the snapshot to write, [None] when there is nothing to do. A
    dirty table left by a failed flush is taken again. *)
Definition flush_begin (m : MemTable) : option (MemTable * option T) :=
  match dirty m with
  | Some t => Some (m, Some t)
  | None =>
      t ← active m;
      if t_size t =? 0 then Some (m, None)
      else Some (set_active (set_dirty m (Some t)) (Some t_new), Some t)
  end.

(** Outside the lock: whether the table is on disk. *)
Definition flush_write (w : world) (m : MemTable) (t : T) : option (MemTable * bool) :=
  allEntries ← t_collect t;
  '(ss, r) ← WriteToSSTable w (sst m) allEntries;
  let m := set_sst m ss in
  match r with
  | Error _ => Some (StartFlush m, false)
  | Ok _ => Some (m, true)
  end.

(** Under the lock again. *)
Definition flush_end (m : MemTable) (t : T) : MemTable * Z := (set_dirty m None, t_byteSize t).

Definition Flush (w : world) (m : MemTable) : option MemTable :=
  '(m, snap) ← flush_begin m;
  match snap with
  | None => Some m
  | Some t =>
      '(m, ok) ← flush_write w m t;
      if negb (ok : bool) then Some m else
      let '(m, freed) := flush_end m t in Some (release m freed)
  end.

(** ** Direct writes to the tables, and compaction *)

Fixpoint insert_entries (t : T) (entries : list entry) (coins : list (list bool)) : option T :=
  match entries with
  | [] => Some t
  | e :: rest =>
      '(t, _) ← t_insert t e.1 e.2 (default [] (head coins));
      insert_entries t rest (tail coins)
  end.

Definition FlushToSSTable (w : world) (m : MemTable) (entries : list entry) (coins : list (list bool))
    : option (MemTable * result unit) :=
  match entries with
  | [] => Some (m, Ok tt)
  | _ =>
      tmp ← insert_entries t_new entries coins;
      sorted ← t_collect tmp;
      match sorted with
      | [] => Some (m, Ok tt)
      | _ =>
          '(ss, r) ← WriteToSSTable w (sst m) sorted;
          match r with
          | Error e => Some (set_sst m ss, Error (Err "FlushToSSTable write error"))
          | Ok _ => Some (StartCompact (set_sst m ss), Ok tt)
          end
      end
  end.

Definition WriteSSTable (w : world) (m : MemTable) : option (MemTable * result unit) :=
  t ← active m;
  es ← t_collect t;
  '(ss, r) ← WriteToSSTable w (sst m) es;
  Some (StartCompact (set_sst m ss), r).

Definition maxLevel : nat := 10.

(** Deletes the merged files and takes them off the list. *)
Definition drop_files (ss : SSTable) (metas : list SSTableMata) : SSTable :=
  foldl (fun ss meta => RemoveMata (DeleteSSTable ss meta) meta) ss metas.

(** One level; [w] is the world its merge runs in. *)
Definition compact_level (w : world) (ss : SSTable) (level : Z) : option SSTable :=
  let metas := GetLevelFiles ss level in
  if zlen metas <? MaxCompactionSize then Some ss else
  '(ss, newMeta) ← MergeSSTable w ss metas (level + 1);
  match newMeta with
  | None => Some ss
  | Some _ => Some (drop_files ss metas)
  end.

(** The levels from [level] on, [n] of them. *)
Fixpoint compact_levels (n : nat) (ws : Z -> world) (ss : SSTable) (level : Z) : option SSTable :=
  match n with
  | O => Some ss
  | Datatypes.S n' => ss ← compact_level (ws level) ss level; compact_levels n' ws ss (level + 1)
  end.

Definition CompactSSTable (ws : Z -> world) (m : MemTable) (startLevel : nat) : option MemTable :=
  ss ← compact_levels (maxLevel - startLevel) ws (sst m) (Z.of_nat startLevel); Some (set_sst m ss).

End MemTable.

#[global] Arguments MemTable : clear implicits.

(** ** What a table list promises *)

(** A listed table: its file holds [es] and its key range is known. *)
Definition meta_ok (ss : SSTable) (meta : SSTableMata) (es : list entry) : Prop :=
  holds ss (Filepath meta) es /\ MaxKeyLoaded meta = true /\
  exists e0 m, head es = Some e0 /\ last es = Some m /\ MinKey meta = e0.1 /\ MaxKey meta = m.1.

Record tables_ok (ss : SSTable) (tables : list (list entry)) : Prop := {
  tk_metas : Forall2 (meta_ok ss) (mata ss) tables;
  tk_paths : NoDup (Filepath <$> mata ss);
  tk_idents : NoDup (ident <$> mata ss);
  tk_fresh : forall meta, meta ∈ mata ss -> (ident meta < next_ident ss)%nat;
}.

(** Equal but for [EnsureMeta]'s mark. *)
Definition same_meta (a b : SSTableMata) : Prop :=
  ident a = ident b /\ Level a = Level b /\ Filepath a = Filepath b /\ MinKey a = MinKey b /\
  MaxKey a = MaxKey b /\ SSTable.Size a = SSTable.Size b /\ MaxKeyLoaded a = MaxKeyLoaded b.

#[export] Instance same_meta_equiv : Equivalence same_meta.
Proof.
  split; [by intros a; repeat split|intros a b (?&?&?&?&?&?&?); by repeat split|].
  intros a b c (?&?&?&?&?&?&?) (?&?&?&?&?&?&?). repeat split; congruence.
Qed.

(** What reading does to a table list: caches and marks. *)
Definition reads (ss ss' : SSTable) : Prop :=
  Forall2 same_meta (mata ss) (mata ss') /\ files ss' = files ss /\ next_ident ss' = next_ident ss /\
  (forall p es, holds ss p es -> holds ss' p es).

#[export] Instance reads_preorder : PreOrder reads.
Proof.
  split; [by intros ss; split_and!|].
  intros x y z (H1 & H2 & H3 & H4) (G1 & G2 & G3 & G4). split_and!; [by etransitivity|congruence..|auto].
Qed.

Lemma only_caches_reads ss ss' : only_caches ss ss' -> reads ss ss'.
Proof. intros (E & ? & ? & ?). split_and!; try done. rewrite E. reflexivity. Qed.

Lemma same_meta_fmap {B} (f : SSTableMata -> B) l l' :
  (forall a b, same_meta a b -> f a = f b) -> Forall2 same_meta l l' -> f <$> l = f <$> l'.
Proof. intros Hf. induction 1 as [|a b l l' Hab _ IH]; [done|]. cbn. by rewrite (Hf a b Hab), IH. Qed.

Lemma tables_ok_reads ss ss' tables : reads ss ss' -> tables_ok ss tables -> tables_ok ss' tables.
Proof.
  intros (Hm & Hf & Hn & Hh) [T1 T2 T3 T4]. split.
  - assert (Forall2 same_meta (mata ss') (mata ss)) as Hm'.
    { apply Forall2_flip. eapply Forall2_impl; [exact Hm|]. intros a b Hab. exact (symmetry Hab). }
    eapply Forall2_trans; [|exact Hm'|exact T1].
    intros b a es (_ & _ & Hp & Hmin & Hmax & _ & Hl) (Hhold & Hload & e0 & m & ? & ? & Ha & Hb).
    split_and!; [rewrite Hp; by apply Hh|congruence|]. exists e0, m. rewrite Hmin, Hmax. by split_and!.
  - rewrite <- (same_meta_fmap Filepath _ _ ltac:(by intros a b (?&?&?&?)) Hm). done.
  - rewrite <- (same_meta_fmap ident _ _ ltac:(by intros a b (?&?)) Hm). done.
  - intros b Hb. rewrite Hn. apply list_elem_of_lookup_1 in Hb as [i Hb].
    destruct (Forall2_lookup_r _ _ _ _ _ Hm Hb) as (a & Ha & Hid & _). rewrite <- Hid.
    apply T4. by eapply list_elem_of_lookup_2.
Qed.

(** ** Reading the tables *)

(** The list's view of a table agrees with the pointer. *)
Definition listed (ss : SSTable) (meta : SSTableMata) : Prop :=
  forall m, m ∈ mata ss -> ident m = ident meta -> same_meta m meta.

Lemma EnsureMeta_same disk meta : MaxKeyLoaded meta = true -> same_meta meta (EnsureMeta disk meta).
Proof. intros Hl. unfold EnsureMeta. rewrite Hl. destruct (ensured meta); by repeat split. Qed.

Lemma listed_reads ss ss' meta : reads ss ss' -> listed ss meta -> listed ss' meta.
Proof.
  intros (Hm & _) Hl b Hb Hid. apply list_elem_of_lookup_1 in Hb as [i Hb].
  destruct (Forall2_lookup_r _ _ _ _ _ Hm Hb) as (a & Ha & Hab). etransitivity; [|apply Hl].
  - exact (symmetry Hab).
  - by eapply list_elem_of_lookup_2.
  - destruct Hab as (->&_). done.
Qed.

Lemma update_meta_reads ss meta meta' :
  listed ss meta -> same_meta meta meta' -> reads ss (update_meta ss meta').
Proof.
  intros Hl Hs. split_and!; [|done|done|].
  - cbn [mata update_meta set_mata]. apply Forall2_fmap_r. apply Forall_Forall2_diag. rewrite Forall_forall.
    intros m Hm. cbn. destruct (Nat.eqb_spec (ident m) (ident meta')) as [E|_]; [|reflexivity].
    etransitivity; [|exact Hs]. apply Hl; [done|]. destruct Hs as (-> & _). done.
  - intros p es (blob & ?). by exists blob.
Qed.

Fixpoint first_find (k : bytes) (tables : list (list entry)) : option (option bytes) :=
  match tables with
  | [] => None
  | es :: rest => match find k es with Some v => Some v | None => first_find k rest end
  end.

Lemma newest_find_app k a b :
  newest_find k (a ++ b) = match newest_find k b with Some v => Some v | None => newest_find k a end.
Proof.
  induction a as [|es a IH]; cbn [app newest_find]; [by destruct (newest_find k b)|].
  rewrite IH. by destruct (newest_find k b).
Qed.

Lemma first_find_reverse k tables : first_find k (reverse tables) = newest_find k tables.
Proof.
  induction tables as [|es tables IH] using rev_ind; [done|].
  rewrite reverse_app, newest_find_app, <- IH. cbn. by destruct (find k es).
Qed.

Lemma find_outside k es e0 m :
  sorted es -> head es = Some e0 -> last es = Some m -> blt k e0.1 \/ blt m.1 k -> find k es = None.
Proof.
  intros Hs H0 Hm Hout. apply find_None. intros e He <-. apply list_elem_of_lookup_1 in He as [i He].
  destruct Hout as [Hlt|Hlt].
  - destruct es as [|e' es]; [done|]. cbn in H0. injection H0 as ->.
    pose proof (sorted_lookup _ 0 i e0 e Hs ltac:(lia) eq_refl He) as Hle. by apply not_blt in Hle.
  - rewrite last_lookup in Hm. pose proof (lookup_lt_Some _ _ _ He).
    assert (i <= Nat.pred (length es))%nat as Hi by lia.
    pose proof (sorted_lookup _ i _ e m Hs Hi He Hm) as Hle. by apply not_blt in Hle.
Qed.

Lemma visit_spec ss metas tables key :
  Forall2 (meta_ok ss) metas tables -> Forall (listed ss) metas ->
  exists ss', visit ss metas key = Some (ss', first_find key tables) /\ reads ss ss'.
Proof.
  intros Hall. revert ss tables Hall. induction metas as [|meta metas IH]; intros ss tables Hall Hin;
    inversion Hall as [|? es ? rest Hmeta Hrest]; subst.
  { exists ss. by split; [|reflexivity]. }
  apply Forall_cons in Hin as [Hl Hin]. destruct Hmeta as (Hh & Hload & e0 & m & H0 & Hm & Hmin & Hmax).
  cbn [visit first_find]. pose proof (EnsureMeta_same (files ss) meta Hload) as Hsame.
  pose proof (update_meta_reads ss meta _ Hl Hsame) as Hr1.
  set (meta' := EnsureMeta (files ss) meta) in *. set (ss1 := update_meta ss meta') in *. cbv zeta.
  assert (forall ss2, reads ss1 ss2 -> exists ss', visit ss2 metas key = Some (ss', first_find key rest) /\ reads ss ss') as Hnext.
  { intros ss2 Hr2. assert (reads ss ss2) as Hr by (by etransitivity).
    destruct (IH ss2 rest) as (ss' & -> & Hr').
    - eapply Forall2_impl; [exact Hrest|]. intros a b (? & ? & ?). split_and!; [by apply Hr|done|done].
    - eapply Forall_impl; [exact Hin|]. intros a. by apply listed_reads.
    - exists ss'. split; [done|by etransitivity]. }
  destruct Hsame as (_ & _ & Hpath & Hmin' & Hmax' & _). rewrite <- Hmin', <- Hmax', <- Hpath, Hmin, Hmax.
  assert (sorted es) as Hs by (destruct Hh as (blob & Hf & _); apply (tf_sorted _ _ Hf)).
  destruct (bool_decide (blt key e0.1) || bool_decide (blt m.1 key)) eqn:Hout.
  - rewrite (find_outside key es e0 m Hs H0 Hm).
    2: { apply orb_true_iff in Hout as [?%bool_decide_eq_true|?%bool_decide_eq_true]; auto. }
    apply Hnext. reflexivity.
  - apply orb_false_iff in Hout as [_ Hle%bool_decide_eq_false].
    destruct (ReadFromSSTable_spec ss1 (Filepath meta) es key m) as (ss2 & -> & Hc); [by apply Hr1|done|by apply not_blt|].
    apply only_caches_reads in Hc. cbn [mbind option_bind]. destruct (find key es) as [v|]; [|by apply Hnext].
    exists ss2. split; [done|]. by etransitivity.
Qed.

Lemma listed_mata ss tables : tables_ok ss tables -> Forall (listed ss) (mata ss).
Proof.
  intros [T1 T2 T3 T4]. rewrite Forall_forall. intros meta Hin m Hm Hid.
  apply list_elem_of_lookup_1 in Hm as [i Hi]. apply list_elem_of_lookup_1 in Hin as [j Hj].
  assert (i = j) as -> by (eapply (NoDup_lookup _ _ _ (ident m) T3); rewrite list_lookup_fmap; [by rewrite Hi|by rewrite Hj, Hid]).
  replace m with meta by congruence. reflexivity.
Qed.

Lemma visit_tables ss tables key :
  tables_ok ss tables ->
  exists ss', visit ss (reverse (GetAllMata ss)) key = Some (ss', newest_find key tables) /\ reads ss ss'.
Proof.
  intros Ht. rewrite <- first_find_reverse. apply visit_spec; [by apply Forall2_reverse, tk_metas|].
  unfold GetAllMata. apply Forall_reverse. by eapply listed_mata.
Qed.

(** ** Writing the tables *)

Section Tables.
Context `{BloomMathLaws}.

(** A failed write leaves the list and the other files alone. *)
Lemma WriteToSSTable_total w ss es :
  exists ss' r, WriteToSSTable w ss es = Some (ss', r).
Proof.
  unfold WriteToSSTable. destruct es as [|e0 es]; [by eexists _, _|].
  rewrite write_entries_spec. unfold finish_write.
  destruct (Build_spec (fst <$> e0 :: es) DefaultNamespaceSep) as (pb & -> & _).
  destruct (io w); by eexists _, _.
Qed.

Lemma holds_other ss ss' q p es :
  holds ss p es -> p <> q -> files ss' !! p = files ss !! p -> indexCache ss' !! p = indexCache ss !! p ->
  bloomCache ss' !! p = bloomCache ss !! p -> holds ss' p es.
Proof. intros (blob & ? & ? & ? & ? & ?) _ G1 G2 G3. exists blob. rewrite G1, G2, G3. by split_and!. Qed.

Lemma WriteToSSTable_error w ss es ss' e :
  WriteToSSTable w ss es = Some (ss', Error e) ->
  mata ss' = mata ss /\ next_ident ss' = next_ident ss /\
  (forall p es', p <> sstName (now w) -> holds ss p es' -> holds ss' p es').
Proof.
  unfold WriteToSSTable. destruct es as [|e0 es]; [by intros [= <- <-]|].
  rewrite write_entries_spec. unfold finish_write.
  destruct (Build_spec (fst <$> e0 :: es) DefaultNamespaceSep) as (pb & -> & _).
  destruct (io w); cbn [mbind option_bind]; intros E; try discriminate E; injection E as <- <-; split_and!; try done;
    intros p es' Hne Hh; apply (holds_other _ _ (sstName (now w)) _ _ Hh Hne); cbn;
    by rewrite ?lookup_insert_ne by done.
Qed.

(** What changes at [path] leaves the other tables alone. *)
Lemma metas_keep ss ss' path metas tables :
  Forall2 (meta_ok ss) metas tables -> path ∉ Filepath <$> metas ->
  (forall p es, p <> path -> holds ss p es -> holds ss' p es) -> Forall2 (meta_ok ss') metas tables.
Proof.
  intros Hall Hp Hkeep. induction Hall as [|a x l l' (Hh & ? & ?) _ IH]; [constructor|].
  cbn in Hp. apply not_elem_of_cons in Hp as [Hne Hp]. constructor; [|by apply IH].
  split_and!; [apply Hkeep; [congruence|done]|done|done].
Qed.

(** A new path, a new table: the newest. *)
Lemma tables_ok_snoc ss ss' tables meta es :
  tables_ok ss tables -> mata ss' = mata ss ++ [meta] -> next_ident ss' = S (next_ident ss) ->
  ident meta = next_ident ss -> Filepath meta ∉ Filepath <$> mata ss -> meta_ok ss' meta es ->
  (forall p es', p <> Filepath meta -> holds ss p es' -> holds ss' p es') -> tables_ok ss' (tables ++ [es]).
Proof.
  intros [T1 T2 T3 T4] Hm Hn Hid Hp Hok Hkeep. split; rewrite Hm.
  - apply Forall2_app; [by eapply metas_keep|by constructor].
  - rewrite fmap_app. apply NoDup_app. split_and!; [done| |apply NoDup_singleton].
    intros p Hin [= ->]%list_elem_of_singleton. done.
  - rewrite fmap_app. apply NoDup_app. split_and!; [done| |apply NoDup_singleton].
    intros i (b & -> & Hb)%list_elem_of_fmap E%list_elem_of_singleton. cbn in E. specialize (T4 b Hb). lia.
  - intros b [Hb|Hb]%elem_of_app; rewrite Hn; [specialize (T4 b Hb); lia|].
    apply list_elem_of_singleton in Hb as ->. lia.
Qed.

(** The clock gives a path no listed table has, and the file fits the format. *)
Record fresh_write (w : world) (ss : SSTable) (es : list entry) : Prop := {
  fw_world : world_ok w;
  fw_path : sstName (now w) ∉ Filepath <$> mata ss;
  fw_fits : writable w es;
}.

Lemma tables_ok_same_list ss ss' tables path :
  tables_ok ss tables -> mata ss' = mata ss -> next_ident ss' = next_ident ss ->
  path ∉ Filepath <$> mata ss -> (forall p es, p <> path -> holds ss p es -> holds ss' p es) -> tables_ok ss' tables.
Proof.
  intros [T1 T2 T3 T4] Hm Hn Hp Hkeep. split; rewrite ?Hm, ?Hn; try done.
  by eapply metas_keep.
Qed.

Lemma write_tables w ss tables es :
  tables_ok ss tables -> fresh_write w ss es -> es <> [] ->
  exists ss' r, WriteToSSTable w ss es = Some (ss', r) /\
    (io w = IOFine -> r = Ok tt) /\
    tables_ok ss' (match r with Ok _ => tables ++ [es] | Error _ => tables end) /\
    match r with Ok _ => exists meta, mata ss' = mata ss ++ [meta] /\ Level meta = 0 | Error _ => mata ss' = mata ss end.
Proof.
  intros Ht [Hw Hp Hf] Hne. assert (io w = IOFine \/ io w <> IOFine) as [Hio|Hio] by (destruct (io w); auto; by right).
  - destruct es as [|e0 es']; [done|]. destruct (last (e0 :: es')) as [m|] eqn:Hm; [|by apply last_None in Hm].
    destruct (WriteToSSTable_spec w ss (e0 :: es') e0 m Hw Hf Hio eq_refl Hm)
      as (ss' & size & Hrun & Hmata & Hn & Hh & Hkeep & _).
    exists ss', (Ok tt). split_and!; [done|done| |by eexists].
    eapply tables_ok_snoc; [exact Ht|exact Hmata|done|done|done| |exact Hkeep].
    split_and!; [done|done|]. by exists e0, m.
  - destruct (WriteToSSTable_total w ss es) as (ss' & r & Hrun). exists ss', r. split; [done|]. split; [done|].
    assert (exists e, r = Error e) as [e ->].
    { revert Hrun. unfold WriteToSSTable. destruct es; [done|]. rewrite write_entries_spec. unfold finish_write.
      destruct (BuildPartitionedBloom _ _); destruct (io w); try done; cbn [mbind option_bind];
        intros E; try discriminate E; injection E as _ <-; by eexists. }
    apply WriteToSSTable_error in Hrun as (Hm & Hn & Hkeep). split; [|done]. by eapply tables_ok_same_list.
Qed.

End Tables.

(** ** What a memtable holds *)

(** The entries of the active table, of the dirty table and of the tables on disk,
    oldest first. *)
Record view := mkView { v_active : list entry; v_dirty : list entry; v_tables : list (list entry) }.

(** The newest version of a key. *)
Definition lookup (v : view) (key : bytes) : option (option bytes) :=
  newest_find key (v_tables v ++ [v_dirty v; v_active v]).

(** What a client is told. *)
Definition answer (r : option (option bytes)) : result bytes :=
  match r with Some v => visible v | None => Error (Err "Key not found") end.

Section View.
Context `{BloomMathLaws} `{StorageConfig} {T : Type} `{OrderedTableLaws T}.

Record view_ok (m : MemTable T) (v : view) : Prop := {
  vo_active : exists t, active m = Some t /\ t_rep t (v_active v);
  vo_dirty : match dirty m with None => v_dirty v = [] | Some t => t_rep t (v_dirty v) end;
  vo_tables : tables_ok (sst m) (v_tables v);
}.

(** Everything but the table list's caches is the same. *)
Definition reads_mem (m m' : MemTable T) : Prop :=
  active m' = active m /\ dirty m' = dirty m /\ credits m' = credits m /\ FlushChan m' = FlushChan m /\
  compactCh m' = compactCh m /\ reads (sst m) (sst m').

Lemma view_ok_reads m m' v : reads_mem m m' -> view_ok m v -> view_ok m' v.
Proof.
  intros (Ha & Hd & _ & _ & _ & Hr) [V1 V2 V3]. split; rewrite ?Ha, ?Hd; try done. by eapply tables_ok_reads.
Qed.

Lemma new_view disk : view_ok (NewMemTable disk) (mkView [] [] []).
Proof.
  split; [exists t_new; split; [done|apply law_new]|done|]. split; [constructor|constructor|constructor|].
  by intros ? ?%elem_of_nil.
Qed.

Lemma lookup_layers v key :
  lookup v key = match find key (v_active v) with
                 | Some r => Some r
                 | None => match find key (v_dirty v) with
                           | Some r => Some r
                           | None => newest_find key (v_tables v)
                           end
                 end.
Proof. unfold lookup. rewrite newest_find_app. cbn. destruct (find key (v_active v)); [done|]. by destruct (find key (v_dirty v)). Qed.

Lemma Get_spec m v key :
  view_ok m v -> exists m', Get m key = Some (m', answer (lookup v key)) /\ reads_mem m m'.
Proof.
  intros [(t & Ha & Ht) Hd Htab]. unfold Get. rewrite Ha, (law_search t (v_active v) key Ht), lookup_layers.
  cbn [mbind option_bind].
  assert (reads_mem m m) as Hrefl by (split_and!; done || reflexivity).
  destruct (find key (v_active v)) as [r|]; [by exists m|].
  assert (search_dirty m key = Some (find key (v_dirty v))) as ->.
  { unfold search_dirty. destruct (dirty m) as [td|]; [by apply law_search|by rewrite Hd]. }
  cbn [mbind option_bind]. destruct (find key (v_dirty v)) as [r|]; [by exists m|].
  unfold getFromSSTables. destruct (visit_tables (sst m) (v_tables v) key Htab) as (ss & -> & Hr).
  cbn [mbind option_bind]. eexists. split; [done|]. by split_and!.
Qed.

(** ** Writes *)

Lemma write_locked_spec m v key value coins :
  view_ok m v ->
  exists m', write_locked m key value coins =
      Some (m', Ok (table_bytes (put key value (v_active v)) - table_bytes (v_active v))) /\
    view_ok m' (mkView (put key value (v_active v)) (v_dirty v) (v_tables v)) /\
    dirty m' = dirty m /\ credits m' = credits m /\ sst m' = sst m /\
    FlushChan m' = FlushChan m || (MaxMemTableSize <? zlen (put key value (v_active v))) /\ compactCh m' = compactCh m.
Proof.
  intros [(t & Ha & Ht) Hd Htab]. unfold write_locked. rewrite Ha.
  destruct (law_insert t (v_active v) key value coins Ht) as (t' & -> & Ht'). cbn [mbind option_bind].
  rewrite (law_size t' _ Ht'). eexists. split; [done|].
  destruct (MaxMemTableSize <? zlen _); cbn; rewrite ?orb_true_r, ?orb_false_r; split_and!; try done;
    split; cbn; try done; by exists t'.
Qed.

Lemma view_sorted m v : view_ok m v -> sorted (v_active v).
Proof. intros [(t & _ & Ht) _ _]. by eapply law_sorted. Qed.

Lemma lookup_put m v key value k :
  view_ok m v ->
  lookup (mkView (put key value (v_active v)) (v_dirty v) (v_tables v)) k =
    if decide (key = k) then Some value else lookup v k.
Proof.
  intros Hv. rewrite !lookup_layers. cbn [v_active v_dirty v_tables].
  rewrite find_put by (by eapply view_sorted). by destruct (decide (key = k)).
Qed.

Lemma view_ok_credits m v p : view_ok m v -> view_ok (set_credits m p) v.
Proof. intros [V1 V2 V3]. by split. Qed.

Lemma view_ok_StartFlush m v : view_ok m v -> view_ok (StartFlush m) v.
Proof. intros [V1 V2 V3]. by split. Qed.

Lemma acquireCredit_view m v n : view_ok m v -> view_ok (acquireCredit m n).1 v.
Proof.
  intros Hv. unfold acquireCredit. destruct (TryAcquire (credits m) n) as [[] p]; [by apply view_ok_credits|].
  destruct (Acquire _ n); [by apply view_ok_credits, view_ok_StartFlush|by apply view_ok_StartFlush].
Qed.

(** ** Flush *)

Lemma flush_begin_spec m v :
  view_ok m v ->
  exists m' snap v', flush_begin m = Some (m', snap) /\ view_ok m' v' /\ (forall k, lookup v' k = lookup v k) /\
    v_tables v' = v_tables v /\ sst m' = sst m /\ credits m' = credits m /\ FlushChan m' = FlushChan m /\
    dirty m' = snap /\
    match snap with
    | None => m' = m /\ v' = v /\ v_active v = []
    | Some t => t_rep t (v_dirty v') /\
        ((dirty m = Some t /\ v' = v /\ m' = m) \/
         (dirty m = None /\ v_active v <> [] /\ v' = mkView [] (v_active v) (v_tables v)))
    end.
Proof.
  intros Hv. pose proof Hv as [(t & Ha & Ht) Hd Htab]. unfold flush_begin. destruct (dirty m) as [td|] eqn:Ed.
  { exists m, (Some td), v. split_and!; try done. by left. }
  rewrite Ha. cbn [mbind option_bind]. rewrite (law_size t _ Ht).
  destruct (Z.eqb_spec (zlen (v_active v)) 0) as [E|E].
  - exists m, None, v. split_and!; try done. destruct (v_active v); [done|]. rewrite zlen_cons in E.
    pose proof (zlen_nonneg l). lia.
  - exists (set_active (set_dirty m (Some t)) (Some t_new)), (Some t), (mkView [] (v_active v) (v_tables v)).
    split_and!; try done.
    + split; cbn; try done. exists t_new. split; [done|apply law_new].
    + intros k. rewrite !lookup_layers, Hd. cbn. by destruct (find k (v_active v)).
    + right. split_and!; try done. by intros E'; rewrite E' in E.
Qed.

Lemma flush_write_spec w m v t :
  view_ok m v -> t_rep t (v_dirty v) -> v_dirty v <> [] -> fresh_write w (sst m) (v_dirty v) ->
  exists m' ok, flush_write w m t = Some (m', ok) /\ (io w = IOFine -> ok = true) /\
    active m' = active m /\ dirty m' = dirty m /\ credits m' = credits m /\
    FlushChan m' = FlushChan m || negb ok /\
    view_ok m' (if ok then mkView (v_active v) (v_dirty v) (v_tables v ++ [v_dirty v]) else v).
Proof.
  intros [Va Vd Vt] Ht Hne Hw. unfold flush_write. rewrite (law_collect t _ Ht). cbn [mbind option_bind].
  destruct (write_tables w (sst m) (v_tables v) (v_dirty v) Vt Hw Hne) as (ss & r & -> & Hok & Htab & _).
  cbn [mbind option_bind]. destruct r as [u|e].
  - eexists _, true. split; [done|]. cbn. rewrite orb_false_r. split_and!; try done.
  - eexists _, false. split; [done|]. cbn. rewrite orb_true_r. split_and!; try done.
    by intros ?%Hok.
Qed.

(** The tables on disk answer for the dirty table. *)
Definition on_disk (v : view) : Prop := forall k x, find k (v_dirty v) = Some x -> newest_find k (v_tables v) = Some x.

Lemma on_disk_last v ts : v_tables v = ts ++ [v_dirty v] -> on_disk v.
Proof. intros E k x Hx. rewrite E, newest_find_app. cbn. by rewrite Hx. Qed.

(** Once the dirty table is on disk it can be dropped. *)
Lemma flush_end_view m v t :
  view_ok m v -> on_disk v ->
  view_ok (flush_end m t).1 (mkView (v_active v) [] (v_tables v)) /\
  forall k, lookup (mkView (v_active v) [] (v_tables v)) k = lookup v k.
Proof.
  intros [Va Vd Vt] Hon. split; [by split|]. intros k. rewrite !lookup_layers. cbn.
  destruct (find k (v_active v)); [done|]. destruct (find k (v_dirty v)) as [x|] eqn:E; [|done]. by rewrite (Hon k x E).
Qed.

Lemma lookup_flushed v k : lookup (mkView (v_active v) (v_dirty v) (v_tables v ++ [v_dirty v])) k = lookup v k.
Proof.
  rewrite !lookup_layers. cbn. rewrite newest_find_app. cbn. destruct (find k (v_active v)); [done|].
  by destruct (find k (v_dirty v)).
Qed.

End View.

(** ** Range scans *)

(** The newer list over the older one. *)
Fixpoint overlay (fuel : nat) (a d : list entry) : list entry :=
  match fuel with
  | O => []
  | S fuel' =>
      match a, d with
      | [], [] => []
      | e :: a', [] => e :: overlay fuel' a' []
      | [], e :: d' => e :: overlay fuel' [] d'
      | e :: a', e' :: d' =>
          if bool_decide (blt e.1 e'.1) then e :: overlay fuel' a' d
          else if bool_decide (blt e'.1 e.1) then e' :: overlay fuel' a d'
          else e :: overlay fuel' a' d'
      end
  end.

Lemma overlay_elem fuel a d e : e ∈ overlay fuel a d -> e ∈ a \/ e ∈ d.
Proof.
  revert a d. induction fuel as [|fuel IH]; intros a d; [by intros ?%elem_of_nil|].
  destruct a as [|x a], d as [|y d]; cbn [overlay]; [by intros ?%elem_of_nil|..];
    repeat case_bool_decide; intros [->|He]%elem_of_cons;
    try (apply IH in He as [He|He]); rewrite ?elem_of_cons in *; auto.
Qed.

Lemma find_cons k e es : find k (e :: es) = if decide (e.1 = k) then Some e.2 else find k es.
Proof. cbn. case_bool_decide as E; by destruct (decide (e.1 = k)). Qed.

Lemma overlay_spec fuel a d :
  sorted a -> sorted d -> (length a + length d <= fuel)%nat ->
  sorted (overlay fuel a d) /\
  forall k, find k (overlay fuel a d) = match find k a with Some v => Some v | None => find k d end.
Proof.
  revert a d. induction fuel as [|fuel IH]; intros a d Ha Hd Hf.
  { destruct a, d; cbn in Hf; try lia. by split; [constructor|]. }
  assert (forall e a' d', (forall x, x ∈ a' \/ x ∈ d' -> blt e.1 x.1) -> sorted a' -> sorted d' ->
            (length a' + length d' <= fuel)%nat ->
            sorted (e :: overlay fuel a' d') /\
            forall k, find k (e :: overlay fuel a' d') =
              if decide (e.1 = k) then Some e.2 else match find k a' with Some v => Some v | None => find k d' end) as Hstep.
  { intros e a' d' Hlt Ha' Hd' Hf'. destruct (IH a' d' Ha' Hd' Hf') as [Hs Hfind]. split.
    - constructor; [done|]. rewrite Forall_forall. intros x Hx. apply Hlt. by eapply overlay_elem.
    - intros k. by rewrite find_cons, Hfind. }
  destruct a as [|x a], d as [|y d]; cbn [overlay]; cbn [length] in Hf.
  - by split; [constructor|].
  - inversion Hd; subst. destruct (Hstep y [] d) as [Hs Hfind]; [|done..|cbn; lia|].
    { intros z [?%elem_of_nil|Hz]; [done|by apply (sorted_tail y d)]. }
    split; [done|]. intros k. rewrite Hfind, find_cons. by destruct (decide _).
  - inversion Ha; subst. destruct (Hstep x a []) as [Hs Hfind]; [|done..|cbn; lia|].
    { intros z [Hz|?%elem_of_nil]; [by apply (sorted_tail x a)|done]. }
    split; [done|]. intros k. rewrite Hfind, find_cons. by destruct (decide _).
  - inversion Ha; inversion Hd; subst. case_bool_decide as Hxy; [|case_bool_decide as Hyx].
    + destruct (Hstep x a (y :: d)) as [Hs Hfind]; [|done..|cbn; lia|].
      { intros z [Hz|Hz]; [by apply (sorted_tail x a)|]. eapply blt_ble_trans; [exact Hxy|].
        by apply (sorted_head_le y d). }
      split; [done|]. intros k. rewrite Hfind, (find_cons k x). by destruct (decide _).
    + destruct (Hstep y (x :: a) d) as [Hs Hfind]; [|done..|cbn; lia|].
      { intros z [Hz|Hz]; [|by apply (sorted_tail y d)]. eapply blt_ble_trans; [exact Hyx|].
        by apply (sorted_head_le x a). }
      split; [done|]. intros k. rewrite Hfind. destruct (decide (y.1 = k)) as [<-|Hne].
      * rewrite (find_None y.1 (x :: a)), find_head; [done|]. intros z Hz E.
        pose proof (sorted_head_le x a z Ha Hz) as Hle. rewrite E in Hle. by apply not_blt in Hle.
      * destruct (find k (x :: a)); [done|]. by rewrite find_cons, decide_False.
    + assert (x.1 = y.1) as Exy.
      { apply not_blt in Hxy, Hyx. apply ble_lteq in Hxy as [Hxy|]; [|done]. by apply not_blt in Hyx. }
      destruct (Hstep x a d) as [Hs Hfind]; [|done..|cbn; lia|].
      { intros z [Hz|Hz]; [by apply (sorted_tail x a)|rewrite Exy; by apply (sorted_tail y d)]. }
      split; [done|]. intros k. rewrite Hfind, !find_cons, <- Exy. by destruct (decide (x.1 = k)).
Qed.

(** The live pairs up to [end_] (no bound when empty). *)
Definition live_until (end_ : bytes) (es : list entry) : list (bytes * bytes) :=
  omap (fun e => v ← e.2; Some (e.1, v)) (filter (fun e => end_ = [] \/ ble e.1 end_) es).

(** What a callback sees of a list of pairs: it may stop early. *)
Fixpoint feed {S} (fn : S -> bytes -> bytes -> S * bool) (pairs : list (bytes * bytes)) (s : S) : S :=
  match pairs with
  | [] => s
  | p :: rest => let '(s, go) := fn s p.1 p.2 in if go then feed fn rest s else s
  end.

Lemma live_until_over end_ e es : sorted (e :: es) -> end_ <> [] -> blt end_ e.1 -> live_until end_ (e :: es) = [].
Proof.
  intros Hs Hne Hlt. unfold live_until. rewrite filter_none; [done|]. intros x Hx [?|Hle]; [done|].
  pose proof (sorted_head_le e es x Hs Hx) as He.
  assert (blt x.1 x.1) as Hc; [|by apply blt_irrefl in Hc].
  eapply ble_blt_trans; [exact Hle|]. by eapply blt_ble_trans.
Qed.

Lemma live_until_cons end_ e es : end_ = [] \/ ble e.1 end_ ->
  live_until end_ (e :: es) = match e.2 with None => live_until end_ es | Some v => (e.1, v) :: live_until end_ es end.
Proof. intros H. unfold live_until. rewrite filter_cons, decide_True by done. cbn. by destruct (e.2). Qed.

Lemma scan_loop_overlay {S} fuel (fn : S -> bytes -> bytes -> S * bool) end_ a d s :
  sorted (overlay fuel a d) ->
  scan_loop fuel fn end_ a d s = feed fn (live_until end_ (overlay fuel a d)) s.
Proof.
  revert a d s. induction fuel as [|fuel IH]; intros a d s Hs; [done|].
  assert (forall e a' d', sorted (e :: overlay fuel a' d') ->
    (if (0 <? zlen end_) && bool_decide (blt end_ e.1) then s else
       match e.2 with
       | None => scan_loop fuel fn end_ a' d' s
       | Some val => let '(s, go) := fn s e.1 val in if go then scan_loop fuel fn end_ a' d' s else s
       end) = feed fn (live_until end_ (e :: overlay fuel a' d')) s) as Hstep.
  { intros e a' d' He. assert (sorted (overlay fuel a' d')) as Hrest by (by inversion He).
    destruct ((0 <? zlen end_) && bool_decide (blt end_ e.1)) eqn:Hout.
    - apply andb_true_iff in Hout as [Hne%Z.ltb_lt Hlt%bool_decide_eq_true].
      rewrite live_until_over; [done|done| |done]. by intros ->.
    - rewrite live_until_cons.
      { destruct (e.2) as [v|]; [|by apply IH]. cbn. destruct (fn s e.1 v) as [s' []]; [by apply IH|done]. }
      apply andb_false_iff in Hout as [He0%Z.ltb_ge|Hlt%bool_decide_eq_false]; [left|right; by apply not_blt].
      destruct end_; [done|]. rewrite zlen_cons in He0. pose proof (zlen_nonneg end_). lia. }
  destruct a as [|x a], d as [|y d]; cbn [scan_loop overlay] in *; [done|by apply Hstep|by apply Hstep|].
  case_bool_decide; [by apply Hstep|]. case_bool_decide; by apply Hstep.
Qed.

Lemma find_filter_ge start es k :
  find k (filter (fun e => ~ blt e.1 start) es) = if decide (blt k start) then None else find k es.
Proof.
  induction es as [|e es IH]; [by destruct (decide _)|]. rewrite filter_cons.
  destruct (decide (~ blt e.1 start)) as [Hge|Hlt]; cbn [find]; rewrite IH; case_bool_decide as E; subst.
  - by rewrite decide_False.
  - done.
  - destruct (decide (blt e.1 start)); [done|by destruct Hlt].
  - done.
Qed.

Section Scan.
Context {T : Type} `{OrderedTableLaws T} `{BloomMath}.

Lemma from_start_spec (o : option T) es start :
  match o with None => es = [] | Some t => t_rep t es end ->
  from_start o start = Some (filter (fun e => ~ blt e.1 start) es) /\ sorted es.
Proof.
  destruct o as [t|]; cbn [from_start]; [|by intros ->; split; [|constructor]].
  intros Ht. split; [by apply law_scan|by eapply law_sorted].
Qed.

Lemma ScanRange_spec {S} (m : MemTable T) (A D : list entry) (start end_ : bytes)
    (fn : S -> bytes -> bytes -> S * bool) (s : S)
    (Hactive : match active m with None => A = [] | Some t => t_rep t A end)
    (Hdirty : match dirty m with None => D = [] | Some t => t_rep t D end) :
  exists es, sorted es /\
    (forall k, find k es = if decide (blt k start) then None else
       match find k A with Some v => Some v | None => find k D end) /\
    ScanRange m start end_ fn s = Some (feed fn (live_until end_ es) s).
Proof.
  destruct (from_start_spec _ _ start Hactive) as [Ha HsA]. destruct (from_start_spec _ _ start Hdirty) as [Hd HsD].
  unfold ScanRange. rewrite Ha, Hd. cbn [mbind option_bind].
  set (a := filter _ A). set (d := filter _ D).
  assert (sorted a /\ sorted d) as [Hsa Hsd] by (split; by apply sorted_filter).
  destruct (overlay_spec (length a + length d) a d Hsa Hsd ltac:(lia)) as [Hs Hfind].
  exists (overlay (length a + length d) a d). split_and!; [done| |by rewrite scan_loop_overlay].
  intros k. rewrite Hfind. unfold a, d. rewrite !find_filter_ge. by destruct (decide (blt k start)).
Qed.

(** C31: a range scan shows exactly the unflushed live keys between its bounds
    (either may be open) in strictly ascending order, each with its newest value:
    the active table hides the dirty one, deletions hide both, and the callback
    stops the scan when it returns false. *)
Theorem scan_range_newest {S} (m : MemTable T) (A D : list entry) (start end_ : bytes)
    (fn : S -> bytes -> bytes -> S * bool) (s : S)
    (Hactive : match active m with None => A = [] | Some t => t_rep t A end)
    (Hdirty : match dirty m with None => D = [] | Some t => t_rep t D end) :
  exists es, sorted es /\
    (forall k, find k es = if decide (blt k start) then None else
       match find k A with Some v => Some v | None => find k D end) /\
    ScanRange m start end_ fn s = Some (feed fn (live_until end_ es) s).
Proof. by apply ScanRange_spec. Qed.

End Scan.

(** ** Samples: skip lists of three levels *)

#[local] Instance sample_list : OrderedTable SkipList.table := SkipList.skip_list 3.
#[local] Instance sample_list_laws : OrderedTableLaws SkipList.table.
Proof. apply (SkipList.skip_list_laws 3). lia. Qed.
#[local] Existing Instances sample_math sample_math_laws.

Definition put_all (es : list entry) : list entry := foldl (fun acc e => put e.1 e.2 acc) [] es.

Lemma sample_of (es : list entry) : exists t : SkipList.table, t_rep t (put_all es).
Proof.
  unfold put_all. induction es as [|e es [t Ht]] using rev_ind; [exists t_new; apply law_new|].
  rewrite foldl_app. destruct (law_insert t _ e.1 e.2 [] Ht) as (t' & _ & Ht'). by exists t'.
Qed.

Lemma scan_range_newest_witness :
  exists m : MemTable SkipList.table,
    ScanRange m [] [] (fun s k v => (s ++ [(k, v)], true)) [] =
      Some [(of_string "a", of_string "1"); (of_string "c", of_string "3")].
Proof.
  set (A := [(of_string "b", None); (of_string "a", Some (of_string "1"))]).
  set (D := [(of_string "c", Some (of_string "3")); (of_string "b", Some (of_string "2"))]).
  destruct (sample_of A) as [ta HA]. destruct (sample_of D) as [td HD].
  set (m := mkMT (Some ta) (Some td) (NewSSTable ∅) (New 0) false false). exists m.
  destruct (scan_range_newest m (put_all A) (put_all D) [] [] (fun s k v => (s ++ [(k, v)], true)) [] HA HD)
    as (es & Hs & Hfind & ->).
  rewrite (find_ext es [(of_string "a", Some (of_string "1")); (of_string "b", None); (of_string "c", Some (of_string "3"))]).
  - vm_compute. reflexivity.
  - exact Hs.
  - sorted_tac.
  - intros k. rewrite Hfind. rewrite decide_False by (intros E; destruct k; discriminate E).
    assert (put_all A = [(of_string "a", Some (of_string "1")); (of_string "b", None)]) as -> by (vm_compute; reflexivity).
    assert (put_all D = [(of_string "b", Some (of_string "2")); (of_string "c", Some (of_string "3"))]) as ->
      by (vm_compute; reflexivity).
    rewrite !find_cons. cbn [fst snd find]. repeat (destruct (decide _)); done.
Defined.

End MemTable.
