(* ===== verification/Compaction.v ===== *)
(** Compaction of the tables on disk ([CompactSSTable] of memtable.go): a pass over
    the levels keeps every lookup, given the order of the list that flushes and
    passes maintain. *)
From S2P Require Import Prelude Bytes Credit SkipList Bloom SSTable Merge MemTable.
Import Credits Partitioned SSTable Merge MemTable.

Module Compaction.

(** ** Dropping the merged files *)

Lemma remove_meta_mid meta hi rest :
  ident meta ∉ ident <$> hi -> remove_meta meta (hi ++ meta :: rest) = hi ++ rest.
Proof.
  induction hi as [|a hi IH]; cbn; intros Hn; [by rewrite Nat.eqb_refl|].
  apply not_elem_of_cons in Hn as [Hne Hn]. rewrite (proj2 (Nat.eqb_neq _ _)) by congruence. by rewrite IH.
Qed.

Lemma drop_files_spec ss hi metas rest :
  mata ss = hi ++ metas ++ rest -> NoDup (ident <$> mata ss) ->
  mata (drop_files ss metas) = hi ++ rest /\ next_ident (drop_files ss metas) = next_ident ss /\
  forall p es, p ∉ Filepath <$> metas -> holds ss p es -> holds (drop_files ss metas) p es.
Proof.
  revert ss. induction metas as [|meta metas IH]; intros ss Hm Hnd; [by split_and!|].
  set (ss1 := RemoveMata (DeleteSSTable ss meta) meta).
  assert (mata ss1 = hi ++ metas ++ rest) as Hm1.
  { cbn. rewrite Hm. cbn [app]. apply remove_meta_mid. rewrite Hm in Hnd. cbn [app] in Hnd.
    rewrite fmap_app in Hnd. apply NoDup_app in Hnd as (_ & Hdis & _). intros Hin.
    apply (Hdis _ Hin). cbn. left. }
  destruct (IH ss1 Hm1) as (H1 & H2 & H3).
  { rewrite Hm1. rewrite Hm in Hnd. rewrite fmap_app in *. cbn [app fmap list_fmap] in Hnd.
    apply NoDup_app in Hnd as (Ha & Hdis & Hb). apply NoDup_cons in Hb as [_ Hb]. apply NoDup_app.
    split_and!; [done| |done]. intros x Hx Hy. apply (Hdis x Hx). by right. }
  unfold drop_files in *. cbn [foldl]. split_and!; [exact H1|exact H2|].
  intros p es Hp Hh. cbn in Hp. apply not_elem_of_cons in Hp as [Hne Hp]. apply H3; [done|].
  apply (holds_other ss _ (Filepath meta) _ _ Hh Hne); cbn; by rewrite lookup_delete_ne.
Qed.

Lemma NoDup_drop_mid {A} (a b c : list A) :
  NoDup (a ++ b ++ c) -> NoDup (a ++ c) /\ forall x, x ∈ a ++ c -> x ∉ b.
Proof.
  rewrite !NoDup_app. setoid_rewrite elem_of_app. intros (Ha & Hab & Hb & Hbc & Hc). split.
  - split_and!; [done| |done]. intros x Hx Hy. apply (Hab x Hx). by right.
  - intros x [Hx|Hx] Hin; [apply (Hab x Hx); by left|by apply (Hbc x Hin)].
Qed.

Lemma tables_ok_drop ss hi lo rest ch cl cr :
  tables_ok ss (ch ++ cl ++ cr) -> mata ss = hi ++ lo ++ rest -> length hi = length ch -> length lo = length cl ->
  tables_ok (drop_files ss lo) (ch ++ cr) /\ mata (drop_files ss lo) = hi ++ rest.
Proof.
  intros [T1 T2 T3 T4] Hm Hh Hl. destruct (drop_files_spec ss hi lo rest Hm T3) as (V1 & V2 & V3).
  split; [|done]. rewrite Hm in T1, T2, T3. rewrite !fmap_app in T2. rewrite !fmap_app in T3.
  apply Forall2_app_inv in T1 as [Thi T1]; [|done]. apply Forall2_app_inv in T1 as [_ Trest]; [|done].
  apply NoDup_drop_mid in T2 as [T2 Hout]. apply NoDup_drop_mid in T3 as [T3 _]. split; rewrite ?V1, ?fmap_app; try done.
  - assert (Forall2 (meta_ok ss) (hi ++ rest) (ch ++ cr)) as Hall by (by apply Forall2_app).
    rewrite <- fmap_app in Hout. revert Hall Hout. generalize (ch ++ cr). generalize (hi ++ rest). clear - V3.
    intros metas tables Hall. induction Hall as [|a x metas tables (Ha & ? & ?) _ IH]; intros Hout; [constructor|].
    constructor; [|apply IH; intros y ?; apply Hout; by right].
    split_and!; [apply V3; [apply Hout; left|done]|done|done].
  - intros a Ha. rewrite V2. apply T4. rewrite Hm. apply elem_of_app in Ha as [Ha|Ha]; apply elem_of_app; [by left|right].
    apply elem_of_app. by right.
Qed.

(** ** The order of the list *)

Definition level_ge (a b : SSTableMata) : Prop := Level b <= Level a.

Definition count (ss : SSTable) (level : Z) : Z := zlen (GetLevelFiles ss level).

Section Order.
Context `{StorageConfig}.

(** A level a pass leaves alone. *)
Definition settled (ss : SSTable) (level : Z) : Prop := count ss level = 0 \/ count ss level < MaxCompactionSize.

(** Between passes: higher levels, which are older, come first, and only level
    zero may have grown to the threshold. *)
Record ordered (ss : SSTable) : Prop := {
  or_levels : StronglySorted level_ge (mata ss);
  or_nonneg : Forall (fun meta => 0 <= Level meta) (mata ss);
  or_settled : forall l, 1 <= l < Z.of_nat maxLevel -> settled ss l;
}.

Lemma level_suffix metas l :
  StronglySorted level_ge metas -> Forall (fun meta => l <= Level meta) metas ->
  metas = filter (fun meta => l < Level meta) metas ++ filter (fun meta => Level meta = l) metas.
Proof.
  intros Hs Hge. induction Hs as [|a metas Hs IH Hall]; [done|]. apply Forall_cons in Hge as [Ha Hge].
  rewrite !filter_cons. destruct (decide (l < Level a)) as [Hlt|Hnlt].
  - rewrite (decide_False (P := Level a = l)) by lia. cbn. f_equal. by apply IH.
  - rewrite decide_True by lia. rewrite filter_none.
    + cbn. f_equal. symmetry. rewrite Forall_forall in Hall, Hge. clear IH Hs.
      induction metas as [|b metas IH]; [done|]. rewrite filter_cons, decide_True.
      * f_equal. apply IH; intros ? ?; [apply Hall|apply Hge]; by right.
      * specialize (Hall b ltac:(left)). specialize (Hge b ltac:(left)). unfold level_ge in Hall. lia.
    + intros b Hb. rewrite Forall_forall in Hall. specialize (Hall b Hb). unfold level_ge in Hall. lia.
Qed.

Lemma settled_skip `{BloomMath} w ss level : settled ss level -> compact_level w ss level = Some ss.
Proof.
  intros Hs. unfold compact_level. destruct (Z.ltb_spec (zlen (GetLevelFiles ss level)) MaxCompactionSize); [done|].
  destruct Hs as [Hz|Hlt]; [|unfold count in Hlt; lia]. unfold count in Hz.
  destruct (GetLevelFiles ss level) as [|f fs]; [done|]. rewrite zlen_cons in Hz. pose proof (zlen_nonneg fs). lia.
Qed.

Lemma settled_pass `{BloomMath} n ws ss level :
  (forall l, level <= l < level + Z.of_nat n -> settled ss l) -> compact_levels n ws ss level = Some ss.
Proof.
  revert level. induction n as [|n IH]; intros level Hs; [done|]. cbn [compact_levels].
  rewrite settled_skip by (apply Hs; lia). cbn. apply IH. intros l Hl. apply Hs. lia.
Qed.

End Order.

(** ** One merged level *)

Section Level.
Context `{BloomMathLaws} `{StorageConfig}.

Lemma meta_ok_holds ss metas tables :
  Forall2 (meta_ok ss) metas tables -> Forall2 (fun meta es => holds ss (Filepath meta) es) metas tables.
Proof. intros Hall. eapply Forall2_impl; [exact Hall|]. by intros a b (? & _). Qed.

Lemma compact_level_spec w ss hi lo ch cl level :
  tables_ok ss (ch ++ cl) -> mata ss = hi ++ lo -> GetLevelFiles ss level = lo -> length hi = length ch ->
  lo <> [] -> MaxCompactionSize <= zlen lo -> world_ok w -> io w = IOFine ->
  mergedName (now w) ∉ Filepath <$> mata ss ->
  (forall out, sorted out -> out <> [] -> (forall k, find k out = newest_find k cl) -> writable w out) ->
  exists ss' meta out, compact_level w ss level = Some ss' /\ tables_ok ss' (ch ++ [out]) /\
    mata ss' = hi ++ [meta] /\ Level meta = level + 1 /\ Filepath meta = mergedName (now w) /\
    (forall k, find k out = newest_find k cl) /\ ident meta = next_ident ss /\ exists ss1, ss' = drop_files ss1 lo.
Proof.
  intros [T1 T2 T3 T4] Hm Hlo Hlen Hne Hmax Hw Hio Hfresh Hfits.
  rewrite Hm in T1. apply Forall2_app_inv in T1 as [Thi Tlo]; [|done].
  destruct (MergeSSTable_spec w ss lo cl (level + 1) Hw Hio Hne (meta_ok_holds _ _ _ Tlo) Hfits)
    as (ss1 & meta & out & e0 & mx & Hrun & Hs & Hfind & Hhd & Hlast & Hm1 & Hid & Hn1 & Hlevel & Hpath & Hmin & Hmx &
        Hload & Hh & Hkeep & Hfiles).
  assert (tables_ok ss1 ((ch ++ cl) ++ [out])) as Hall.
  { apply (tables_ok_snoc ss ss1 (ch ++ cl) meta out); try done.
    - split; [rewrite Hm; by apply Forall2_app|done..].
    - by rewrite Hpath.
    - split_and!; [by rewrite Hpath|done|]. by exists e0, mx.
    - by rewrite Hpath. }
  rewrite Hm, <- app_assoc in Hm1. rewrite <- app_assoc in Hall.
  destruct (tables_ok_drop ss1 hi lo [meta] ch cl [out] Hall Hm1) as [Hdrop Hm2]; [done|by eapply Forall2_length|].
  exists (drop_files ss1 lo), meta, out. split_and!; try done; [|by exists ss1].
  unfold compact_level. rewrite Hlo, (proj2 (Z.ltb_ge _ _)) by done. by rewrite Hrun.
Qed.

End Level.

(** ** A pass *)

Section Pass.
Context `{BloomMathLaws} `{StorageConfig}.

(** Merging the last tables of a list keeps its lookups. *)
Definition covers (cur tables : list (list entry)) : Prop :=
  exists n tl, cur = take n tables ++ tl /\ (n <= length tables)%nat /\ (length tl <= 1)%nat /\
    forall k, newest_find k tl = newest_find k (drop n tables).

Lemma covers_refl tables : covers tables tables.
Proof. exists (length tables), []. rewrite take_ge, drop_ge, app_nil_r by lia. split_and!; done || cbn; lia. Qed.

Lemma covers_all cur tables k : covers cur tables -> newest_find k cur = newest_find k tables.
Proof.
  intros (n & tl & -> & _ & _ & Htl). rewrite newest_find_app, Htl, <- newest_find_app. by rewrite take_drop.
Qed.

(** A non-empty end of the list covers an end of the original. *)
Lemma covers_end ch cl tables :
  covers (ch ++ cl) tables -> cl <> [] ->
  exists j, (j <= length tables)%nat /\ ch = take j tables /\ forall k, newest_find k cl = newest_find k (drop j tables).
Proof.
  intros (n & tl & E & Hn & Hl & Htl) Hne. exists (length ch).
  assert (length ch <= n)%nat as Hj.
  { apply (f_equal length) in E. rewrite !length_app, length_take in E.
    assert (0 < length cl)%nat by (destruct cl; [done|cbn; lia]). lia. }
  assert (ch = take (length ch) (take n tables ++ tl)) as Hch by (by rewrite <- E, take_app_length).
  rewrite take_app_le in Hch by (rewrite length_take; lia). rewrite take_take, Nat.min_l in Hch by lia.
  assert (cl = drop (length ch) (take n tables ++ tl)) as Hcl by (by rewrite <- E, drop_app_length).
  rewrite drop_app_le in Hcl by (rewrite length_take; lia).
  split_and!; [lia|done|]. intros k.
  rewrite Hcl, newest_find_app, Htl, <- newest_find_app. f_equal.
  rewrite <- (take_drop n tables) at 3. rewrite drop_app_le; [done|]. rewrite length_take. lia.
Qed.

Lemma covers_merge ch cl out tables :
  covers (ch ++ cl) tables -> cl <> [] -> (forall k, find k out = newest_find k cl) -> covers (ch ++ [out]) tables.
Proof.
  intros Hc Hne Hout. destruct (covers_end ch cl tables Hc Hne) as (j & Hj & -> & Hcl).
  exists j, [out]. split_and!; [done|done|done|]. intros k. rewrite <- Hcl, <- Hout. cbn. by destruct (find k out).
Qed.

(** The worlds of a pass: the clock gives every merge a name of its own, nothing
    fails, and what a merge of the last tables writes fits the format. *)
Definition of_pass (l : Z) : Prop := 0 <= l < Z.of_nat maxLevel.

Record pass_ok (ws : Z -> world) (ss : SSTable) (tables : list (list entry)) : Prop := {
  pk_world : forall l, of_pass l -> world_ok (ws l);
  pk_io : forall l, of_pass l -> io (ws l) = IOFine;
  pk_fresh : forall l, of_pass l -> mergedName (now (ws l)) ∉ Filepath <$> mata ss;
  pk_names : forall l l', of_pass l -> of_pass l' -> mergedName (now (ws l)) = mergedName (now (ws l')) -> l = l';
  pk_fits : forall l j out, of_pass l -> sorted out -> out <> [] ->
    (forall k, find k out = newest_find k (drop j tables)) -> writable (ws l) out;
}.

(** Where the pass stands before level [level]. *)
Record stands (ws : Z -> world) (ss0 : SSTable) (tables : list (list entry)) (level : Z)
    (ss : SSTable) (cur : list (list entry)) : Prop := {
  st_tables : tables_ok ss cur;
  st_covers : covers cur tables;
  st_levels : StronglySorted level_ge (mata ss);
  st_low : Forall (fun meta => level <= Level meta) (mata ss);
  st_settled : forall l, level < l < Z.of_nat maxLevel -> settled ss l;
  st_paths : forall p, p ∈ Filepath <$> mata ss ->
    p ∈ Filepath <$> mata ss0 \/ exists l, 0 <= l < level /\ p = mergedName (now (ws l));
}.

(** What a pass ends with. *)
Definition ends (tables : list (list entry)) (ss : SSTable) (cur : list (list entry)) : Prop :=
  tables_ok ss cur /\ covers cur tables /\ ordered ss /\ settled ss 0.

Lemma count_snoc ss' hi meta l :
  mata ss' = hi ++ [meta] -> count ss' l = zlen (filter (fun m => Level m = l) hi) + (if decide (Level meta = l) then 1 else 0).
Proof.
  intros E. unfold count, GetLevelFiles. rewrite E, filter_app, zlen_app, filter_cons. by destruct (decide (Level meta = l)).
Qed.

Lemma stands_merge ws ss0 tables level ss cur :
  pass_ok ws ss0 tables -> stands ws ss0 tables level ss cur -> of_pass level ->
  count ss level <> 0 -> MaxCompactionSize <= count ss level ->
  exists ss' cur', compact_level (ws level) ss level = Some ss' /\ stands ws ss0 tables (level + 1) ss' cur'.
Proof.
  intros [P1 P2 P3 P4 P5] [S1 S2 S3 S4 S5 S6] Hl Hcount Hmax.
  set (hi := filter (fun meta => level < Level meta) (mata ss)).
  assert (mata ss = hi ++ GetLevelFiles ss level) as Hm by (by apply level_suffix).
  assert (GetLevelFiles ss level <> []) as Hne by (intros E; unfold count in Hcount; by rewrite E in Hcount).
  pose proof S1 as [T1 _ _ _]. rewrite Hm in T1. apply Forall2_app_inv_l in T1 as (ch & cl & Thi & Tlo & ->).
  assert (cl <> []) as Hcl by (intros ->; inversion Tlo; congruence).
  destruct (covers_end ch cl tables S2 Hcl) as (j & _ & _ & Hj).
  destruct (compact_level_spec (ws level) ss hi (GetLevelFiles ss level) ch cl level)
    as (ss' & meta & out & Hrun & Htab & Hm' & Hlevel & Hpath & Hout & _); auto.
  - by eapply Forall2_length.
  - intros Hin. destruct (S6 _ Hin) as [Hin0|(l & Hlt & E)]; [by apply (P3 level)|]. apply P4 in E; unfold of_pass in *; lia.
  - intros out Hs Hne' Hf. apply (P5 level j); [done..|]. intros k. by rewrite Hf, Hj.
  - exists ss', (ch ++ [out]). split; [done|].
    assert (forall a, a ∈ hi -> level < Level a /\ a ∈ mata ss) as Hhi.
    { intros a Ha. unfold hi in Ha. by rewrite list_elem_of_filter in Ha. }
    split.
    + done.
    + by eapply covers_merge.
    + rewrite Hm'. rewrite Hm in S3. clear - S3 Hhi Hlevel.
      assert (forall a, a ∈ hi -> level_ge a meta) as Hlast by (intros a [? _]%Hhi; unfold level_ge; lia).
      clear Hhi. induction hi as [|a hi' IH]; [repeat constructor|]. cbn [app] in *.
      inversion S3 as [|? ? Hs Hall]; subst. constructor.
      * apply IH; [done|]. intros b ?. apply Hlast. by right.
      * apply Forall_app in Hall as [Hall _]. apply Forall_app. split; [done|]. constructor; [|constructor].
        apply Hlast. left.
    + rewrite Hm', Forall_app, Forall_singleton. split; [|lia]. rewrite Forall_forall. intros a [? _]%Hhi. lia.
    + intros l Hll. assert (Level meta <> l) as Hneq by lia. unfold of_pass in Hl. specialize (S5 l ltac:(lia)). unfold settled in *.
      rewrite (count_snoc ss' hi meta l Hm'), decide_False by done.
      assert (count ss l = zlen (filter (fun m => Level m = l) hi)) as E; [|rewrite E in S5; lia].
      unfold count, GetLevelFiles. rewrite Hm, filter_app, (filter_none _ (GetLevelFiles ss level)), app_nil_r; [done|].
      intros a Ha. unfold GetLevelFiles in Ha. rewrite list_elem_of_filter in Ha. lia.
    + intros p. rewrite Hm', fmap_app, elem_of_app. intros [Hp|Hp].
      * apply list_elem_of_fmap in Hp as (a & -> & [_ Ha]%Hhi).
        destruct (S6 (Filepath a)) as [|(l & ? & ?)]; [by apply list_elem_of_fmap_2|by left|right]. exists l. split; [lia|done].
      * cbn in Hp. apply list_elem_of_singleton in Hp as ->. right. exists level. unfold of_pass in Hl. split; [lia|done].
Qed.

Lemma stands_skip ws ss0 tables level ss cur :
  stands ws ss0 tables level ss cur -> count ss level = 0 -> stands ws ss0 tables (level + 1) ss cur.
Proof.
  intros [S1 S2 S3 S4 S5 S6] Hc. split; try done.
  - rewrite Forall_forall in *. intros a Ha. specialize (S4 a Ha). destruct (decide (Level a = level)) as [E|]; [|lia].
    exfalso. assert (a ∈ GetLevelFiles ss level) as Hin by (unfold GetLevelFiles; by rewrite list_elem_of_filter).
    unfold count in Hc. destruct (GetLevelFiles ss level) as [|f fs]; [by apply elem_of_nil in Hin|].
    rewrite zlen_cons in Hc. pose proof (zlen_nonneg fs). lia.
  - intros l ?. apply S5. lia.
  - intros p Hp. destruct (S6 p Hp) as [|(l & ? & ?)]; [by left|right]. exists l. split; [lia|done].
Qed.

Lemma pass_spec ws ss0 tables n level ss cur :
  pass_ok ws ss0 tables -> 0 <= level -> level + Z.of_nat n = Z.of_nat maxLevel ->
  stands ws ss0 tables level ss cur ->
  exists ss' cur', compact_levels n ws ss level = Some ss' /\ ends tables ss' cur'.
Proof.
  intros Hp. revert level ss cur. induction n as [|n IH]; intros level ss cur Hl Hn Hst.
  - exists ss, cur. split; [done|]. destruct Hst as [S1 S2 S3 S4 S5 S6].
    assert (forall l, l < level -> count ss l = 0) as Hz.
    { intros l Hlt. unfold count, GetLevelFiles. rewrite filter_none; [done|]. intros a Ha E.
      rewrite Forall_forall in S4. specialize (S4 a Ha). cbn in S4. lia. }
    split_and!; [done|done| |left; apply Hz; unfold maxLevel in Hn; lia]. split; [done| |].
    + eapply Forall_impl; [exact S4|]. intros a ?. cbn in *. lia.
    + intros l ?. left. apply Hz. lia.
  - cbn [compact_levels]. destruct (decide (count ss level = 0)) as [Hz|Hz].
    { rewrite settled_skip by (by left). cbn. apply IH with cur; [lia|lia|by apply stands_skip]. }
    destruct (decide (count ss level < MaxCompactionSize)) as [Hlt|Hge].
    + rewrite settled_skip by (by right). cbn. destruct Hst as [S1 S2 S3 S4 S5 S6].
      rewrite settled_pass by (intros; apply S5; lia). exists ss, cur. split; [done|].
      assert (forall l, l < level -> count ss l = 0) as Hlow.
      { intros l Hll. unfold count, GetLevelFiles. rewrite filter_none; [done|]. intros a Ha E.
        rewrite Forall_forall in S4. specialize (S4 a Ha). cbn in S4. lia. }
      assert (forall l, l < Z.of_nat maxLevel -> settled ss l) as Hall.
      { intros l ?. destruct (Z.lt_trichotomy l level) as [|[->|]]; [left; by apply Hlow|by right|by apply S5; lia]. }
      split_and!; [done|done| |apply Hall; unfold maxLevel; lia]. split; [done| |].
      * eapply Forall_impl; [exact S4|]. intros a ?. cbn in *. lia.
      * intros l ?. apply Hall. lia.
    + destruct (stands_merge ws ss0 tables level ss cur Hp Hst) as (ss' & cur' & -> & Hst'); [unfold of_pass; lia|done|lia|].
      cbn. by apply IH with cur'; [lia|lia|].
Qed.

(** A new table of level zero at the end keeps the order. *)
Lemma ordered_snoc ss ss' meta :
  ordered ss -> mata ss' = mata ss ++ [meta] -> Level meta = 0 -> ordered ss'.
Proof.
  intros [O1 O2 O3] Hm Hl. split; rewrite ?Hm.
  - clear Hm O3. induction O1 as [|a metas Hs IH Hall]; [repeat constructor|]. apply Forall_cons in O2 as [Ha O2].
    cbn [app]. constructor; [by apply IH|]. apply Forall_app. split; [done|]. constructor; [|constructor].
    unfold level_ge. lia.
  - apply Forall_app. split; [done|]. constructor; [lia|constructor].
  - intros l ?. specialize (O3 l ltac:(lia)). unfold settled in *. rewrite (count_snoc ss' (mata ss) meta l Hm).
    rewrite decide_False by lia. unfold count, GetLevelFiles in O3. lia.
Qed.

Context {T : Type} `{OrderedTableLaws T}.

Lemma CompactSSTable_spec (ws : Z -> world) (m : MemTable T) (v : view)
    (Hview : view_ok m v) (Horder : ordered (sst m)) (Hpass : pass_ok ws (sst m) (v_tables v)) :
  exists ss tables, CompactSSTable ws m 0 = Some (set_sst m ss) /\
    view_ok (set_sst m ss) (mkView (v_active v) (v_dirty v) tables) /\
    (forall key, newest_find key tables = newest_find key (v_tables v)) /\
    ordered ss /\ forall l, of_pass l -> settled ss l.
Proof.
  pose proof Hview as [Va Vd Vt]. destruct Horder as [O1 O2 O3].
  destruct (pass_spec ws (sst m) (v_tables v) maxLevel 0 (sst m) (v_tables v) Hpass) as (ss & cur & Hrun & Hend).
  { done. } { done. }
  { split; try done; [apply covers_refl|intros l ?; apply O3; lia|by left]. }
  destruct Hend as (Htab & Hcov & Hord & Hzero). exists ss, cur. split_and!; [|by split| |done|].
  - unfold CompactSSTable. change (maxLevel - 0)%nat with maxLevel. change (Z.of_nat 0) with 0. by rewrite Hrun.
  - intros key. by apply covers_all.
  - intros l Hl. destruct (decide (l = 0)) as [->|]; [done|]. apply Hord. unfold of_pass in Hl. lia.
Qed.

(** C10: compaction is invisible to readers: a pass over all levels, on a list in
    which older tables have higher levels and only level zero may have reached the
    threshold, merges without losing, reviving or ageing a key: every read answers
    as before the pass; the list is again in that order, so passes and flushes can
    go on, and no level below the last is at the threshold any more. *)
Theorem compaction_preserves_lookups (ws : Z -> world) (m : MemTable T) (v : view)
    (Hview : view_ok m v) (Horder : ordered (sst m)) (Hpass : pass_ok ws (sst m) (v_tables v)) :
  exists m' tables, CompactSSTable ws m 0 = Some m' /\
    view_ok m' (mkView (v_active v) (v_dirty v) tables) /\
    (forall key, lookup (mkView (v_active v) (v_dirty v) tables) key = lookup v key) /\
    (forall key, exists m1 m2 r, Get m key = Some (m1, r) /\ Get m' key = Some (m2, r)) /\
    ordered (sst m') /\ forall l, of_pass l -> settled (sst m') l.
Proof.
  destruct (CompactSSTable_spec ws m v Hview Horder Hpass) as (ss & cur & Hrun & Hv & Hcov & Hord & Hset).
  assert (forall key, lookup (mkView (v_active v) (v_dirty v) cur) key = lookup v key) as Hlook
    by (intros key; by rewrite !lookup_layers, <- Hcov).
  exists (set_sst m ss), cur. split_and!; try done. intros key.
  destruct (Get_spec m v key Hview) as (m1 & -> & _), (Get_spec _ _ key Hv) as (m2 & -> & _). rewrite Hlook. by eexists _, _, _.
Qed.

(** ** Snapshots written to the tables *)

Lemma insert_entries_spec (t : T) es entries coins :
  t_rep t es ->
  exists t' es', insert_entries t entries coins = Some t' /\ t_rep t' es' /\
    forall k, find k es' = match find k (reverse entries) with Some v => Some v | None => find k es end.
Proof.
  revert t es coins. induction entries as [|e entries IH]; intros t es coins Ht.
  { exists t, es. by split_and!. }
  cbn [insert_entries]. destruct (law_insert t es e.1 e.2 (default [] (head coins)) Ht) as (t1 & -> & Ht1).
  cbn [mbind option_bind]. destruct (IH t1 _ (tail coins) Ht1) as (t' & es' & -> & Ht' & Hf).
  exists t', es'. split_and!; [done|done|]. intros k. rewrite Hf, find_put by (by eapply law_sorted).
  rewrite reverse_cons, find_app. destruct (find k (reverse entries)); [done|]. rewrite find_cons. cbn [find].
  by destruct (decide (e.1 = k)).
Qed.

Lemma FlushToSSTable_spec (w : world) (m : MemTable T) (v : view) (entries : list entry)
    (coins : list (list bool)) (Hview : view_ok m v) (Horder : ordered (sst m)) (Hne : entries <> [])
    (Hfresh : forall es, sorted es -> (forall k, find k es = find k (reverse entries)) -> fresh_write w (sst m) es) :
  exists m' r, FlushToSSTable w m entries coins = Some (m', r) /\ (io w = IOFine -> r = Ok tt) /\
    ordered (sst m') /\
    match r with
    | Ok _ => compactCh m' = true /\ exists es, sorted es /\ (forall k, find k es = find k (reverse entries)) /\
        view_ok m' (mkView (v_active v) (v_dirty v) (v_tables v ++ [es]))
    | Error _ => view_ok m' v
    end.
Proof.
  pose proof Hview as [Va Vd Vt].
  destruct (insert_entries_spec t_new [] entries coins law_new) as (tmp & es & Hins & Hrep & Hfind).
  assert (forall k, find k es = find k (reverse entries)) as Hlast.
  { intros k. rewrite Hfind. cbn. by destruct (find k (reverse entries)). }
  pose proof (law_sorted _ _ Hrep) as Hs.
  assert (es <> []) as Hes.
  { intros ->. destruct entries as [|e entries _] using rev_ind; [done|]. specialize (Hlast e.1).
    rewrite reverse_snoc, find_head in Hlast. done. }
  destruct (write_tables w (sst m) (v_tables v) es Vt (Hfresh es Hs Hlast) Hes) as (ss & r & Hrun & Hok & Htab & Hlist).
  unfold FlushToSSTable. destruct entries as [|e entries]; [done|]. rewrite Hins. cbn [mbind option_bind].
  rewrite (law_collect _ _ Hrep). cbn [mbind option_bind]. destruct es as [|e1 es]; [done|]. rewrite Hrun. cbn [mbind option_bind].
  destruct r as [[]|err].
  - eexists _, (Ok tt). split_and!; [done|done| |done|].
    + destruct Hlist as (meta & Hm & Hl). by eapply ordered_snoc.
    + exists (e1 :: es). split_and!; [done|done|]. by split.
  - eexists _, (Error _). split_and!; [done| | |].
    + intros E. by specialize (Hok E).
    + destruct Horder as [O1 O2 O3]. cbn [sst set_sst]. split; unfold settled, count, GetLevelFiles in *; by rewrite ?Hlist.
    + by split.
Qed.

(** a snapshot replayed to disk becomes the newest table: it holds for every
    key of the snapshot the last entry of the list, deletions included, hides the
    older tables and is hidden by what is in memory, keeps the order compaction
    relies on and asks for one; a write that fails changes nothing a reader sees. *)
Theorem snapshot_flush_newest (w : world) (m : MemTable T) (v : view) (entries : list entry)
    (coins : list (list bool)) (Hview : view_ok m v) (Horder : ordered (sst m)) (Hne : entries <> [])
    (Hfresh : forall es, sorted es -> (forall k, find k es = find k (reverse entries)) -> fresh_write w (sst m) es) :
  exists m' r, FlushToSSTable w m entries coins = Some (m', r) /\ (io w = IOFine -> r = Ok tt) /\
    ordered (sst m') /\
    match r with
    | Ok _ => compactCh m' = true /\ exists es, sorted es /\ (forall k, find k es = find k (reverse entries)) /\
        view_ok m' (mkView (v_active v) (v_dirty v) (v_tables v ++ [es]))
    | Error _ => view_ok m' v
    end.
Proof. by apply FlushToSSTable_spec. Qed.

End Pass.

(** ** Two tables on disk *)

Section Sample.
#[local] Existing Instances sample_math sample_math_laws sample_list sample_list_laws.
#[local] Instance sample_storage : StorageConfig := {
  MaxMemTableSize := 0; MemTableMaxInflightBytes := 10; MaxCompactionSize := 2 }.

Lemma sample_disk :
  exists ss m1 m2, mata ss = [m1; m2] /\ Filepath <$> mata ss = [sstName 1; sstName 2] /\
    Level <$> mata ss = [0; 0] /\ tables_ok ss [sample_table; sample_newer].
Proof.
  destruct (@WriteToSSTable_spec sample_math sample_math_laws (sample_world 1) (NewSSTable ∅) sample_table
    (of_string "a:1", Some (of_string "x")) (of_string "c", Some []))
    as (ss1 & n1 & _ & Hm1 & Hn1 & Hh1 & Hk1 & _); [apply sample_world_ok|apply sample_writable|reflexivity..|].
  destruct (@WriteToSSTable_spec sample_math sample_math_laws (sample_world 2) ss1 sample_newer
    (of_string "a:1", None) (of_string "d", Some (of_string "z")))
    as (ss2 & n2 & _ & Hm2 & Hn2 & Hh2 & Hk2 & _); [apply sample_world_ok|apply sample_newer_writable|reflexivity..|].
  assert (tables_ok (NewSSTable ∅) []) as H0 by apply (vo_tables _ _ (new_view (T := SkipList.table) ∅)).
  assert (tables_ok ss1 ([] ++ [sample_table])) as H1.
  { eapply tables_ok_snoc; [exact H0|exact Hm1|exact Hn1|done|by intros ?%elem_of_nil| |exact Hk1].
    split_and!; [exact Hh1|done|]. by eexists _, _. }
  assert (tables_ok ss2 ([sample_table] ++ [sample_newer])) as H2.
  { eapply tables_ok_snoc; [exact H1|exact Hm2|exact Hn2|done| | |exact Hk2].
    - rewrite Hm1. intros E%list_elem_of_singleton. vm_compute in E. discriminate E.
    - split_and!; [exact Hh2|done|]. by eexists _, _. }
  rewrite Hm1 in Hm2. cbn [app] in Hm2. exists ss2. eexists _, _. split; [exact Hm2|].
  rewrite Hm2. split; [reflexivity|]. split; [reflexivity|exact H2].
Qed.

Lemma sample_names l l' :
  of_pass l -> of_pass l' -> mergedName (now (sample_world (3 + l))) = mergedName (now (sample_world (3 + l'))) -> l = l'.
Proof.
  intros Hl Hl' E. unfold of_pass, maxLevel in *.
  assert (NoDup ((fun l => mergedName (3 + l)) <$> seqZ 0 10)) as Hnd
    by (apply (bool_decide_unpack _); vm_compute; reflexivity).
  assert (Z.to_nat l = Z.to_nat l') as Heq; [|lia].
  eapply (NoDup_lookup _ _ _ (mergedName (3 + l)) Hnd); rewrite list_lookup_fmap, lookup_seqZ_lt by lia;
    rewrite Z2Nat.id, Z.add_0_l by lia; [done|]. cbn in E. cbn. by rewrite E.
Qed.

Lemma sample_pass ss :
  Filepath <$> mata ss = [sstName 1; sstName 2] ->
  pass_ok (fun l => sample_world (3 + l)) ss [sample_table; sample_newer].
Proof.
  intros Hp. split.
  - intros l _. apply sample_world_ok.
  - done.
  - intros l _. rewrite Hp. intros [E|E%list_elem_of_singleton]%elem_of_cons;
      apply (f_equal (fun p => nth_error p 8)) in E; lazy in E; discriminate E.
  - apply sample_names.
  - intros l j out _ Hs Hne Hf.
    destruct j as [|[|j]]; cbn [drop] in Hf.
    + rewrite (find_ext out sample_merged); [apply sample_merged_writable|exact Hs|sorted_tac|].
      intros k. rewrite Hf. symmetry. apply sample_merged_find.
    + rewrite (find_ext out sample_newer); [apply sample_newer_writable|exact Hs|sorted_tac|].
      intros k. rewrite Hf. cbn [newest_find]. done.
    + exfalso. apply Hne. apply find_ext; [exact Hs|constructor|]. intros k. rewrite Hf. by rewrite drop_nil.
Qed.

Lemma compaction_preserves_lookups_witness :
  exists (m m' : MemTable SkipList.table) tables,
    length (mata (sst m)) = 2%nat /\ CompactSSTable (fun l => sample_world (3 + l)) m 0 = Some m' /\
    tables_ok (sst m') tables /\ (forall l, of_pass l -> settled (sst m') l) /\
    forall key, exists m1 m2 r, Get m key = Some (m1, r) /\ Get m' key = Some (m2, r).
Proof.
  destruct sample_disk as (ss & m1 & m2 & Hm & Hp & Hl & Htab).
  set (m := mkMT (Some (t_new : SkipList.table)) None ss (New 10) false false).
  destruct (compaction_preserves_lookups (fun l => sample_world (3 + l)) m (mkView [] [] [sample_table; sample_newer]))
    as (m' & tables & Hrun & Hview & _ & Hget & _ & Hset).
  - split; [|reflexivity|exact Htab]. exists t_new. split; [reflexivity|apply law_new].
  - rewrite Hm in Hl. cbn in Hl. injection Hl as Hl1 Hl2.
    split; cbn [m sst]; rewrite ?Hm.
    + repeat constructor. unfold level_ge. lia.
    + repeat constructor; lia.
    + intros l ?. left. unfold count, GetLevelFiles. rewrite Hm, !filter_cons, !decide_False by lia. reflexivity.
  - by apply sample_pass.
  - exists m, m', tables. cbn [m sst]. rewrite Hm. split; [reflexivity|]. split; [exact Hrun|].
    split; [apply (vo_tables _ _ Hview)|]. split; [exact Hset|exact Hget].
Defined.

Lemma snapshot_flush_newest_witness :
  exists m' : MemTable SkipList.table, exists es, sorted es /\
    FlushToSSTable (sample_world 1) (NewMemTable ∅)
      [(of_string "c", Some (of_string "old")); (of_string "a:1", Some (of_string "x")); (of_string "b:2", None);
       (of_string "c", Some [])] [] = Some (m', Ok tt) /\
    es = sample_table /\ tables_ok (sst m') [es].
Proof.
  set (entries := [(of_string "c", Some (of_string "old")); (of_string "a:1", Some (of_string "x"));
                   (of_string "b:2", None); (of_string "c", Some [])]).
  assert (forall es, sorted es -> (forall k, find k es = find k (reverse entries)) -> es = sample_table) as Huniq.
  { intros es Hs Hf. apply find_ext; [exact Hs|apply sample_sorted|]. intros k. rewrite Hf. unfold sample_table.
    change (reverse entries) with [(of_string "c", Some []); (of_string "b:2", None);
      (of_string "a:1", Some (of_string "x")); (of_string "c", Some (of_string "old"))].
    rewrite !find_cons. cbn [fst snd find]. repeat (destruct (decide _)); try done; subst; discriminate. }
  destruct (snapshot_flush_newest (sample_world 1) (NewMemTable ∅) (mkView [] [] []) entries [])
    as (m' & r & Hrun & Hok & _ & Hres).
  - apply new_view.
  - split; [constructor|constructor|intros l _; by left].
  - discriminate.
  - intros es Hs Hf. rewrite (Huniq es Hs Hf). split; [apply sample_world_ok|by intros ?%elem_of_nil|apply sample_writable].
  - rewrite (Hok eq_refl) in *. destruct Hres as [_ (es & Hs & Hf & Hv)]. exists m', es.
    split; [exact Hs|]. split; [exact Hrun|]. split; [by apply Huniq|apply (vo_tables _ _ Hv)].
Defined.

(** Compaction takes its files first and lists the result last: a table flushed in
    between ends up before the merged one and is hidden by it. The second table of
    the sample sets a key that the first deletes; after a compaction that listed
    only the first, the key is deleted again. *)
Example compaction_overtakes_flush :
  exists ss m1 m2, mata ss = [m1; m2] /\ tables_ok ss [sample_table; sample_newer] /\
    newest_find (of_string "b:2") [sample_table; sample_newer] = Some (Some (of_string "y")) /\
    exists ss1 meta tables, MergeSSTable (sample_world 3) ss [m1] 1 = Some (ss1, Some meta) /\
      mata (drop_files ss1 [m1]) = [m2; meta] /\ tables_ok (drop_files ss1 [m1]) tables /\
      newest_find (of_string "b:2") tables = Some None.
Proof.
  destruct sample_disk as (ss & m1 & m2 & Hm & Hp & Hl & Htab). exists ss, m1, m2.
  split; [exact Hm|]. split; [exact Htab|]. split; [reflexivity|].
  pose proof (tk_metas _ _ Htab) as Hall. rewrite Hm in Hall. rewrite Hm in Hp. cbn in Hp. injection Hp as Hp1 Hp2.
  apply Forall2_cons in Hall as [Hok1 _].
  destruct (MergeSSTable_spec (sample_world 3) ss [m1] [sample_table] 1)
    as (ss1 & meta & out & e0 & mx & Hrun & Hs & Hfind & Hhd & Hlast & Hm1 & Hid & Hn1 & _ & Hpath & Hmin & Hmx &
        Hload & Hh & Hkeep & _).
  - apply sample_world_ok.
  - reflexivity.
  - discriminate.
  - constructor; [apply Hok1|constructor].
  - intros out Hs _ Hf. rewrite (find_ext out sample_table); [apply sample_writable|exact Hs|apply sample_sorted|].
    intros k. rewrite Hf. done.
  - assert (tables_ok ss1 ([sample_table; sample_newer] ++ [out])) as Hall1.
    { eapply tables_ok_snoc; [exact Htab|exact Hm1|exact Hn1|exact Hid| | |by rewrite Hpath].
      - rewrite Hm, Hpath. cbn. rewrite Hp1, Hp2. intros [E|E%list_elem_of_singleton]%elem_of_cons;
          vm_compute in E; discriminate E.
      - split_and!; [by rewrite Hpath|exact Hload|]. by exists e0, mx. }
    rewrite Hm in Hm1.
    destruct (tables_ok_drop ss1 [] [m1] [m2; meta] [] [sample_table] [sample_newer; out] Hall1 Hm1) as [Hdrop Hlist];
      [reflexivity..|].
    exists ss1, meta, [sample_newer; out]. split; [exact Hrun|]. split; [exact Hlist|]. split; [exact Hdrop|].
    cbn [newest_find]. rewrite Hfind. reflexivity.
Qed.

End Sample.
End Compaction.
