(* ===== verification/MemSystem.v ===== *)
(** The memtable at work: writers that wait for byte credit, the flush worker in
    its locked and unlocked parts and readers, interleaved in any order. *)
From S2P Require Import Prelude Bytes Credit SkipList Bloom SSTable Merge MemTable.
Import Credits Partitioned SSTable Merge MemTable.

Module MemSystem.

Section System.
Context `{BloomMath} `{StorageConfig} {T : Type} `{OrderedTable T}.

(** A goroutine inside [Put] or [Delete] (the value [None]): waiting in
    [Acquire], about to take the lock, or past it. *)
Inductive writer :=
  | Waiting (e : entry)
  | Holding (e : entry)
  | Leaving (full : Z) (r : result Z).

(** The flush worker: idle, writing the snapshot, done writing, or about to give
    the credit back. *)
Inductive worker :=
  | Idle
  | Writing (t : T)
  | Written (t : T)
  | Freeing (n : Z).

(** [log] has the writes in the order they took the lock, the last one first. *)
Record system := mkSystem { mt : MemTable T; flusher : worker; writers : list writer; log : list entry }.

Definition clear_FlushChan (m : MemTable T) : MemTable T :=
  mkMT (active m) (dirty m) (sst m) (credits m) false (compactCh m).

(** One locked or atomic part of one goroutine; writes take at most [bound]
    bytes.  A read is one step, though [Get] has the lock only while it copies the
    two pointers: the rest of it read by read is in [LockFree.v] and [MemLife.v]. *)
Inductive step (bound : Z) : system -> system -> Prop :=
  | step_begin m m' ok fl ws lg e :
      entry_bytes e <= bound -> acquireCredit m (entry_bytes e) = (m', ok) ->
      step bound (mkSystem m fl ws lg) (mkSystem m' fl ((if ok then Holding e else Waiting e) :: ws) lg)
  | step_wake m fl ws1 e ws2 lg p :
      Acquire (credits m) (entry_bytes e) = Some p ->
      step bound (mkSystem m fl (ws1 ++ Waiting e :: ws2) lg)
                 (mkSystem (set_credits m p) fl (ws1 ++ Holding e :: ws2) lg)
  | step_commit m m' fl ws1 e ws2 lg coins r :
      write_locked m e.1 e.2 coins = Some (m', r) ->
      step bound (mkSystem m fl (ws1 ++ Holding e :: ws2) lg)
                 (mkSystem m' fl (ws1 ++ Leaving (entry_bytes e) r :: ws2)
                    (match r with Ok _ => e :: lg | Error _ => lg end))
  | step_leave m m' fl ws1 full r res ws2 lg :
      write_end m full r = (m', res) ->
      step bound (mkSystem m fl (ws1 ++ Leaving full r :: ws2) lg) (mkSystem m' fl (ws1 ++ ws2) lg)
  | step_flush_begin m m' snap ws lg :
      FlushChan m = true -> flush_begin (clear_FlushChan m) = Some (m', snap) ->
      step bound (mkSystem m Idle ws lg)
                 (mkSystem m' (match snap with Some t => Writing t | None => Idle end) ws lg)
  | step_flush_write w m m' ok t es ws lg :
      t_collect t = Some es -> fresh_write w (sst m) es -> flush_write w m t = Some (m', ok) ->
      step bound (mkSystem m (Writing t) ws lg) (mkSystem m' (if ok then Written t else Idle) ws lg)
  | step_flush_end m m' n t ws lg :
      flush_end m t = (m', n) ->
      step bound (mkSystem m (Written t) ws lg) (mkSystem m' (Freeing n) ws lg)
  | step_flush_free m n ws lg :
      step bound (mkSystem m (Freeing n) ws lg) (mkSystem (release m n) Idle ws lg)
  | step_read m m' fl ws lg key r :
      Get m key = Some (m', r) ->
      step bound (mkSystem m fl ws lg) (mkSystem m' fl ws lg).

Definition init (disk : gmap bytes bytes) : system := mkSystem (NewMemTable disk) Idle [] [].

Definition reachable (bound : Z) (disk : gmap bytes bytes) (s : system) : Prop := rtc (step bound) (init disk) s.

(** ** Credit *)

Definition writer_credit (w : writer) : Z :=
  match w with
  | Waiting _ => 0
  | Holding e => entry_bytes e
  | Leaving full (Ok delta) => full - delta
  | Leaving full (Error _) => full
  end.

Definition flusher_credit (f : worker) : Z := match f with Freeing n => n | _ => 0 end.

Definition total_credit (ws : list writer) : Z := zsum (writer_credit <$> ws).

End System.

#[global] Arguments system : clear implicits.
#[global] Arguments worker : clear implicits.

Lemma entry_bytes_nonneg e : 0 <= entry_bytes e.
Proof. unfold entry_bytes, value_len. pose proof (zlen_nonneg e.1). pose proof (zlen_nonneg (default [] e.2)). lia. Qed.

Lemma table_bytes_filter (P : entry -> Prop) `{!forall e, Decision (P e)} es :
  0 <= table_bytes (filter P es) <= table_bytes es.
Proof.
  induction es as [|e es IH]; [done|]. rewrite filter_cons, table_bytes_cons. pose proof (entry_bytes_nonneg e).
  destruct (decide (P e)); rewrite ?table_bytes_cons; lia.
Qed.

Lemma table_bytes_nonneg es : 0 <= table_bytes es.
Proof. induction es as [|e es IH]; [done|]. rewrite table_bytes_cons. pose proof (entry_bytes_nonneg e). lia. Qed.

Lemma table_bytes_split k es :
  table_bytes (filter (fun e => blt e.1 k) es) + table_bytes (filter (fun e => blt k e.1) es) <= table_bytes es.
Proof.
  induction es as [|e es IH]; [done|]. rewrite !filter_cons, table_bytes_cons. pose proof (entry_bytes_nonneg e).
  destruct (decide (blt e.1 k)) as [H1|], (decide (blt k e.1)) as [H2|]; rewrite ?table_bytes_cons; try lia.
  exfalso. assert (blt k k) as Hc by (by etransitivity). by apply blt_irrefl in Hc.
Qed.

(** An overwrite never needs more than the whole write. *)
Lemma put_delta k v es : table_bytes (put k v es) - table_bytes es <= entry_bytes (k, v).
Proof. unfold put. rewrite table_bytes_app, table_bytes_cons. pose proof (table_bytes_split k es). lia. Qed.

Section Invariant.
Context `{BloomMathLaws} `{StorageConfig} {T : Type} `{OrderedTableLaws T} (bound : Z).

(** What the worker's state says about the dirty table. *)
Definition flusher_ok (f : worker T) (m : MemTable T) (v : view) : Prop :=
  match f with
  | Idle => True
  | Writing t => dirty m = Some t
  | Written t => dirty m = Some t /\ on_disk v
  | Freeing n => dirty m = None /\ 0 <= n
  end.

Record inv_at (s : system T) (v : view) : Prop := {
  i_view : view_ok (mt s) v;
  i_log : forall k, lookup v k = find k (log s);
  i_dirty : dirty (mt s) <> None -> v_dirty v <> [];
  i_flusher : flusher_ok (flusher s) (mt s) v;
  i_writers : Forall (fun w => 0 <= writer_credit w) (writers s);
  i_budget : budget (credits (mt s)) = MemTableMaxInflightBytes;
  i_used : used (credits (mt s)) =
    table_bytes (v_active v) + table_bytes (v_dirty v) + total_credit (writers s) + flusher_credit (flusher s);
  i_bound : 0 < MemTableMaxInflightBytes -> used (credits (mt s)) <= Z.max MemTableMaxInflightBytes bound;
}.

Definition inv (s : system T) : Prop := exists v, inv_at s v.

Lemma total_credit_cons w ws : total_credit (w :: ws) = writer_credit w + total_credit ws.
Proof. done. Qed.

Lemma total_credit_mid ws1 w ws2 : total_credit (ws1 ++ w :: ws2) = writer_credit w + total_credit (ws1 ++ ws2).
Proof. induction ws1 as [|x ws1 IH]; [done|]. cbn [app]. rewrite !total_credit_cons, IH. lia. Qed.

Lemma total_credit_nonneg ws : Forall (fun w => 0 <= writer_credit w) ws -> 0 <= total_credit ws.
Proof. induction 1; [done|]. rewrite total_credit_cons. lia. Qed.

Lemma writers_mid (P : writer -> Prop) ws1 w w' ws2 :
  Forall P (ws1 ++ w :: ws2) -> (P w -> P w') -> Forall P (ws1 ++ w' :: ws2).
Proof. rewrite !Forall_app, !Forall_cons. naive_solver. Qed.

Lemma init_inv disk : inv (init disk).
Proof.
  exists (mkView [] [] []). split; cbn; try done; [apply new_view|]. intros. lia.
Qed.

(** Credit that was given fits. *)
Lemma fits_bound (p : Pool) n :
  fits p n = true -> 0 < budget p -> n <= bound -> used p + n <= Z.max (budget p) bound.
Proof.
  unfold fits. intros Hf Hb Hn. apply orb_true_iff in Hf as [[Hf|Hf]%orb_true_iff|Hf].
  - apply Z.leb_le in Hf. lia.
  - apply Z.eqb_eq in Hf. lia.
  - apply Z.leb_le in Hf. lia.
Qed.

Ltac msimpl_goal := cbn [mt flusher writers log writer_credit flusher_credit v_active v_dirty v_tables
  used budget credits active dirty sst set_credits set_active set_dirty set_sst release].
Ltac msimpl_all := cbn [mt flusher writers log writer_credit flusher_credit v_active v_dirty v_tables
  used budget credits active dirty sst set_credits set_active set_dirty set_sst release] in *.

Lemma acquireCredit_spec (m m' : MemTable T) n ok :
  acquireCredit m n = (m', ok) ->
  dirty m' = dirty m /\ budget (credits m') = budget (credits m) /\
  (if ok then fits (credits m) n = true /\ used (credits m') = used (credits m) + n
   else credits m' = credits m /\ FlushChan m' = true).
Proof.
  unfold acquireCredit, TryAcquire, Acquire. cbn. destruct (fits (credits m) n) eqn:Hf; intros [= <- <-]; cbn; done.
Qed.

Lemma inv_begin m m' ok fl ws lg e :
  entry_bytes e <= bound -> acquireCredit m (entry_bytes e) = (m', ok) ->
  inv (mkSystem m fl ws lg) -> inv (mkSystem m' fl ((if ok then Holding e else Waiting e) :: ws) lg).
Proof.
  intros He Hacq (v & [I1 I2 I3 I4 I5 I6 I7 I8]); msimpl_all.
  pose proof (acquireCredit_view m v (entry_bytes e) I1) as Hv. rewrite Hacq in Hv. cbn in Hv.
  apply acquireCredit_spec in Hacq as (Hd & Hb & Hc). pose proof (entry_bytes_nonneg e).
  exists v. split; msimpl_goal; rewrite ?Hd; try done; rewrite ?total_credit_cons.
  - unfold flusher_ok in *. by destruct fl; rewrite ?Hd.
  - constructor; [|done]. by destruct ok.
  - congruence.
  - destruct ok; cbn; [destruct Hc as [_ ->]|destruct Hc as [-> _]]; lia.
  - intros Hpos. destruct ok; [destruct Hc as [Hf ->]|destruct Hc as [-> _]; auto].
    rewrite <- I6. apply fits_bound; [done|lia|done].
Qed.

Lemma inv_wake m fl ws1 e ws2 lg p :
  entry_bytes e <= bound -> Acquire (credits m) (entry_bytes e) = Some p ->
  inv (mkSystem m fl (ws1 ++ Waiting e :: ws2) lg) ->
  inv (mkSystem (set_credits m p) fl (ws1 ++ Holding e :: ws2) lg).
Proof.
  intros He Hacq (v & [I1 I2 I3 I4 I5 I6 I7 I8]); msimpl_all. unfold Acquire in Hacq.
  destruct (fits (credits m) (entry_bytes e)) eqn:Hf; [|done]. injection Hacq as <-.
  pose proof (entry_bytes_nonneg e). rewrite total_credit_mid in I7. msimpl_all.
  exists v. split; msimpl_goal; try done.
  - by apply view_ok_credits.
  - by eapply writers_mid.
  - rewrite total_credit_mid. msimpl_goal. lia.
  - intros Hpos. rewrite <- I6. apply fits_bound; [done|lia|done].
Qed.

Lemma inv_commit m m' fl ws1 e ws2 lg coins r :
  write_locked m e.1 e.2 coins = Some (m', r) ->
  inv (mkSystem m fl (ws1 ++ Holding e :: ws2) lg) ->
  inv (mkSystem m' fl (ws1 ++ Leaving (entry_bytes e) r :: ws2) (match r with Ok _ => e :: lg | Error _ => lg end)).
Proof.
  intros Hw (v & [I1 I2 I3 I4 I5 I6 I7 I8]); msimpl_all.
  destruct (write_locked_spec m v e.1 e.2 coins I1) as (m2 & Hw' & Hv & Hd & Hc & _).
  rewrite Hw in Hw'. injection Hw' as <- ->.
  pose proof (put_delta e.1 e.2 (v_active v)) as Hdelta. destruct e as [k x]. cbn [fst snd] in *.
  rewrite total_credit_mid in I7. msimpl_all.
  exists (mkView (put k x (v_active v)) (v_dirty v) (v_tables v)). split; msimpl_goal; rewrite ?Hd, ?Hc; try done.
  - intros k'. rewrite (lookup_put m) by done. cbn. rewrite I2. by case_bool_decide; destruct (decide _).
  - unfold flusher_ok in *. by destruct fl; rewrite ?Hd.
  - eapply writers_mid; [done|]. msimpl_goal. lia.
  - rewrite total_credit_mid. msimpl_goal. lia.
Qed.

Lemma write_end_spec (m m' : MemTable T) full r res :
  write_end m full r = (m', res) -> 0 <= writer_credit (Leaving full r) <= used (credits m) ->
  active m' = active m /\ dirty m' = dirty m /\ sst m' = sst m /\
  budget (credits m') = budget (credits m) /\
  used (credits m') = used (credits m) - writer_credit (Leaving full r).
Proof.
  intros Hrun Hle. destruct r as [delta|e]; cbn [write_end] in Hrun; msimpl_all.
  - destruct (Z.eqb_spec (full - delta) 0) as [E|E]; injection Hrun as <- <-; msimpl_goal.
    + rewrite E. split_and!; try done. lia.
    + rewrite Release_exact by done. done.
  - injection Hrun as <- <-. msimpl_goal. rewrite Release_exact by done. done.
Qed.

Lemma view_ok_same (m m' : MemTable T) v :
  active m' = active m -> dirty m' = dirty m -> sst m' = sst m -> view_ok m v -> view_ok m' v.
Proof. intros Ha Hd Hs [V1 V2 V3]. split; by rewrite ?Ha, ?Hd, ?Hs. Qed.

Lemma inv_leave m m' fl ws1 full r res ws2 lg :
  write_end m full r = (m', res) ->
  inv (mkSystem m fl (ws1 ++ Leaving full r :: ws2) lg) -> inv (mkSystem m' fl (ws1 ++ ws2) lg).
Proof.
  intros Hrun (v & [I1 I2 I3 I4 I5 I6 I7 I8]); msimpl_all. rewrite total_credit_mid in I7.
  assert (0 <= writer_credit (Leaving full r) /\ Forall (fun w => 0 <= writer_credit w) (ws1 ++ ws2)) as [Hw Hws].
  { rewrite Forall_app, Forall_cons in I5. rewrite Forall_app. naive_solver. }
  pose proof (total_credit_nonneg _ Hws). pose proof (table_bytes_nonneg (v_active v)).
  pose proof (table_bytes_nonneg (v_dirty v)).
  assert (0 <= flusher_credit fl) as Hfl by (destruct fl; cbn in *; try lia; apply I4).
  destruct (write_end_spec m m' full r res Hrun ltac:(lia)) as (Ha & Hd & Hs & Hb & Hu).
  exists v. split; msimpl_goal; rewrite ?Hd, ?Hu; try done.
  - by apply (view_ok_same m).
  - unfold flusher_ok in *. by destruct fl; rewrite ?Hd.
  - congruence.
  - lia.
  - intros Hpos. specialize (I8 Hpos). lia.
Qed.

Lemma inv_flush_begin m m' snap ws lg :
  flush_begin (clear_FlushChan m) = Some (m', snap) -> inv (mkSystem m Idle ws lg) ->
  inv (mkSystem m' (match snap with Some t => Writing t | None => Idle end) ws lg).
Proof.
  intros Hrun (v & [I1 I2 I3 I4 I5 I6 I7 I8]); msimpl_all.
  assert (view_ok (clear_FlushChan m) v) as Hv by (by apply (view_ok_same m)).
  destruct (flush_begin_spec _ v Hv) as (m2 & snap2 & v' & Hrun' & Hv' & Hlook & _ & _ & Hc & _ & Hd & Hcase).
  rewrite Hrun in Hrun'. injection Hrun' as <- <-. change (credits (clear_FlushChan m)) with (credits m) in Hc.
  change (dirty (clear_FlushChan m)) with (dirty m) in Hcase.
  assert (table_bytes (v_active v') + table_bytes (v_dirty v') = table_bytes (v_active v) + table_bytes (v_dirty v)) as Hbytes.
  { destruct snap as [t|]; [|by destruct Hcase as (_ & -> & _)].
    destruct Hcase as [_ [(_ & -> & _)|(Hnone & _ & ->)]]; [done|]. msimpl_goal.
    pose proof (vo_dirty _ _ I1) as Hvd. rewrite Hnone in Hvd. rewrite Hvd. cbn. lia. }
  exists v'. split; msimpl_goal; rewrite ?Hc; try done.
  - intros k. by rewrite Hlook.
  - destruct snap as [t|]; [|by rewrite Hd]. intros _.
    destruct Hcase as [_ [(Hsome & -> & _)|(_ & Hne & ->)]]; [|done]. apply I3. by rewrite Hsome.
  - destruct snap as [t|]; cbn; [|done]. by rewrite Hd.
  - destruct snap; msimpl_goal; lia.
Qed.

Lemma inv_flush_write w m m' ok t es ws lg :
  t_collect t = Some es -> fresh_write w (sst m) es -> flush_write w m t = Some (m', ok) ->
  inv (mkSystem m (Writing t) ws lg) -> inv (mkSystem m' (if ok then Written t else Idle) ws lg).
Proof.
  intros Hes Hw Hrun (v & [I1 I2 I3 I4 I5 I6 I7 I8]); msimpl_all. cbn [flusher_ok] in I4.
  pose proof (vo_dirty _ _ I1) as Ht. rewrite I4 in Ht.
  rewrite (law_collect t _ Ht) in Hes. injection Hes as <-.
  destruct (flush_write_spec w m v t I1 Ht) as (m2 & ok2 & Hrun' & _ & _ & Hd & Hc & _ & Hv); [by apply I3; rewrite I4|done|].
  rewrite Hrun in Hrun'. injection Hrun' as <- <-. eexists. split; msimpl_goal; [exact Hv|..]; rewrite ?Hc, ?Hd; try done.
  - intros k. destruct ok; [rewrite lookup_flushed|]; apply I2.
  - intros Hne. destruct ok; by apply I3.
  - destruct ok; cbn; [|done]. split; [congruence|]. by eapply on_disk_last.
  - destruct ok; msimpl_goal; lia.
Qed.

Lemma inv_flush_end m m' n t ws lg :
  flush_end m t = (m', n) -> inv (mkSystem m (Written t) ws lg) -> inv (mkSystem m' (Freeing n) ws lg).
Proof.
  intros Hrun (v & [I1 I2 I3 I4 I5 I6 I7 I8]); msimpl_all. destruct I4 as [Hd Hon].
  pose proof (vo_dirty _ _ I1) as Ht. rewrite Hd in Ht.
  destruct (flush_end_view m v t I1 Hon) as [Hv Hlook]. rewrite Hrun in Hv. unfold flush_end in Hrun.
  injection Hrun as <- <-. rewrite (law_byteSize t _ Ht). pose proof (table_bytes_nonneg (v_dirty v)).
  eexists. split; msimpl_goal; [exact Hv|..]; try done; msimpl_goal.
  - intros k. by rewrite Hlook.
  - cbn. lia.
Qed.

Lemma inv_flush_free m n ws lg :
  inv (mkSystem m (Freeing n) ws lg) -> inv (mkSystem (MemTable.release m n) Idle ws lg).
Proof.
  intros (v & [I1 I2 I3 I4 I5 I6 I7 I8]); msimpl_all. destruct I4 as [Hd Hn].
  pose proof (total_credit_nonneg _ I5). pose proof (table_bytes_nonneg (v_active v)).
  pose proof (table_bytes_nonneg (v_dirty v)).
  assert (Release (credits m) n = mkPool (budget (credits m)) (used (credits m) - n)) as HR
    by (apply Release_exact; lia).
  exists v. split; msimpl_goal; rewrite ?HR; msimpl_goal; try done.
  - by apply (view_ok_same m).
  - lia.
  - intros Hpos. specialize (I8 Hpos). lia.
Qed.

Lemma inv_read m m' fl ws lg key r :
  Get m key = Some (m', r) -> inv (mkSystem m fl ws lg) -> inv (mkSystem m' fl ws lg).
Proof.
  intros Hrun (v & [I1 I2 I3 I4 I5 I6 I7 I8]); msimpl_all.
  destruct (Get_spec m v key I1) as (m2 & Hrun' & Hreads). rewrite Hrun in Hrun'. injection Hrun' as <- ->.
  pose proof Hreads as (_ & Hd & Hc & _). exists v. split; msimpl_goal; rewrite ?Hc, ?Hd; try done.
  - by eapply view_ok_reads.
  - unfold flusher_ok in *. by destruct fl; rewrite ?Hd.
Qed.

(** Writers that wait ask for a bounded write. *)
Definition waits_bounded (s : system T) : Prop :=
  Forall (fun w => match w with Waiting e => entry_bytes e <= bound | _ => True end) (writers s).

Lemma step_waits s s' : step bound s s' -> waits_bounded s -> waits_bounded s'.
Proof.
  unfold waits_bounded. destruct 1; msimpl_goal; try done; try (by intros ?; eapply writers_mid).
  - intros ?. constructor; [|done]. by destruct ok.
  - rewrite !Forall_app, Forall_cons. naive_solver.
Qed.

Lemma sys_step_inv s s' : step bound s s' -> waits_bounded s -> inv s -> inv s'.
Proof.
  destruct 1; intros Hwait Hinv.
  - by eapply inv_begin.
  - eapply inv_wake; [|done|done]. unfold waits_bounded in Hwait. msimpl_all.
    rewrite Forall_app, Forall_cons in Hwait. naive_solver.
  - by eapply inv_commit.
  - by eapply inv_leave.
  - by eapply inv_flush_begin.
  - by eapply inv_flush_write.
  - by eapply inv_flush_end.
  - by eapply inv_flush_free.
  - by eapply inv_read.
Qed.

Lemma reachable_inv disk s : reachable bound disk s -> inv s.
Proof.
  intros Hr. apply (rtc_invariant (step bound) (fun s => waits_bounded s /\ inv s) _ _) in Hr as [_ Hi].
  - done.
  - intros a b Hs [Hw Hi]. split; [by eapply step_waits|by eapply sys_step_inv].
  - split; [constructor|apply init_inv].
Qed.

(** reads are linearizable: however writers, the flush worker and readers
    interleave and whichever writes of tables fail, a read returns the value of
    the last write of its key that took the lock, and "Key not found" when that
    write was a deletion or there was none: while it is in the active table, in
    the dirty one, while the flush runs, fails and is retried, and on disk. *)
Theorem reads_linearizable (disk : gmap bytes bytes) (s : system T) (key : bytes)
    (Hreach : reachable bound disk s) :
  exists m', Get (mt s) key = Some (m', answer (find key (log s))).
Proof.
  destruct (reachable_inv disk s Hreach) as (v & Hv). destruct (Get_spec _ v key (i_view _ _ Hv)) as (m' & -> & _).
  exists m'. by rewrite (i_log _ _ Hv).
Qed.

(** C16: byte credit is exact and bounds memory: in every interleaving the pool
    counts precisely the bytes of the two tables in memory plus the credit of the
    calls under way, nothing leaks or is returned twice (when no call is under way
    it equals the tables' bytes), and with a positive budget the tables never hold
    more than the budget, or one oversized write. *)
Theorem memory_bounded (disk : gmap bytes bytes) (s : system T) (Hreach : reachable bound disk s) :
  exists A D, (exists t, active (mt s) = Some t /\ t_rep t A) /\
    match dirty (mt s) with None => D = [] | Some t => t_rep t D end /\
    InflightBytes (mt s) = table_bytes A + table_bytes D + total_credit (writers s) + flusher_credit (flusher s) /\
    (writers s = [] -> flusher s = Idle -> InflightBytes (mt s) = table_bytes A + table_bytes D) /\
    (0 < MemTableMaxInflightBytes -> table_bytes A + table_bytes D <= Z.max MemTableMaxInflightBytes bound).
Proof.
  destruct (reachable_inv disk s Hreach) as (v & [I1 I2 I3 I4 I5 I6 I7 I8]).
  exists (v_active v), (v_dirty v). unfold InflightBytes, Used. split_and!; [apply I1|apply I1|done| |].
  - intros Hw Hf. rewrite I7, Hw, Hf. cbn. lia.
  - intros Hpos. specialize (I8 Hpos). pose proof (total_credit_nonneg _ I5).
    assert (0 <= flusher_credit (flusher s)) as Hfl by (destruct (flusher s); cbn in *; try lia; apply I4). lia.
Qed.

End Invariant.

(** ** A run: a write, the flush of its table, and the read from disk *)

Section Sample.
#[local] Existing Instances sample_math sample_math_laws sample_list sample_list_laws.
#[local] Instance sample_storage : StorageConfig := {
  MaxMemTableSize := 0; MemTableMaxInflightBytes := 10; MaxCompactionSize := 2 }.

Definition sample_key : bytes := of_string "k".
Definition sample_write : entry := (sample_key, Some (of_string "v")).

Lemma sample_fresh ss : mata ss = [] -> fresh_write (sample_world 5) ss [sample_write].
Proof. intros Hm. split; [apply sample_world_ok|rewrite Hm; by intros ?%elem_of_nil|writable_tac]. Qed.

(** Up to the write of the file. *)
Lemma sample_mid :
  exists m t, reachable 8 ∅ (mkSystem m (Writing t) [] [sample_write]) /\ dirty m = Some t /\
    t_collect t = Some [sample_write] /\ mata (sst m) = [].
Proof.
  eexists _, _. split.
  - eapply rtc_l; [eapply (step_begin 8 _ _ true _ _ _ sample_write); [vm_compute; discriminate|vm_compute; reflexivity]|].
    eapply rtc_l; [eapply (step_commit 8 _ _ _ [] sample_write [] _ []); vm_compute; reflexivity|].
    eapply rtc_l; [eapply (step_leave 8 _ _ _ []); vm_compute; reflexivity|].
    eapply rtc_l; [eapply (step_flush_begin 8); [reflexivity|vm_compute; reflexivity]|]. apply rtc_refl.
  - split; [reflexivity|]. split; reflexivity.
Qed.

(** The state after the whole flush. *)
Lemma sample_run :
  exists s, reachable 8 ∅ s /\ log s = [sample_write] /\ flusher s = Idle /\ writers s = [] /\ dirty (mt s) = None.
Proof.
  destruct sample_mid as (m & t & Hr & Hd & Ht & Hmata).
  destruct (reachable_inv 8 ∅ _ Hr) as (v & Hv). pose proof (i_view 8 _ _ Hv) as Hview. pose proof (vo_dirty _ _ Hview) as Hrep.
  cbn in Hview, Hrep. rewrite Hd in Hrep. pose proof (law_collect t _ Hrep) as Hes. rewrite Ht in Hes. injection Hes as Hes.
  destruct (flush_write_spec (sample_world 5) m v t Hview Hrep) as (m' & ok & Hrun & Hok & _);
    [rewrite <- Hes; discriminate|rewrite <- Hes; by apply sample_fresh|]. rewrite (Hok eq_refl) in Hrun.
  exists (mkSystem (MemTable.release (flush_end m' t).1 (flush_end m' t).2) Idle [] [sample_write]).
  split; [|done]. unfold reachable. etransitivity; [exact Hr|].
  eapply rtc_l; [eapply (step_flush_write 8 (sample_world 5)); [exact Ht|by apply sample_fresh|exact Hrun]|].
  eapply rtc_l; [eapply step_flush_end; reflexivity|]. eapply rtc_l; [eapply step_flush_free|]. apply rtc_refl.
Qed.

Lemma reads_linearizable_witness :
  exists s m', reachable 8 ∅ s /\ dirty (mt s) = None /\ Get (mt s) sample_key = Some (m', Ok (of_string "v")).
Proof.
  destruct sample_run as (s & Hs & Hlog & _ & _ & Hd).
  destruct (reads_linearizable 8 ∅ s sample_key Hs) as [m' Hm']. exists s, m'.
  split; [exact Hs|]. split; [exact Hd|]. rewrite Hm', Hlog. reflexivity.
Defined.

Lemma memory_bounded_witness :
  exists s, reachable 8 ∅ s /\ log s = [sample_write] /\ exists A D,
    InflightBytes (mt s) = table_bytes A + table_bytes D /\ table_bytes A + table_bytes D <= 10.
Proof.
  destruct sample_run as (s & Hs & Hlog & Hf & Hw & _).
  destruct (memory_bounded 8 ∅ s Hs) as (A & D & _ & _ & _ & Hquiet & Hmax).
  exists s. split; [exact Hs|]. split; [exact Hlog|]. exists A, D.
  split; [by apply Hquiet|]. apply Hmax. reflexivity.
Defined.

End Sample.

(** ** A writer left waiting *)

Section Stranded.
#[local] Existing Instances sample_math sample_math_laws sample_list sample_list_laws.
#[local] Instance roomy_storage : StorageConfig := {
  MaxMemTableSize := 100; MemTableMaxInflightBytes := 10; MaxCompactionSize := 2 }.

Definition first_write : entry := (of_string "key1", Some (of_string "aaaa")).
Definition second_write : entry := (of_string "key2", Some (of_string "bbbb")).

Lemma Get_frame {T} `{OrderedTable T} (m m' : MemTable T) key r :
  Get m key = Some (m', r) -> credits m' = credits m /\ FlushChan m' = FlushChan m.
Proof.
  unfold Get, getFromSSTables. intros Hrun. repeat (case_match || simplify_option_eq); done.
Qed.

(** a waiting writer can be stranded: two writes of eight bytes share a budget
    of ten; the second finds no credit and asks for a flush, the worker flushes
    before the first is in the table, finds the table empty and gives nothing
    back, the first ends. Then the second waits while the worker is idle and no
    flush is asked for, its acquisition fails, and nothing but a new call changes
    that: every step is a new call or a read that leaves credit and request. *)
Theorem waiting_writer_stranded :
  exists s, reachable 8 ∅ s /\ writers s = [Waiting second_write] /\ flusher s = Idle /\
    FlushChan (mt s) = false /\ Acquire (credits (mt s)) (entry_bytes second_write) = None /\
    forall s', step 8 s s' ->
      (exists w, writers s' = [w; Waiting second_write]) \/
      (writers s' = writers s /\ flusher s' = Idle /\
       credits (mt s') = credits (mt s) /\ FlushChan (mt s') = false).
Proof.
  eexists. split.
  - eapply rtc_l; [eapply (step_begin 8 _ _ true _ _ _ first_write); [vm_compute; discriminate|vm_compute; reflexivity]|].
    eapply rtc_l; [eapply (step_begin 8 _ _ false _ _ _ second_write); [vm_compute; discriminate|vm_compute; reflexivity]|].
    eapply rtc_l; [eapply (step_flush_begin 8); [reflexivity|vm_compute; reflexivity]|].
    eapply rtc_l; [eapply (step_commit 8 _ _ _ [Waiting second_write] first_write [] _ []); vm_compute; reflexivity|].
    eapply rtc_l; [eapply (step_leave 8 _ _ _ [Waiting second_write]); vm_compute; reflexivity|]. apply rtc_refl.
  - split; [reflexivity|]. split; [reflexivity|]. split; [reflexivity|]. split; [vm_compute; reflexivity|].
    intros s' Hs. remember (mkSystem _ _ _ _) as s eqn:Es in Hs.
    destruct Hs; simplify_eq; try discriminate.
    + left. by eexists.
    + destruct ws1 as [|? [|]]; simplify_list_eq.
    + destruct ws1 as [|? [|]]; simplify_list_eq.
    + destruct ws1 as [|? [|]]; simplify_list_eq.
    + right. apply Get_frame in H as [Hc Hf]. split; [reflexivity|]. split; [reflexivity|]. by split.
Qed.

End Stranded.
End MemSystem.
