(* ===== verification/MemLife.v ===== *)
(** The life of a memtable ([NewMemTable], [FlushWorker], [ListenCompactCh] and
    [Close] of memtable.go): the goroutines of [MemSystem.v] together with the
    compactor, from the start until both workers have left; and a read that
    overlaps a compaction. *)
From S2P Require Import Prelude Bytes Credit SkipList Bloom SSTable Merge MemTable Compaction MemSystem.
Import Credits Partitioned SSTable Merge MemTable Compaction MemSystem.

Module MemLife.

Section Life.
Context `{BloomMath} `{StorageConfig} {T : Type} `{OrderedTable T}.

(** [closed] is [stopCh]; the flags say which goroutines are still there. *)
Record life := mkLife { sys : system T; closed : bool; flush_alive : bool; compact_alive : bool }.

Definition NewMemTable (disk : gmap bytes bytes) : life := mkLife (MemSystem.init disk) false true true.

(** Closing a closed channel panics. *)
Definition Close (l : life) : option life :=
  if closed l then None else Some (mkLife (sys l) true (flush_alive l) (compact_alive l)).

Definition set_sys (l : life) (s : system T) : life := mkLife s (closed l) (flush_alive l) (compact_alive l).
Definition set_mt (s : system T) (m : MemTable T) : system T := mkSystem m (flusher s) (writers s) (log s).

Definition clear_compactCh (m : MemTable T) : MemTable T :=
  mkMT (active m) (dirty m) (sst m) (credits m) (FlushChan m) false.

(** A step of a goroutine that is not the flush worker: it takes no request. *)
Definition others (s s' : system T) : Prop :=
  flusher s' = flusher s /\ (FlushChan (mt s) = true -> FlushChan (mt s') = true).

(** The worlds of a pass are fit for whatever the list holds. *)
Definition pass_fits (ws : Z -> world) (ss : SSTable) : Prop :=
  forall tables, tables_ok ss tables -> pass_ok ws ss tables.

(** Either worker's [select] may prefer a request that is pending to the closed
    channel, or leave it.  A request for compaction is sent by [FlushToSSTable] and
    [WriteSSTable]; here it may come at any time.  A pass is one step, with no other
    inside it: in the code it runs without a lock, and a flush or a read may overlap
    it ([compaction_overtakes_flush], [overlapping_read_misses_merged]).  The
    goroutine that loads the list of tables is not among these steps
    ([install_list]). *)
Inductive life_step (bound : Z) (l : life) : life -> Prop :=
  | l_flush_worker s' : flush_alive l = true -> step bound (sys l) s' -> life_step bound l (set_sys l s')
  | l_others s' : step bound (sys l) s' -> others (sys l) s' -> life_step bound l (set_sys l s')
  | l_request : life_step bound l (set_sys l (set_mt (sys l) (StartCompact (mt (sys l)))))
  | l_compact ws m' : compact_alive l = true -> compactCh (mt (sys l)) = true ->
      pass_fits ws (sst (mt (sys l))) -> CompactSSTable ws (clear_compactCh (mt (sys l))) 0 = Some m' ->
      life_step bound l (set_sys l (set_mt (sys l) m'))
  | l_close l' : Close l = Some l' -> life_step bound l l'
  | l_flush_exit : closed l = true -> flusher (sys l) = Idle ->
      life_step bound l (mkLife (sys l) (closed l) false (compact_alive l))
  | l_compact_exit : closed l = true -> life_step bound l (mkLife (sys l) (closed l) (flush_alive l) false).

Definition lives (bound : Z) (disk : gmap bytes bytes) (l : life) : Prop := rtc (life_step bound) (NewMemTable disk) l.

End Life.
#[global] Arguments life : clear implicits.

Section Invariant.
Context `{BloomMathLaws} `{StorageConfig} {T : Type} `{OrderedTableLaws T} (bound : Z).

(** ** The order of the list under every step *)

Lemma ordered_reads ss ss' : reads ss ss' -> ordered ss -> ordered ss'.
Proof.
  intros (Hm & _) [O1 O2 O3].
  assert (Level <$> mata ss = Level <$> mata ss') as Hl by (eapply same_meta_fmap; [|exact Hm]; by intros a b (?&?&?)).
  assert (forall P, Forall P (Level <$> mata ss) <-> Forall P (Level <$> mata ss')) as Hall by (intros P; by rewrite Hl).
  split.
  - clear - O1 Hm. induction Hm as [|a b l l' Hab Hm IH]; [constructor|]. inversion O1 as [|? ? Hs Hr]; subst. constructor; [by apply IH|].
    rewrite Forall_forall in Hr |- *. intros x (i & Hi)%list_elem_of_lookup_1.
    destruct (Forall2_lookup_r _ _ _ _ _ Hm Hi) as (y & Hy & _ & Hxy & _). unfold level_ge in *.
    destruct Hab as (_ & <- & _). rewrite <- Hxy. apply Hr. by eapply list_elem_of_lookup_2.
  - specialize (Hall (fun x => 0 <= x)). rewrite !Forall_fmap in Hall. by apply Hall.
  - intros l Hll. specialize (O3 l Hll). unfold settled, count, GetLevelFiles in *.
    replace (zlen (filter (fun meta => Level meta = l) (mata ss'))) with (zlen (filter (fun meta => Level meta = l) (mata ss))); [done|].
    clear - Hm. induction Hm as [|a b x y (_ & Hab & _) _ IH]; [done|]. rewrite !filter_cons, Hab.
    destruct (decide (Level b = l)); rewrite ?zlen_cons; congruence.
Qed.

Lemma ordered_write w ss tables es ss' r :
  tables_ok ss tables -> fresh_write w ss es -> es <> [] -> WriteToSSTable w ss es = Some (ss', r) -> ordered ss -> ordered ss'.
Proof.
  intros Ht Hw Hne Hrun Ho. destruct (write_tables w ss tables es Ht Hw Hne) as (ss2 & r2 & Hrun2 & _ & _ & Hm).
  rewrite Hrun in Hrun2. injection Hrun2 as <- <-. destruct r as [u|e].
  - destruct Hm as (meta & Hm & Hl). by eapply ordered_snoc.
  - destruct Ho as [O1 O2 O3]. unfold settled, count, GetLevelFiles in *. split; unfold settled, count, GetLevelFiles; by rewrite Hm.
Qed.

Lemma step_ordered s s' : step bound s s' -> inv bound s -> ordered (sst (mt s)) -> ordered (sst (mt s')).
Proof.
  intros Hs (v & Hv) Ho. pose proof (i_view _ _ _ Hv) as Hview.
  destruct Hs as [m m' ok fl ws lg e _ Hrun| |m m' fl ws1 e ws2 lg coins r Hrun|m m' fl ws1 full r res ws2 lg Hrun
    |m m' snap ws lg _ Hrun|w m m' ok t es ws lg Hes Hw Hrun|m m' n t ws lg Hrun| |m m' fl ws lg key r Hrun]; cbn [mt] in *; try done.
  - unfold acquireCredit in Hrun. destruct (TryAcquire _ _) as [[] ?]; [by simplify_eq|]. by destruct (Acquire _ _); simplify_eq.
  - destruct (write_locked_spec m v e.1 e.2 coins Hview) as (m2 & Hrun2 & _ & _ & _ & Hss & _).
    rewrite Hrun in Hrun2. injection Hrun2 as <- _. by rewrite Hss.
  - unfold write_end in Hrun. destruct r; [|by simplify_eq]. cbv zeta in Hrun. case_match; by simplify_eq.
  - destruct (flush_begin_spec (clear_FlushChan m) v) as (m2 & snap2 & v2 & Hrun2 & _ & _ & _ & Hss & _); [by apply (view_ok_same m)|].
    rewrite Hrun in Hrun2. injection Hrun2 as <- <-. by rewrite Hss.
  - pose proof (i_flusher _ _ _ Hv) as Hf. cbn in Hf. pose proof (vo_dirty _ _ Hview) as Ht. rewrite Hf in Ht.
    rewrite (law_collect t _ Ht) in Hes. injection Hes as <-. unfold flush_write in Hrun. rewrite (law_collect t _ Ht) in Hrun.
    cbn [mbind option_bind] in Hrun. destruct (WriteToSSTable w (sst m) (v_dirty v)) as [[ss r]|] eqn:Er; [|done].
    assert (ordered ss) as Hss.
    { eapply ordered_write; [apply (vo_tables _ _ Hview)|done| |exact Er|done]. apply (i_dirty _ _ _ Hv). cbn. by rewrite Hf. }
    cbn [mbind option_bind] in Hrun. by destruct r; simplify_eq.
  - by injection Hrun as <- <-.
  - destruct (Get_spec m v key Hview) as (m2 & Hrun2 & Hr). rewrite Hrun in Hrun2. injection Hrun2 as <- ->.
    eapply ordered_reads; [|done]. apply Hr.
Qed.

(** ** The invariant *)

Record life_ok (l : life T) : Prop := {
  lk_inv : inv bound (sys l);
  lk_waits : waits_bounded bound (sys l);
  lk_ordered : ordered (sst (mt (sys l)));
  lk_gone : flush_alive l = false -> closed l = true /\ flusher (sys l) = Idle;
}.

(** What keeps the two tables in memory and the answers of those on disk keeps
    the invariant of the goroutines. *)
Lemma inv_tables (s : system T) m' v tables :
  inv_at bound s v -> active m' = active (mt s) -> dirty m' = dirty (mt s) -> credits m' = credits (mt s) ->
  tables_ok (sst m') tables -> (forall k, newest_find k tables = newest_find k (v_tables v)) -> inv bound (set_mt s m').
Proof.
  intros [I1 I2 I3 I4 I5 I6 I7 I8] Ha Hd Hc Ht Hf. exists (mkView (v_active v) (v_dirty v) tables).
  split; cbn [set_mt mt flusher writers log]; rewrite ?Ha, ?Hd, ?Hc; try done.
  - destruct I1 as [V1 V2 _]. split; cbn; rewrite ?Ha, ?Hd; done.
  - intros k. rewrite <- I2, !lookup_layers. cbn [v_active v_dirty v_tables]. by rewrite Hf.
  - unfold flusher_ok in *. destruct (flusher s); rewrite ?Hd; try done. destruct I4 as [? Hon]. split; [done|].
    intros k x Hx. cbn in *. rewrite Hf. by apply Hon.
Qed.

Lemma new_life_ok disk : life_ok (NewMemTable disk).
Proof. split; [apply init_inv|constructor| |done]. split; [constructor|constructor|intros l _; by left]. Qed.

Lemma ok_step l s' : life_ok l -> step bound (sys l) s' -> (flush_alive l = false -> flusher s' = Idle) -> life_ok (set_sys l s').
Proof.
  intros [L1 L2 L3 L4] Hs Hf. split; cbn [set_sys sys flush_alive closed].
  - by eapply sys_step_inv.
  - by eapply step_waits.
  - by eapply step_ordered.
  - intros Hg. split; [by apply L4|by apply Hf].
Qed.

Lemma life_step_ok l l' : life_step bound l l' -> life_ok l -> life_ok l'.
Proof.
  intros Hs Hl. pose proof Hl as [L1 L2 L3 L4]. destruct Hs as [s' Ha Hs|s' Hs Ho| |ws m' Ha Hc Hp Hrun|l' Hc|Hc Hf|Hc].
  - apply ok_step; [done|done|congruence].
  - apply ok_step; [done|done|]. intros Hg. destruct Ho as [-> _]. by apply L4.
  - destruct L1 as (v & Hv). split; [|done|done|done]. eapply inv_tables; [exact Hv|try done..].
    apply (vo_tables _ _ (i_view _ _ _ Hv)).
  - destruct L1 as (v & Hv). pose proof (i_view _ _ _ Hv) as Hview.
    assert (view_ok (clear_compactCh (mt (sys l))) v) as Hview2 by (by apply (view_ok_same (mt (sys l)))).
    destruct (CompactSSTable_spec ws _ v Hview2 L3) as (ss & tables & Hrun2 & Hv2 & Hf & Hord & _).
    { apply Hp, (vo_tables _ _ Hview). }
    rewrite Hrun in Hrun2. injection Hrun2 as ->. split; cbn [set_sys set_mt sys mt closed flush_alive flusher]; [|done|done|done].
    eapply inv_tables; [exact Hv|done..| |exact Hf]. apply (vo_tables _ _ Hv2).
  - unfold Close in Hc. destruct (closed l) eqn:Ec; [done|]. injection Hc as <-. split; cbn; try done.
    intros Hg. split; [done|]. by apply L4.
  - by split.
  - by split.
Qed.

Lemma lives_ok disk l : lives bound disk l -> life_ok l.
Proof. intros Hr. eapply (rtc_invariant (life_step bound)); [|exact Hr|apply new_life_ok]. intros a b Hs Ha. by eapply life_step_ok. Qed.

(** From a new memtable with an empty list of tables (the goroutine that loads
    the list left out), whose goroutines take turns at these steps: a writer's
    reservation, its locked part and the return of its credit, the flush worker's
    locked parts and the writing of its file, a whole pass of the compactor, a whole
    read; in any order, whichever writes of tables fail, before [Close], after it
    and when the workers have left, with table files that get names of their own and
    fit their length fields; a read returns the value of the last write of its key
    that took the lock, and "Key not found" when that write was a deletion or there
    was none: while it is in the active table, in the dirty one, while the flush
    runs, fails and is retried, on disk, and after any number of compactions.  The
    code holds no lock over a pass or a read: what happens when another step falls
    inside one is in [overlapping_read_misses_merged] below, in
    [compaction_overtakes_flush] ([Compaction.v]) and in [LockFree.v], where the
    answer is not this one. *)
Theorem reads_return_last_write (disk : gmap bytes bytes) (l : life T) (key : bytes) (Hlife : lives bound disk l) :
  exists m', Get (mt (sys l)) key = Some (m', answer (find key (log (sys l)))).
Proof.
  destruct (lives_ok disk l Hlife) as [(v & Hv) _ _ _]. destruct (Get_spec _ v key (i_view _ _ _ Hv)) as (m' & -> & _).
  exists m'. by rewrite (i_log _ _ _ Hv).
Qed.

(** ** After [Close] *)

Definition key_bytes (es : list entry) : Z := zsum (zlen <$> es.*1).

Lemma key_bytes_cons e es : key_bytes (e :: es) = zlen e.1 + key_bytes es.
Proof. done. Qed.

Lemma key_bytes_app a b : key_bytes (a ++ b) = key_bytes a + key_bytes b.
Proof. induction a as [|e a IH]; [done|]. cbn [app]. rewrite !key_bytes_cons, IH. lia. Qed.

Lemma key_bytes_table es : 0 <= key_bytes es <= table_bytes es.
Proof.
  induction es as [|e es IH]; [done|]. rewrite key_bytes_cons, table_bytes_cons. unfold entry_bytes, value_len.
  pose proof (zlen_nonneg e.1). pose proof (zlen_nonneg (default [] e.2)). lia.
Qed.

(** A write adds a key or keeps the one that is there. *)
Lemma key_bytes_put k v es : sorted es -> key_bytes es <= key_bytes (put k v es).
Proof.
  intros Hs. unfold put. rewrite key_bytes_app, key_bytes_cons. cbn [fst].
  induction Hs as [|e es Hs IH Hall]; [cbn; pose proof (zlen_nonneg k); lia|].
  rewrite !filter_cons, key_bytes_cons. pose proof (key_bytes_table (filter (fun e => blt e.1 k) es)).
  destruct (decide (blt e.1 k)) as [Hlt|Hge], (decide (blt k e.1)) as [Hgt|Hle]; rewrite ?key_bytes_cons; try lia.
  - exfalso. assert (blt k k) as Hc by (by etransitivity). by apply blt_irrefl in Hc.
  - assert (e.1 = k) as <-.
    { apply not_blt in Hge. apply ble_lteq in Hge as [?|?]; [done|congruence]. }
    clear IH. rewrite (filter_all (fun x => blt e.1 x.1)); [lia|]. by apply Forall_forall.
Qed.

(** A table in memory has one content. *)
Lemma rep_det (t : T) a b : t_rep t a -> t_rep t b -> a = b.
Proof. intros Ha%law_collect Hb%law_collect. congruence. Qed.

(** No step but the flush worker's touches the dirty table or takes a key out
    of the active one. *)
Lemma others_memory s s' v :
  step bound s s' -> others s s' -> flusher s = Idle -> view_ok (mt s) v ->
  dirty (mt s') = dirty (mt s) /\ exists A, key_bytes (v_active v) <= key_bytes A /\ exists t, active (mt s') = Some t /\ t_rep t A.
Proof.
  intros Hs [Ho1 Ho2] Hi Hview. pose proof Hview as [Va _ _].
  destruct Hs as [m m' ok fl ws lg e _ Hrun| |m m' fl ws1 e ws2 lg coins r Hrun|m m' fl ws1 full r res ws2 lg Hrun
    |m m' snap ws lg Hreq Hrun| | | |m m' fl ws lg key r Hrun]; cbn [mt flusher] in *; try done.
  - unfold acquireCredit in Hrun. split; [|exists (v_active v); split; [done|]];
      (destruct (TryAcquire _ _) as [[] ?]; [by simplify_eq|by destruct (Acquire _ _); simplify_eq]).
  - by split; [|exists (v_active v)].
  - destruct (write_locked_spec m v e.1 e.2 coins Hview) as (m2 & Hrun2 & [V _ _] & Hd & _).
    rewrite Hrun in Hrun2. injection Hrun2 as <- _. split; [done|]. eexists. split; [|exact V].
    apply key_bytes_put. by eapply view_sorted.
  - split; [|exists (v_active v); split; [done|]];
      (unfold write_end in Hrun; destruct r; [cbv zeta in Hrun; case_match|]; by simplify_eq).
  - destruct (flush_begin_spec (clear_FlushChan m) v) as (m2 & snap2 & v2 & Hrun2 & _ & _ & _ & _ & _ & Hreq2 & _); [by apply (view_ok_same m)|].
    rewrite Hrun in Hrun2. injection Hrun2 as <- <-. rewrite Hreq2 in Ho2. by specialize (Ho2 Hreq).
  - destruct (Get_spec m v key Hview) as (m2 & Hrun2 & Ha & Hd & _). rewrite Hrun in Hrun2. injection Hrun2 as <- ->.
    rewrite Ha. by split; [|exists (v_active v)].
Qed.

(** What the closed memtable keeps: the flush worker is gone, the dirty table is
    [d], and the keys of the active table take [n] bytes at least. *)
Definition stays (d : option T) (n : Z) (l : life T) : Prop :=
  flush_alive l = false /\ dirty (mt (sys l)) = d /\ exists A, n <= key_bytes A /\ exists t, active (mt (sys l)) = Some t /\ t_rep t A.

Lemma stays_step d n l l' : life_step bound l l' -> life_ok l /\ stays d n l -> life_ok l' /\ stays d n l'.
Proof.
  intros Hs [Hl (Hg & Hd & A & Hn & t & Ha & Ht)]. split; [by eapply life_step_ok|]. pose proof Hl as [(v & Hv) _ _ L4].
  pose proof (i_view _ _ _ Hv) as Hview. pose proof (vo_active _ _ Hview) as (t2 & Ha2 & Ht2). rewrite Ha in Ha2. injection Ha2 as <-.
  pose proof (rep_det t _ _ Ht Ht2) as ->. destruct Hs as [s' Hf Hs|s' Hs Ho| |ws m' _ Hc Hp Hrun|l' Hc|Hc Hf|Hc]; cbn [set_sys].
  - congruence.
  - destruct (others_memory _ _ v Hs Ho) as (Hd' & A & Hle & Hact); [by apply L4|done|].
    split_and!; [done|cbn; congruence|]. exists A. split; [lia|done].
  - split_and!; [done..|]. exists (v_active v). split; [done|]. by exists t.
  - unfold CompactSSTable in Hrun. destruct (compact_levels _ _ _ _) as [ss|]; [|done]. injection Hrun as <-.
    split_and!; [done..|]. exists (v_active v). split; [done|]. by exists t.
  - unfold Close in Hc. destruct (closed l); [done|]. injection Hc as <-. split_and!; [done..|]. exists (v_active v). split; [done|]. by exists t.
  - split_and!; [done..|]. exists (v_active v). split; [done|]. by exists t.
  - split_and!; [done..|]. exists (v_active v). split; [done|]. by exists t.
Qed.

(** closing the memtable strands its writers: once the flush worker has seen
    [stopCh], whatever the other goroutines do, the dirty table stays where it is,
    no key leaves the active one, and a write that does not fit into the budget
    beside those keys and the dirty table never gets its credit. *)
Theorem closed_memtable_starves_writers (disk : gmap bytes bytes) (l l' : life T) (n : Z)
    (Hlife : lives bound disk l) (Hgone : flush_alive l = false) (Hrun : rtc (life_step bound) l l') :
  exists A D, (exists t, active (mt (sys l)) = Some t /\ t_rep t A) /\
    match dirty (mt (sys l)) with None => D = [] | Some t => t_rep t D end /\
    dirty (mt (sys l')) = dirty (mt (sys l)) /\
    (0 < MemTableMaxInflightBytes -> 0 < key_bytes A -> MemTableMaxInflightBytes < key_bytes A + table_bytes D + n ->
     Acquire (credits (mt (sys l'))) n = None).
Proof.
  pose proof (lives_ok disk l Hlife) as Hl. pose proof (lk_inv _ Hl) as (v & Hv). pose proof (i_view _ _ _ Hv) as [Va Vd _].
  assert (life_ok l' /\ stays (dirty (mt (sys l))) (key_bytes (v_active v)) l') as [Hl' (_ & Hd & A & Hle & t & Ha & Ht)].
  { eapply (rtc_invariant (life_step bound) (fun x => life_ok x /\ stays (dirty (mt (sys l))) (key_bytes (v_active v)) x)); [|exact Hrun|].
    - intros a b Hs Hp. by eapply stays_step.
    - split; [done|]. split_and!; [done..|]. by exists (v_active v). }
  exists (v_active v), (v_dirty v). split_and!; [done..|]. intros Hb Hk Hn.
  destruct (lk_inv _ Hl') as (v' & [[(t2 & Ha2 & Ht2) Vd' _] _ _ I4 I5 I6 I7 _]). rewrite Ha in Ha2. injection Ha2 as <-.
  pose proof (rep_det t _ _ Ht Ht2) as ->.
  assert (v_dirty v' = v_dirty v) as Ed by (rewrite Hd in Vd'; destruct (dirty (mt (sys l))); [by eapply rep_det|congruence]).
  pose proof (key_bytes_table (v_active v')). pose proof (table_bytes_nonneg (v_dirty v)). pose proof (total_credit_nonneg _ I5).
  assert (0 <= flusher_credit (flusher (sys l'))) by (destruct (flusher (sys l')); cbn in *; try lia; apply I4).
  unfold Acquire, fits. rewrite I6, I7, Ed. rewrite !(proj2 (Z.leb_gt _ _)), (proj2 (Z.eqb_neq _ _)) by lia. done.
Qed.

End Invariant.
(** ** A read that overlaps a compaction

    [getFromSSTables] takes the list of tables and then reads their files one by
    one, without a lock; a pass deletes the files it has merged. *)
Section Overlap.
Context `{BloomMathLaws} `{StorageConfig}.

(** A file that was deleted, with its cached index and filter. *)
Definition gone (ss : SSTable) (p : bytes) : Prop :=
  files ss !! p = None /\ indexCache ss !! p = None /\ forall pb, bloomCache ss !! p = Some pb -> pb = None.

Lemma gone_drop ss a p : gone ss p \/ p = Filepath a -> gone (RemoveMata (DeleteSSTable ss a) a) p.
Proof.
  unfold gone. cbn. rewrite !lookup_delete_None.
  intros [(G1 & G2 & G3)| ->]; (split_and!; [by auto|by auto|]); intros pb [Hne Hpb]%lookup_delete_Some; [by apply G3|done].
Qed.

Lemma drop_files_gone ss metas p : gone ss p \/ p ∈ Filepath <$> metas -> gone (drop_files ss metas) p.
Proof.
  unfold drop_files. revert ss. induction metas as [|a metas IH]; intros ss; cbn [foldl fmap list_fmap].
  - by intros [?|?%elem_of_nil].
  - rewrite elem_of_cons. intros [Hg|[-> |Hp]]; apply IH; [left; apply gone_drop; by left|left; apply gone_drop; by right|by right].
Qed.

Lemma ReadFromSSTable_gone ss p key :
  gone ss p -> exists ss', ReadFromSSTable ss p key = Some (ss', None) /\ only_caches ss ss' /\ forall q, gone ss q -> gone ss' q.
Proof.
  intros Hg. pose proof Hg as (G1 & G2 & G3). unfold ReadFromSSTable, getBloom.
  assert (forall ss', files ss' = files ss -> indexCache ss' = indexCache ss ->
    getBlockIndex ss' p = (ss', None) /\ readFromSSTableFull ss' p key = None) as Hno.
  { intros ss' Hf Hi. unfold getBlockIndex, loadBlockIndexFromFile, readFromSSTableFull, ReadAllFromSSTable. by rewrite Hi, G2, Hf, G1. }
  destruct (bloomCache ss !! p) as [pb|] eqn:Eb.
  - rewrite (G3 pb) by done. cbn [mbind option_bind negb]. destruct (Hno ss) as [-> ->]; [done..|]. by exists ss.
  - unfold loadBloomFromFile. rewrite G1. cbn [mbind option_bind negb]. destruct (Hno (set_bloom ss p None)) as [-> ->]; [done..|].
    eexists. split; [done|]. split.
    + split_and!; [done..|]. intros q es (blob & ? & Hq & ? & ? & Hbc). exists blob. split_and!; try done. cbn.
      intros bl. rewrite lookup_insert_ne by congruence. apply Hbc.
    + intros q (Q1 & Q2 & Q3). split_and!; [done..|]. cbn. intros pb [[_ <-]|[_ Hq]]%lookup_insert_Some; [done|by apply Q3].
Qed.

(** Reading on through deleted files. *)
Lemma visit_gone ss metas rest key :
  Forall (fun meta => gone ss (Filepath meta) /\ MaxKeyLoaded meta = true) metas -> Forall (listed ss) metas ->
  exists ss', visit ss (metas ++ rest) key = visit ss' rest key /\ reads ss ss'.
Proof.
  intros Hg Hl. revert ss Hg Hl. induction metas as [|meta metas IH]; intros ss Hg Hl; [by exists ss|].
  apply Forall_cons in Hg as [[Hm Hload] Hg]. apply Forall_cons in Hl as [Hlm Hl]. cbn [app visit].
  pose proof (EnsureMeta_same (files ss) meta Hload) as Hsame. pose proof (update_meta_reads ss meta _ Hlm Hsame) as Hr1.
  set (ss1 := update_meta ss (EnsureMeta (files ss) meta)) in *. cbv zeta.
  assert (forall q, gone ss q -> gone ss1 q) as Hg1 by done.
  assert (forall ss2, reads ss1 ss2 -> (forall q, gone ss1 q -> gone ss2 q) ->
    exists ss', visit ss2 (metas ++ rest) key = visit ss' rest key /\ reads ss ss') as Hnext.
  { intros ss2 Hr2 Hg2. assert (reads ss ss2) as Hr by (by etransitivity). destruct (IH ss2) as (ss' & -> & Hr').
    - eapply Forall_impl; [exact Hg|]. intros a [Ha ?]. split; [by apply Hg2, Hg1|done].
    - eapply Forall_impl; [exact Hl|]. intros a. by apply listed_reads.
    - exists ss'. split; [done|by etransitivity]. }
  destruct (_ || _); [by apply Hnext|].
  destruct Hsame as (_ & _ & Hpath & _). rewrite <- Hpath.
  destruct (ReadFromSSTable_gone ss1 (Filepath meta) key) as (ss2 & -> & Hc & Hg2); [by apply Hg1|].
  cbn [mbind option_bind]. apply Hnext; [by apply only_caches_reads|done].
Qed.

(** The search of [getFromSSTables] over a list of tables taken earlier. *)
Definition read_listed (ss : SSTable) (metas : list SSTableMata) (key : bytes) : option (SSTable * option (option bytes)) :=
  visit ss (reverse metas) key.

(** C11: a read that overlaps a compaction misses what was merged: a reader that
    has taken the list of tables before a level is merged, and reads their files
    after, answers as if the merged tables had never been written: with a version
    from the older levels, which may be stale or deleted, or with "not found"; a
    reader that takes the list afterwards gets the newest version. *)
Theorem overlapping_read_misses_merged (w : world) (ss : SSTable) (hi lo : list SSTableMata) (ch cl : list (list entry))
    (level : Z) (key : bytes)
    (Htab : tables_ok ss (ch ++ cl)) (Hm : mata ss = hi ++ lo) (Hlo : GetLevelFiles ss level = lo) (Hlen : length hi = length ch)
    (Hne : lo <> []) (Hmax : MaxCompactionSize <= zlen lo) (Hw : world_ok w) (Hio : io w = IOFine)
    (Hfresh : mergedName (now w) ∉ Filepath <$> mata ss)
    (Hfits : forall out, sorted out -> out <> [] -> (forall k, find k out = newest_find k cl) -> writable w out) :
  exists ss', compact_level w ss level = Some ss' /\
    (exists ss2, read_listed ss' (GetAllMata ss) key = Some (ss2, newest_find key ch)) /\
    (exists ss2, read_listed ss' (GetAllMata ss') key = Some (ss2, newest_find key (ch ++ cl))).
Proof.
  destruct (compact_level_spec w ss hi lo ch cl level Htab Hm Hlo Hlen Hne Hmax Hw Hio Hfresh Hfits)
    as (ss' & meta & out & Hrun & Htab' & Hm' & _ & _ & Hout & Hid & ss1 & Hdrop).
  exists ss'. split; [done|]. unfold read_listed. pose proof (listed_mata _ _ Htab') as Hlist. split.
  - pose proof Htab as [T1 T2 T3 T4]. rewrite Hm in T1. apply Forall2_app_inv in T1 as [_ Tlo]; [|done].
    pose proof (tk_metas _ _ Htab') as Thi. rewrite Hm' in Thi, Hlist. apply Forall2_app_inv in Thi as [Thi _]; [|done].
    apply Forall_app in Hlist as [Hlist _]. unfold GetAllMata. rewrite Hm, reverse_app, <- first_find_reverse.
    destruct (visit_gone ss' (reverse lo) (reverse hi) key) as (ss2 & -> & Hr).
    + apply Forall_reverse. rewrite Forall_forall. intros a Ha. split.
      * rewrite Hdrop. apply drop_files_gone. right. by apply (list_elem_of_fmap_2 Filepath).
      * apply list_elem_of_lookup_1 in Ha as [i Ha]. destruct (Forall2_lookup_l _ _ _ _ _ Tlo Ha) as (es & _ & _ & Hload & _). done.
    + apply Forall_reverse. rewrite Forall_forall. intros a Ha x Hx Hxa. exfalso. rewrite Hm' in Hx. apply elem_of_app in Hx as [Hx|Hx].
      * rewrite Hm, fmap_app in T3. apply NoDup_app in T3 as (_ & Hdis & _).
        apply (Hdis (ident x)); [by apply (list_elem_of_fmap_2 ident)|]. rewrite Hxa. by apply (list_elem_of_fmap_2 ident).
      * apply list_elem_of_singleton in Hx as ->. specialize (T4 a). rewrite Hm, elem_of_app in T4. specialize (T4 ltac:(by right)). lia.
    + destruct (visit_spec ss2 (reverse hi) (reverse ch) key) as (ss3 & -> & _); [| |by eexists].
      * apply Forall2_reverse. eapply Forall2_impl; [exact Thi|]. intros a es (? & ? & ?). split_and!; [by apply Hr|done..].
      * apply Forall_reverse. eapply Forall_impl; [exact Hlist|]. intros a. by apply listed_reads.
  - destruct (visit_tables ss' _ key Htab') as (ss2 & -> & _). exists ss2. rewrite !newest_find_app, <- Hout. cbn.
    by destruct (find key out).
Qed.

End Overlap.

(** ** The list that is loaded late

    [NewMemTable] starts a third goroutine, which reads the directory and then
    replaces the list by what it found; the relation above begins when it is done. *)
Section Late.
Context `{BloomMathLaws} `{StorageConfig} {T : Type} `{OrderedTableLaws T}.

(** [LoadSSTableMetaList] with the directory as it was when it was read. *)
Definition install_list (found : gmap bytes bytes) (ss : SSTable) : SSTable :=
  let metas := merge_sort path_le (omap load_meta (map_to_list found)) in
  let metas := imap (fun i m => mkMeta (next_ident ss + i) (Level m) (Filepath m) (MinKey m) (MaxKey m)
                                  (SSTable.Size m) (ensured m) (MaxKeyLoaded m)) metas in
  let ss := mkSS metas (indexCache ss) (bloomCache ss) (files ss) (next_ident ss + length metas) in
  foldl (fun ss m => (getBloom (getBlockIndex ss (Filepath m)).1 (Filepath m)).1) ss metas.

Lemma install_list_load ss : install_list (files ss) ss = LoadSSTableMetaList ss.
Proof. reflexivity. Qed.

(** A new store that flushes before the goroutine is done loses sight of what it
    flushed: the empty list replaces the one with the new table. *)
Lemma late_list_hides_flush (m : MemTable T) v key :
  view_ok m v -> find key (v_active v) = None -> find key (v_dirty v) = None ->
  exists m', Get (set_sst m (install_list ∅ (sst m))) key = Some (m', Error (Err "Key not found")).
Proof.
  intros [(t & Ha & Ht) Hd _] Hka Hkd. unfold install_list. rewrite map_to_list_empty. cbn.
  unfold Get. cbn [set_sst active sst dirty]. rewrite Ha, (law_search t _ key Ht), Hka. cbn [mbind option_bind].
  assert (search_dirty (set_sst m (mkSS [] (indexCache (sst m)) (bloomCache (sst m)) (files (sst m)) (next_ident (sst m) + 0))) key = Some None) as E.
  { unfold search_dirty. cbn [set_sst dirty]. destruct (dirty m) as [td|]; [|done]. by rewrite (law_search td _ key Hd), Hkd. }
  unfold set_sst in E |- *. rewrite E. cbn. by eexists.
Qed.

End Late.

(** ** Samples: a write, its flush, a compaction and the end of both workers *)
Section Sample.
#[local] Existing Instances sample_math sample_math_laws sample_list sample_list_laws.
#[local] Instance eager_storage : StorageConfig := {
  MaxMemTableSize := 0; MemTableMaxInflightBytes := 10; MaxCompactionSize := 1 }.

(** The goroutines of [MemSystem.v] at work before [Close]. *)
Lemma work bound (s s' : system SkipList.table) :
  rtc (step bound) s s' -> rtc (life_step bound) (mkLife s false true true) (mkLife s' false true true).
Proof. induction 1 as [|s s1 s2 Hs _ IH]; [apply rtc_refl|]. eapply rtc_l; [|exact IH]. by apply (l_flush_worker bound (mkLife s false true true)). Qed.

(** The write is in a table on disk and nowhere else. *)
Lemma sample_flushed :
  exists m, lives 8 ∅ (mkLife (mkSystem m Idle [] [sample_write]) false true true) /\
    Filepath <$> mata (sst m) = [sstName 5] /\ tables_ok (sst m) [[sample_write]] /\ dirty m = None.
Proof.
  assert (exists m t, reachable 8 ∅ (mkSystem m (Writing t) [] [sample_write]) /\ dirty m = Some t /\
    t_collect t = Some [sample_write] /\ sst m = NewSSTable ∅) as (m & t & Hr & Hd & Ht & Hss).
  { eexists _, _. split.
    - eapply rtc_l; [eapply (step_begin 8 _ _ true _ _ _ sample_write); [vm_compute; discriminate|vm_compute; reflexivity]|].
      eapply rtc_l; [eapply (step_commit 8 _ _ _ [] sample_write [] _ []); vm_compute; reflexivity|].
      eapply rtc_l; [eapply (step_leave 8 _ _ _ []); vm_compute; reflexivity|].
      eapply rtc_l; [eapply (step_flush_begin 8); [reflexivity|vm_compute; reflexivity]|]. apply rtc_refl.
    - split; [reflexivity|]. split; reflexivity. }
  assert (fresh_write (sample_world 5) (sst m) [sample_write]) as Hfresh by (by apply sample_fresh; rewrite Hss).
  destruct (@WriteToSSTable_spec sample_math sample_math_laws (sample_world 5) (sst m) [sample_write] sample_write sample_write)
    as (ss & size & Hrun & Hm & Hn & Hh & Hk & _); [apply Hfresh|apply Hfresh|reflexivity..|].
  assert (flush_write (sample_world 5) m t = Some (set_sst m ss, true)) as Hw by (unfold flush_write; rewrite Ht; cbn [mbind option_bind]; by rewrite Hrun).
  exists (MemTable.release (flush_end (set_sst m ss) t).1 (flush_end (set_sst m ss) t).2). split_and!.
  - apply work. etransitivity; [exact Hr|].
    eapply rtc_l; [eapply (step_flush_write 8 (sample_world 5)); [exact Ht|exact Hfresh|exact Hw]|].
    eapply rtc_l; [eapply step_flush_end; reflexivity|]. eapply rtc_l; [eapply step_flush_free|]. apply rtc_refl.
  - cbn. by rewrite Hm, Hss.
  - change (tables_ok ss ([] ++ [[sample_write]])). eapply tables_ok_snoc; [|exact Hm|exact Hn|done|apply Hfresh| |exact Hk].
    + rewrite Hss. apply (vo_tables _ _ (new_view (T := SkipList.table) ∅)).
    + split_and!; [exact Hh|done|]. exists sample_write, sample_write. split; [reflexivity|]. split; [reflexivity|]. split; reflexivity.
  - done.
Qed.

(** Two lists of tables that fit the same files are the same. *)
Lemma holds_det ss p es es' : holds ss p es -> holds ss p es' -> es = es'.
Proof. intros (blob & Hf & Hp & _) (blob' & Hf' & Hp' & _). eapply table_file_inj_find; [exact Hf|exact Hf'|congruence]. Qed.

Lemma tables_det ss tables tables' : tables_ok ss tables -> tables_ok ss tables' -> tables = tables'.
Proof.
  intros [Ha _ _ _] [Hb _ _ _]. revert tables' Hb. induction Ha as [|m es metas tables (Hm & _) _ IH]; intros tables' Hb; inversion Hb; subst; [done|].
  f_equal; [|by apply IH]. match goal with E : meta_ok _ m _ |- _ => destruct E as (Hm' & _) end. by eapply holds_det.
Qed.

Lemma sample_pass_fits ss :
  Filepath <$> mata ss = [sstName 5] -> tables_ok ss [[sample_write]] -> pass_fits (fun l => sample_world (3 + l)) ss.
Proof.
  intros Hp Ht tables Ht'. rewrite (tables_det _ _ _ Ht' Ht). split.
  - intros l _. apply sample_world_ok.
  - done.
  - intros l _. rewrite Hp. intros E%list_elem_of_singleton. apply (f_equal (fun p => nth_error p 8)) in E; lazy in E; discriminate E.
  - apply sample_names.
  - intros l j out _ Hs Hne Hf. destruct j as [|j]; cbn [drop] in Hf.
    + rewrite (find_ext out [sample_write]); [writable_tac|exact Hs|sorted_tac|]. intros k. by rewrite Hf.
    + exfalso. apply Hne. apply find_ext; [exact Hs|constructor|]. intros k. rewrite Hf. by rewrite drop_nil.
Qed.

(** Compacted, closed, and both workers gone: [MaxCompactionSize] is 1, so the
    table moves through all levels. *)
Lemma sample_closed_life :
  exists l, lives 8 ∅ l /\ log (sys l) = [sample_write] /\ closed l = true /\ flush_alive l = false /\ compact_alive l = false /\
    dirty (mt (sys l)) = None.
Proof.
  destruct sample_flushed as (m & Hl & Hp & Ht & Hd). pose proof (lives_ok 8 ∅ _ Hl) as [(v & Hv) _ Hord _].
  pose proof (i_view _ _ _ Hv) as Hview. cbn [sys mt] in *.
  set (m1 := clear_compactCh (StartCompact m)).
  assert (view_ok m1 v) as Hview1 by (by apply (view_ok_same m)).
  destruct (CompactSSTable_spec (fun l => sample_world (3 + l)) m1 v Hview1 Hord) as (ss & tables & Hrun & _).
  { rewrite (tables_det _ _ _ (vo_tables _ _ Hview) Ht). by apply sample_pass_fits. }
  exists (mkLife (mkSystem (set_sst m1 ss) Idle [] [sample_write]) true false false). split; [|by split_and!].
  unfold lives. etransitivity; [exact Hl|].
  eapply rtc_l; [apply l_request|]. eapply rtc_l.
  { eapply (l_compact 8 _ (fun l => sample_world (3 + l))); [reflexivity|reflexivity| |exact Hrun]. by apply sample_pass_fits. }
  eapply rtc_l; [by apply l_close|]. eapply rtc_l; [by apply l_flush_exit|]. eapply rtc_l; [by apply l_compact_exit|]. apply rtc_refl.
Qed.

Lemma reads_return_last_write_witness :
  exists l m', lives 8 ∅ l /\ closed l = true /\ dirty (mt (sys l)) = None /\
    Get (mt (sys l)) sample_key = Some (m', Ok (of_string "v")).
Proof.
  destruct sample_closed_life as (l & Hl & Hlog & Hc & _ & _ & Hd).
  destruct (reads_return_last_write 8 ∅ l sample_key Hl) as [m' Hm']. exists l, m'.
  split; [exact Hl|]. split; [exact Hc|]. split; [exact Hd|]. rewrite Hm', Hlog. reflexivity.
Defined.

(** The sample tables of [Compaction.v]: the key "d" is in the newer one. *)
Lemma overlapping_read_misses_merged_witness :
  exists ss ss' ss2 ss3, tables_ok ss [sample_table; sample_newer] /\ compact_level (sample_world 3) ss 0 = Some ss' /\
    read_listed ss' (GetAllMata ss) (of_string "d") = Some (ss2, None) /\
    read_listed ss' (GetAllMata ss') (of_string "d") = Some (ss3, Some (Some (of_string "z"))).
Proof.
  destruct sample_disk as (ss & m1 & m2 & Hm & Hp & Hl & Htab). rewrite Hm in Hl. cbn in Hl. injection Hl as Hl1 Hl2.
  destruct (overlapping_read_misses_merged (sample_world 3) ss [] [m1; m2] [] [sample_table; sample_newer] 0 (of_string "d") Htab Hm)
    as (ss' & Hrun & [ss2 Hold] & [ss3 Hnew]).
  - unfold GetLevelFiles. rewrite Hm, !filter_cons, !decide_True by done. reflexivity.
  - reflexivity.
  - discriminate.
  - vm_compute. discriminate.
  - apply sample_world_ok.
  - reflexivity.
  - rewrite Hp. intros [E|E%list_elem_of_singleton]%elem_of_cons; vm_compute in E; discriminate E.
  - intros out Hs _ Hf. rewrite (find_ext out sample_merged); [apply sample_merged_writable|exact Hs|sorted_tac|].
    intros k. rewrite Hf. symmetry. apply sample_merged_find.
  - exists ss, ss', ss2, ss3. split; [exact Htab|]. split; [exact Hrun|]. split; [exact Hold|exact Hnew].
Defined.

End Sample.

End MemLife.
