(* ===== verification/LockFree.v ===== *)
(** [MemTable.Get] drops the lock before it searches the skip list
    ([storage/zstorage/memtable.go]): the search as the reads of memory it is made
    of, and what a write between two of them does to it. *)
From S2P Require Import Prelude Bytes Credit SkipList Bloom SSTable MemTable.
Import Credits Partitioned SSTable MemTable SkipList.

Module LockFree.

(** ** The reads of [search] *)

(** Where the reader is; every turn of the loop reads [p.Next[i]] for the nil test,
    again for the comparison, and again to move, and [p.Next[0]] is read once more
    when the loops are done. *)
Inductive reader_at :=
  | RStart
  | RTest (p : ptr) (i : nat)
  | RCmp (p : ptr) (i : nat)
  | RMove (p : ptr) (i : nat)
  | RLast (p : ptr)
  | RKey (q : ptr)
  | RValue (q : ptr)
  | RDone (r : option (option bytes)).

(** On to the next level, or out of the loop. *)
Definition next_level (i : nat) (p : ptr) : reader_at := match i with O => RLast p | S j => RTest p j end.

(** One read of the list [t]; [None] is a panic, or the reader is done. *)
Definition rstep (t : table) (key : bytes) (s : reader_at) : option reader_at :=
  match s with
  | RStart => Some (next_level (level (sl t)) (head (sl t)))
  | RTest p i => q ← next (nodes t) p i; Some (match q with None => next_level i p | Some _ => RCmp p i end)
  | RCmp p i => q ← next (nodes t) p i; q ← q; n ← nodes t !! q; Some (if decide (blt (Key n) key) then RMove p i else next_level i p)
  | RMove p i => q ← next (nodes t) p i; q ← q; Some (RTest q i)
  | RLast p => q ← next (nodes t) p 0; Some (match q with None => RDone None | Some q => RKey q end)
  | RKey q => n ← nodes t !! q; Some (if decide (Key n = key) then RValue q else RDone None)
  | RValue q => n ← nodes t !! q; Some (RDone (Some (Value n)))
  | RDone _ => None
  end.

(** The reader while [t] stays as it is. *)
Definition reads (t : table) (key : bytes) : reader_at -> reader_at -> Prop := rtc (fun s s' => rstep t key s = Some s').

Lemma reads_once t key s s' s'' : rstep t key s = Some s' -> reads t key s' s'' -> reads t key s s''.
Proof. intros H1 H2. by eapply rtc_l. Qed.

Lemma reads_walk t key fuel i p p' :
  walk fuel (nodes t) key i p = Some p' -> reads t key (RTest p i) (next_level i p').
Proof.
  revert p. induction fuel as [|fuel IH]; intros p; [done|]. cbn [walk].
  destruct (next (nodes t) p i) as [[q|]|] eqn:Hn; cbn [mbind option_bind]; [| |done].
  2: { intros [= <-]. eapply reads_once; [cbn; by rewrite Hn|apply rtc_refl]. }
  destruct (nodes t !! q) as [n|] eqn:Hq; cbn [mbind option_bind]; [|done]. intros Hw.
  eapply reads_once; [cbn; by rewrite Hn|].
  destruct (decide (blt (Key n) key)) as [Hlt|Hge].
  - eapply reads_once; [cbn; rewrite Hn; cbn; rewrite Hq; cbn; by rewrite decide_True|].
    eapply reads_once; [cbn; by rewrite Hn|]. by apply IH.
  - injection Hw as <-. eapply reads_once; [cbn; rewrite Hn; cbn; rewrite Hq; cbn; by rewrite decide_False|]. apply rtc_refl.
Qed.

Lemma reads_descend t key lvl p update p' update' :
  descend lvl (nodes t) key p update = Some (p', update') -> reads t key (next_level lvl p) (RLast p').
Proof.
  revert p update. induction lvl as [|i IH]; intros p update; cbn [descend next_level]; [intros [= <- <-]; apply rtc_refl|].
  destruct (walk _ _ _ _ _) as [q|] eqn:Hw; [|done]. cbn [mbind option_bind]. intros Hd.
  etransitivity; [by eapply reads_walk|]. by eapply IH.
Qed.

(** A reader nobody disturbs finds what [search] finds. *)
Lemma reads_search t key r : search t key = Some r ->
  exists p, reads t key RStart (RLast p) /\ reads t key (RLast p) (RDone r).
Proof.
  unfold search. destruct (descend _ _ _ _ _) as [[p update]|] eqn:Hd; [|done]. cbn [mbind option_bind]. intros Hs. exists p. split.
  { eapply reads_once; [done|]. by eapply reads_descend. }
  destruct (next (nodes t) p 0) as [[q|]|] eqn:Hn; cbn [mbind option_bind] in Hs; [| |done].
  2: { injection Hs as <-. eapply reads_once; [cbn; by rewrite Hn|apply rtc_refl]. }
  eapply reads_once; [cbn; by rewrite Hn|]. destruct (nodes t !! q) as [n|] eqn:Hq; cbn [mbind option_bind] in Hs; [|done].
  injection Hs as <-. destruct (decide (Key n = key)) as [E|E].
  - eapply reads_once; [cbn; rewrite Hq; cbn; by rewrite decide_True|]. eapply reads_once; [cbn; by rewrite Hq|]. apply rtc_refl.
  - eapply reads_once; [cbn; rewrite Hq; cbn; by rewrite decide_False|]. apply rtc_refl.
Qed.

(** ** A write in between *)
Section Write.
Context (maxLevel : nat).

(** A new key goes behind the last smaller one. *)
Lemma insert_between t ps P Q key value coins :
  inv maxLevel t ps -> ps = P ++ Q -> cut (nodes t) key P Q -> (forall q, q ∈ Q -> key_of (nodes t) q <> key) ->
  exists t' d, insert maxLevel t key value coins = Some (t', d) /\ head (sl t') = head (sl t) /\
    inv maxLevel t' (P ++ length (nodes t) :: Q) /\ entry_of (nodes t') (length (nodes t)) = (key, value).
Proof.
  intros Hinv Hps Hcut Hne. unfold insert. rewrite (descend_top maxLevel t ps Hinv key P Q Hps Hcut). cbn [mbind option_bind].
  rewrite (next_zero maxLevel t ps Hinv P Q Hps). cbn [mbind option_bind]. fold (predecessors t P).
  assert ((match hd_error Q with
           | None => Some None
           | Some q => n ← nodes t !! q; Some (if decide (Key n = key) then Some (q, n) else None)
           end) = Some None) as ->.
  { destruct Q as [|q Q']; [done|]. cbn. destruct (inv_elem maxLevel t ps Hinv q) as [n Hn]; [rewrite Hps; apply elem_of_app; right; left|].
    rewrite Hn. cbn. rewrite decide_False; [done|]. specialize (Hne q ltac:(left)). unfold key_of in Hne. by rewrite Hn in Hne. }
  cbn [mbind option_bind].
  pose proof (randomLevel_bounds maxLevel coins ltac:(apply (i_max _ _ _ Hinv))) as Hnl.
  destruct (link_fresh maxLevel t ps P Q key value (randomLevel maxLevel coins)) as (h' & Hl & Hinv' & Hes); try done.
  rewrite Hl. cbn [mbind option_bind]. eexists _, _. split; [done|]. split; [done|]. split; [exact Hinv'|]. cbn [nodes].
  rewrite fmap_app, fmap_cons in Hes. apply app_inj_1 in Hes as [_ Hes]; [|by rewrite !length_fmap]. by injection Hes.
Qed.

Lemma pred_zero t ps P Q hd : inv maxLevel t ps -> ps = P ++ Q -> pred (nodes t) hd P 0 = default hd (last P).
Proof. intros Hinv Hps. unfold pred. by destruct (at_level_zero_ps maxLevel t ps Hinv P Q Hps) as [-> _]. Qed.

(** The reader has found its place and reads [Next[0]] once more; what was written
    just before the key is what it sees. *)
Lemma search_overtaken t es key k' x value coins :
  rep maxLevel t es -> find key es = Some x -> blt k' key -> (forall e, e ∈ es -> blt e.1 key -> blt e.1 k') ->
  exists t' d p, insert maxLevel t k' value coins = Some (t', d) /\
    reads t key RStart (RLast p) /\ reads t key (RLast p) (RDone (Some x)) /\ reads t' key (RLast p) (RDone None).
Proof.
  intros (ps & Hinv & ->) Hfind Hlt Hgap.
  destruct (sorted_cut (nodes t) key ps (i_sorted _ _ _ Hinv)) as (P & Q & Hps & HP & HQ).
  assert (cut (nodes t) k' P Q) as Hcut'.
  { split; intros p Hp.
    - rewrite <- entry_key. apply Hgap; [|rewrite entry_key; by apply HP]. rewrite Hps, fmap_app. apply elem_of_app. left. by apply list_elem_of_fmap_2.
    - intros Hb. apply (HQ p Hp). by etransitivity. }
  assert (forall q, q ∈ Q -> key_of (nodes t) q <> k') as Hne by (intros q Hq E; apply (HQ q Hq); by rewrite E).
  destruct (insert_between t ps P Q k' value coins Hinv Hps Hcut' Hne) as (t' & d & Hins & Hhd & Hinv' & Hnew).
  pose proof (search_spec maxLevel t ps key Hinv) as Hs. rewrite Hfind in Hs.
  set (p0 := pred (nodes t) (head (sl t)) P 0).
  assert (reads t key RStart (RLast p0)) as Hr0.
  { eapply reads_once; [done|]. eapply reads_descend, (descend_top maxLevel t ps Hinv key P Q Hps). by split. }
  assert (reads t key (RLast p0) (RDone (Some x))) as Hr3.
  { revert Hs. unfold search. rewrite (descend_top maxLevel t ps Hinv key P Q Hps) by (by split). fold p0. cbn [mbind option_bind].
    destruct (next (nodes t) p0 0) as [[q|]|] eqn:Hn; cbn [mbind option_bind]; [|done..].
    destruct (nodes t !! q) as [n|] eqn:Hq; cbn [mbind option_bind]; [|done]. destruct (decide (Key n = key)) as [E|]; [|done]. intros [= <-].
    eapply reads_once; [cbn; by rewrite Hn|]. eapply reads_once; [cbn; rewrite Hq; cbn; by rewrite decide_True|].
    eapply reads_once; [cbn; by rewrite Hq|]. apply rtc_refl. }
  exists t', d, p0. split; [done|]. split; [done|]. split; [done|].
  assert (next (nodes t') p0 0 = Some (Some (length (nodes t)))) as Hn.
  { pose proof (next_zero maxLevel t' _ Hinv' P (length (nodes t) :: Q) eq_refl) as Hn. cbn [hd_error] in Hn.
    unfold p0. rewrite (pred_zero t ps P Q _ Hinv Hps). by rewrite (pred_zero t' _ P _ _ Hinv' eq_refl), Hhd in Hn. }
  destruct (inv_elem maxLevel t' _ Hinv' (length (nodes t))) as [n Hnn]; [apply elem_of_app; right; left|].
  rewrite (entry_at _ _ _ Hnn) in Hnew. injection Hnew as Hk _.
  eapply reads_once; [cbn; by rewrite Hn|]. eapply reads_once; [cbn; rewrite Hnn; cbn; rewrite decide_False; [done|]|apply rtc_refl].
  rewrite Hk. intros ->. by apply blt_irrefl in Hlt.
Qed.

End Write.

(** ** [Get] around the search *)
Section Get.
Context `{BloomMath} `{StorageConfig} {T : Type} `{OrderedTable T}.

(** [Get] once the search of the active table has answered [a]. *)
Definition get_rest (m : MemTable T) (key : bytes) (a : option (option bytes)) : option (MemTable T * result bytes) :=
  match a with
  | Some v => Some (m, visible v)
  | None =>
      d ← search_dirty m key;
      match d with
      | Some v => Some (m, visible v)
      | None =>
          '(m, r) ← getFromSSTables m key;
          Some (m, match r with Some v => visible v | None => Error (Err "Key not found") end)
      end
  end.

Lemma Get_rest m key t : active m = Some t -> Get m key = (a ← t_search t key; get_rest m key a).
Proof. unfold Get. by intros ->. Qed.

End Get.

Lemma get_rest_missed `{BloomMathLaws} `{StorageConfig} {T : Type} `{OrderedTableLaws T} (m : MemTable T) v key :
  view_ok m v -> exists m', get_rest m key None = Some (m', answer (lookup (mkView [] (v_dirty v) (v_tables v)) key)).
Proof.
  intros [(t & Ha & _) Hd Ht]. destruct (Get_spec (set_active m (Some t_new)) (mkView [] (v_dirty v) (v_tables v)) key) as (m' & Hg & _).
  { split; [exists t_new; split; [done|apply law_new]|done|done]. }
  rewrite (Get_rest (set_active m (Some t_new)) key t_new eq_refl), (law_search _ [] key law_new) in Hg. cbn [find mbind option_bind] in Hg.
  revert Hg. unfold get_rest, search_dirty, getFromSSTables. cbn [set_active dirty sst].
  destruct (dirty m) as [td|]; cbn [mbind option_bind].
  - destruct (t_search td key) as [[x|]|]; cbn [mbind option_bind]; [intros [= _ <-]; by eexists| |done].
    destruct (visit _ _ _) as [[ss r]|]; cbn [mbind option_bind]; [intros [= _ <-]; by eexists|done].
  - destruct (visit _ _ _) as [[ss r]|]; cbn [mbind option_bind]; [intros [= _ <-]; by eexists|done].
Qed.

Section Race.
Context `{BloomMathLaws} `{StorageConfig} (maxLevel : nat).

#[local] Instance list_of_levels : OrderedTable SkipList.table := SkipList.skip_list maxLevel.

(** C12: a read that overlaps a write loses a key nobody touched: [Get] leaves the
    lock before it searches the active table, and [search] reads [Next[0]] a last
    time after its loops; when another key is inserted right before the key in
    between, the reader that had found its place sees the new node, and answers with
    what the dirty table and the tables on disk have, an older version of the key, a
    version since deleted or "Key not found", though reads before and after that
    write, and the same reader undisturbed, answer with its current version.  Each
    read of a word of the list is taken as one step, which is more than Go promises
    without the lock. *)
Theorem lock_free_read_loses_key (m : MemTable SkipList.table) (v : view) (key k' : bytes)
    (x value : option bytes) (coins : list bool) (Hlevel : (0 < maxLevel)%nat) (Hview : view_ok m v)
    (Hfound : find key (v_active v) = Some x) (Hbefore : blt k' key)
    (Hright : forall e, e ∈ v_active v -> blt e.1 key -> blt e.1 k') :
  exists t t' m' delta p, active m = Some t /\ active m' = Some t' /\
    write_locked m k' value coins = Some (m', Ok delta) /\
    (exists n, Get m key = Some (n, visible x)) /\ (exists n, Get m' key = Some (n, visible x)) /\
    reads t key RStart (RLast p) /\
    reads t key (RLast p) (RDone (Some x)) /\ (exists n, get_rest m key (Some x) = Some (n, visible x)) /\
    reads t' key (RLast p) (RDone None) /\
    (exists n, get_rest m' key None = Some (n, answer (lookup (mkView [] (v_dirty v) (v_tables v)) key))).
Proof.
  pose proof (skip_list_laws maxLevel Hlevel) as Hlaws. pose proof (vo_active _ _ Hview) as (t & Ha & Ht).
  destruct (search_overtaken maxLevel t (v_active v) key k' x value coins Ht Hfound Hbefore Hright) as (t' & d & p & Hins & Hr1 & Hr2 & Hr3).
  destruct (write_locked_spec m v k' value coins Hview) as (m' & Hrun & Hview' & _).
  assert (active m' = Some t') as Ha'.
  { revert Hrun. unfold write_locked. rewrite Ha. cbn [t_insert list_of_levels skip_list]. rewrite Hins. cbn [mbind option_bind].
    intros [= <- _]. by destruct (MaxMemTableSize <? _). }
  exists t, t', m'. eexists _, p. split_and!; try done.
  - destruct (Get_spec m v key Hview) as (n & -> & _). exists n. by rewrite lookup_layers, Hfound.
  - destruct (Get_spec m' _ key Hview') as (n & -> & _). exists n. rewrite lookup_layers. cbn [v_active].
    rewrite find_put, decide_False, Hfound; [done|intros ->; by apply blt_irrefl in Hbefore|].
    by eapply view_sorted.
  - by eexists.
  - destruct (get_rest_missed m' _ key Hview') as (n & ->). by exists n.
Qed.

End Race.

(** ** Samples *)
Section Sample.
#[local] Existing Instances sample_math sample_math_laws.
#[local] Instance sample_storage : StorageConfig := {
  MaxMemTableSize := 10; MemTableMaxInflightBytes := 100; MaxCompactionSize := 4 }.
#[local] Instance three_levels : OrderedTable SkipList.table := SkipList.skip_list 3.

(** "b" is in the table; while "a" is written a reader of "b" is told that there is
    none. *)
Lemma lock_free_read_loses_key_witness :
  exists (m m' : MemTable SkipList.table) t p delta n, active m' = Some t /\
    write_locked m (of_string "a") (Some (of_string "1")) [] = Some (m', Ok delta) /\
    reads t (of_string "b") (RLast p) (RDone None) /\
    get_rest m' (of_string "b") None = Some (n, Error (Err "Key not found")).
Proof.
  assert (exists m : MemTable SkipList.table, view_ok m (mkView [(of_string "b", Some (of_string "2"))] [] [])) as [m Hm].
  { pose proof (skip_list_laws 3 ltac:(lia)) as Hlaws.
    destruct (write_locked_spec (NewMemTable ∅) _ (of_string "b") (Some (of_string "2")) [] (new_view (T := SkipList.table) ∅)) as (m & _ & Hm & _).
    by exists m. }
  destruct (lock_free_read_loses_key 3 m _ (of_string "b") (of_string "a") (Some (of_string "2")) (Some (of_string "1")) []
              ltac:(lia) Hm eq_refl) as (t & t' & m' & d & p & _ & Ha & Hw & _ & _ & _ & _ & _ & Hr & n & Hn).
  - reflexivity.
  - intros e [->|[]%elem_of_nil]%elem_of_cons. intros Hb. by apply blt_irrefl in Hb.
  - exists m, m', t', p, d, n. split_and!; done.
Defined.

End Sample.
End LockFree.
