(* ===== verification/Json.v ===== *)
(** The parts of Go's [encoding/json], [encoding/base64] and [unicode/utf8] the
    program uses: the syntax check [Unmarshal] runs first, the members of an
    object as raw text, string literals and their escapes, the encoders of
    strings and byte slices, and [Compact] with HTML escaping. *)
From S2P Require Import Prelude Bytes Strconv.

(** ** Characters *)

Definition between (lo hi c : Z) : bool := (lo <=? c) && (c <=? hi).
Lemma between_spec lo hi c : BoolSpec (lo <= c <= hi) (~ lo <= c <= hi) (between lo hi c).
Proof. unfold between. destruct (Z.leb_spec lo c), (Z.leb_spec c hi); constructor; lia. Qed.
Definition is_digit (b : byte) : bool := between 48 57 (bval b).
Definition hex_value (b : byte) : option Z :=
  let c := bval b in
  if between 48 57 c then Some (c - 48) else
  if between 97 102 c then Some (c - 87) else
  if between 65 70 c then Some (c - 55) else None.
Definition is_hex (b : byte) : bool := if hex_value b is Some _ then true else false.
Definition quote : byte := byte_of 34.
Definition backslash : byte := byte_of 92.

(** ** [unicode/utf8] *)
Module Utf8.

Definition RuneError : Z := 65533.

Definition cont (b : byte) : bool := between 128 191 (bval b).

(** The range the second byte must be in, and the number of bytes. *)
Definition first_byte (c : Z) : option (Z * Z * nat) :=
  if between 194 223 c then Some (128, 191, 2%nat) else
  if c =? 224 then Some (160, 191, 3%nat) else
  if c =? 237 then Some (128, 159, 3%nat) else
  if between 225 239 c then Some (128, 191, 3%nat) else
  if c =? 240 then Some (144, 191, 4%nat) else
  if between 241 243 c then Some (128, 191, 4%nat) else
  if c =? 244 then Some (128, 143, 4%nat) else None.

(** [DecodeRune] of a non-empty string: the rune and its width; an encoding
    error is [RuneError] of width 1. *)
Definition DecodeRune (s : bytes) : Z * nat :=
  match s with
  | [] => (RuneError, 0%nat)
  | b0 :: t =>
      let c := bval b0 in
      if c <? 128 then (c, 1%nat) else
      match first_byte c, t with
      | Some (lo, hi, n), b1 :: t =>
          if negb (between lo hi (bval b1)) then (RuneError, 1%nat) else
          match n, t with
          | 2%nat, _ => (c mod 32 * 64 + bval b1 mod 64, 2%nat)
          | 3%nat, b2 :: _ =>
              if cont b2 then (c mod 16 * 4096 + bval b1 mod 64 * 64 + bval b2 mod 64, 3%nat)
              else (RuneError, 1%nat)
          | 4%nat, b2 :: b3 :: _ =>
              if cont b2 && cont b3 then
                (c mod 8 * 262144 + bval b1 mod 64 * 4096 + bval b2 mod 64 * 64 + bval b3 mod 64, 4%nat)
              else (RuneError, 1%nat)
          | _, _ => (RuneError, 1%nat)
          end
      | _, _ => (RuneError, 1%nat)
      end
  end.

Definition surrogate (r : Z) : bool := between 55296 57343 r.

(** [AppendRune]: runes that are none become [RuneError]. *)
Definition EncodeRune (r : Z) : bytes :=
  let r := if (r <? 0) || (1114111 <? r) || surrogate r then RuneError else r in
  if r <? 128 then [byte_of r] else
  if r <? 2048 then [byte_of (192 + r / 64); byte_of (128 + r mod 64)] else
  if r <? 65536 then [byte_of (224 + r / 4096); byte_of (128 + r / 64 mod 64); byte_of (128 + r mod 64)] else
  [byte_of (240 + r / 262144); byte_of (128 + r / 4096 mod 64); byte_of (128 + r / 64 mod 64); byte_of (128 + r mod 64)].

End Utf8.

(** ** [encoding/base64], [StdEncoding] *)
Module Base64.

Definition alphabet : bytes :=
  of_string "ABCDEFGHIJKLMNOPQRSTUVWXYZabcdefghijklmnopqrstuvwxyz0123456789+/".
Definition pad : byte := byte_of 61.

Definition sextet (z : Z) : byte := default pad (alphabet !! Z.to_nat z).

Fixpoint EncodeToString (s : bytes) : bytes :=
  match s with
  | [] => []
  | [a] => [sextet (bval a / 4); sextet (bval a mod 4 * 16); pad; pad]
  | [a; b] => [sextet (bval a / 4); sextet (bval a mod 4 * 16 + bval b / 16); sextet (bval b mod 16 * 4); pad]
  | a :: b :: c :: s' =>
      sextet (bval a / 4) :: sextet (bval a mod 4 * 16 + bval b / 16) ::
      sextet (bval b mod 16 * 4 + bval c / 64) :: sextet (bval c mod 64) :: EncodeToString s'
  end.

Definition value_of (b : byte) : option Z :=
  let c := bval b in
  if between 65 90 c then Some (c - 65) else
  if between 97 122 c then Some (c - 71) else
  if between 48 57 c then Some (c + 4) else
  if c =? 43 then Some 62 else if c =? 47 then Some 63 else None.

Definition newline (b : byte) : bool := (bval b =? 10) || (bval b =? 13).

(** Groups of four characters; padding only in the last one. *)
Fixpoint decode_groups (s : bytes) : option bytes :=
  match s with
  | [] => Some []
  | a :: b :: c :: d :: s' =>
      x ← value_of a;
      y ← value_of b;
      match value_of c, value_of d with
      | Some z, Some w =>
          rest ← decode_groups s';
          Some (byte_of (x * 4 + y / 16) :: byte_of (y mod 16 * 16 + z / 4) :: byte_of (z mod 4 * 64 + w) :: rest)
      | Some z, None =>
          if bool_decide (d = pad) && bool_decide (s' = [])
          then Some [byte_of (x * 4 + y / 16); byte_of (y mod 16 * 16 + z / 4)] else None
      | None, _ =>
          if bool_decide (c = pad) && bool_decide (d = pad) && bool_decide (s' = [])
          then Some [byte_of (x * 4 + y / 16)] else None
      end
  | _ => None
  end.

(** Line breaks are skipped wherever they are. *)
Definition DecodeString (s : bytes) : option bytes := decode_groups (filter (fun b => newline b = false) s).


Lemma value_of_sextet z : 0 <= z < 64 -> value_of (sextet z) = Some z /\ newline (sextet z) = false.
Proof.
  intros Hz. rewrite <- (Z2Nat.id z) by lia. assert (Z.to_nat z < 64)%nat as Hn by lia.
  revert Hn. generalize (Z.to_nat z).
  assert (Forall (fun n => value_of (sextet (Z.of_nat n)) = Some (Z.of_nat n) /\ newline (sextet (Z.of_nat n)) = false)
            (seq 0 64)) as H by (repeat constructor).
  intros n Hn. rewrite Forall_seq in H. apply H. lia.
Qed.

(** The bits of three bytes, regrouped and put together again. *)
Lemma regroup1 a : 0 <= a < 256 -> a / 4 * 4 + a mod 4 * 16 / 16 = a.
Proof. intros. rewrite Z.div_mul by lia. rewrite (Z.div_mod a 4) at 3 by lia. lia. Qed.
Lemma regroup2 a b : 0 <= b < 256 ->
  (a mod 4 * 16 + b / 16) / 16 = a mod 4 /\ (a mod 4 * 16 + b / 16) mod 16 = b / 16.
Proof.
  intros Hb. assert (0 <= b / 16 < 16) by (split; [apply Z.div_pos; lia|apply Z.div_lt_upper_bound; lia]).
  rewrite Z.add_comm, Z_div_plus_full, Z_mod_plus_full, (Z.div_small (b / 16)), (Z.mod_small (b / 16)) by lia. lia.
Qed.
Lemma regroup3 b c : 0 <= c < 256 ->
  (b mod 16 * 4 + c / 64) / 4 = b mod 16 /\ (b mod 16 * 4 + c / 64) mod 4 = c / 64.
Proof.
  intros Hc. assert (0 <= c / 64 < 4) by (split; [apply Z.div_pos; lia|apply Z.div_lt_upper_bound; lia]).
  rewrite Z.add_comm, Z_div_plus_full, Z_mod_plus_full, (Z.div_small (c / 64)), (Z.mod_small (c / 64)) by lia. lia.
Qed.

Lemma sextets_range a b :
  0 <= a < 256 -> 0 <= b < 256 ->
  0 <= a / 4 < 64 /\ 0 <= a mod 4 * 16 + b / 16 < 64 /\ 0 <= a mod 16 * 4 + b / 64 < 64 /\
  0 <= b mod 64 < 64 /\ 0 <= a mod 4 * 16 < 64 /\ 0 <= a mod 16 * 4 < 64.
Proof.
  intros Ha Hb. pose proof (Z.mod_pos_bound a 4). pose proof (Z.mod_pos_bound a 16).
  pose proof (Z.mod_pos_bound b 64).
  assert (0 <= a / 4 < 64) by (split; [apply Z.div_pos; lia|apply Z.div_lt_upper_bound; lia]).
  assert (0 <= b / 16 < 16) by (split; [apply Z.div_pos; lia|apply Z.div_lt_upper_bound; lia]).
  assert (0 <= b / 64 < 4) by (split; [apply Z.div_pos; lia|apply Z.div_lt_upper_bound; lia]). lia.
Qed.

Lemma decode_groups_encode s : decode_groups (EncodeToString s) = Some s.
Proof.
  revert s. fix IH 1. intros [|a [|b [|c s]]]; [done|..].
  - pose proof (bval_range a) as Ha. destruct (sextets_range _ _ Ha Ha) as (R1 & _ & _ & _ & R5 & _).
    cbn [EncodeToString decode_groups].
    rewrite (proj1 (value_of_sextet _ R1)), (proj1 (value_of_sextet _ R5)). simpl.
    by rewrite regroup1, byte_of_bval by done.
  - pose proof (bval_range a) as Ha. pose proof (bval_range b) as Hb.
    destruct (sextets_range _ _ Ha Hb) as (R1 & R2 & _). destruct (sextets_range _ _ Hb Hb) as (_ & _ & _ & _ & _ & R6).
    cbn [EncodeToString decode_groups].
    rewrite (proj1 (value_of_sextet _ R1)), (proj1 (value_of_sextet _ R2)), (proj1 (value_of_sextet _ R6)). simpl.
    destruct (regroup2 (bval a) (bval b) Hb) as [-> ->].
    rewrite <- (byte_of_bval a) at 3. rewrite <- (byte_of_bval b) at 3. do 2 f_equal; [|f_equal]; f_equal.
    + rewrite (Z.div_mod (bval a) 4) at 3 by lia. lia.
    + rewrite Z.div_mul by lia. rewrite (Z.div_mod (bval b) 16) at 3 by lia. lia.
  - pose proof (bval_range a) as Ha. pose proof (bval_range b) as Hb. pose proof (bval_range c) as Hc.
    destruct (sextets_range _ _ Ha Hb) as (R1 & R2 & _). destruct (sextets_range _ _ Hb Hc) as (_ & _ & R3 & R4 & _).
    cbn [EncodeToString decode_groups].
    rewrite (proj1 (value_of_sextet _ R1)), (proj1 (value_of_sextet _ R2)), (proj1 (value_of_sextet _ R3)),
      (proj1 (value_of_sextet _ R4)), IH. simpl.
    destruct (regroup2 (bval a) (bval b) Hb) as [-> ->]. destruct (regroup3 (bval b) (bval c) Hc) as [-> ->].
    rewrite <- (byte_of_bval a) at 3. rewrite <- (byte_of_bval b) at 3. rewrite <- (byte_of_bval c) at 3.
    do 2 f_equal; [|f_equal; [|f_equal]]; f_equal.
    + rewrite (Z.div_mod (bval a) 4) at 3 by lia. lia.
    + rewrite (Z.div_mod (bval b) 16) at 3 by lia. lia.
    + rewrite (Z.div_mod (bval c) 64) at 3 by lia. lia.
Qed.

(** The characters of an encoding: letters, digits, [+], [/] and the padding. *)
Definition base64_char (b : byte) : Prop := value_of b <> None \/ b = pad.

Lemma EncodeToString_chars s : Forall base64_char (EncodeToString s).
Proof.
  assert (forall z, 0 <= z < 64 -> base64_char (sextet z)) as Hs.
  { intros z Hz. left. by rewrite (proj1 (value_of_sextet z Hz)). }
  assert (base64_char pad) as Hp by (by right).
  revert s. fix IH 1. intros [|a [|b [|c s]]]; [by constructor|..]; cbn [EncodeToString].
  - pose proof (bval_range a) as Ha. destruct (sextets_range _ _ Ha Ha) as (? & ? & ? & ? & ? & ?).
    repeat (apply Forall_cons_2; [by auto|]); apply Forall_nil_2.
  - pose proof (bval_range a) as Ha. pose proof (bval_range b) as Hb.
    destruct (sextets_range _ _ Ha Hb) as (? & ? & _). destruct (sextets_range _ _ Hb Hb) as (_ & _ & _ & _ & _ & ?).
    repeat (apply Forall_cons_2; [by auto|]); apply Forall_nil_2.
  - pose proof (bval_range a) as Ha. pose proof (bval_range b) as Hb. pose proof (bval_range c) as Hc.
    destruct (sextets_range _ _ Ha Hb) as (? & ? & _). destruct (sextets_range _ _ Hb Hc) as (_ & _ & ? & ? & _).
    repeat (apply Forall_cons_2; [by auto|]). apply IH.
Qed.

Lemma base64_char_code b : base64_char b -> 43 <= bval b <= 122 /\ bval b <> 92 /\ bval b <> 60 /\ bval b <> 62.
Proof.
  intros [Hv| ->]; [|by vm_compute]. unfold value_of in Hv.
  destruct (between_spec 65 90 (bval b)), (between_spec 97 122 (bval b)), (between_spec 48 57 (bval b)),
    (Z.eqb_spec (bval b) 43), (Z.eqb_spec (bval b) 47); try done; lia.
Qed.

Lemma DecodeString_EncodeToString s : DecodeString (EncodeToString s) = Some s.
Proof.
  unfold DecodeString. rewrite filter_all; [apply decode_groups_encode|].
  pose proof (EncodeToString_chars s) as H. rewrite Forall_forall in H.
  intros b Hb%H%base64_char_code. unfold newline.
  destruct (Z.eqb_spec (bval b) 10), (Z.eqb_spec (bval b) 13); lia.
Qed.

End Base64.

(** ** [encoding/json] *)
Module Json.
Import Utf8.

Definition maxNestingDepth : Z := 10000.

Definition is_space (b : byte) : bool :=
  let c := bval b in (c =? 32) || (c =? 9) || (c =? 13) || (c =? 10).

Fixpoint skip_space (s : bytes) : bytes :=
  match s with
  | b :: s' => if is_space b then skip_space s' else s
  | [] => []
  end.

(** *** Scanning: what a value is, with its parts as text *)

Definition escapes : bytes := of_string "bfnrt/" ++ [backslash; quote].

(** From after the opening quote: the body as written, and what follows the
    closing quote. *)
Fixpoint scan_string (s : bytes) : option (bytes * bytes) :=
  match s with
  | [] => None
  | b :: s1 =>
      if bool_decide (b = quote) then Some ([], s1) else
      if bool_decide (b = backslash) then
        match s1 with
        | e :: s2 =>
            if bool_decide (e ∈ escapes) then '(body, r) ← scan_string s2; Some (b :: e :: body, r) else
            if bval e =? 117 then
              match s2 with
              | h1 :: h2 :: h3 :: h4 :: s3 =>
                  if is_hex h1 && is_hex h2 && is_hex h3 && is_hex h4 then
                    '(body, r) ← scan_string s3; Some (b :: e :: h1 :: h2 :: h3 :: h4 :: body, r)
                  else None
              | _ => None
              end
            else None
        | [] => None
        end
      else if bval b <? 32 then None
      else '(body, r) ← scan_string s1; Some (b :: body, r)
  end.

Fixpoint scan_digits (s : bytes) : bytes * bytes :=
  match s with
  | b :: s' => if is_digit b then let '(d, r) := scan_digits s' in (b :: d, r) else ([], s)
  | [] => ([], [])
  end.

(** At least one digit. *)
Definition scan_digits1 (s : bytes) : option (bytes * bytes) :=
  match scan_digits s with ([], _) => None | r => Some r end.

Definition scan_int (s : bytes) : option (bytes * bytes) :=
  match s with
  | b :: s' => if bval b =? 48 then Some ([b], s') else scan_digits1 s
  | [] => None
  end.

Definition scan_frac (s : bytes) : option (bytes * bytes) :=
  match s with
  | b :: s' => if bval b =? 46 then '(d, r) ← scan_digits1 s'; Some (b :: d, r) else Some ([], s)
  | [] => Some ([], [])
  end.

Definition scan_exp (s : bytes) : option (bytes * bytes) :=
  match s with
  | b :: s' =>
      if (bval b =? 101) || (bval b =? 69) then
        let '(sign, s') :=
          match s' with
          | c :: s'' => if (bval c =? 43) || (bval c =? 45) then ([c], s'') else ([], s')
          | [] => ([], [])
          end in
        '(d, r) ← scan_digits1 s'; Some (b :: sign ++ d, r)
      else Some ([], s)
  | [] => Some ([], [])
  end.

(** A number literal and what follows it. *)
Definition scan_number (s : bytes) : option (bytes * bytes) :=
  let '(sign, s) :=
    match s with b :: s' => if bval b =? 45 then ([b], s') else ([], s) | [] => ([], []) end in
  '(i, s) ← scan_int s;
  '(f, s) ← scan_frac s;
  '(e, s) ← scan_exp s;
  Some (sign ++ i ++ f ++ e, s).

(** A string is the text between its quotes; a member is the text of its name
    and the text of its value. *)
Inductive value :=
  | Null
  | Bool (b : bool)
  | Num (text : bytes)
  | Str (body : bytes)
  | Arr (elems : list bytes)
  | Obj (members : list (bytes * bytes)).

(** The text of [s] before its suffix [r]. *)
Definition upto (s r : bytes) : bytes := take (length s - length r) s.

Definition scan_word (w : bytes) (v : value) (s : bytes) : option (value * bytes) :=
  if bool_decide (take (length w) s = w) then Some (v, drop (length w) s) else None.

(** [s] starts at the value, after the opening bracket's first element, or at a
    member's name.  Two calls consume at least a byte, so twice the bytes are enough
    fuel ([scan_fuel]). *)
Fixpoint scan_value (fuel : nat) (depth : Z) (s : bytes) : option (value * bytes) :=
  match fuel, s with
  | S fuel, b :: s' =>
      let c := bval b in
      if c =? 34 then '(body, r) ← scan_string s'; Some (Str body, r) else
      if c =? 123 then
        if depth <=? 0 then None else
        match skip_space s' with
        | q :: r => if bval q =? 125 then Some (Obj [], r) else
                      '(ms, r) ← scan_members fuel (depth - 1) (q :: r); Some (Obj ms, r)
        | [] => None
        end
      else if c =? 91 then
        if depth <=? 0 then None else
        match skip_space s' with
        | q :: r => if bval q =? 93 then Some (Arr [], r) else
                      '(es, r) ← scan_elems fuel (depth - 1) (q :: r); Some (Arr es, r)
        | [] => None
        end
      else if c =? 110 then scan_word (of_string "null") Null s
      else if c =? 116 then scan_word (of_string "true") (Bool true) s
      else if c =? 102 then scan_word (of_string "false") (Bool false) s
      else '(t, r) ← scan_number s; Some (Num t, r)
  | _, _ => None
  end
with scan_elems (fuel : nat) (depth : Z) (s : bytes) : option (list bytes * bytes) :=
  match fuel with
  | O => None
  | S fuel =>
      '(_, r) ← scan_value fuel depth s;
      match skip_space r with
      | q :: r' =>
          if bval q =? 93 then Some ([upto s r], r') else
          if bval q =? 44 then '(es, r'') ← scan_elems fuel depth (skip_space r'); Some (upto s r :: es, r'')
          else None
      | [] => None
      end
  end
with scan_members (fuel : nat) (depth : Z) (s : bytes) : option (list (bytes * bytes) * bytes) :=
  match fuel, s with
  | S fuel, b :: s' =>
      if negb (bval b =? 34) then None else
      '(name, r) ← scan_string s';
      match skip_space r with
      | q :: r =>
          if negb (bval q =? 58) then None else
          let s := skip_space r in
          '(_, r) ← scan_value fuel depth s;
          match skip_space r with
          | q :: r' =>
              if bval q =? 125 then Some ([(name, upto s r)], r') else
              if bval q =? 44 then
                '(ms, r'') ← scan_members fuel depth (skip_space r'); Some ((name, upto s r) :: ms, r'')
              else None
          | [] => None
          end
      | [] => None
      end
  | _, _ => None
  end.

(** The whole input is one value between spaces; [None] is the syntax error. *)
Definition parse (data : bytes) : option value :=
  '(v, r) ← scan_value (S (2 * length data)) maxNestingDepth (skip_space data);
  match skip_space r with [] => Some v | _ => None end.

(** *** String literals *)

Definition getu4 (s : bytes) : option (Z * bytes) :=
  match s with
  | a :: b :: c :: d :: s' =>
      a ← hex_value a; b ← hex_value b; c ← hex_value c; d ← hex_value d;
      Some (a * 4096 + b * 256 + c * 16 + d, s')
  | _ => None
  end.

(** [getu4] of the second half of a surrogate pair: a backslash and a [u] first. *)
Definition low_half (s : bytes) : option (Z * bytes) :=
  match s with
  | b :: u :: s' => if bool_decide (b = backslash) && (bval u =? 117) then getu4 s' else None
  | _ => None
  end.

Definition unescape (e : byte) : option byte :=
  let c := bval e in
  if c =? 98 then Some (byte_of 8) else if c =? 102 then Some (byte_of 12) else if c =? 110 then Some (byte_of 10) else
  if c =? 114 then Some (byte_of 13) else if c =? 116 then Some (byte_of 9) else
  if (c =? 34) || (c =? 92) || (c =? 47) || (c =? 39) then Some e else None.

(** [unquote] of a body that passed the scan. *)
Fixpoint unquote_loop (fuel : nat) (s : bytes) : option bytes :=
  match fuel with
  | O => None
  | S fuel =>
      match s with
      | [] => Some []
      | b :: s1 =>
          if bool_decide (b = backslash) then
            match s1 with
            | [] => None
            | e :: s2 =>
                if bval e =? 117 then
                  '(r1, s3) ← getu4 s2;
                  if surrogate r1 then
                    match low_half s3 with
                    | Some (r2, s4) =>
                        if (r1 <? 56320) && between 56320 57343 r2 then
                          t ← unquote_loop fuel s4;
                          Some (EncodeRune ((r1 - 55296) * 1024 + (r2 - 56320) + 65536) ++ t)
                        else t ← unquote_loop fuel s3; Some (EncodeRune RuneError ++ t)
                    | None => t ← unquote_loop fuel s3; Some (EncodeRune RuneError ++ t)
                    end
                  else t ← unquote_loop fuel s3; Some (EncodeRune r1 ++ t)
                else x ← unescape e; t ← unquote_loop fuel s2; Some (x :: t)
            end
          else
            let '(r, n) := DecodeRune s in
            t ← unquote_loop fuel (drop n s); Some (EncodeRune r ++ t)
      end
  end.

Definition unquote (body : bytes) : option bytes := unquote_loop (S (length body)) body.

(** [appendString] with [escapeHTML], quotes included. *)
Definition hex_digit (z : Z) : byte := if z <? 10 then byte_of (48 + z) else byte_of (87 + z).

Definition unicode_escape (c : Z) : bytes :=
  [backslash; byte_of 117; hex_digit (c / 4096 mod 16); hex_digit (c / 256 mod 16);
   hex_digit (c / 16 mod 16); hex_digit (c mod 16)].

Definition html_special (c : Z) : bool := (c =? 60) || (c =? 62) || (c =? 38).

Definition escape_byte (b : byte) : bytes :=
  let c := bval b in
  if (c =? 34) || (c =? 92) then [backslash; b] else
  if c =? 8 then backslash :: of_string "b" else if c =? 12 then backslash :: of_string "f" else
  if c =? 10 then backslash :: of_string "n" else if c =? 13 then backslash :: of_string "r" else
  if c =? 9 then backslash :: of_string "t" else
  if (c <? 32) || html_special c then unicode_escape c else [b].

Fixpoint quote_loop (fuel : nat) (s : bytes) : bytes :=
  match fuel, s with
  | S fuel, b :: s' =>
      if bval b <? 128 then escape_byte b ++ quote_loop fuel s' else
      let '(r, n) := DecodeRune s in
      (if (r =? RuneError) && (n =? 1)%nat then unicode_escape RuneError else
       if (r =? 8232) || (r =? 8233) then unicode_escape r else take n s) ++ quote_loop fuel (drop n s)
  | _, _ => []
  end.

Definition MarshalString (s : bytes) : bytes := quote :: quote_loop (length s) s ++ [quote].

(** A byte slice; nil is [null]. *)
Definition MarshalBytes (s : option bytes) : bytes :=
  match s with
  | None => of_string "null"
  | Some s => quote :: Base64.EncodeToString s ++ [quote]
  end.

(** *** [appendCompact] with [escapeHTML], of a text that passed the scan *)
Inductive place := Outside | Inside | Escaped.

Definition next_place (p : place) (b : byte) : place :=
  match p with
  | Outside => if bool_decide (b = quote) then Inside else Outside
  | Inside => if bool_decide (b = quote) then Outside else if bool_decide (b = backslash) then Escaped else Inside
  | Escaped => Inside
  end.

Fixpoint compact (p : place) (s : bytes) : bytes :=
  match s with
  | [] => []
  | b :: s1 =>
      let c := bval b in
      let plain := (if is_space b then match p with Outside => [] | _ => [b] end else [b])
                     ++ compact (next_place p b) s1 in
      if html_special c then unicode_escape c ++ compact (next_place p b) s1 else
      match s1 with
      | b1 :: b2 :: s3 =>
          if (c =? 226) && (bval b1 =? 128) && between 168 169 (bval b2)
          then unicode_escape (8192 + (bval b2 - 128)) ++ compact (next_place p b) s3 else plain
      | _ => plain
      end
  end.


(** *** The fuel of the scanners *)

Lemma skip_space_length s : (length (skip_space s) <= length s)%nat.
Proof. induction s as [|b s IH]; simpl; [lia|]. destruct (is_space b); simpl; lia. Qed.

Lemma scan_string_length n s body r :
  (length s <= n)%nat -> scan_string s = Some (body, r) -> (length r < length s)%nat.
Proof.
  revert s body; induction n as [|n IH]; intros [|b s] body Hn; simpl in *; try done; [lia|].
  case_bool_decide; [intros [= <- <-]; lia|]. case_bool_decide.
  - destruct s as [|e s]; [done|]. simpl in Hn. case_bool_decide.
    + destruct (scan_string s) as [[body' r']|] eqn:E; [|done]. intros [= <- <-].
      apply IH in E; simpl; lia.
    + destruct (bval e =? 117); [|done]. destruct s as [|h1 [|h2 [|h3 [|h4 s]]]]; try done.
      destruct (_ && _); [|done]. simpl in Hn. destruct (scan_string s) as [[body' r']|] eqn:E; [|done].
      intros [= <- <-]. apply IH in E; simpl; lia.
  - destruct (bval b <? 32); [done|]. destruct (scan_string s) as [[body' r']|] eqn:E; [|done].
    intros [= <- <-]. apply IH in E; lia.
Qed.

Lemma scan_digits_length s d r : scan_digits s = (d, r) -> length s = (length d + length r)%nat.
Proof.
  revert d; induction s as [|b s IH]; intros d; simpl; [by intros [= <- <-]|].
  destruct (is_digit b); [|by intros [= <- <-]].
  destruct (scan_digits s) as [d' r']. intros [= <- <-]. simpl. by rewrite (IH d').
Qed.

Lemma scan_digits1_length s d r : scan_digits1 s = Some (d, r) -> (length r < length s)%nat.
Proof.
  unfold scan_digits1. destruct (scan_digits s) as [[|x d'] r'] eqn:E; [done|].
  intros [= <- <-]. apply scan_digits_length in E. simpl in E. lia.
Qed.

Lemma scan_frac_length s f r : scan_frac s = Some (f, r) -> (length r <= length s)%nat.
Proof.
  destruct s as [|b s]; simpl; [by intros [= <- <-]|]. destruct (bval b =? 46); [|by intros [= <- <-]].
  destruct (scan_digits1 s) as [[d r']|] eqn:E; [|done]. intros [= <- <-].
  apply scan_digits1_length in E. lia.
Qed.

Lemma scan_exp_length s f r : scan_exp s = Some (f, r) -> (length r <= length s)%nat.
Proof.
  destruct s as [|b s]; simpl; [by intros [= <- <-]|]. destruct (_ || _); [|by intros [= <- <-]].
  assert (exists sign s', (match s with c :: s'' => if (bval c =? 43) || (bval c =? 45) then ([c], s'') else ([], s)
    | [] => ([], []) end) = (sign, s') /\ (length s' <= length s)%nat) as (sign & s' & -> & Hs).
  { destruct s as [|c s]; [by eexists _, _|]. destruct (_ || _); eexists _, _; split; try done; simpl; lia. }
  destruct (scan_digits1 s') as [[d r']|] eqn:E; [|done]. intros [= <- <-].
  apply scan_digits1_length in E. lia.
Qed.

Lemma scan_number_length s t r : scan_number s = Some (t, r) -> (length r < length s)%nat.
Proof.
  unfold scan_number.
  assert (exists sign s', (match s with b :: s' => if bval b =? 45 then ([b], s') else ([], s) | [] => ([], []) end)
     = (sign, s') /\ (length s' <= length s)%nat) as (sign & s' & -> & Hs).
  { destruct s as [|b s]; [by eexists _, _|]. destruct (_ =? _); eexists _, _; split; try done; simpl; lia. }
  destruct (scan_int s') as [[i s1]|] eqn:E1; [|done]. cbn [mbind option_bind].
  destruct (scan_frac s1) as [[f s2]|] eqn:E2; [|done]. cbn [mbind option_bind].
  destruct (scan_exp s2) as [[e s3]|] eqn:E3; [|done]. intros [= <- <-].
  apply scan_frac_length in E2. apply scan_exp_length in E3.
  destruct s' as [|b s'']; [done|]. simpl in E1. destruct (bval b =? 48).
  - injection E1 as <- <-. simpl in *. lia.
  - apply scan_digits1_length in E1. lia.
Qed.

Lemma scan_word_length w v s u r : w <> [] -> scan_word w v s = Some (u, r) -> (length r < length s)%nat.
Proof.
  intros Hw. unfold scan_word. case_bool_decide as E; [|done]. intros [= <- <-].
  rewrite length_drop. apply (f_equal length) in E. rewrite length_take in E.
  assert (length w <> 0%nat) by (by destruct w). lia.
Qed.

(** What a scanner leaves is shorter than what it got. *)
Lemma scan_length fuel :
  (forall d s v r, scan_value fuel d s = Some (v, r) -> (length r < length s)%nat) /\
  (forall d s es r, scan_elems fuel d s = Some (es, r) -> (length r < length s)%nat) /\
  (forall d s ms r, scan_members fuel d s = Some (ms, r) -> (length r < length s)%nat).
Proof.
  induction fuel as [|fuel (IHv & IHe & IHm)]; [by split_and!|]. split_and!.
  - intros d [|b s] v r; [done|]. cbn [scan_value]. pose proof (skip_space_length s) as Hsp.
    destruct (bval b =? 34).
    { destruct (scan_string s) as [[body r']|] eqn:E; [|done]. intros [= <- <-].
      apply (scan_string_length (length s)) in E; simpl; lia. }
    destruct (bval b =? 123).
    { destruct (d <=? 0); [done|]. destruct (skip_space s) as [|q r'] eqn:Eq; [done|]. simpl in Hsp.
      destruct (bval q =? 125); [intros [= <- <-]; simpl; lia|].
      destruct (scan_members fuel (d - 1) (q :: r')) as [[ms r'']|] eqn:E; [|done]. intros [= <- <-].
      apply IHm in E. simpl in *. lia. }
    destruct (bval b =? 91).
    { destruct (d <=? 0); [done|]. destruct (skip_space s) as [|q r'] eqn:Eq; [done|]. simpl in Hsp.
      destruct (bval q =? 93); [intros [= <- <-]; simpl; lia|].
      destruct (scan_elems fuel (d - 1) (q :: r')) as [[ms r'']|] eqn:E; [|done]. intros [= <- <-].
      apply IHe in E. simpl in *. lia. }
    repeat case_match; try (by intros ?%scan_word_length); try done.
    intros E. apply bind_Some in E as ([t r'] & E & [= <- <-]). by apply scan_number_length in E.
  - intros d s es r. cbn [scan_elems]. intros ([v r1] & E & H)%bind_Some. apply IHv in E.
    pose proof (skip_space_length r1). destruct (skip_space r1) as [|q r'] eqn:Eq; [done|]. simpl in *.
    destruct (bval q =? 93); [injection H as <- <-; lia|]. destruct (bval q =? 44); [|done].
    apply bind_Some in H as ([es' r''] & E' & [= <- <-]). apply IHe in E'.
    pose proof (skip_space_length r'). lia.
  - intros d [|b s] ms r; [done|]. cbn [scan_members]. destruct (negb _); [done|].
    intros ([name r1] & E & H)%bind_Some. apply (scan_string_length (length s)) in E; [|done].
    pose proof (skip_space_length r1). destruct (skip_space r1) as [|q r2] eqn:Eq; [done|].
    destruct (negb _); [done|]. apply bind_Some in H as ([v r3] & E' & H). apply IHv in E'.
    pose proof (skip_space_length r2). pose proof (skip_space_length r3).
    destruct (skip_space r3) as [|q' r4] eqn:Eq'; [done|]. simpl in *.
    destruct (bval q' =? 125); [injection H as <- <-; lia|]. destruct (bval q' =? 44); [|done].
    apply bind_Some in H as ([ms' r5] & E'' & [= <- <-]). apply IHm in E''.
    pose proof (skip_space_length r4). lia.
Qed.

(** Twice the bytes are enough fuel: more gives the same result. *)
Lemma scan_fuel n :
  (forall f g d s, (length s <= n)%nat -> (2 * length s < f)%nat -> (2 * length s < g)%nat ->
     scan_value f d s = scan_value g d s) /\
  (forall f g d s, (length s <= n)%nat -> (2 * length s + 1 < f)%nat -> (2 * length s + 1 < g)%nat ->
     scan_elems f d s = scan_elems g d s) /\
  (forall f g d s, (length s <= n)%nat -> (2 * length s + 1 < f)%nat -> (2 * length s + 1 < g)%nat ->
     scan_members f d s = scan_members g d s).
Proof.
  induction n as [n IH] using lt_wf_ind.
  assert (forall f g d s, (length s <= n)%nat -> (2 * length s < f)%nat -> (2 * length s < g)%nat ->
     scan_value f d s = scan_value g d s) as Hv.
  { intros [|f] [|g] d [|b s] Hn Hf Hg; try (simpl in *; lia); [done|]. simpl in Hn, Hf, Hg.
    cbn [scan_value]. pose proof (skip_space_length s) as Hsp.
    destruct (IH (length s)) as (_ & He & Hm); [lia|].
    destruct (skip_space s) as [|q r]; [done|].
    by rewrite (Hm f g), (He f g) by lia. }
  split_and!; [done| |].
  - intros [|f] [|g] d s Hn Hf Hg; try lia. cbn [scan_elems]. rewrite (Hv f g) by lia.
    destruct (scan_value g d s) as [[v r]|] eqn:E; [|done]. cbn [mbind option_bind].
    apply scan_length in E. pose proof (skip_space_length r).
    destruct (skip_space r) as [|q r']; [done|]. simpl in *. pose proof (skip_space_length r').
    destruct (IH (length (skip_space r'))) as (_ & He & _); [lia|]. by rewrite (He f g) by lia.
  - intros [|f] [|g] d [|b s] Hn Hf Hg; try lia; [done|]. cbn [scan_members]. simpl in *.
    destruct (scan_string s) as [[name r]|] eqn:E; [|by destruct (negb _)]. cbn [mbind option_bind].
    apply (scan_string_length (length s)) in E; [|done]. pose proof (skip_space_length r).
    destruct (skip_space r) as [|q r1]; [done|]. simpl in *. pose proof (skip_space_length r1).
    rewrite (Hv f g) by lia. destruct (scan_value g d (skip_space r1)) as [[v r2]|] eqn:E2; [|done].
    cbn [mbind option_bind]. apply scan_length in E2. pose proof (skip_space_length r2).
    destruct (skip_space r2) as [|q' r3]; [done|]. simpl in *. pose proof (skip_space_length r3).
    destruct (IH (length (skip_space r3))) as (_ & _ & Hm); [lia|]. by rewrite (Hm f g) by lia.
Qed.

(** *** Texts without escapes *)

Definition plain (b : byte) : Prop := b <> quote /\ b <> backslash /\ 32 <= bval b < 128.

Lemma scan_string_plain s r : Forall plain s -> scan_string (s ++ quote :: r) = Some (s, r).
Proof.
  induction 1 as [|b s (Hq & Hb & Hc) _ IH]; cbn [app scan_string].
  - by rewrite bool_decide_true.
  - rewrite !bool_decide_false by done. destruct (Z.ltb_spec (bval b) 32); [lia|]. by rewrite IH.
Qed.

Lemma unquote_loop_plain s fuel : Forall plain s -> (length s < fuel)%nat -> unquote_loop fuel s = Some s.
Proof.
  intros Hs. revert fuel. induction Hs as [|b s (Hq & Hb & Hc) _ IH]; intros [|fuel] Hf; simpl in *; try lia; [done|].
  rewrite bool_decide_false by done. destruct (Z.ltb_spec (bval b) 128); [|lia]. cbn [drop].
  rewrite IH by lia. cbn [mbind option_bind]. unfold EncodeRune, surrogate.
  destruct (Z.ltb_spec (bval b) 0), (Z.ltb_spec 1114111 (bval b)), (between_spec 55296 57343 (bval b)); try lia.
  cbn [orb]. destruct (Z.ltb_spec (bval b) 128); [|lia]. cbn [app]. by rewrite byte_of_bval.
Qed.

Lemma unquote_plain s : Forall plain s -> unquote s = Some s.
Proof. intros Hs. apply unquote_loop_plain; [done|lia]. Qed.

Lemma upto_app v r : upto (v ++ r) r = v.
Proof.
  unfold upto. rewrite length_app. replace (length v + length r - length r)%nat with (length v) by lia.
  apply take_app_length.
Qed.

Lemma skip_space_no b s : is_space b = false -> skip_space (b :: s) = b :: s.
Proof. simpl. by intros ->. Qed.

Lemma scan_string_value f d body r :
  Forall plain body -> scan_value (S f) d (quote :: body ++ quote :: r) = Some (Str body, r).
Proof. intros Hp. cbn [scan_value]. change (bval quote =? 34) with true. cbn iota. by rewrite scan_string_plain. Qed.

Lemma scan_null f d r : scan_value (S f) d (of_string "null" ++ r) = Some (Null, r).
Proof. reflexivity. Qed.

(** A member whose value [v] scans to its end, and the character behind it. *)
Definition brace : byte := byte_of 125.
Definition comma : byte := byte_of 44.
Definition colon : byte := byte_of 58.

Lemma scan_member f d name b v w q r :
  Forall plain name -> is_space b = false -> is_space q = false ->
  scan_value f d (b :: v ++ q :: r) = Some (w, q :: r) ->
  scan_members (S f) d (quote :: name ++ quote :: colon :: b :: v ++ q :: r) =
    if bval q =? 125 then Some ([(name, b :: v)], r) else
    if bval q =? 44 then '(ms, r') ← scan_members f d (skip_space r); Some ((name, b :: v) :: ms, r') else None.
Proof.
  intros Hname Hb Hq Hv. cbn [scan_members]. change (bval quote =? 34) with true. cbn [negb].
  rewrite scan_string_plain by done. cbn [mbind option_bind].
  change (skip_space (colon :: ?x)) with (colon :: x). change (bval colon =? 58) with true. cbn [negb].
  rewrite (skip_space_no b) by done. rewrite Hv. cbn [mbind option_bind].
  rewrite (skip_space_no q) by done. pose proof (upto_app (b :: v) (q :: r)) as Hu.
  cbn [app] in Hu. by rewrite Hu.
Qed.

(** A whole text that is one value. *)
Lemma parse_value b s v :
  is_space b = false -> scan_value (S (2 * length (b :: s))) maxNestingDepth (b :: s) = Some (v, []) ->
  parse (b :: s) = Some v.
Proof. intros Hb Hv. unfold parse. rewrite (skip_space_no b) by done. by rewrite Hv. Qed.

Lemma parse_string body : Forall plain body -> parse (quote :: body ++ [quote]) = Some (Str body).
Proof. intros Hp. apply parse_value; [done|]. by apply scan_string_value. Qed.

Lemma scan_digits_all s : Forall (fun b => is_digit b = true) s -> scan_digits s = (s, []).
Proof. induction 1 as [|b s Hb _ IH]; [done|]. simpl. by rewrite Hb, IH. Qed.

(** [digits] writes no leading zero. *)
Lemma digits_head fuel n :
  0 < n < 10 ^ Z.of_nat fuel -> exists b t, digits fuel n = b :: t /\ bval b <> 48.
Proof.
  revert n; induction fuel as [|fuel IH]; intros n Hn; [simpl in *; lia|].
  cbn [digits]. rewrite Nat2Z.inj_succ, Z.pow_succ_r in Hn by lia. destruct (Z.ltb_spec n 10).
  - eexists _, _. split; [done|]. unfold digit. rewrite bval_byte_of, Z.mod_small by lia. lia.
  - destruct (IH (n / 10)) as (b & t & -> & Hb).
    { split; [apply Z.div_str_pos; lia|apply Z.div_lt_upper_bound; lia]. }
    by eexists _, _.
Qed.

Lemma digits_are_digits n : 0 <= n < 10 ^ 20 -> Forall (fun b => is_digit b = true) (digits 20 n) /\ digits 20 n <> [].
Proof.
  intros Hn. destruct (digits_shape 20 n) as [H1 H2]; [simpl; lia|lia|]. split; [|done].
  eapply Forall_impl; [exact H1|]. intros b Hb. unfold is_digit. by destruct (between_spec 48 57 (bval b)).
Qed.

Lemma scan_int_digits n : 0 <= n < 10 ^ 20 -> scan_int (digits 20 n) = Some (digits 20 n, []).
Proof.
  intros Hn. destruct (decide (n = 0)) as [->|Hz]; [done|].
  destruct (digits_head 20 n) as (b & t & E & Hb); [simpl; lia|].
  destruct (digits_are_digits n Hn) as [Hd _]. rewrite E in *. cbn [scan_int].
  destruct (Z.eqb_spec (bval b) 48); [lia|]. unfold scan_digits1. by rewrite scan_digits_all.
Qed.

Lemma scan_number_FormatInt n : i64 n -> scan_number (FormatInt n) = Some (FormatInt n, []).
Proof.
  unfold i64, FormatInt, scan_number. intros Hn. destruct (Z.ltb_spec n 0).
  - rewrite bval_byte_of. change (45 mod 256 =? 45) with true. cbn iota.
    rewrite scan_int_digits by lia. cbn [mbind option_bind scan_frac scan_exp app]. by rewrite app_nil_r.
  - destruct (digits_are_digits n) as [Hd Hne]; [lia|]. destruct (digits 20 n) as [|b t] eqn:E; [done|].
    apply Forall_cons in Hd as [Hb _]. unfold is_digit in Hb.
    destruct (Z.eqb_spec (bval b) 45) as [Eb|_]; [by rewrite Eb in Hb|].
    rewrite <- E, scan_int_digits by lia. cbn [mbind option_bind scan_frac scan_exp app]. by rewrite app_nil_r.
Qed.

(** A decimal integer is a JSON number. *)
Lemma parse_FormatInt n : i64 n -> parse (FormatInt n) = Some (Num (FormatInt n)).
Proof.
  intros Hn. destruct (FormatInt_shape n Hn) as [Hs Hne]. pose proof (scan_number_FormatInt n Hn) as Hscan.
  destruct (FormatInt n) as [|b t]; [done|]. apply Forall_cons in Hs as [Hb _].
  apply parse_value.
  - unfold is_space. destruct (Z.eqb_spec (bval b) 32), (Z.eqb_spec (bval b) 9), (Z.eqb_spec (bval b) 13),
      (Z.eqb_spec (bval b) 10); try lia; done.
  - cbn [scan_value].
    destruct (Z.eqb_spec (bval b) 34), (Z.eqb_spec (bval b) 123), (Z.eqb_spec (bval b) 91), (Z.eqb_spec (bval b) 110),
      (Z.eqb_spec (bval b) 116), (Z.eqb_spec (bval b) 102); try lia.
    by rewrite Hscan.
Qed.

End Json.
