(* ===== verification/JsonText.v ===== *)
(** JSON text that is written and read again: string literals survive quoting,
    and any value survives compaction ([json.Marshal] of raw messages). *)
From S2P Require Import Prelude Bytes Strconv Json.
Import Utf8 Json.

(** ** UTF-8 *)

Definition valid_rune (r : Z) : Prop := 0 <= r <= 1114111 /\ surrogate r = false.

(** Text: the encoding of some runes. *)
Definition utf8 (s : bytes) : Prop := exists rs, Forall valid_rune rs /\ s = concat (EncodeRune <$> rs).

Lemma utf8_rune r t : utf8 t -> utf8 (EncodeRune r ++ t).
Proof.
  intros (rs & Hrs & ->).
  assert (exists r', valid_rune r' /\ EncodeRune r' = EncodeRune r) as (r' & Hr & <-).
  { destruct ((r <? 0) || (1114111 <? r) || surrogate r) eqn:E.
    - exists RuneError. split; [by split|]. unfold EncodeRune. rewrite E. reflexivity.
    - exists r. split; [|done]. apply orb_false_iff in E as [[E1 E2]%orb_false_iff E3].
      apply Z.ltb_ge in E1, E2. by split. }
  exists (r' :: rs). split; [by constructor|done].
Qed.

Lemma utf8_byte b t : bval b < 128 -> utf8 t -> utf8 (b :: t).
Proof.
  intros Hb Ht. pose proof (bval_range b) as Hr. assert ([b] = EncodeRune (bval b)) as E.
  { unfold EncodeRune, surrogate. destruct (Z.ltb_spec (bval b) 0), (Z.ltb_spec 1114111 (bval b)), (between_spec 55296 57343 (bval b)); try lia.
    cbn [orb]. destruct (Z.ltb_spec (bval b) 128); [|lia]. by rewrite byte_of_bval. }
  change (b :: t) with ([b] ++ t). rewrite E. by apply utf8_rune.
Qed.

(** What [unquote] yields is text. *)
Lemma unquote_utf8 fuel s k : unquote_loop fuel s = Some k -> utf8 k.
Proof.
  revert s k. induction fuel as [|fuel IH]; intros s k; [done|]. cbn [unquote_loop].
  destruct s as [|b s1]; [intros [= <-]; by exists []|].
  case_bool_decide.
  - destruct s1 as [|e s2]; [done|]. destruct (bval e =? 117).
    + destruct (getu4 s2) as [[r1 s3]|]; cbn [mbind option_bind]; [|done].
      destruct (surrogate r1); [destruct (low_half s3) as [[r2 s4]|]; [destruct (_ && _)|]|];
        (intros (t & Ht & <-%(inj Some))%bind_Some; apply utf8_rune; by eapply IH).
    + destruct (unescape e) as [x|] eqn:Hx; cbn [mbind option_bind]; [|done].
      intros (t & Ht & [= <-])%bind_Some. apply utf8_byte; [|by eapply IH].
      unfold unescape in Hx. repeat (destruct (_ =? _) eqn:? in Hx; [injection Hx as <-; vm_compute; reflexivity|]).
      destruct (_ || _) eqn:E; [|done]. injection Hx as <-. lia.
  - destruct (DecodeRune (b :: s1)) as [r n]. intros (t & Ht & <-%(inj Some))%bind_Some. apply utf8_rune. by eapply IH.
Qed.

#[local] Ltac divlia := Z.to_euclidean_division_equations; lia.

Lemma EncodeRune_valid r : valid_rune r ->
  EncodeRune r =
    if r <? 128 then [byte_of r] else
    if r <? 2048 then [byte_of (192 + r / 64); byte_of (128 + r mod 64)] else
    if r <? 65536 then [byte_of (224 + r / 4096); byte_of (128 + r / 64 mod 64); byte_of (128 + r mod 64)] else
    [byte_of (240 + r / 262144); byte_of (128 + r / 4096 mod 64); byte_of (128 + r / 64 mod 64); byte_of (128 + r mod 64)].
Proof.
  intros [Hr Hs]. unfold EncodeRune. rewrite Hs. destruct (Z.ltb_spec r 0), (Z.ltb_spec 1114111 r); try lia. done.
Qed.

Lemma bval_small z : 0 <= z < 256 -> bval (byte_of z) = z.
Proof. intros Hz. rewrite bval_byte_of. by apply Z.mod_small. Qed.

Lemma cont_byte z : 0 <= z < 64 -> cont (byte_of (128 + z)) = true /\ bval (byte_of (128 + z)) mod 64 = z.
Proof.
  intros Hz. unfold cont. rewrite bval_small by lia. split; [|divlia]. destruct (between_spec 128 191 (128 + z)); [done|lia].
Qed.

Lemma first_byte_2 c : 194 <= c <= 223 -> first_byte c = Some (128, 191, 2%nat).
Proof. intros Hc. unfold first_byte. by destruct (between_spec 194 223 c); [|lia]. Qed.

Lemma first_byte_3 c : 224 <= c <= 239 ->
  first_byte c = Some ((if c =? 224 then 160 else 128), (if c =? 237 then 159 else 191), 3%nat).
Proof.
  intros Hc. unfold first_byte. destruct (between_spec 194 223 c); [lia|].
  destruct (Z.eqb_spec c 224) as [->|]; [done|]. destruct (Z.eqb_spec c 237); [done|].
  by destruct (between_spec 225 239 c); [|lia].
Qed.

Lemma first_byte_4 c : 240 <= c <= 244 ->
  first_byte c = Some ((if c =? 240 then 144 else 128), (if c =? 244 then 143 else 191), 4%nat).
Proof.
  intros Hc. unfold first_byte. destruct (between_spec 194 223 c), (Z.eqb_spec c 224), (Z.eqb_spec c 237), (between_spec 225 239 c); try lia.
  destruct (Z.eqb_spec c 240) as [->|]; [done|]. destruct (between_spec 241 243 c); [|by destruct (Z.eqb_spec c 244); [|lia]].
  by destruct (Z.eqb_spec c 244); [lia|].
Qed.

Lemma DecodeRune_EncodeRune r t : valid_rune r -> 128 <= r ->
  DecodeRune (EncodeRune r ++ t) = (r, length (EncodeRune r)).
Proof.
  intros Hv Hr. rewrite EncodeRune_valid by done. destruct Hv as [Hb Hs]. destruct (Z.ltb_spec r 128); [lia|].
  unfold surrogate in Hs. destruct (between_spec 55296 57343 r) as [|Hns]; [done|]. clear Hs.
  destruct (Z.ltb_spec r 2048); [|destruct (Z.ltb_spec r 65536)]; cbn [app DecodeRune length].
  - rewrite !bval_small by divlia. destruct (Z.ltb_spec (192 + r / 64) 128); [divlia|].
    rewrite first_byte_2 by divlia. destruct (between_spec 128 191 (128 + r mod 64)); [|divlia]. cbn [negb]. f_equal. divlia.
  - destruct (cont_byte (r mod 64)) as [-> ->]; [divlia|]. destruct (cont_byte (r / 64 mod 64)) as [_ ->]; [divlia|].
    rewrite !bval_small by divlia. destruct (Z.ltb_spec (224 + r / 4096) 128); [divlia|]. rewrite first_byte_3 by divlia.
    destruct (between_spec (if 224 + r / 4096 =? 224 then 160 else 128) (if 224 + r / 4096 =? 237 then 159 else 191) (128 + r / 64 mod 64)) as [|Hn].
    + cbn [negb]. f_equal. divlia.
    + exfalso. apply Hn. clear Hn. destruct (Z.eqb_spec (224 + r / 4096) 224), (Z.eqb_spec (224 + r / 4096) 237); divlia.
  - destruct (cont_byte (r mod 64)) as [-> ->]; [divlia|]. destruct (cont_byte (r / 64 mod 64)) as [-> ->]; [divlia|].
    destruct (cont_byte (r / 4096 mod 64)) as [_ ->]; [divlia|].
    rewrite !bval_small by divlia. destruct (Z.ltb_spec (240 + r / 262144) 128); [divlia|]. rewrite first_byte_4 by divlia.
    destruct (between_spec (if 240 + r / 262144 =? 240 then 144 else 128) (if 240 + r / 262144 =? 244 then 143 else 191) (128 + r / 4096 mod 64)) as [|Hn].
    + cbn [negb andb]. f_equal. divlia.
    + exfalso. apply Hn. clear Hn. destruct (Z.eqb_spec (240 + r / 262144) 240), (Z.eqb_spec (240 + r / 262144) 244); divlia.
Qed.

(** ** String literals *)

(** The body of a literal, as the scanner accepts it. *)
Inductive str_body : bytes -> Prop :=
  | sb_nil : str_body []
  | sb_escape e t : e ∈ escapes -> str_body t -> str_body (backslash :: e :: t)
  | sb_unicode u h1 h2 h3 h4 t : bval u = 117 -> is_hex h1 = true -> is_hex h2 = true -> is_hex h3 = true -> is_hex h4 = true ->
      str_body t -> str_body (backslash :: u :: h1 :: h2 :: h3 :: h4 :: t)
  | sb_plain b t : b <> quote -> b <> backslash -> 32 <= bval b -> str_body t -> str_body (b :: t).

Lemma escapes_chars e : e ∈ escapes -> bval e <> 117 /\ bval e <> 226 /\ html_special (bval e) = false /\ is_space e = false.
Proof.
  assert (Forall (fun e => bval e <> 117 /\ bval e <> 226 /\ html_special (bval e) = false /\ is_space e = false) escapes) as Hall.
  { repeat constructor; vm_compute; discriminate. }
  rewrite Forall_forall in Hall. apply Hall.
Qed.

Lemma u_not_escape u : bval u = 117 -> u ∉ escapes.
Proof. intros Hu He. by destruct (escapes_chars u He). Qed.

#[local] Ltac in_escapes := refine (bool_decide_eq_true_1 _ _); vm_compute; reflexivity.

Lemma scan_string_body body r : str_body body -> scan_string (body ++ quote :: r) = Some (body, r).
Proof.
  induction 1 as [|e t He _ IH|u h1 h2 h3 h4 t Hu H1 H2 H3 H4 _ IH|b t Hq Hb Hc _ IH]; cbn [app scan_string].
  - by rewrite bool_decide_true.
  - rewrite bool_decide_false, !bool_decide_true by done. by rewrite IH.
  - rewrite bool_decide_false, bool_decide_true, bool_decide_false by (done || by apply u_not_escape).
    rewrite Hu, H1, H2, H3, H4. cbn [Z.eqb Pos.eqb andb]. by rewrite IH.
  - rewrite !bool_decide_false by done. destruct (Z.ltb_spec (bval b) 32); [lia|]. by rewrite IH.
Qed.

Lemma scan_string_inv s body r : scan_string s = Some (body, r) -> s = body ++ quote :: r /\ str_body body.
Proof.
  revert body r. induction s as [s IH] using (induction_ltof1 _ (@length byte)). unfold ltof in IH. intros body r.
  destruct s as [|b s1]; [done|]. cbn [scan_string]. case_bool_decide as Hq; [intros [= <- <-]; subst; split; [done|constructor]|].
  case_bool_decide as Hb.
  - destruct s1 as [|e s2]; [done|]. case_bool_decide as He.
    + intros ([body' r'] & E & [= <- <-])%bind_Some. apply IH in E as [-> ?]; [|simpl; lia]. subst. split; [done|by constructor].
    + destruct (Z.eqb_spec (bval e) 117) as [Hu|]; [|done]. destruct s2 as [|h1 [|h2 [|h3 [|h4 s3]]]]; try done.
      destruct (is_hex h1) eqn:E1, (is_hex h2) eqn:E2, (is_hex h3) eqn:E3, (is_hex h4) eqn:E4; cbn [andb]; try done.
      intros ([body' r'] & E & [= <- <-])%bind_Some. apply IH in E as [-> ?]; [|simpl; lia]. subst. split; [done|by constructor].
  - destruct (Z.ltb_spec (bval b) 32); [done|]. intros ([body' r'] & E & [= <- <-])%bind_Some.
    apply IH in E as [-> ?]; [|simpl; lia]. split; [done|by constructor].
Qed.

Lemma hex_digit_hex z : 0 <= z < 16 -> hex_value (hex_digit z) = Some z.
Proof.
  intros Hz. assert (z = 0 \/ z = 1 \/ z = 2 \/ z = 3 \/ z = 4 \/ z = 5 \/ z = 6 \/ z = 7 \/ z = 8 \/ z = 9 \/ z = 10 \/ z = 11 \/
    z = 12 \/ z = 13 \/ z = 14 \/ z = 15) as Hc by lia. by repeat (destruct Hc as [->|Hc]; [done|]); subst.
Qed.

Lemma is_hex_digit z : 0 <= z < 16 -> is_hex (hex_digit z) = true.
Proof. intros Hz. unfold is_hex. by rewrite hex_digit_hex. Qed.

Lemma unicode_escape_body c t : 0 <= c -> str_body t -> str_body (unicode_escape c ++ t).
Proof. intros Hc Ht. constructor; [done|apply is_hex_digit; divlia..|done]. Qed.

Lemma getu4_escape c t : 0 <= c < 65536 ->
  getu4 (hex_digit (c / 4096 mod 16) :: hex_digit (c / 256 mod 16) :: hex_digit (c / 16 mod 16) :: hex_digit (c mod 16) :: t) = Some (c, t).
Proof.
  intros Hc. unfold getu4. rewrite !hex_digit_hex by divlia. cbn [mbind option_bind]. do 2 f_equal. divlia.
Qed.

Lemma escape_byte_body b t : bval b < 128 -> str_body t -> str_body (escape_byte b ++ t).
Proof.
  intros Hb Ht. pose proof (bval_range b). unfold escape_byte.
  destruct ((bval b =? 34) || (bval b =? 92)) eqn:E.
  { apply sb_escape; [|done]. apply orb_true_iff in E as [E%Z.eqb_eq|E%Z.eqb_eq].
    - assert (b = quote) as ->; [|in_escapes]. rewrite <- (byte_of_bval b), E. done.
    - assert (b = backslash) as ->; [|in_escapes]. rewrite <- (byte_of_bval b), E. done. }
  apply orb_false_iff in E as [E1%Z.eqb_neq E2%Z.eqb_neq].
  repeat (destruct (_ =? _); [apply sb_escape; [in_escapes|done]|]).
  destruct (_ || _) eqn:E; [by apply unicode_escape_body; [lia|]|]. apply orb_false_iff in E as [E%Z.ltb_ge _].
  apply sb_plain; [..|lia|done]; intros ->; [by apply E1|by apply E2].
Qed.

(** One rune as [quote_loop] writes it. *)
Definition quoted_rune (r : Z) : bytes :=
  if r <? 128 then escape_byte (byte_of r) else
  if (r =? 8232) || (r =? 8233) then unicode_escape r else EncodeRune r.

Lemma EncodeRune_ascii r : valid_rune r -> r < 128 -> EncodeRune r = [byte_of r].
Proof. intros Hv Hr. rewrite EncodeRune_valid by done. by destruct (Z.ltb_spec r 128); [|lia]. Qed.

(** The bytes of a longer encoding. *)
Lemma EncodeRune_high r : valid_rune r -> 128 <= r ->
  Forall (fun b => 128 <= bval b) (EncodeRune r) /\ (2 <= length (EncodeRune r))%nat.
Proof.
  intros Hv Hr. rewrite EncodeRune_valid by done. destruct Hv as [Hb _]. destruct (Z.ltb_spec r 128); [lia|].
  destruct (r <? 2048) eqn:E1; [|destruct (r <? 65536) eqn:E2];
    (split; [|simpl; lia]); repeat (constructor; [rewrite bval_small; divlia|]); constructor.
Qed.

Lemma quote_loop_rune r f t : valid_rune r -> quote_loop (S f) (EncodeRune r ++ t) = quoted_rune r ++ quote_loop f t.
Proof.
  intros Hv. unfold quoted_rune. destruct (Z.ltb_spec r 128).
  - rewrite EncodeRune_ascii by done. cbn [app quote_loop]. destruct Hv. rewrite bval_small by lia.
    by destruct (Z.ltb_spec r 128); [|lia].
  - pose proof (DecodeRune_EncodeRune r t Hv ltac:(lia)) as Hd. destruct (EncodeRune_high r Hv ltac:(lia)) as [Hh Hl].
    destruct (EncodeRune r) as [|b e] eqn:E; [simpl in Hl; lia|]. cbn [app] in *. cbn [quote_loop].
    apply Forall_cons in Hh as [Hb _]. destruct (Z.ltb_spec (bval b) 128); [lia|]. rewrite Hd.
    destruct (Nat.eqb_spec (length (b :: e)) 1); [lia|]. rewrite andb_false_r.
    change (b :: e ++ t) with ((b :: e) ++ t). by rewrite take_app_length, drop_app_length.
Qed.

Lemma quoted_rune_body r t : valid_rune r -> str_body t -> str_body (quoted_rune r ++ t).
Proof.
  intros Hv Ht. pose proof Hv as [Hb _]. unfold quoted_rune. destruct (Z.ltb_spec r 128).
  - apply escape_byte_body; [rewrite bval_small; lia|done].
  - destruct (_ || _); [by apply unicode_escape_body; [lia|]|].
    destruct (EncodeRune_high r Hv ltac:(lia)) as [Hh _]. induction Hh as [|b e Hb' _ IH]; [done|].
    cbn [app]. constructor; [..|lia|done]; intros ->; vm_compute in Hb'; by apply Hb'.
Qed.

Lemma unquote_escape_byte b f t : bval b < 128 ->
  unquote_loop (S f) (escape_byte b ++ t) = (fun u => b :: u) <$> unquote_loop f t.
Proof. intros Hb. destruct b; (try (by vm_compute in Hb)); clear Hb; cbn; by destruct (unquote_loop f t). Qed.

Lemma unquote_rune r f t : valid_rune r ->
  unquote_loop (S f) (quoted_rune r ++ t) = (fun u => EncodeRune r ++ u) <$> unquote_loop f t.
Proof.
  intros Hv. pose proof Hv as [Hb _]. unfold quoted_rune. destruct (Z.ltb_spec r 128).
  - rewrite EncodeRune_ascii by done. apply unquote_escape_byte. rewrite bval_small; lia.
  - destruct ((r =? 8232) || (r =? 8233)) eqn:E.
    + unfold unicode_escape. cbn [app unquote_loop]. rewrite bool_decide_true by done. change (bval (byte_of 117) =? 117) with true.
      cbn iota. rewrite getu4_escape by lia. cbn [mbind option_bind].
      assert (surrogate r = false) as -> by apply Hv. by destruct (unquote_loop f t).
    + pose proof (DecodeRune_EncodeRune r t Hv ltac:(lia)) as Hd. destruct (EncodeRune_high r Hv ltac:(lia)) as [Hh Hl].
      destruct (EncodeRune r) as [|b e] eqn:Ee; [simpl in Hl; lia|]. cbn [app] in *. cbn [unquote_loop].
      apply Forall_cons in Hh as [Hb' _]. rewrite bool_decide_false by (intros ->; vm_compute in Hb'; by apply Hb').
      rewrite Hd. change (b :: e ++ t) with ((b :: e) ++ t). rewrite drop_app_length, Ee. by destruct (unquote_loop f t).
Qed.

Lemma quoted_rune_nonempty r : valid_rune r -> quoted_rune r <> [].
Proof.
  intros Hv E. pose proof (unquote_rune r 0 [] Hv) as Hu. rewrite E in Hu. cbn in Hu. discriminate.
Qed.

Lemma quote_loop_runes rs f : Forall valid_rune rs -> (length rs <= f)%nat ->
  quote_loop f (concat (EncodeRune <$> rs)) = concat (quoted_rune <$> rs).
Proof.
  intros Hrs. revert f. induction Hrs as [|r rs Hr _ IH]; intros f Hf; [by destruct f|]. destruct f as [|f]; [simpl in Hf; lia|].
  rewrite !fmap_cons. cbn [concat]. rewrite quote_loop_rune by done. rewrite IH by (simpl in Hf; lia). done.
Qed.

Lemma quoted_body rs : Forall valid_rune rs -> str_body (concat (quoted_rune <$> rs)).
Proof. induction 1; [constructor|]. by apply quoted_rune_body. Qed.

Lemma unquote_runes rs f : Forall valid_rune rs -> (length rs < f)%nat ->
  unquote_loop f (concat (quoted_rune <$> rs)) = Some (concat (EncodeRune <$> rs)).
Proof.
  intros Hrs. revert f. induction Hrs as [|r rs Hr _ IH]; intros f Hf; (destruct f as [|f]; [lia|]); [done|].
  rewrite !fmap_cons. cbn [concat]. rewrite unquote_rune by done. rewrite IH by (simpl in Hf; lia). done.
Qed.

Lemma length_encoded rs : Forall valid_rune rs -> (length rs <= length (concat (EncodeRune <$> rs)))%nat.
Proof.
  induction 1 as [|r rs Hr _ IH]; [done|]. rewrite fmap_cons. cbn [concat]. rewrite length_app, length_cons.
  destruct (Z.lt_ge_cases r 128); [rewrite EncodeRune_ascii by done; simpl; lia|].
  destruct (EncodeRune_high r Hr ltac:(lia)). lia.
Qed.

Lemma length_quoted rs : Forall valid_rune rs -> (length rs <= length (concat (quoted_rune <$> rs)))%nat.
Proof.
  induction 1 as [|r rs Hr _ IH]; [done|]. rewrite fmap_cons. cbn [concat]. rewrite length_app, length_cons.
  pose proof (quoted_rune_nonempty r Hr). destruct (quoted_rune r); [done|simpl; lia].
Qed.

(** Text survives [json.Marshal] and [json.Unmarshal]: the literal scans as
    written, and unquotes to the text. *)
Lemma MarshalString_text s : utf8 s ->
  exists body, MarshalString s = quote :: body ++ [quote] /\ str_body body /\ unquote body = Some s.
Proof.
  intros (rs & Hrs & ->). exists (concat (quoted_rune <$> rs)). unfold MarshalString, unquote.
  rewrite quote_loop_runes by (done || by apply length_encoded). split; [done|]. split; [by apply quoted_body|].
  apply unquote_runes; [done|]. pose proof (length_quoted rs Hrs). lia.
Qed.

(** ** Compaction *)

Definition ascii_head (s : bytes) : Prop := match s with b :: _ => bval b < 128 | [] => True end.

Definition places (p : place) (s : bytes) : place := foldl next_place p s.

Lemma next_place_high p b : 128 <= bval b -> next_place p b = match p with Escaped => Inside | _ => p end.
Proof.
  intros Hb. assert (b <> quote /\ b <> backslash) as [Hq Hs] by (split; intros ->; vm_compute in Hb; by apply Hb).
  destruct p; cbn [next_place]; by rewrite ?bool_decide_false.
Qed.

(** Outside the separators U+2028 and U+2029 a byte is kept, dropped or escaped. *)
Definition compact_byte (p : place) (b : byte) : bytes :=
  if html_special (bval b) then unicode_escape (bval b)
  else if is_space b then match p with Outside => [] | _ => [b] end else [b].

Definition separator (s : bytes) : option (byte * bytes) :=
  match s with
  | b :: b1 :: b2 :: s3 =>
      if (bval b =? 226) && (bval b1 =? 128) && between 168 169 (bval b2) then Some (b2, s3) else None
  | _ => None
  end.

Lemma compact_cons p b s :
  compact p (b :: s) =
    match separator (b :: s) with
    | Some (b2, s3) => unicode_escape (8192 + (bval b2 - 128)) ++ compact (next_place p b) s3
    | None => compact_byte p b ++ compact (next_place p b) s
    end.
Proof.
  cbn [compact separator]. unfold compact_byte. destruct (html_special (bval b)) eqn:Hh.
  - assert ((bval b =? 226) = false) as ->; [|by destruct s as [|b1 [|b2 s]]].
    apply Z.eqb_neq. intros E. by rewrite E in Hh.
  - destruct s as [|b1 [|b2 s]]; [done..|]. by destruct (_ && _).
Qed.

Lemma separator_inv s b2 s3 : separator s = Some (b2, s3) ->
  exists b b1, s = b :: b1 :: b2 :: s3 /\ bval b = 226 /\ bval b1 = 128 /\ 168 <= bval b2 <= 169.
Proof.
  unfold separator. destruct s as [|b [|b1 [|b2' s']]]; [done..|]. destruct (Z.eqb_spec (bval b) 226), (Z.eqb_spec (bval b1) 128); cbn [andb]; try done.
  destruct (between_spec 168 169 (bval b2')); [|done]. intros [= <- <-]. by exists b, b1.
Qed.

Lemma separator_no b s : bval b <> 226 -> separator (b :: s) = None.
Proof. intros Hb. unfold separator. destruct s as [|b1 [|b2 s]]; [done..|]. by destruct (Z.eqb_spec (bval b) 226). Qed.

Lemma separator_app a b : ascii_head b -> a <> [] ->
  separator (a ++ b) = (fun p : byte * bytes => (p.1, p.2 ++ b)) <$> separator a.
Proof.
  intros Hb Ha. destruct a as [|x [|y [|z a]]]; [done|..]; cbn [app].
  - destruct b as [|c b]; [done|]. cbn in *. destruct b as [|c2 b]; [done|]. destruct (Z.eqb_spec (bval c) 128); [lia|]. by rewrite andb_false_r.
  - destruct b as [|c b]; [done|]. cbn in *. destruct (between_spec 168 169 (bval c)); [lia|]. by rewrite andb_false_r.
  - cbn. by destruct (_ && _).
Qed.

Lemma compact_app p a b : ascii_head b -> compact p (a ++ b) = compact p a ++ compact (places p a) b.
Proof.
  intros Hb. revert p. induction a as [a IH] using (induction_ltof1 _ (@length byte)). unfold ltof in IH. intros p.
  destruct a as [|x a]; [done|]. cbn [app]. rewrite !compact_cons.
  change (x :: a ++ b) with ((x :: a) ++ b). rewrite separator_app by done.
  destruct (separator (x :: a)) as [[b2 s3]|] eqn:Hs; cbn [fmap option_fmap option_map fst snd].
  - apply separator_inv in Hs as (b0 & b1 & [= -> ->] & E0 & E1 & E2). rewrite IH by (simpl; lia).
    unfold places. cbn [foldl]. rewrite (next_place_high _ b2), (next_place_high _ b1), (next_place_high p b0) by lia.
    rewrite <- app_assoc. by destruct p.
  - rewrite IH by (simpl; lia). unfold places. cbn [foldl]. by rewrite app_assoc.
Qed.

Lemma places_app p a b : places p (a ++ b) = places (places p a) b.
Proof. unfold places. by rewrite foldl_app. Qed.

(** Spaces between tokens are dropped. *)
Lemma skip_space_inv s : exists sp, s = sp ++ skip_space s /\ Forall (fun b => is_space b = true) sp.
Proof.
  induction s as [|b s (sp & E & Hsp)]; [by exists []|]. cbn [skip_space]. destruct (is_space b) eqn:Hb; [|by exists []].
  exists (b :: sp). split; [cbn; by rewrite <- E|by constructor].
Qed.

Lemma space_code b : is_space b = true -> bval b <> 226 /\ html_special (bval b) = false /\ next_place Outside b = Outside.
Proof.
  unfold is_space. intros Hb.
  assert (bval b = 32 \/ bval b = 9 \/ bval b = 13 \/ bval b = 10) as Hc.
  { destruct (Z.eqb_spec (bval b) 32), (Z.eqb_spec (bval b) 9), (Z.eqb_spec (bval b) 13), (Z.eqb_spec (bval b) 10); cbn in Hb; auto; done. }
  split; [lia|]. split; [by destruct Hc as [->|[->|[->| ->]]]|]. cbn [next_place]. rewrite bool_decide_false; [done|].
  intros ->. change (bval quote) with 34 in Hc. lia.
Qed.

Lemma compact_spaces sp s : Forall (fun b => is_space b = true) sp ->
  compact Outside (sp ++ s) = compact Outside s /\ places Outside sp = Outside.
Proof.
  induction 1 as [|b sp Hb _ [IH1 IH2]]; [done|]. destruct (space_code b Hb) as (E1 & E2 & E3). cbn [app]. split.
  - rewrite compact_cons, separator_no, E3, IH1 by done. unfold compact_byte. by rewrite E2, Hb.
  - unfold places in *. cbn [foldl]. by rewrite E3.
Qed.

(** A byte outside strings that stays. *)
Definition kept (b : byte) : Prop := bval b <> 226 /\ html_special (bval b) = false /\ is_space b = false /\ b <> quote /\ bval b < 128.

Lemma compact_kept b s : kept b -> compact Outside (b :: s) = b :: compact Outside s /\ next_place Outside b = Outside.
Proof.
  intros (E1 & E2 & E3 & E4 & _). assert (next_place Outside b = Outside) as E by (cbn [next_place]; by rewrite bool_decide_false).
  split; [|done]. rewrite compact_cons, separator_no, E by done. unfold compact_byte. by rewrite E2, E3.
Qed.

Lemma compact_all_kept t : Forall kept t -> compact Outside t = t /\ places Outside t = Outside.
Proof.
  induction 1 as [|b t Hb _ [IH1 IH2]]; [done|]. destruct (compact_kept b t Hb) as [E1 E2].
  rewrite E1, IH1. split; [done|]. unfold places in *. cbn [foldl]. by rewrite E2.
Qed.

(** Strings stay strings. *)
Lemma body_place t : str_body t -> places Inside t = Inside.
Proof.
  unfold places. induction 1 as [|e t He _ IH|u h1 h2 h3 h4 t Hu H1 H2 H3 H4 _ IH|b t Hq Hb Hc _ IH]; [done|cbn [foldl next_place]..].
  - by rewrite bool_decide_false, bool_decide_true.
  - rewrite bool_decide_false, bool_decide_true by done.
    assert (forall h, is_hex h = true -> h <> quote /\ h <> backslash) as Hhex by (intros h Hh; split; intros ->; by vm_compute in Hh).
    destruct (Hhex _ H1), (Hhex _ H2), (Hhex _ H3), (Hhex _ H4).
    by repeat (cbn [next_place]; rewrite !bool_decide_false by done).
  - by rewrite !bool_decide_false.
Qed.

Lemma hex_code h : is_hex h = true -> bval h <> 226 /\ html_special (bval h) = false /\ is_space h = false.
Proof. intros Hh. destruct h; (try (by vm_compute in Hh)); vm_compute; split_and!; (discriminate || reflexivity). Qed.

(** A byte that compaction keeps inside a string. *)
Lemma compact_inside p b s : p <> Outside -> bval b <> 226 -> html_special (bval b) = false ->
  compact p (b :: s) = b :: compact (next_place p b) s.
Proof.
  intros Hp H1 H2. rewrite compact_cons, separator_no by done. unfold compact_byte. rewrite H2. by destruct (is_space b), p.
Qed.

Lemma plain_tail b t : 128 <= bval b -> str_body (b :: t) -> str_body t.
Proof.
  intros Hb Ht. inversion Ht; subst; [..|done]; exfalso; change (bval backslash) with 92 in Hb; lia.
Qed.

Lemma compact_body t : str_body t -> str_body (compact Inside t).
Proof.
  induction t as [t IH] using (induction_ltof1 _ (@length byte)). unfold ltof in IH. intros Ht.
  assert (next_place Inside backslash = Escaped) as Hback by (by vm_compute).
  destruct Ht as [|e t He Ht|u h1 h2 h3 h4 t Hu H1 H2 H3 H4 Ht|b t Hq Hb Hc Ht].
  - constructor.
  - destruct (escapes_chars e He) as (E1 & E2 & E3 & E4).
    rewrite compact_inside, Hback by done. rewrite compact_inside by done. constructor; [done|]. apply IH; [simpl; lia|done].
  - rewrite compact_inside, Hback by done. rewrite compact_inside by (done || by rewrite Hu).
    assert (forall h, is_hex h = true -> next_place Inside h = Inside) as Hn.
    { intros h Hh. cbn [next_place]. rewrite !bool_decide_false; [done|..]; intros ->; by vm_compute in Hh. }
    assert (forall h s, is_hex h = true -> compact Inside (h :: s) = h :: compact Inside s) as Hhex.
    { intros h s Hh. destruct (hex_code h Hh) as (? & ? & ?). rewrite compact_inside by done. by rewrite Hn. }
    cbn [next_place]. rewrite !Hhex by done. apply sb_unicode; [done..|]. apply IH; [simpl; lia|done].
  - assert (next_place Inside b = Inside) as Hn by (cbn [next_place]; by rewrite !bool_decide_false).
    rewrite compact_cons, Hn. destruct (separator (b :: t)) as [[b2 s3]|] eqn:Hs.
    + apply separator_inv in Hs as (b0 & b1 & [= <- ->] & E0 & E1 & E2). apply unicode_escape_body; [lia|].
      apply IH; [simpl; lia|]. apply (plain_tail b2); [lia|]. apply (plain_tail b1); [lia|done].
    + specialize (IH t ltac:(simpl; lia) Ht). unfold compact_byte. destruct (html_special (bval b)).
      * apply unicode_escape_body; [lia|done].
      * assert ((if is_space b then [b] else [b]) = [b]) as -> by (by destruct (is_space b)). by constructor.
Qed.

(** A literal, compacted. *)
Lemma compact_literal body s : str_body body -> ascii_head s ->
  compact Outside (quote :: body ++ quote :: s) = quote :: compact Inside body ++ quote :: compact Outside s.
Proof.
  intros Hb Hs. rewrite compact_cons, separator_no by done. change (compact_byte Outside quote) with [quote].
  change (next_place Outside quote) with Inside. cbn [app]. f_equal. rewrite compact_app by done. f_equal.
  rewrite (body_place body Hb). rewrite compact_cons, separator_no by done. done.
Qed.

Lemma literal_places body : str_body body -> places Outside (quote :: body ++ [quote]) = Outside.
Proof.
  intros Hb. change (quote :: body ++ [quote]) with ([quote] ++ body ++ [quote]). rewrite !places_app.
  change (places Outside [quote]) with Inside. by rewrite (body_place body Hb).
Qed.

(** ** Numbers *)

Definition number_char (b : byte) : bool :=
  is_digit b || (bval b =? 43) || (bval b =? 45) || (bval b =? 46) || (bval b =? 101) || (bval b =? 69).

Lemma number_char_code b : bval b = 43 \/ bval b = 45 \/ bval b = 46 \/ bval b = 101 \/ bval b = 69 -> number_char b = true.
Proof. unfold number_char. by intros [E|[E|[E|[E|E]]]]; rewrite E; destruct (is_digit b). Qed.

(** What follows a value in compact text: nothing, a comma, or a closing bracket. *)
Definition delim (s : bytes) : Prop :=
  match s with b :: _ => bval b = 44 \/ bval b = 93 \/ bval b = 125 | [] => True end.

Definition no_digit (s : bytes) : Prop := match s with b :: _ => is_digit b = false | [] => True end.

Lemma scan_digits_inv s d r : scan_digits s = (d, r) ->
  s = d ++ r /\ Forall (fun b => is_digit b = true) d /\ forall x, no_digit x -> scan_digits (d ++ x) = (d, x).
Proof.
  revert d. induction s as [|b s IH]; intros d; cbn [scan_digits].
  { intros [= <- <-]. split_and!; [done..|]. intros [|c x] Hx; [done|]. cbn in *. by rewrite Hx. }
  destruct (is_digit b) eqn:Hb.
  - destruct (scan_digits s) as [d' r'] eqn:E. intros [= <- <-]. destruct (IH d' eq_refl) as (-> & Hd & Hx).
    split; [done|]. split; [by constructor|]. intros x Hno. cbn [app scan_digits]. by rewrite Hb, Hx.
  - intros [= <- <-]. split_and!; [done..|]. intros [|c x] Hx; [done|]. cbn in *. by rewrite Hx.
Qed.

Lemma scan_digits1_inv s d r : scan_digits1 s = Some (d, r) ->
  s = d ++ r /\ Forall (fun b => is_digit b = true) d /\ d <> [] /\ forall x, no_digit x -> scan_digits1 (d ++ x) = Some (d, x).
Proof.
  unfold scan_digits1. destruct (scan_digits s) as [[|b d'] r'] eqn:E; [done|]. intros [= <- <-].
  destruct (scan_digits_inv _ _ _ E) as (-> & Hd & Hx). split_and!; [done..|]. intros x Hno. by rewrite Hx.
Qed.

Lemma digits_number d : Forall (fun b => is_digit b = true) d -> Forall (fun b => number_char b = true) d.
Proof. intros Hd. eapply Forall_impl; [exact Hd|]. intros b Hb. unfold number_char. by rewrite Hb. Qed.

Definition head_is (P : Z -> bool) (s : bytes) : Prop := match s with b :: _ => P (bval b) = true | [] => False end.

Lemma scan_int_inv s i r : scan_int s = Some (i, r) ->
  s = i ++ r /\ Forall (fun b => number_char b = true) i /\ i <> [] /\ forall x, no_digit x -> scan_int (i ++ x) = Some (i, x).
Proof.
  unfold scan_int. destruct s as [|b s]; [done|]. destruct (bval b =? 48) eqn:Hb.
  - intros [= <- <-]. split_and!; [done| |done|intros x _; cbn; by rewrite Hb]. apply digits_number. constructor; [|done].
    apply Z.eqb_eq in Hb. unfold is_digit. by rewrite Hb.
  - intros Hd. destruct (scan_digits1_inv _ _ _ Hd) as (E & Hall & Hne & Hx). split; [done|]. split; [by apply digits_number|].
    split; [done|]. intros x Hno. destruct i as [|c i]; [done|]. cbn [app] in E. injection E as <- _. cbn [app]. rewrite Hb.
    by apply (Hx x).
Qed.

Lemma scan_frac_inv s f r : scan_frac s = Some (f, r) ->
  s = f ++ r /\ Forall (fun b => number_char b = true) f /\ (f = [] \/ head_is (Z.eqb 46) f) /\
  forall x, no_digit x -> ~ head_is (Z.eqb 46) x -> scan_frac (f ++ x) = Some (f, x).
Proof.
  unfold scan_frac. intros Hf.
  assert (forall x, ~ head_is (Z.eqb 46) x -> scan_frac ([] ++ x) = Some ([], x)) as Hnil.
  { intros [|c x] Hx; [done|]. cbn [app]. unfold scan_frac, head_is in *. destruct (Z.eqb_spec (bval c) 46) as [E|]; [by destruct Hx; rewrite E|done]. }
  destruct s as [|b s]; [injection Hf as <- <-; split_and!; [done..|by left|intros x _; apply Hnil]|].
  destruct (bval b =? 46) eqn:Hb; [|injection Hf as <- <-; split_and!; [done..|by left|intros x _; apply Hnil]].
  apply bind_Some in Hf as ([d r'] & Hd & [= <- <-]). destruct (scan_digits1_inv _ _ _ Hd) as (-> & Hall & Hne & Hx).
  split; [done|]. split.
  { constructor; [|by apply digits_number]. apply Z.eqb_eq in Hb. apply number_char_code. auto. }
  split; [right; unfold head_is; by rewrite Z.eqb_sym|]. intros x Hno _. cbn [app]. rewrite Hb, Hx by done. done.
Qed.

Definition exp_char (c : Z) : bool := (c =? 101) || (c =? 69).

Lemma scan_exp_inv s e r : scan_exp s = Some (e, r) ->
  s = e ++ r /\ Forall (fun b => number_char b = true) e /\ (e = [] \/ head_is exp_char e) /\
  forall x, no_digit x -> ~ head_is exp_char x -> scan_exp (e ++ x) = Some (e, x).
Proof.
  unfold scan_exp. intros Hf.
  assert (forall x, ~ head_is exp_char x -> scan_exp ([] ++ x) = Some ([], x)) as Hnil.
  { intros [|c x] Hx; [done|]. cbn in *. unfold exp_char in Hx. destruct ((bval c =? 101) || (bval c =? 69)); [by destruct Hx|done]. }
  destruct s as [|b s]; [injection Hf as <- <-; split_and!; [done..|by left|intros x _; apply Hnil]|].
  destruct ((bval b =? 101) || (bval b =? 69)) eqn:Hb; [|injection Hf as <- <-; split_and!; [done..|by left|intros x _; apply Hnil]].
  assert (number_char b = true) as Hnb.
  { apply number_char_code. apply orb_true_iff in Hb as [E%Z.eqb_eq|E%Z.eqb_eq]; auto. }
  assert (forall c, is_digit c = true -> (bval c =? 43) || (bval c =? 45) = false) as Hsign.
  { intros c Hc. unfold is_digit in Hc. destruct (between_spec 48 57 (bval c)); [|done]. destruct (Z.eqb_spec (bval c) 43), (Z.eqb_spec (bval c) 45); done || lia. }
  destruct s as [|c s]; [done|]. destruct ((bval c =? 43) || (bval c =? 45)) eqn:Hc.
  - apply bind_Some in Hf as ([d r'] & Hd & [= <- <-]). destruct (scan_digits1_inv _ _ _ Hd) as (-> & Hall & Hne & Hx).
    split; [done|]. split.
    { constructor; [done|]. constructor; [|by apply digits_number]. apply number_char_code. apply orb_true_iff in Hc as [E%Z.eqb_eq|E%Z.eqb_eq]; auto. }
    split; [by right|]. intros x Hno _. cbn [app]. rewrite Hb, Hc, Hx by done. done.
  - apply bind_Some in Hf as ([d r'] & Hd & [= <- <-]). destruct (scan_digits1_inv _ _ _ Hd) as (E & Hall & Hne & Hx).
    split; [cbn; by rewrite E|]. split; [constructor; [done|by apply digits_number]|]. split; [by right|].
    intros x Hno _. cbn [app]. rewrite Hb. destruct d as [|c' d]; [done|]. cbn [app]. apply Forall_cons in Hall as [Hc' _].
    rewrite (Hsign c') by done. change (c' :: d ++ x) with ((c' :: d) ++ x). by rewrite Hx.
Qed.

Lemma no_digit_tail e x : (e = [] \/ head_is exp_char e) -> delim x -> no_digit (e ++ x).
Proof.
  intros He Hx.
  assert (forall c : byte, bval c = 44 \/ bval c = 93 \/ bval c = 125 \/ exp_char (bval c) = true -> is_digit c = false) as Hc.
  { intros c Hc. unfold is_digit, exp_char in *. destruct (between_spec 48 57 (bval c)); [|done].
    destruct (Z.eqb_spec (bval c) 101), (Z.eqb_spec (bval c) 69); cbn in Hc; destruct Hc as [?|[?|[?|?]]]; (lia || done). }
  destruct e as [|c e]; [|destruct He as [|He]; [done|]; apply Hc; auto].
  cbn [app]. destruct x as [|c x]; [done|]. apply Hc. cbn in Hx. naive_solver.
Qed.

Lemma scan_number_inv s t r : scan_number s = Some (t, r) ->
  s = t ++ r /\ Forall (fun b => number_char b = true) t /\ t <> [] /\ forall x, delim x -> scan_number (t ++ x) = Some (t, x).
Proof.
  unfold scan_number. intros H.
  assert (exists sign s1, s = sign ++ s1 /\ (sign = [] \/ exists b, sign = [b] /\ bval b = 45) /\
    ('(i, s) ← scan_int s1; '(f, s) ← scan_frac s; '(e, s) ← scan_exp s; Some (sign ++ i ++ f ++ e, s)) = Some (t, r)) as (sign & s1 & -> & Hs & H').
  { destruct s as [|b s]; [exists [], []; auto|]. destruct (Z.eqb_spec (bval b) 45); [|by exists [], (b :: s); auto].
    exists [b], s. split; [done|]. split; [right; by exists b|done]. }
  clear H. apply bind_Some in H' as ([i s2] & Hi & H). apply bind_Some in H as ([f s3] & Hf & H).
  apply bind_Some in H as ([e s4] & He & H). injection H as <- <-.
  destruct (scan_int_inv _ _ _ Hi) as (-> & I1 & I2 & I3). destruct (scan_frac_inv _ _ _ Hf) as (-> & F1 & F2 & F3).
  destruct (scan_exp_inv _ _ _ He) as (-> & E1 & E2 & E3). clear Hi Hf He.
  split; [by rewrite <- !app_assoc|]. split.
  { repeat (apply Forall_app; split); try done. destruct Hs as [->|(b & -> & Hb)]; [done|]. constructor; [|done]. apply number_char_code. auto. }
  split; [by destruct sign, i|]. intros x Hx.
  assert (no_digit (e ++ x)) as Hn by (by apply no_digit_tail).
  assert (~ head_is exp_char x /\ no_digit x) as [Hex Hnx].
  { split; [|by apply (no_digit_tail []); [left|]]. destruct x as [|c x]; [by intros []|]. unfold head_is, exp_char. cbn in Hx.
    destruct (Z.eqb_spec (bval c) 101), (Z.eqb_spec (bval c) 69); (lia || done). }
  assert (~ head_is (Z.eqb 46) (e ++ x)) as Hdot.
  { destruct e as [|c e]; cbn [app].
    - destruct x as [|c x]; [by intros []|]. unfold head_is. cbn in Hx. destruct (Z.eqb_spec 46 (bval c)); (lia || done).
    - destruct E2 as [|E2]; [done|]. intros Hd. unfold head_is, exp_char in *. apply Z.eqb_eq in Hd. by rewrite <- Hd in E2. }
  assert (no_digit (f ++ e ++ x)) as Hnf.
  { destruct f as [|c f]; [done|]. destruct F2 as [|F2]; [done|]. unfold head_is in F2. apply Z.eqb_eq in F2. cbn.
    unfold is_digit. by rewrite <- F2. }
  assert (('(i, s) ← scan_int (i ++ f ++ e ++ x); '(f, s) ← scan_frac s; '(e, s) ← scan_exp s; Some (sign ++ i ++ f ++ e, s)) =
    Some (sign ++ i ++ f ++ e, x)) as Hrun.
  { rewrite I3 by done. cbn [mbind option_bind]. rewrite F3 by done. cbn [mbind option_bind]. by rewrite E3. }
  rewrite <- !app_assoc. destruct Hs as [->|(b & -> & Hb)]; cbn [app] in *.
  - destruct i as [|c i]; [done|]. cbn [app] in *. assert (bval c <> 45) as Hc.
    { intros Hc. specialize (I3 [] I). cbn [app] in I3. unfold scan_int, scan_digits1 in I3. cbn [scan_digits] in I3. rewrite Hc in I3. cbn in I3.
      unfold is_digit in I3. rewrite Hc in I3. done. }
    destruct (Z.eqb_spec (bval c) 45); [done|]. exact Hrun.
  - destruct (Z.eqb_spec (bval b) 45); [|done]. exact Hrun.
Qed.

Lemma number_kept t : Forall (fun b => number_char b = true) t -> Forall kept t.
Proof.
  intros Ht. eapply Forall_impl; [exact Ht|]. intros b Hb.
  destruct b; (try (by vm_compute in Hb)); vm_compute; split_and!; (discriminate || reflexivity).
Qed.

Lemma scan_word_inv w v s u r : scan_word w v s = Some (u, r) ->
  s = w ++ r /\ forall x, scan_word w v (w ++ x) = Some (v, x).
Proof.
  unfold scan_word. case_bool_decide as E; [|done]. intros [= <- <-]. split; [by rewrite <- E at 1; rewrite take_drop|].
  intros x. rewrite bool_decide_true by apply take_app_length. by rewrite drop_app_length.
Qed.

(** ** Values *)

Lemma value_head f d s v r : scan_value f d s = Some (v, r) ->
  exists b s', s = b :: s' /\ is_space b = false /\ bval b <> 93 /\ bval b <> 125.
Proof.
  destruct f as [|f]; [done|]. destruct s as [|b s]; [done|]. cbn [scan_value]. intros H. exists b, s. split; [done|].
  assert (forall c, bval b = c -> (c =? 32) || (c =? 9) || (c =? 13) || (c =? 10) = false -> c <> 93 -> c <> 125 ->
    is_space b = false /\ bval b <> 93 /\ bval b <> 125) as Hc by (intros c <- ? ? ?; by split_and!).
  destruct (Z.eqb_spec (bval b) 34); [by eapply Hc|]. destruct (Z.eqb_spec (bval b) 123); [by eapply Hc|].
  destruct (Z.eqb_spec (bval b) 91); [by eapply Hc|]. destruct (Z.eqb_spec (bval b) 110); [by eapply Hc|].
  destruct (Z.eqb_spec (bval b) 116); [by eapply Hc|]. destruct (Z.eqb_spec (bval b) 102); [by eapply Hc|].
  apply bind_Some in H as ([t r'] & Hn & _). destruct (scan_number_inv _ _ _ Hn) as (E & Hall & Hne & _).
  destruct t as [|c t]; [done|]. injection E as <- _. apply Forall_cons in Hall as [Hb _].
  destruct b; (try (by vm_compute in Hb)); vm_compute; split_and!; (discriminate || reflexivity).
Qed.

Lemma skip_space_value f d s x y v r : scan_value f d s = Some (v, r) -> s = x ++ y -> skip_space (x ++ y) = x ++ y.
Proof. intros (b & s' & E & Hb & _)%value_head <-. rewrite E. by apply skip_space_no. Qed.

Lemma members_head f d s ms r : scan_members f d s = Some (ms, r) -> exists s', s = quote :: s'.
Proof.
  destruct f as [|f]; [done|]. destruct s as [|b s]; [done|]. cbn [scan_members].
  destruct (Z.eqb_spec (bval b) 34) as [E|]; [|done]. intros _. exists s. f_equal. by rewrite <- (byte_of_bval b), E.
Qed.

Lemma elems_head f d s es r : scan_elems f d s = Some (es, r) ->
  exists b s', s = b :: s' /\ is_space b = false /\ bval b <> 93 /\ bval b <> 125.
Proof. destruct f as [|f]; [done|]. cbn [scan_elems]. intros ([v r1] & Hv & _)%bind_Some. by eapply value_head. Qed.

(** Text, spaces, and a byte that stays. *)
Lemma compact_sep w sp q t :
  places Outside w = Outside -> Forall (fun b => is_space b = true) sp -> kept q ->
  compact Outside (w ++ sp ++ q :: t) = compact Outside w ++ q :: compact Outside t /\
  places Outside (w ++ sp ++ q :: t) = places Outside t.
Proof.
  intros Hw Hsp Hq. destruct (compact_spaces sp (q :: t) Hsp) as [E1 E2]. destruct (compact_kept q t Hq) as [E3 E4].
  assert (ascii_head (sp ++ q :: t)) as Ha.
  { destruct Hsp as [|b sp Hb]; [apply Hq|]. unfold is_space in Hb. cbn.
    destruct (Z.eqb_spec (bval b) 32), (Z.eqb_spec (bval b) 9), (Z.eqb_spec (bval b) 13), (Z.eqb_spec (bval b) 10); (lia || done). }
  split.
  - by rewrite compact_app, Hw, E1, E3.
  - rewrite !places_app, Hw, E2. unfold places. cbn [foldl]. by rewrite E4.
Qed.

Lemma kept_code q : bval q = 44 \/ bval q = 58 \/ bval q = 91 \/ bval q = 93 \/ bval q = 123 \/ bval q = 125 -> kept q.
Proof.
  intros Hq. unfold kept, is_space, html_special. assert (q <> quote) by (intros ->; change (bval quote) with 34 in Hq; lia).
  destruct Hq as [E|[E|[E|[E|[E|E]]]]]; rewrite E; split_and!; (done || lia).
Qed.

Definition rescans (f : nat) (d : Z) (w : bytes) : Prop :=
  forall x, delim x -> exists v, scan_value f d (compact Outside w ++ x) = Some (v, x).

(** A value's text, with what compaction leaves of it. *)
Definition value_text (f : nat) (d : Z) (w : bytes) : Prop := places Outside w = Outside /\ rescans f d w.

Lemma scan_elems_compact f d s es r :
  (forall d s v r, scan_value f d s = Some (v, r) -> exists w, s = w ++ r /\ value_text f d w) ->
  (forall d s es r, scan_elems f d s = Some (es, r) -> exists w, s = w ++ r /\ places Outside w = Outside /\
     forall x, exists es', scan_elems f d (compact Outside w ++ x) = Some (es', x)) ->
  scan_elems (S f) d s = Some (es, r) ->
  exists w, s = w ++ r /\ places Outside w = Outside /\
    forall x, exists es', scan_elems (S f) d (compact Outside w ++ x) = Some (es', x).
Proof.
  intros Hv He H. cbn [scan_elems] in H. apply bind_Some in H as ([v r1] & H1 & H).
  destruct (Hv _ _ _ _ H1) as (w1 & -> & P1 & R1). destruct (skip_space_inv r1) as (sp & E & Hsp).
  destruct (skip_space r1) as [|q r2]; [done|]. subst r1.
  destruct (Z.eqb_spec (bval q) 93) as [Hq|].
  - injection H as _ <-. destruct (compact_sep w1 sp q [] P1 Hsp (kept_code q ltac:(auto))) as [C1 C2].
    exists (w1 ++ sp ++ [q]). split; [by rewrite <- !app_assoc|]. split; [by rewrite C2|]. intros x. rewrite C1. change (compact Outside []) with (@nil byte).
    destruct (R1 (q :: x)) as [v' R]; [right; by left|]. cbn [scan_elems]. rewrite <- app_assoc. cbn [app]. rewrite R.
    cbn [mbind option_bind]. rewrite skip_space_no by (apply kept_code; auto). rewrite Hq. by eexists.
  - destruct (Z.eqb_spec (bval q) 44) as [Hq|]; [|done]. apply bind_Some in H as ([es2 r3] & H2 & [= _ <-]).
    destruct (skip_space_inv r2) as (sp2 & E2 & Hsp2). destruct (He _ _ _ _ H2) as (w2 & E3 & P2 & R2). rewrite E3 in E2.
    destruct (compact_sep w1 sp q (sp2 ++ w2) P1 Hsp (kept_code q ltac:(auto))) as [C1 C2].
    destruct (compact_spaces sp2 w2 Hsp2) as [C3 C4].
    exists (w1 ++ sp ++ q :: sp2 ++ w2). split; [rewrite E2, <- !app_assoc; cbn; by rewrite <- !app_assoc|].
    split; [by rewrite C2, places_app, C4|]. intros x. rewrite C1, C3. destruct (R2 x) as [es' R].
    destruct (R1 (q :: compact Outside w2 ++ x)) as [v' R']; [by left|].
    cbn [scan_elems]. rewrite <- app_assoc. cbn [app]. rewrite R'. cbn [mbind option_bind].
    rewrite skip_space_no by (apply kept_code; auto). rewrite Hq. cbn [Z.eqb Pos.eqb].
    destruct (elems_head _ _ _ _ _ R) as (b & s' & Eh & Hb & _). rewrite Eh in *. rewrite skip_space_no by done. rewrite R. by eexists.
Qed.

(** One member: its name, a colon and a value that scans. *)
Lemma scan_member_text f d name x y v r :
  str_body name -> scan_value f d (x ++ y) = Some (v, r) ->
  scan_members (S f) d (quote :: name ++ quote :: colon :: x ++ y) =
    match skip_space r with
    | q :: r' =>
        if bval q =? 125 then Some ([(name, upto (x ++ y) r)], r') else
        if bval q =? 44 then '(ms, r'') ← scan_members f d (skip_space r'); Some ((name, upto (x ++ y) r) :: ms, r'')
        else None
    | [] => None
    end.
Proof.
  intros Hn Hv. cbn [scan_members]. change (bval quote =? 34) with true. cbn [negb].
  rewrite scan_string_body by done. cbn [mbind option_bind].
  rewrite skip_space_no by done. change (bval colon =? 58) with true. cbn [negb].
  rewrite (skip_space_value f d (x ++ y) x y v r) by done. by rewrite Hv.
Qed.

(** The head of a member: name, colon, and where the value starts. *)
Lemma member_head name sp0 sp1 t :
  str_body name -> Forall (fun b => is_space b = true) sp0 -> Forall (fun b => is_space b = true) sp1 ->
  compact Outside (quote :: name ++ quote :: sp0 ++ colon :: sp1 ++ t) =
    quote :: compact Inside name ++ quote :: colon :: compact Outside t /\
  places Outside (quote :: name ++ quote :: sp0 ++ colon :: sp1 ++ t) = places Outside t.
Proof.
  intros Hn H0 H1. destruct (compact_spaces sp1 t H1) as [C3 C4].
  destruct (compact_sep (quote :: name ++ [quote]) sp0 colon (sp1 ++ t) (literal_places name Hn) H0 (kept_code colon ltac:(auto))) as [C1 C2].
  assert (quote :: name ++ quote :: sp0 ++ colon :: sp1 ++ t = (quote :: name ++ [quote]) ++ sp0 ++ colon :: sp1 ++ t) as E
    by (cbn; by rewrite <- app_assoc).
  rewrite E, C1, C2, C3, places_app, C4, (compact_literal name [] Hn I). split; [|done].
  change (compact Outside []) with (@nil byte). cbn. by rewrite <- app_assoc.
Qed.

Lemma scan_members_compact f d s ms r :
  (forall d s v r, scan_value f d s = Some (v, r) -> exists w, s = w ++ r /\ value_text f d w) ->
  (forall d s ms r, scan_members f d s = Some (ms, r) -> exists w, s = w ++ r /\ places Outside w = Outside /\
     (forall x, exists ms', scan_members f d (compact Outside w ++ x) = Some (ms', x)) /\
     Forall (fun p => str_body p.1 /\ exists g, value_text g d p.2) ms) ->
  scan_members (S f) d s = Some (ms, r) ->
  exists w, s = w ++ r /\ places Outside w = Outside /\
    (forall x, exists ms', scan_members (S f) d (compact Outside w ++ x) = Some (ms', x)) /\
    Forall (fun p => str_body p.1 /\ exists g, value_text g d p.2) ms.
Proof.
  intros Hv Hm H. destruct (members_head _ _ _ _ _ H) as (s1 & ->). cbn [scan_members] in H.
  change (bval quote =? 34) with true in H. cbn [negb] in H. apply bind_Some in H as ([name r0] & Hn & H).
  destruct (scan_string_inv _ _ _ Hn) as [-> Hbody]. destruct (skip_space_inv r0) as (sp0 & E0 & Hsp0).
  destruct (skip_space r0) as [|q0 r1]; [done|]. subst r0. destruct (Z.eqb_spec (bval q0) 58) as [Hq0|]; [|done]. cbn [negb] in H.
  assert (q0 = colon) as -> by (by rewrite <- (byte_of_bval q0), Hq0).
  apply bind_Some in H as ([v r2] & H1 & H). destruct (skip_space_inv r1) as (sp1 & E1 & Hsp1).
  destruct (Hv _ _ _ _ H1) as (w1 & Ew & P1 & R1). rewrite Ew, upto_app in H. rewrite Ew in E1. subst r1.
  destruct (skip_space_inv r2) as (sp & E & Hsp). destruct (skip_space r2) as [|q r3]; [done|]. subst r2.
  destruct (Z.eqb_spec (bval q) 125) as [Hq|].
  - injection H as <- <-. destruct (compact_sep w1 sp q [] P1 Hsp (kept_code q ltac:(auto 7))) as [C1 C2].
    destruct (member_head name sp0 sp1 (w1 ++ sp ++ [q]) Hbody Hsp0 Hsp1) as [D1 D2].
    exists (quote :: name ++ quote :: sp0 ++ colon :: sp1 ++ w1 ++ sp ++ [q]).
    split; [cbn; by rewrite <- !app_assoc; cbn; rewrite <- !app_assoc; cbn; rewrite <- !app_assoc|]. split; [by rewrite D2, C2|].
    split; [|constructor; [|constructor]; split; [done|by exists f]]. intros x. rewrite D1, C1.
    destruct (R1 (q :: x)) as [v' R]; [by right; right|]. change (compact Outside []) with (@nil byte).
    assert ((quote :: compact Inside name ++ quote :: colon :: compact Outside w1 ++ [q]) ++ x =
      quote :: compact Inside name ++ quote :: colon :: compact Outside w1 ++ q :: x) as -> by (cbn; rewrite <- app_assoc; cbn; by rewrite <- app_assoc).
    rewrite (scan_member_text _ _ _ _ _ _ _ (compact_body _ Hbody) R), skip_space_no by (apply kept_code; auto 7). rewrite Hq. by eexists.
  - destruct (Z.eqb_spec (bval q) 44) as [Hq|]; [|done]. apply bind_Some in H as ([ms2 r4] & H2 & [= <- <-]).
    destruct (skip_space_inv r3) as (sp2 & E2 & Hsp2). destruct (Hm _ _ _ _ H2) as (w2 & E3 & P2 & R2 & Hall). rewrite E3 in E2. subst r3.
    destruct (compact_sep w1 sp q (sp2 ++ w2) P1 Hsp (kept_code q ltac:(auto 7))) as [C1 C2].
    destruct (compact_spaces sp2 w2 Hsp2) as [C3 C4].
    destruct (member_head name sp0 sp1 (w1 ++ sp ++ q :: sp2 ++ w2) Hbody Hsp0 Hsp1) as [D1 D2].
    exists (quote :: name ++ quote :: sp0 ++ colon :: sp1 ++ w1 ++ sp ++ q :: sp2 ++ w2).
    split; [cbn; by rewrite <- !app_assoc; cbn; rewrite <- !app_assoc; cbn; rewrite <- !app_assoc; cbn; rewrite <- !app_assoc|].
    split; [by rewrite D2, C2, places_app, C4|].
    split; [|constructor; [split; [done|by exists f]|done]]. intros x. rewrite D1, C1, C3. destruct (R2 x) as [ms' R].
    destruct (R1 (q :: compact Outside w2 ++ x)) as [v' R']; [by left|].
    assert ((quote :: compact Inside name ++ quote :: colon :: compact Outside w1 ++ q :: compact Outside w2) ++ x =
      quote :: compact Inside name ++ quote :: colon :: compact Outside w1 ++ q :: compact Outside w2 ++ x) as ->
      by (cbn; rewrite <- app_assoc; cbn; by rewrite <- app_assoc).
    rewrite (scan_member_text _ _ _ _ _ _ _ (compact_body _ Hbody) R'), skip_space_no by (apply kept_code; auto 7). rewrite Hq. cbn [Z.eqb Pos.eqb].
    destruct (members_head _ _ _ _ _ R) as (s' & Eh). rewrite Eh in *. rewrite skip_space_no by done. rewrite R. by eexists.
Qed.

(** An opening bracket, spaces, and what follows. *)
Lemma compact_open b sp t : kept b -> Forall (fun b => is_space b = true) sp ->
  compact Outside (b :: sp ++ t) = b :: compact Outside t /\ places Outside (b :: sp ++ t) = places Outside t.
Proof.
  intros Hb Hsp. destruct (compact_kept b (sp ++ t) Hb) as [E1 E2]. destruct (compact_spaces sp t Hsp) as [E3 E4].
  split; [by rewrite E1, E3|]. change (b :: sp ++ t) with ([b] ++ sp ++ t). rewrite !places_app. unfold places at 3. cbn [foldl].
  by rewrite E2, E4.
Qed.

Lemma word_text f d w v :
  Forall kept w -> (forall x, scan_value (S f) d (w ++ x) = scan_word w v (w ++ x)) -> value_text (S f) d w.
Proof.
  intros Hk Hs. destruct (compact_all_kept w Hk) as [C1 C2]. split; [done|]. intros x Hx. rewrite C1, Hs.
  exists v. unfold scan_word. rewrite bool_decide_true by apply take_app_length. by rewrite drop_app_length.
Qed.

Lemma kept_word w : forallb (fun b => negb (bval b =? 226) && negb (html_special (bval b)) && negb (is_space b) &&
    negb (bool_decide (b = quote)) && (bval b <? 128)) w = true -> Forall kept w.
Proof.
  intros Hw. apply Forall_forall. intros b Hb. rewrite forallb_forall in Hw. specialize (Hw b). apply list_elem_of_In in Hb.
  specialize (Hw Hb). repeat (apply andb_true_iff in Hw as [Hw ?]). unfold kept.
  repeat match goal with H : negb _ = true |- _ => apply negb_true_iff in H end.
  split_and!; [by apply Z.eqb_neq|done|done|by apply bool_decide_eq_false in H0|by apply Z.ltb_lt].
Qed.

Definition scans (f : nat) : Prop :=
  (forall d s v r, scan_value f d s = Some (v, r) -> exists w, s = w ++ r /\ value_text f d w) /\
  (forall d s es r, scan_elems f d s = Some (es, r) -> exists w, s = w ++ r /\ places Outside w = Outside /\
     forall x, exists es', scan_elems f d (compact Outside w ++ x) = Some (es', x)) /\
  (forall d s ms r, scan_members f d s = Some (ms, r) -> exists w, s = w ++ r /\ places Outside w = Outside /\
     (forall x, exists ms', scan_members f d (compact Outside w ++ x) = Some (ms', x)) /\
     Forall (fun p => str_body p.1 /\ exists g, value_text g d p.2) ms).

(** An object's or array's text, from that of what is between the brackets. *)
Lemma bracket_text f d b sp w (P : bytes -> option (value * bytes)) :
  kept b -> Forall (fun b => is_space b = true) sp -> places Outside w = Outside ->
  (forall x, scan_value (S f) d (b :: compact Outside w ++ x) = P (compact Outside w ++ x)) ->
  (forall x, exists v, P (compact Outside w ++ x) = Some (v, x)) -> value_text (S f) d (b :: sp ++ w).
Proof.
  intros Hb Hsp Hw Hs HP. destruct (compact_open b sp w Hb Hsp) as [C1 C2]. split; [by rewrite C2|].
  intros x _. rewrite C1. cbn [app]. rewrite Hs. apply HP.
Qed.

(** A string. *)
Lemma string_compact f d s body r :
  scan_string s = Some (body, r) -> exists w, quote :: s = w ++ r /\ value_text (S f) d w.
Proof.
  intros Hs. destruct (scan_string_inv _ _ _ Hs) as [-> Hbody]. exists (quote :: body ++ [quote]). split; [cbn; by rewrite <- app_assoc|].
  split; [by apply literal_places|]. intros x _. rewrite (compact_literal body [] Hbody I). change (compact Outside []) with (@nil byte).
  cbn [app]. rewrite <- app_assoc. cbn [app scan_value]. change (bval quote =? 34) with true. cbn iota.
  rewrite scan_string_body by (by apply compact_body). by eexists.
Qed.

(** An object or an array: a bracket, and the other one or what [scan] reads. *)
Lemma bracketed {A} f d b close (empty : value) (mk : A -> value) (scan : bytes -> option (A * bytes)) s v r :
  let P y := match skip_space y with
    | q :: r => if bval q =? close then Some (empty, r) else '(a, r) ← scan (q :: r); Some (mk a, r)
    | [] => None end in
  kept b -> (forall q, bval q = close -> kept q /\ is_space q = false) -> (forall y, scan_value (S f) d (b :: y) = P y) ->
  (forall y a r, scan y = Some (a, r) -> exists w, y = w ++ r /\ places Outside w = Outside /\
     forall x, exists a' q t, scan (compact Outside w ++ x) = Some (a', x) /\ compact Outside w ++ x = q :: t /\ is_space q = false /\ bval q <> close) ->
  P s = Some (v, r) -> exists w, b :: s = w ++ r /\ value_text (S f) d w.
Proof.
  intros P Hkb Hclose Hopen Hscan H. unfold P in H. destruct (skip_space_inv s) as (sp & E & Hsp). destruct (skip_space s) as [|q r0]; [done|].
  destruct (Z.eqb_spec (bval q) close) as [Hq|].
  - injection H as <- <-. exists (b :: sp ++ [q]). split; [rewrite E; cbn; by rewrite <- app_assoc|].
    destruct (Hclose q Hq) as [Hk Hsq]. destruct (compact_kept q [] Hk) as [K1 K2].
    apply (bracket_text f d b sp [q] P); [done|done|unfold places; cbn [foldl]; by rewrite K2|intros x; apply Hopen|]. intros x. unfold P. rewrite K1.
    change (compact Outside []) with (@nil byte). cbn [app]. rewrite skip_space_no by done. rewrite (proj2 (Z.eqb_eq _ _)) by done. by eexists.
  - apply bind_Some in H as ([a r1] & Ha & [= <- <-]). destruct (Hscan _ _ _ Ha) as (w & Ew & Pw & Rw). rewrite Ew in E.
    exists (b :: sp ++ w). split; [rewrite E; cbn; by rewrite <- app_assoc|].
    apply (bracket_text f d b sp w P); [done..|intros x; apply Hopen|]. intros x. unfold P.
    destruct (Rw x) as (a' & c & t & R & Eh & Hc & Hne). rewrite Eh in *. rewrite skip_space_no by done.
    rewrite (proj2 (Z.eqb_neq _ _)) by done. rewrite R. by eexists.
Qed.

(** A number. *)
Lemma number_compact f d s t r :
  match s with b :: _ => Forall (fun c => bval b <> c) [34; 123; 91; 110; 116; 102] | [] => True end ->
  scan_number s = Some (t, r) -> exists w, s = w ++ r /\ value_text (S f) d w.
Proof.
  intros Hb Hn. destruct (scan_number_inv _ _ _ Hn) as (E & Hall & Hne & Hx). exists t. split; [done|].
  destruct (compact_all_kept t (number_kept t Hall)) as [C1 C2]. split; [done|]. intros x Hd.
  rewrite C1. destruct t as [|c t]; [done|]. rewrite E in Hb. cbn [app] in Hb.
  repeat (apply Forall_cons in Hb as [?%Z.eqb_neq Hb]). cbn [app scan_value].
  repeat match goal with H : (bval c =? _) = false |- _ => rewrite H; clear H end.
  change (c :: t ++ x) with ((c :: t) ++ x). rewrite Hx by done. by eexists.
Qed.

Lemma scan_value_compact f d s v r : scans f ->
  scan_value (S f) d s = Some (v, r) -> exists w, s = w ++ r /\ value_text (S f) d w.
Proof.
  intros (Hv & He & Hm) H. destruct s as [|b s]; [done|]. cbn [scan_value] in H.
  destruct (Z.eqb_spec (bval b) 34) as [Hb|].
  { assert (b = quote) as -> by (by rewrite <- (byte_of_bval b), Hb). apply bind_Some in H as ([body r'] & Hs & [= <- <-]).
    by eapply string_compact. }
  destruct (Z.eqb_spec (bval b) 123) as [Hb|].
  { destruct (d <=? 0) eqn:Hd; [done|].
    eapply (bracketed f d b 125 (Obj []) Obj (scan_members f (d - 1)));
      [apply kept_code; auto 7|intros q Hq; split; apply kept_code; auto 7|intros y; cbn [scan_value]; by rewrite Hb, Hd| |exact H].
    intros y ms r1 Hms. destruct (Hm _ _ _ _ Hms) as (w & Ew & Pw & Rw & _). exists w. split_and!; [done..|]. intros x.
    destruct (Rw x) as [ms' R]. destruct (members_head _ _ _ _ _ R) as (s' & Eh). by exists ms', quote, s'. }
  destruct (Z.eqb_spec (bval b) 91) as [Hb|].
  { destruct (d <=? 0) eqn:Hd; [done|].
    eapply (bracketed f d b 93 (Arr []) Arr (scan_elems f (d - 1)));
      [apply kept_code; auto 7|intros q Hq; split; apply kept_code; auto 7|intros y; cbn [scan_value]; by rewrite Hb, Hd| |exact H].
    intros y es r1 Hes. destruct (He _ _ _ _ Hes) as (w & Ew & Pw & Rw). exists w. split_and!; [done..|]. intros x.
    destruct (Rw x) as [es' R]. destruct (elems_head _ _ _ _ _ R) as (c & s' & Eh & Hc & Hc1 & _). by exists es', c, s'. }
  assert (forall c w u, bval b = c -> scan_word w u (b :: s) = Some (v, r) -> Forall kept w ->
    (forall x, scan_value (S f) d (w ++ x) = scan_word w u (w ++ x)) -> exists w, b :: s = w ++ r /\ value_text (S f) d w) as Hword.
  { intros c w u _ Hw Hk Hs. destruct (scan_word_inv _ _ _ _ _ Hw) as [E _]. exists w. split; [done|]. by apply (word_text f d w u). }
  destruct (Z.eqb_spec (bval b) 110); [by eapply Hword; [done|exact H|apply kept_word|]|].
  destruct (Z.eqb_spec (bval b) 116); [by eapply Hword; [done|exact H|apply kept_word|]|].
  destruct (Z.eqb_spec (bval b) 102); [by eapply Hword; [done|exact H|apply kept_word|]|].
  apply bind_Some in H as ([t r'] & Hn & [= <- <-]). eapply number_compact; [|done]. by repeat constructor.
Qed.

Lemma scan_compact f : scans f.
Proof.
  induction f as [|f IH]; [by split_and!|]. pose proof IH as (Hv & He & Hm). split_and!.
  - intros d s v r. by apply scan_value_compact.
  - intros d s es r. by apply scan_elems_compact.
  - intros d s ms r. by apply scan_members_compact.
Qed.

(** ** More fuel *)
Lemma scan_mono f :
  (forall g d s x, (f <= g)%nat -> scan_value f d s = Some x -> scan_value g d s = Some x) /\
  (forall g d s x, (f <= g)%nat -> scan_elems f d s = Some x -> scan_elems g d s = Some x) /\
  (forall g d s x, (f <= g)%nat -> scan_members f d s = Some x -> scan_members g d s = Some x).
Proof.
  induction f as [|f (IHv & IHe & IHm)]; [by split_and!|]. split_and!; intros [|g] d s x Hg; try lia.
  - destruct s as [|b s]; [done|]. cbn [scan_value]. destruct (bval b =? 34); [done|].
    destruct (bval b =? 123).
    { destruct (d <=? 0); [done|]. destruct (skip_space s) as [|q r]; [done|]. destruct (bval q =? 125); [done|].
      intros (p & Hp & H)%bind_Some. rewrite (IHm g _ _ p) by (lia || done). done. }
    destruct (bval b =? 91); [|done].
    destruct (d <=? 0); [done|]. destruct (skip_space s) as [|q r]; [done|]. destruct (bval q =? 93); [done|].
    intros (p & Hp & H)%bind_Some. rewrite (IHe g _ _ p) by (lia || done). done.
  - cbn [scan_elems]. intros ([v r] & Hv & H)%bind_Some. rewrite (IHv g _ _ (v, r)) by (lia || done). cbn [mbind option_bind].
    destruct (skip_space r) as [|q r']; [done|]. destruct (bval q =? 93); [done|]. destruct (bval q =? 44); [|done].
    apply bind_Some in H as (p & Hp & H). rewrite (IHe g _ _ p) by (lia || done). done.
  - destruct s as [|b s]; [done|]. cbn [scan_members]. destruct (negb _); [done|]. destruct (scan_string s) as [[name r]|]; [|done].
    cbn [mbind option_bind]. destruct (skip_space r) as [|q r1]; [done|]. destruct (negb _); [done|].
    intros ([v r2] & Hv & H)%bind_Some. rewrite (IHv g _ _ (v, r2)) by (lia || done). cbn [mbind option_bind].
    destruct (skip_space r2) as [|q' r3]; [done|]. destruct (bval q' =? 125); [done|]. destruct (bval q' =? 44); [|done].
    apply bind_Some in H as (p & Hp & H). rewrite (IHm g _ _ p) by (lia || done). done.
Qed.

(** What scans to its end with some fuel parses. *)
Lemma parse_of_scan g b s v :
  is_space b = false -> scan_value g maxNestingDepth (b :: s) = Some (v, []) -> parse (b :: s) = Some v.
Proof.
  intros Hb Hv. apply parse_value; [done|]. set (n := length (b :: s)).
  assert (scan_value (S (2 * n + g)) maxNestingDepth (b :: s) = Some (v, [])) as Hbig.
  { destruct (scan_mono g) as [Hm _]. apply Hm; [lia|done]. }
  destruct (scan_fuel n) as [Hf _]. rewrite <- Hbig. apply Hf; unfold n; lia.
Qed.

(** The members of an object that parsed: names and values are as compaction and
    quoting want them. *)
Lemma parse_members data members : parse data = Some (Obj members) ->
  Forall (fun p => str_body p.1 /\ exists g, value_text g (maxNestingDepth - 1) p.2) members.
Proof.
  unfold parse. intros ([v r] & Hv & H)%bind_Some. destruct (skip_space r); [|done]. injection H as ->.
  set (F := (2 * length data)%nat) in *. destruct (skip_space data) as [|b s]; [done|]. cbn [scan_value] in Hv.
  destruct (bval b =? 34); [by apply bind_Some in Hv as ([? ?] & _ & ?)|].
  destruct (bval b =? 123).
  { destruct (maxNestingDepth <=? 0); [done|]. destruct (skip_space s) as [|q r0]; [done|].
    destruct (bval q =? 125); [injection Hv as <- _; constructor|].
    apply bind_Some in Hv as ([ms r1] & Hms & [= -> _]). destruct (scan_compact F) as (_ & _ & Hm).
    by destruct (Hm _ _ _ _ Hms) as (w & _ & _ & _ & Hall). }
  destruct (bval b =? 91).
  { destruct (maxNestingDepth <=? 0); [done|]. destruct (skip_space s) as [|q r0]; [done|].
    destruct (bval q =? 93); [done|]. by apply bind_Some in Hv as ([? ?] & _ & ?). }
  unfold scan_word in Hv. repeat (destruct (_ =? _); [by destruct (bool_decide _)|]).
  by apply bind_Some in Hv as ([? ?] & _ & ?).
Qed.
