(* ===== verification/Predicate.v ===== *)
(** The predicates of [pkg/predicate/predicate.go] on JSON values, with the
    [float64] they compare: Go's [ParseFloat] on binary64 numbers as
    [SpecFloat] defines them. *)
From Stdlib Require Import SpecFloat.
From S2P Require Import Prelude Bytes Strconv Proto Json.
Import Json.

(** ** [strconv.ParseFloat(s, 64)] *)
Module Float.

Definition float64 := spec_float.

Definition lower (b : byte) : Z := let c := bval b in if between 65 90 c then c + 32 else c.
Definition equal_fold (a b : bytes) : bool := bool_decide (lower <$> a = lower <$> b).

(** [m * 10^e], correctly rounded. *)
Definition round10 (neg : bool) (m : Z) (e : Z) : float64 :=
  match m with
  | Z0 => S754_zero neg
  | Zpos p =>
      if 0 <=? e then binary_round 53 1024 neg (Z.to_pos (m * 10 ^ e)) 0
      else let '(mz, ez, lz) := SFdiv_core_binary 53 1024 m 0 (10 ^ (- e)) 0 in
           binary_round_aux 53 1024 neg mz ez lz
  | Zneg _ => S754_nan
  end.

(** [m * 2^e], correctly rounded. *)
Definition round2 (neg : bool) (m : Z) (e : Z) : float64 :=
  match m with
  | Z0 => S754_zero neg
  | Zpos p => binary_round 53 1024 neg p e
  | Zneg _ => S754_nan
  end.

(** [special]: infinities, and NaN without a sign. *)
Definition special (s : bytes) : option float64 :=
  let '(sign, body) :=
    match s with
    | b :: s' => if bval b =? 45 then (Some true, s') else if bval b =? 43 then (Some false, s') else (None, s)
    | [] => (None, s)
    end in
  if equal_fold body (of_string "inf") || equal_fold body (of_string "infinity")
  then Some (S754_infinity (default false sign))
  else match sign with None => if equal_fold body (of_string "nan") then Some S754_nan else None | Some _ => None end.

(** The mantissa loop of [readFloat]: the digits read so far, how many of them
    stand behind the point, and what follows. *)
Record mantissa := mkMant { mant : Z; frac : Z; sawdot : bool; sawdigits : bool; underscores : bool }.

Definition digit_of (base : Z) (b : byte) : option Z :=
  match digit_value b with
  | Some d => Some d
  | None => if (base =? 16) && between 97 102 (lower b) then Some (lower b - 87) else None
  end.

Fixpoint read_mantissa (base : Z) (s : bytes) (a : mantissa) : mantissa * bytes :=
  match s with
  | [] => (a, [])
  | b :: s' =>
      if bval b =? 95 then read_mantissa base s' (mkMant (mant a) (frac a) (sawdot a) (sawdigits a) true) else
      if bval b =? 46 then
        if sawdot a then (a, s) else read_mantissa base s' (mkMant (mant a) (frac a) true (sawdigits a) (underscores a))
      else
        match digit_of base b with
        | Some d => read_mantissa base s' (mkMant (mant a * base + d) (frac a + (if sawdot a then 1 else 0)) (sawdot a) true (underscores a))
        | None => (a, s)
        end
  end.

(** The digits of the exponent; five of them at most are counted. *)
Fixpoint read_exponent (s : bytes) (e : Z) (us : bool) : Z * bool * bytes :=
  match s with
  | [] => (e, us, [])
  | b :: s' =>
      if bval b =? 95 then read_exponent s' e true else
      match digit_value b with
      | Some d => read_exponent s' (if e <? 10000 then e * 10 + d else e) us
      | None => (e, us, s)
      end
  end.

(** [underscoreOK]: underscores stand between digits, or behind the base
    prefix.  [last] is the class of the last character: a digit, an underscore,
    the beginning, or anything else. *)
Inductive us_class := UBegin | UDigit | UUnder | UOther.
#[global] Instance us_class_eq_dec : EqDecision us_class.
Proof. solve_decision. Defined.

Fixpoint underscore_loop (hex : bool) (s : bytes) (last : us_class) : bool :=
  match s with
  | [] => bool_decide (last <> UUnder)
  | b :: s' =>
      if (if digit_of (if hex then 16 else 10) b is Some _ then true else false) then underscore_loop hex s' UDigit else
      if bval b =? 95 then bool_decide (last = UDigit) && underscore_loop hex s' UUnder else
      bool_decide (last <> UUnder) && underscore_loop hex s' UOther
  end.

Definition strip_sign (s : bytes) : bool * bytes :=
  match s with
  | b :: s' => if bval b =? 43 then (false, s') else if bval b =? 45 then (true, s') else (false, s)
  | [] => (false, [])
  end.

Definition underscoreOK (s : bytes) : bool :=
  let s := (strip_sign s).2 in
  match s with
  | z :: x :: s' =>
      if (bval z =? 48) && ((lower x =? 98) || (lower x =? 111) || (lower x =? 120))
      then underscore_loop (lower x =? 120) s' UDigit else underscore_loop false s UBegin
  | _ => underscore_loop false s UBegin
  end.

(** The exponent part, when there is one. *)
Definition read_exp_part (hex : bool) (s : bytes) : option (Z * bool * bytes) :=
  match s with
  | b :: s' =>
      if lower b =? (if hex then 112 else 101) then
        let '(neg, s') := strip_sign s' in
        match s' with
        | d :: _ =>
            if digit_value d is Some _ then
              let '(e, us, r) := read_exponent s' 0 false in Some (if neg : bool then - e else e, us, r)
            else None
        | [] => None
        end
      else if hex then None else Some (0, false, s)
  | [] => if hex then None else Some (0, false, [])
  end.

(** [None] is a syntax error or a value out of range. *)
Definition ParseFloat (s : bytes) : option float64 :=
  match special s with
  | Some f => Some f
  | None =>
      let '(neg, body) := strip_sign s in
      let '(hex, body) :=
        match body with
        | z :: x :: d :: t => if (bval z =? 48) && (lower x =? 120) then (true, d :: t) else (false, body)
        | _ => (false, body)
        end in
      let '(m, r) := read_mantissa (if hex then 16 else 10) body (mkMant 0 0 false false false) in
      if negb (sawdigits m) then None else
      '(e, us, r) ← read_exp_part hex r;
      if (underscores m || us) && negb (underscoreOK s) then None else
      match r with
      | _ :: _ => None
      | [] =>
          let f := if hex : bool then round2 neg (mant m) (e - 4 * frac m) else round10 neg (mant m) (e - frac m) in
          match f with S754_infinity _ => None | _ => Some f end
      end
  end.

(** ** Integers as [float64] *)

Lemma digits2_bound p : 2 ^ (Zpos (digits2_pos p) - 1) <= Zpos p < 2 ^ Zpos (digits2_pos p).
Proof.
  induction p as [p IH|p IH|]; cbn [digits2_pos]; [..|done];
    rewrite Pos2Z.inj_succ; replace (Z.succ (Zpos (digits2_pos p)) - 1) with (Zpos (digits2_pos p) - 1 + 1) by lia;
    rewrite Z.pow_add_r, Z.pow_succ_r by lia; lia.
Qed.

Lemma iter_xO p n :
  Zpos (Pos.iter xO p n) = Zpos p * 2 ^ Zpos n /\
  Zpos (digits2_pos (Pos.iter xO p n)) = Zpos (digits2_pos p) + Zpos n.
Proof.
  induction n as [|n [IH1 IH2]] using Pos.peano_ind; [simpl; lia|].
  rewrite Pos.iter_succ. cbn [digits2_pos]. rewrite !Pos2Z.inj_succ, IH2, Z.pow_succ_r by lia.
  split; lia.
Qed.

(** A positive integer below [2^53] is represented exactly, with 53 digits. *)
Lemma round_small s p :
  Zpos p < 2 ^ 53 ->
  exists m, binary_round 53 1024 s p 0 = S754_finite s m (Zpos (digits2_pos p) - 53) /\
    Zpos m = Zpos p * 2 ^ (53 - Zpos (digits2_pos p)).
Proof.
  intros Hp. pose proof (digits2_bound p) as Hd. set (d := Zpos (digits2_pos p)) in *.
  assert (1 <= d) by (unfold d; lia).
  assert (d <= 53) as Hd53.
  { destruct (Z.le_gt_cases d 53); [done|]. assert (2 ^ 53 <= 2 ^ (d - 1)) by (apply Z.pow_le_mono_r; lia). lia. }
  assert (exists m, shl_align p 0 (fexp 53 1024 (d + 0)) = (m, d - 53) /\ Zpos m = Zpos p * 2 ^ (53 - d) /\
            Zpos (digits2_pos m) = 53) as (m & Hshl & Hm & Hdm).
  { assert (fexp 53 1024 (d + 0) = d - 53) as -> by (unfold fexp, emin; lia). unfold shl_align.
    destruct (d - 53 - 0) as [|k|k] eqn:E; [|lia|].
    - exists p. assert (d = 53) as E53 by lia. rewrite E53. by split_and!; [|lia|].
    - exists (Pos.iter xO p k). destruct (iter_xO p k) as [-> ->].
      replace (53 - d) with (Zpos k) by lia. split_and!; [done|done|fold d; lia]. }
  exists m. split; [|done]. unfold binary_round. fold d. rewrite Hshl. unfold binary_round_aux.
  assert (forall l, shr_fexp 53 1024 (Zpos m) (d - 53) l = (shr_record_of_loc (Zpos m) l, d - 53)) as Hshr.
  { intros l. unfold shr_fexp, Zdigits2. rewrite Hdm.
    replace (fexp 53 1024 (53 + (d - 53)) - (d - 53)) with 0 by (unfold fexp, emin; lia). done. }
  rewrite !Hshr. cbn [round_nearest_even shr_m loc_of_shr_record shr_record_of_loc].
  by destruct (Z.leb_spec (d - 53) (1024 - 53)); [|lia].
Qed.

(** [float64(n)] of an integer. *)
Definition of_int (n : Z) : float64 :=
  match n with
  | Z0 => S754_zero false
  | Zpos p => binary_round 53 1024 false p 0
  | Zneg p => binary_round 53 1024 true p 0
  end.

Lemma compare_small p q :
  Zpos p < 2 ^ 53 -> Zpos q < 2 ^ 53 ->
  SFcompare (binary_round 53 1024 false p 0) (binary_round 53 1024 false q 0) = Some (Zpos p ?= Zpos q) /\
  SFcompare (binary_round 53 1024 true p 0) (binary_round 53 1024 true q 0) = Some (Zpos q ?= Zpos p).
Proof.
  intros Hp Hq.
  destruct (round_small false p Hp) as (m & Rp & Hm), (round_small false q Hq) as (k & Rq & Hk).
  destruct (round_small true p Hp) as (m' & Rp' & Hm'), (round_small true q Hq) as (k' & Rq' & Hk').
  assert (m' = m) as -> by lia. assert (k' = k) as -> by lia.
  rewrite Rp, Rq, Rp', Rq'. cbn [SFcompare].
  pose proof (digits2_bound p) as Bp. pose proof (digits2_bound q) as Bq.
  set (dp := Zpos (digits2_pos p)) in *. set (dq := Zpos (digits2_pos q)) in *.
  rewrite (Z.compare_antisym (Zpos p) (Zpos q)).
  destruct (Z.compare_spec (dp - 53) (dq - 53)) as [E|E|E].
  - assert (dp = dq) as Edd by lia. rewrite Edd in Hm. clearbody dp dq.
    assert (1 <= dq <= 53) as Hdq.
    { subst dp. destruct (Z.le_gt_cases dq 53); [|assert (2 ^ 53 <= 2 ^ (dq - 1)) by (apply Z.pow_le_mono_r; lia); lia].
      split; [|done]. destruct (Z.le_gt_cases 1 dq); [done|]. rewrite (Z.pow_neg_r 2 (dq - 1)) in Bq by lia.
      assert (dq = 0 \/ dq < 0) as [->|] by lia; [simpl in Bq; lia|]. rewrite Z.pow_neg_r in Bq by lia. lia. }
    assert (0 < 2 ^ (53 - dq)) by (apply Z.pow_pos_nonneg; lia).
    change (Pos.compare_cont Eq m k) with (Pos.compare m k). change (Pos.compare m k) with (Zpos m ?= Zpos k).
    assert ((Zpos m ?= Zpos k) = (Zpos p ?= Zpos q)) as ->; [|done].
    rewrite Hm, Hk. symmetry. apply Zmult_compare_compat_r. lia.
  - assert (Zpos p < Zpos q) as Hlt.
    { assert (2 ^ dp <= 2 ^ (dq - 1)) by (apply Z.pow_le_mono_r; lia). lia. }
    rewrite (proj2 (Z.compare_lt_iff _ _) Hlt). done.
  - assert (Zpos q < Zpos p) as Hlt.
    { assert (2 ^ dq <= 2 ^ (dp - 1)) by (apply Z.pow_le_mono_r; lia). lia. }
    rewrite (proj2 (Z.compare_gt_iff _ _) Hlt). done.
Qed.

Lemma round_small_finite s p : Zpos p < 2 ^ 53 -> exists m e, binary_round 53 1024 s p 0 = S754_finite s m e.
Proof. intros Hp. destruct (round_small s p Hp) as (m & -> & _). eauto. Qed.

Lemma of_int_compare n m :
  Z.abs n < 2 ^ 53 -> Z.abs m < 2 ^ 53 -> SFcompare (of_int n) (of_int m) = Some (n ?= m).
Proof.
  intros Hn Hm. destruct n as [|p|p], m as [|q|q]; cbn [of_int Z.abs] in *;
    [done
    |by destruct (round_small_finite false q Hm) as (? & ? & ->)
    |by destruct (round_small_finite true q Hm) as (? & ? & ->)
    |by destruct (round_small_finite false p Hn) as (? & ? & ->)
    |by apply compare_small
    |by destruct (round_small_finite false p Hn) as (? & ? & ->), (round_small_finite true q Hm) as (? & ? & ->)
    |by destruct (round_small_finite true p Hn) as (? & ? & ->)
    |by destruct (round_small_finite true p Hn) as (? & ? & ->), (round_small_finite false q Hm) as (? & ? & ->)
    |destruct (compare_small p q Hn Hm) as [_ ->]; cbn [Z.compare]; by rewrite <- Pos.compare_antisym].
Qed.

(** *** Reading the decimal text of an integer *)

Lemma read_mantissa_digits s m k us :
  Forall (fun b => is_digit b = true) s ->
  exists n, parse_digits m s = Some n /\
    read_mantissa 10 s (mkMant m 0 false k us) = (mkMant n 0 false (bool_decide (s <> []) || k) us, []).
Proof.
  intros Hs. revert m k. induction Hs as [|b s Hb _ IH]; intros m k; [by exists m|].
  unfold is_digit in Hb. destruct (between_spec 48 57 (bval b)) as [Hr|]; [|done].
  assert (digit_value b = Some (bval b - 48)) as Hd.
  { unfold digit_value. destruct (Z.leb_spec 48 (bval b)), (Z.leb_spec (bval b) 57); try lia; done. }
  destruct (IH (m * 10 + (bval b - 48)) true) as (n & Hn & Hrun). exists n. cbn [parse_digits read_mantissa].
  rewrite Hd. split; [by rewrite Z.mul_comm|].
  destruct (Z.eqb_spec (bval b) 95), (Z.eqb_spec (bval b) 46); try lia. unfold digit_of. rewrite Hd.
  cbn [mant frac sawdot sawdigits underscores]. rewrite Z.add_0_r, Hrun. by rewrite orb_true_r, bool_decide_true.
Qed.

Lemma round10_0 neg n : 0 <= n -> round10 neg n 0 = if n =? 0 then S754_zero neg else of_int (if neg then - n else n).
Proof.
  intros Hn. destruct n as [|p|p]; [done| |lia]. cbn [round10 Z.leb Z.compare]. cbn [Z.eqb].
  replace (Z.to_pos (Zpos p * 10 ^ 0)) with p by lia. by destruct neg.
Qed.

Lemma equal_fold_head b t w v : lower b <> lower w -> equal_fold (b :: t) (w :: v) = false.
Proof. intros Hl. unfold equal_fold. apply bool_decide_eq_false. by intros [= ? _]. Qed.

Lemma special_digits b t : is_digit b = true -> special (b :: t) = None /\ special (byte_of 45 :: b :: t) = None.
Proof.
  intros Hb. unfold is_digit in Hb. destruct (between_spec 48 57 (bval b)) as [Hr|]; [|done].
  assert (forall w v, 97 <= lower w -> equal_fold (b :: t) (w :: v) = false) as Hf.
  { intros w v Hw. apply equal_fold_head. unfold lower at 1. destruct (between_spec 65 90 (bval b)); lia. }
  unfold special. rewrite (bval_byte_of 45). change (45 mod 256 =? 45) with true. cbn iota.
  destruct (Z.eqb_spec (bval b) 45), (Z.eqb_spec (bval b) 43); try lia.
  change (of_string "inf") with (byte_of 105 :: of_string "nf").
  change (of_string "infinity") with (byte_of 105 :: of_string "nfinity").
  change (of_string "nan") with (byte_of 110 :: of_string "an").
  by rewrite !Hf by by vm_compute.
Qed.

(** The body of [ParseFloat] on plain digits. *)
Lemma ParseFloat_digits (neg : bool) ds :
  Forall (fun b => is_digit b = true) ds -> ds <> [] ->
  exists n, parse_digits 0 ds = Some n /\
    ParseFloat (if neg then byte_of 45 :: ds else ds) =
      match round10 neg n 0 with S754_infinity _ => None | f => Some f end.
Proof.
  intros Hds Hne. destruct (read_mantissa_digits ds 0 false false Hds) as (n & Hn & Hrun). exists n. split; [done|].
  destruct ds as [|b t]; [done|]. pose proof Hds as [Hb Ht]%Forall_cons.
  assert (strip_sign (if neg then byte_of 45 :: b :: t else b :: t) = (neg, b :: t)) as Hstrip.
  { unfold is_digit in Hb. destruct (between_spec 48 57 (bval b)); [|done]. unfold strip_sign. destruct neg.
    - rewrite (bval_byte_of 45). done.
    - destruct (Z.eqb_spec (bval b) 43), (Z.eqb_spec (bval b) 45); try lia; done. }
  unfold ParseFloat. rewrite Hstrip. destruct (special_digits b t Hb) as [S1 S2].
  assert (special (if neg then byte_of 45 :: b :: t else b :: t) = None) as -> by by destruct neg.
  assert (match b :: t with z :: x :: d :: t' => if (bval z =? 48) && (lower x =? 120) then (true, d :: t') else (false, b :: t)
          | _ => (false, b :: t) end = (false, b :: t)) as ->.
  { destruct t as [|x [|d t']]; [done|done|]. apply Forall_cons in Ht as [Hx _]. unfold is_digit in Hx.
    destruct (between_spec 48 57 (bval x)); [|done]. unfold lower. destruct (between_spec 65 90 (bval x)); [lia|].
    destruct (Z.eqb_spec (bval x) 120); [lia|]. by rewrite andb_false_r. }
  rewrite Hrun. rewrite bool_decide_true by done. cbn.
  change (0 - 0) with 0. by destruct (round10 neg n 0).
Qed.

Lemma ParseFloat_FormatInt n :
  Z.abs n < 2 ^ 53 -> ParseFloat (FormatInt n) = Some (of_int n).
Proof.
  intros Hn. unfold FormatInt. destruct (Z.ltb_spec n 0) as [Hneg|Hneg].
  - destruct (digits_are_digits (- n)) as [Hd Hne]; [lia|].
    destruct (ParseFloat_digits true _ Hd Hne) as (m & Hm & ->).
    rewrite parse_digits_digits in Hm by (simpl; lia). injection Hm as <-. rewrite round10_0 by lia.
    destruct (Z.eqb_spec (- n) 0); [lia|]. rewrite Z.opp_involutive. destruct n as [|p|p]; [lia|lia|].
    cbn [of_int]. by destruct (round_small_finite true p) as (? & ? & ->).
  - destruct (digits_are_digits n) as [Hd Hne]; [lia|].
    destruct (ParseFloat_digits false _ Hd Hne) as (m & Hm & ->).
    rewrite parse_digits_digits in Hm by (simpl; lia). injection Hm as <-. rewrite round10_0 by lia.
    destruct n as [|p|p]; [done| |lia]. cbn [Z.eqb of_int].
    by destruct (round_small_finite false p) as (? & ? & ->).
Qed.

End Float.
Import Float.

(** ** JSON objects as maps *)

(** [json.Unmarshal] into a [map[string]json.RawMessage]: names are unquoted, the
    last of equal names wins, and [null] leaves the map nil.  [None] is an
    error. *)
Definition put_member (m : gmap bytes bytes) (member : bytes * bytes) : gmap bytes bytes := <[member.1 := member.2]> m.

Definition unmarshal_object (data : bytes) : option (gmap bytes bytes) :=
  match parse data with
  | Some Null => Some ∅
  | Some (Obj members) =>
      ms ← mapM (fun p => name ← unquote p.1; Some (name, p.2)) members;
      Some (foldl put_member ∅ ms)
  | _ => None
  end.

Module Predicates.
Import Predicate.

(** [asFloat]: a number, a string that holds one, and [null], which
    [json.Unmarshal] accepts and leaves the variable zero. *)
Definition asFloat (raw : bytes) : option float64 :=
  match parse raw with
  | Some (Num t) => ParseFloat t
  | Some Null => Some (S754_zero false)
  | Some (Str body) => s ← unquote body; ParseFloat s
  | _ => None
  end.

(** [asScalar]: a string without its quotes, [null] as the empty string, the
    rest as written. *)
Definition asScalar (raw : bytes) : bytes :=
  match parse raw with
  | Some (Str body) => default raw (unquote body)
  | Some Null => []
  | _ => raw
  end.

(** Go's comparisons of [float64]; NaN compares with nothing. *)
Definition f_gt (a b : float64) : bool := match SFcompare a b with Some Gt => true | _ => false end.
Definition f_ge (a b : float64) : bool := match SFcompare a b with Some Gt | Some Eq => true | _ => false end.
Definition f_lt (a b : float64) : bool := match SFcompare a b with Some Lt => true | _ => false end.
Definition f_le (a b : float64) : bool := match SFcompare a b with Some Lt | Some Eq => true | _ => false end.

Definition ordered_op (op : Z) : bool := between OpGT OpLTE op.

Definition compare_op (op : Z) (fv ov : float64) : bool :=
  if op =? OpGT then f_gt fv ov else if op =? OpGTE then f_ge fv ov else
  if op =? OpLT then f_lt fv ov else f_le fv ov.

Definition Eval (p : Predicate) (value : bytes) : bool :=
  if OpOf p =? OpNone then true else
  match unmarshal_object value with
  | None => false
  | Some obj =>
      match obj !! Field p with
      | None => false
      | Some raw =>
          if ordered_op (OpOf p) then
            match asFloat raw, ParseFloat (Operand p) with
            | Some fv, Some ov => compare_op (OpOf p) fv ov
            | _, _ => false
            end
          else if OpOf p =? OpEQ then bool_decide (asScalar raw = Operand p)
          else if OpOf p =? OpNE then bool_decide (asScalar raw <> Operand p)
          else false
      end
  end.

(** ** Properties *)

Lemma FormatInt_plain n : i64 n -> Forall plain (FormatInt n).
Proof.
  intros [H _]%FormatInt_shape. eapply Forall_impl; [exact H|]. intros b Hb. cbn in Hb.
  split_and!; [intros ->; change (bval quote) with 34 in Hb; lia|intros ->; change (bval backslash) with 92 in Hb; lia|lia|lia].
Qed.

(** A number as a sensor writes it: bare, or between quotes. *)
Definition number_text (n : Z) (raw : bytes) : Prop :=
  raw = FormatInt n \/ raw = quote :: FormatInt n ++ [quote].

Lemma asFloat_number n raw : Z.abs n < 2 ^ 53 -> number_text n raw -> asFloat raw = Some (of_int n).
Proof.
  intros Hn [-> | ->]; unfold asFloat.
  - rewrite parse_FormatInt by (unfold i64; lia). by apply ParseFloat_FormatInt.
  - assert (Forall plain (FormatInt n)) as Hp by (apply FormatInt_plain; unfold i64; lia).
    rewrite parse_string by done. rewrite unquote_plain by done. cbn. by apply ParseFloat_FormatInt.
Qed.

(** C38: Ordered predicates compare integers: on a row whose field holds the
    integer [n], bare or quoted, the operators [>], [>=], [<] and [<=] with the
    operand [m] written in decimal decide exactly the comparison of [n] and
    [m], as long as both are below [2^53] in size (where [float64] is exact);
    a row that has no such field, or that is not a JSON object, passes none of
    the six operators. *)
Theorem predicate_compares_integers (value field : bytes) (obj : gmap bytes bytes) (raw : bytes) (n m : Z)
    (Hobj : unmarshal_object value = Some obj) (Hraw : obj !! field = Some raw) (Hn : number_text n raw)
    (Hsmall : Z.abs n < 2 ^ 53) (Hm : Z.abs m < 2 ^ 53) :
  Eval (mkPredicate field OpGT (FormatInt m)) value = (m <? n) /\
  Eval (mkPredicate field OpGTE (FormatInt m)) value = (m <=? n) /\
  Eval (mkPredicate field OpLT (FormatInt m)) value = (n <? m) /\
  Eval (mkPredicate field OpLTE (FormatInt m)) value = (n <=? m) /\
  (forall op other operand, 1 <= op <= 6 -> obj !! other = None -> Eval (mkPredicate other op operand) value = false) /\
  (forall op operand v, 1 <= op <= 6 -> unmarshal_object v = None -> Eval (mkPredicate field op operand) v = false).
Proof.
  assert (forall op, between OpGT OpLTE op = true -> op <> OpNone ->
    Eval (mkPredicate field op (FormatInt m)) value = compare_op op (of_int n) (of_int m)) as Hrun.
  { intros op Hop Hne. unfold Eval. cbn [OpOf Field Operand]. rewrite (proj2 (Z.eqb_neq _ _) Hne), Hobj, Hraw.
    unfold ordered_op. by rewrite Hop, (asFloat_number n), ParseFloat_FormatInt. }
  assert (forall op, 1 <= op -> (op =? OpNone) = false) as Hnone by (intros op Hop; by destruct (Z.eqb_spec op OpNone) as [->|]).
  rewrite !Hrun by done. unfold compare_op, f_gt, f_ge, f_lt, f_le. cbn [Z.eqb OpGT OpGTE OpLT OpLTE Pos.eqb].
  rewrite of_int_compare by done. unfold Z.ltb, Z.leb. rewrite (Z.compare_antisym n m). 
  split_and!; try (by destruct (n ?= m)).
  - intros op other operand Hop Ho. unfold Eval. cbn [OpOf Field Operand]. by rewrite Hnone, Hobj, Ho by lia.
  - intros op operand v Hop Hv. unfold Eval. cbn [OpOf Field Operand]. by rewrite Hnone, Hv by lia.
Qed.

(** [{"az": "-3", "t" : 17}], without a quote in the source. *)
Definition sample_row : bytes :=
  [byte_of 123; quote] ++ of_string "az" ++ [quote; colon; quote] ++ of_string "-3" ++ [quote; comma; quote] ++
  of_string "t" ++ [quote] ++ of_string " : 17}".

Definition sample_obj : gmap bytes bytes :=
  <[of_string "t" := FormatInt 17]> {[of_string "az" := quote :: FormatInt (-3) ++ [quote]]}.

Lemma sample_row_obj : unmarshal_object sample_row = Some sample_obj.
Proof.
  unfold unmarshal_object.
  assert (parse sample_row = Some (Obj [(of_string "az", quote :: FormatInt (-3) ++ [quote]); (of_string "t", FormatInt 17)]))
    as -> by (vm_compute; reflexivity).
  cbn [mapM]. rewrite !unquote_plain by (repeat constructor; by vm_compute). done.
Qed.

Lemma predicate_compares_integers_witness :
  unmarshal_object sample_row = Some sample_obj /\
  sample_obj !! of_string "az" = Some (quote :: FormatInt (-3) ++ [quote]) /\
  Eval (mkPredicate (of_string "az") OpLT (FormatInt 10)) sample_row = true /\
  Eval (mkPredicate (of_string "az") OpGTE (FormatInt 10)) sample_row = false.
Proof.
  assert (sample_obj !! of_string "az" = Some (quote :: FormatInt (-3) ++ [quote])) as Hraw.
  { unfold sample_obj. rewrite lookup_insert_ne by done. apply lookup_singleton_eq. }
  destruct (predicate_compares_integers sample_row (of_string "az") _ _ (-3) 10 sample_row_obj Hraw) as (_ & H2 & H3 & _);
    [by right|done|done|].
  split; [exact sample_row_obj|]. split; [exact Hraw|]. split; [exact H3|exact H2].
Defined.

End Predicates.
