(* ===== verification/Engine.v ===== *)
(** The storage engine of [storage/engine.go] over the interface
    [istorage.IMemTable]: the interface as a class of operations, its laws as
    what a memtable promises the engine's clients, and the memtable of
    [MemTable.v] as the implementation that keeps them. *)
From S2P Require Import Prelude Bytes Credit SkipList Bloom SSTable Merge MemTable Compaction.
Import Credits Partitioned SSTable Merge MemTable Compaction.

(** ** [istorage.IMemTable]

    An operation that panics or never returns is [None].  [mt_Work] is what the
    memtable's goroutines do between two calls. *)
Class IMemTable (M : Type) := {
  work : Type;
  mt_Get : M -> bytes -> option (M * result bytes);
  mt_Put : M -> bytes -> option bytes -> option (M * result unit);
  mt_Delete : M -> bytes -> option (M * result unit);
  mt_ScanRange : forall {S}, M -> bytes -> bytes -> (S -> bytes -> bytes -> S * bool) -> S -> option S;
  mt_FlushToSSTable : M -> list entry -> option (M * result unit);
  mt_Fits : M -> Z -> bool;
  mt_Work : M -> work -> option M;
}.

(** What a client sees: the newest version of every key, and the entries a scan
    can reach (those not yet on disk). *)
Record content := mkContent { all : bytes -> option (option bytes); hot : list entry }.

Definition write (c : content) (key : bytes) (value : option bytes) : content :=
  mkContent (fun k => if decide (key = k) then Some value else all c k) (put key value (hot c)).

(** A list of entries written behind everything else, and hidden by [hot]. *)
Definition under (c : content) (entries : list entry) : content :=
  mkContent (fun k => match find k (hot c) with
                      | Some v => Some v
                      | None => match find k (reverse entries) with Some v => Some v | None => all c k end
                      end) (hot c).

Class IMemTableLaws (M : Type) `{IMemTable M} := {
  promises : M -> content -> Prop;
  work_ok : M -> work -> Prop;
  flush_ok : M -> list entry -> Prop;
  ml_hot m c : promises m c -> sorted (hot c) /\ forall k v, find k (hot c) = Some v -> all c k = Some v;
  ml_get m c key : promises m c ->
    exists m', mt_Get m key = Some (m', answer (all c key)) /\ promises m' c;
  ml_put m c key value : promises m c -> mt_Fits m (entry_bytes (key, value)) = true ->
    exists m', mt_Put m key value = Some (m', Ok tt) /\ promises m' (write c key value);
  ml_delete m c key : promises m c -> mt_Fits m (zlen key) = true ->
    exists m', mt_Delete m key = Some (m', Ok tt) /\ promises m' (write c key None);
  ml_scan {S} m c start end_ (fn : S -> bytes -> bytes -> S * bool) s : promises m c ->
    mt_ScanRange m start end_ fn s = Some (feed fn (live_until end_ (filter (fun e => ~ blt e.1 start) (hot c))) s);
  ml_flush m c entries : promises m c -> flush_ok m entries ->
    exists m' r, mt_FlushToSSTable m entries = Some (m', r) /\
      promises m' (match r with Ok _ => under c entries | Error _ => c end);
  ml_work m c j : promises m c -> work_ok m j ->
    exists m' h, mt_Work m j = Some m' /\ promises m' (mkContent (all c) h);
}.

(** ** storage/engine.go *)
Module Engine.

Record StorageCommand := mkCommand { Type_ : bytes; Key : bytes; Value : option bytes }.

Section Engine.
Context {M : Type} `{IMemTable M}.

(** [applyCh] is a channel of capacity 100. *)
Record Engine := mkEngine { memTable : M; applyCh : list StorageCommand }.

Definition applyChCap : Z := 100.

Definition NewEngine (memTable : M) : Engine := mkEngine memTable [].

Definition set_memTable (e : Engine) (m : M) : Engine := mkEngine m (applyCh e).

Definition Put (e : Engine) (key : bytes) (value : option bytes) : option (Engine * result unit) :=
  '(m, r) ← mt_Put (memTable e) key value; Some (set_memTable e m, r).

Definition Get (e : Engine) (key : bytes) : option (Engine * result bytes) :=
  '(m, r) ← mt_Get (memTable e) key; Some (set_memTable e m, r).

Definition Delete (e : Engine) (key : bytes) : option (Engine * result unit) :=
  '(m, r) ← mt_Delete (memTable e) key; Some (set_memTable e m, r).

Definition Scan {S} (e : Engine) (start end_ : bytes) (fn : S -> bytes -> bytes -> S * bool) (s : S) : option S :=
  mt_ScanRange (memTable e) start end_ fn s.

Definition FlushToSSTable (e : Engine) (entries : list entry) : option (Engine * result unit) :=
  '(m, r) ← mt_FlushToSSTable (memTable e) entries; Some (set_memTable e m, r).

(** The send on [applyCh]; [None] while the channel is full. *)
Definition Apply (e : Engine) (cmd : StorageCommand) : option (Engine * result unit) :=
  if zlen (applyCh e) <? applyChCap then Some (mkEngine (memTable e) (applyCh e ++ [cmd]), Ok tt) else None.

(** One turn of [applyWorker]; the results of the writes are dropped. *)
Definition applyWorker (e : Engine) : option Engine :=
  match applyCh e with
  | [] => Some e
  | cmd :: rest =>
      let e := mkEngine (memTable e) rest in
      if bool_decide (Type_ cmd = of_string "Put") then '(e, _) ← Put e (Key cmd) (Value cmd); Some e else
      if bool_decide (Type_ cmd = of_string "Delete") then '(e, _) ← Delete e (Key cmd); Some e
      else Some e
  end.

(** The memtable's own goroutines. *)
Definition Work (e : Engine) (j : work) : option Engine := m ← mt_Work (memTable e) j; Some (set_memTable e m).

End Engine.

#[global] Arguments Engine : clear implicits.

End Engine.

(** ** The memtable behind the interface *)
Module Live.

Section Live.
Context `{BloomMath} `{StorageConfig} {T : Type} `{OrderedTable T}.

(** [clock n] is the world the [n]th file is written in; [coins] are the random
    levels of the entries to come. *)
Context (clock : Z -> world).

Record Live := mkLive { table : MemTable T; ticks : Z; coins : list (list bool) }.

Inductive job := JFlush | JCompact.

Definition with_table (l : Live) (m : MemTable T) : Live := mkLive m (ticks l) (coins l).

(** A writer that waits for credit does not return. *)
Definition returned (l : Live) (r : MemTable T * option (result unit)) : option (Live * result unit) :=
  match r with
  | (m, Some res) => Some (mkLive m (ticks l) (tail (coins l)), res)
  | (_, None) => None
  end.

Definition next_coins (l : Live) : list bool := default [] (head (coins l)).

Definition do_job (l : Live) (j : job) : option Live :=
  match j with
  | JFlush => m ← MemTable.Flush (clock (ticks l)) (table l); Some (mkLive m (ticks l + 1) (coins l))
  | JCompact =>
      m ← CompactSSTable (fun level => clock (ticks l + level)) (table l) 0;
      Some (mkLive m (ticks l + Z.of_nat maxLevel) (coins l))
  end.

#[export] Instance live_memtable : IMemTable Live := {
  work := job;
  mt_Get l key := '(m, r) ← MemTable.Get (table l) key; Some (with_table l m, r);
  mt_Put l key value := r ← MemTable.Put (table l) key value (next_coins l); returned l r;
  mt_Delete l key := r ← MemTable.Delete (table l) key (next_coins l); returned l r;
  mt_ScanRange S l start end_ fn s := ScanRange (table l) start end_ fn s;
  mt_FlushToSSTable l entries :=
    '(m, r) ← MemTable.FlushToSSTable (clock (ticks l)) (table l) entries (coins l);
    Some (mkLive m (ticks l + 1) (drop (length entries) (coins l)), r);
  mt_Fits l n := fits (credits (table l)) n;
  mt_Work := do_job;
}.

End Live.
#[global] Arguments Live : clear implicits.

(** *** The laws *)

Section Laws.
Context `{BloomMathLaws} `{StorageConfig} {T : Type} `{OrderedTableLaws T} (clock : Z -> world).
#[local] Instance live_ops : IMemTable (Live T) := live_memtable clock.

(** The unflushed entries: the active table over the dirty one. *)
Definition hot_of (v : view) (h : list entry) : Prop :=
  sorted h /\ forall k, find k h = match find k (v_active v) with Some r => Some r | None => find k (v_dirty v) end.

Record shows (l : Live T) (v : view) (c : content) : Prop := {
  sh_view : view_ok (table l) v;
  sh_all : forall k, lookup v k = all c k;
  sh_hot : hot_of v (hot c);
  sh_dirty : dirty (table l) <> None -> v_dirty v <> [];
}.

Definition live_work_ok (l : Live T) (j : job) : Prop :=
  match j with
  | JFlush => forall m t es, flush_begin (table l) = Some (m, Some t) -> t_collect t = Some es ->
      fresh_write (clock (ticks l)) (sst (table l)) es
  | JCompact => ordered (sst (table l)) /\
      forall tables, tables_ok (sst (table l)) tables -> pass_ok (fun level => clock (ticks l + level)) (sst (table l)) tables
  end.

Definition live_flush_ok (l : Live T) (entries : list entry) : Prop :=
  ordered (sst (table l)) /\
  forall es, sorted es -> (forall k, find k es = find k (reverse entries)) -> fresh_write (clock (ticks l)) (sst (table l)) es.

(** A write whose credit is there at once. *)
Lemma table_write_spec m v key value n coins r :
  view_ok m v -> fits (credits m) n = true ->
  (let '(m, ok) := acquireCredit m n in
   if negb ok then Some (m, None) else
   '(m, r) ← write_locked m key value coins; let '(m, r) := write_end m n r in Some (m, Some r)) = r ->
  exists m', r = Some (m', Some (Ok tt)) /\
    view_ok m' (mkView (put key value (v_active v)) (v_dirty v) (v_tables v)) /\ dirty m' = dirty m.
Proof.
  intros Hv Hf <-. unfold acquireCredit, TryAcquire. rewrite Hf. cbn [negb].
  destruct (write_locked_spec (set_credits m (mkPool (budget (credits m)) (used (credits m) + n))) v key value coins)
    as (m' & -> & Hv' & Hd & _ & _ & _ & _); [by apply view_ok_credits|].
  cbn [mbind option_bind write_end]. destruct (_ =? 0).
  - by exists m'.
  - eexists. split; [done|]. split; [by apply view_ok_credits|done].
Qed.

Lemma shows_write l m v c key value cs :
  shows l v c -> view_ok m (mkView (put key value (v_active v)) (v_dirty v) (v_tables v)) -> dirty m = dirty (table l) ->
  shows (mkLive m (ticks l) cs) (mkView (put key value (v_active v)) (v_dirty v) (v_tables v)) (write c key value).
Proof.
  intros [S1 S2 [S3 S4] S5] Hv Hd. split; [done|..]; cbn [table v_active v_dirty v_tables all hot write].
  - intros k. rewrite (lookup_put (table l)) by done. by rewrite S2.
  - split; [by apply put_sorted|]. intros k. cbn [v_active v_dirty].
    rewrite !find_put by (done || by eapply view_sorted). rewrite S4. by case_match.
  - by rewrite Hd.
Qed.

Lemma flush_spec l v c :
  shows l v c -> live_work_ok l JFlush ->
  exists m v' h, MemTable.Flush (clock (ticks l)) (table l) = Some m /\
    forall n cs, shows (mkLive m n cs) v' (mkContent (all c) h).
Proof.
  intros [S1 S2 S3 S4] Hok. unfold Flush.
  destruct (flush_begin_spec _ v S1) as (m1 & snap & v1 & Hrun & Hv1 & Hl1 & Ht1 & Hs1 & Hc1 & _ & Hd1 & Hcase).
  cbn [live_work_ok] in Hok. rewrite Hrun in *. cbn [mbind option_bind]. destruct snap as [t|].
  2: { destruct Hcase as (-> & -> & _). exists (table l), v, (hot c). split; [done|]. by split. }
  destruct Hcase as [Ht Hcase].
  assert (v_dirty v1 <> []) as Hne.
  { destruct Hcase as [(Hsome & -> & _)|(_ & ? & ->)]; [|done]. apply S4. by rewrite Hsome. }
  assert (exists h, hot_of v1 h) as [h Hh].
  { destruct Hcase as [(_ & -> & _)|(Hnone & _ & ->)]; [by exists (hot c)|].
    exists (v_active v). pose proof (vo_dirty _ _ S1) as Hvd. rewrite Hnone in Hvd. split; [by eapply view_sorted|done]. }
  destruct (flush_write_spec (clock (ticks l)) m1 v1 t Hv1 Ht Hne) as (m2 & ok & Hrun2 & _ & _ & Hd2 & _ & _ & Hv2).
  { rewrite Hs1. apply (Hok m1 t); [done|by apply law_collect]. }
  rewrite Hrun2. cbn [mbind option_bind]. destruct ok; cbn [negb].
  - set (v2 := mkView (v_active v1) (v_dirty v1) (v_tables v1 ++ [v_dirty v1])) in *.
    destruct (flush_end_view m2 v2 t Hv2 (on_disk_last v2 (v_tables v1) eq_refl)) as [Hv3 Hl3]. unfold flush_end in *. cbn [fst] in Hv3.
    eexists _, _, (v_active v1). split; [done|]. intros n cs.
    split; [apply view_ok_credits; exact Hv3|..]; cbn [table all hot v_active v_dirty].
    + intros k. rewrite Hl3. unfold v2. by rewrite lookup_flushed, Hl1.
    + split; [by eapply view_sorted|]. intros k. cbn. by destruct (find k (v_active v1)).
    + done.
  - exists m2, v1, h. split; [done|]. intros n cs. split; cbn [table all hot]; [done| |done|done].
    intros k. by rewrite Hl1.
Qed.

Lemma compact_spec l v c :
  shows l v c -> live_work_ok l JCompact ->
  exists m tables, CompactSSTable (fun level => clock (ticks l + level)) (table l) 0 = Some m /\
    forall n cs, shows (mkLive m n cs) (mkView (v_active v) (v_dirty v) tables) (mkContent (all c) (hot c)).
Proof.
  intros [S1 S2 S3 S4] [Hord Hpass].
  destruct (CompactSSTable_spec (fun level => clock (ticks l + level)) (table l) v S1 Hord) as (ss & tables & Hrun & Hv & Hl & _).
  { apply Hpass, (vo_tables _ _ S1). }
  exists (set_sst (table l) ss), tables. split; [done|]. intros n cs. split; cbn [table all hot]; [done| |done|done].
  intros k. by rewrite <- S2, !lookup_layers, <- Hl.
Qed.

Lemma scan_spec {S} l v c start end_ (fn : S -> bytes -> bytes -> S * bool) s :
  shows l v c ->
  ScanRange (table l) start end_ fn s =
    Some (feed fn (live_until end_ (filter (fun e => ~ blt e.1 start) (hot c))) s).
Proof.
  intros [[(t & Ha & Ht) Hd Htab] S2 [S3 S4] S5].
  destruct (ScanRange_spec (table l) (v_active v) (v_dirty v) start end_ fn s) as (es & Hs & Hfind & ->).
  - by rewrite Ha.
  - done.
  - do 3 f_equal. apply find_ext; [done|by apply sorted_filter|]. intros k.
    by rewrite Hfind, find_filter_ge, S4.
Qed.

Lemma flush_to_spec l v c entries :
  shows l v c -> live_flush_ok l entries ->
  exists m r v', MemTable.FlushToSSTable (clock (ticks l)) (table l) entries (coins l) = Some (m, r) /\
    forall n cs, shows (mkLive m n cs) v' (match r with Ok _ => under c entries | Error _ => c end).
Proof.
  intros [S1 S2 S3 S4] [Hord Hfresh]. pose proof S3 as [S5 S6].
  assert (forall k, find k (hot c) <> None -> find k (hot c) = all c k) as Hhot.
  { intros k Hk. rewrite <- S2, lookup_layers. rewrite S6 in *. destruct (find k (v_active v)); [done|].
    by destruct (find k (v_dirty v)). }
  destruct entries as [|e entries].
  { exists (table l), (Ok tt), v. split; [done|]. intros n cs. split; cbn [table all hot under]; [done| |done|done].
    intros k. rewrite S2. specialize (Hhot k). destruct (find k (hot c)); [symmetry; by apply Hhot|done]. }
  destruct (FlushToSSTable_spec (clock (ticks l)) (table l) v (e :: entries) (coins l) S1 Hord) as (m & r & Hrun & _ & _ & Hres);
    [done|done|].
  assert (dirty m = dirty (table l)) as Hd.
  { unfold FlushToSSTable in Hrun. destruct (insert_entries _ _ _); [|done]. cbn [mbind option_bind] in Hrun.
    destruct (t_collect _) as [[|]|]; [by injection Hrun as <- _| |done]. cbn [mbind option_bind] in Hrun.
    destruct (WriteToSSTable _ _ _) as [[ss [u|err]]|]; try done; by injection Hrun as <- _. }
  exists m, r. destruct r as [u|err].
  - destruct Hres as (_ & es & Hs & Hf & Hv). eexists. split; [done|]. intros n cs.
    split; cbn [table all hot under]; [exact Hv| |done|by rewrite Hd].
    intros k. rewrite lookup_layers. cbn [v_active v_dirty v_tables]. rewrite newest_find_app. cbn [newest_find].
    rewrite Hf, S6. rewrite <- S2, lookup_layers. destruct (find k (v_active v)); [done|]. by destruct (find k (v_dirty v)).
  - exists v. split; [done|]. intros n cs. split; cbn [table]; [done|done|done|by rewrite Hd].
Qed.

#[export] Instance live_memtable_laws : @IMemTableLaws (Live T) (live_memtable clock).
Proof.
  refine {| promises := fun l c => exists v, shows l v c; work_ok := live_work_ok; flush_ok := live_flush_ok |}.
  - intros l c (v & [S1 S2 [S3 S4] S5]). split; [done|]. intros k r Hk. rewrite <- S2, lookup_layers.
    rewrite S4 in Hk. destruct (find k (v_active v)); [done|]. by rewrite Hk.
  - intros l c key (v & [S1 S2 S3 S4]). cbn. destruct (Get_spec (table l) v key S1) as (m & -> & Hr).
    cbn [mbind option_bind]. rewrite S2. eexists. split; [done|]. exists v. split; cbn [table]; [by eapply view_ok_reads|done|done|].
    destruct Hr as (_ & Hd & _). cbn. by rewrite Hd.
  - intros l c key value (v & Hs) Hf. cbn in *.
    destruct (table_write_spec (table l) v key value _ (next_coins l) _ (sh_view _ _ _ Hs) Hf eq_refl) as (m & Hrun & Hv & Hd).
    change (zlen key + value_len value) with (entry_bytes (key, value)). unfold MemTable.Put.
    change (zlen key + value_len value) with (entry_bytes (key, value)). rewrite Hrun. cbn.
    eexists. split; [done|]. eexists. by apply shows_write.
  - intros l c key (v & Hs) Hf. cbn in *.
    destruct (table_write_spec (table l) v key None _ (next_coins l) _ (sh_view _ _ _ Hs) Hf eq_refl) as (m & Hrun & Hv & Hd).
    unfold MemTable.Delete. rewrite Hrun. cbn. eexists. split; [done|]. eexists. by apply shows_write.
  - intros S l c start end_ fn s (v & Hs). cbn. by eapply scan_spec.
  - intros l c entries (v & Hs) Hok. cbn.
    destruct (flush_to_spec l v c entries Hs Hok) as (m & r & v' & -> & Hs'). cbn [mbind option_bind].
    eexists _, r. split; [done|]. by exists v'.
  - intros l c j (v & Hs) Hok. change (mt_Work l j) with (do_job clock l j). destruct j; cbn [do_job].
    + destruct (flush_spec l v c Hs Hok) as (m & v' & h & -> & Hs'). cbn [mbind option_bind].
      eexists _, h. split; [done|]. by exists v'.
    + destruct (compact_spec l v c Hs Hok) as (m & tables & -> & Hs'). cbn [mbind option_bind].
      eexists _, (hot c). split; [done|]. eexists. apply Hs'.
Defined.

(** A new memtable is empty. *)
Lemma new_live_promises disk : promises (mkLive (NewMemTable disk) 0 []) (mkContent (fun _ => None) []).
Proof.
  exists (mkView [] [] []). split; cbn; [apply new_view|done| |done]. split; [constructor|done].
Qed.

End Laws.
End Live.
