(* ===== verification/Network.v ===== *)
(** Requests of [network/banNet] and their dispatch to the registered routers
    ([request.go], [router.go], [msgHandle.go]), with the task queues of the
    worker pool. *)
From S2P Require Import Prelude Bytes Wire.
#[local] Existing Instance BanNet.Message_IMessage.

(** ** Requests and routers *)

(** [banNet.Request]: the message and the connection it came from. *)
Record Request := mkRequest { msg : BanNet.Message; conn : Z }.

Definition NewRequest (m : BanNet.Message) (c : Z) : Request := mkRequest m c.
Definition GetMsgData (r : Request) : bytes := BanNet.Data (msg r).
Definition SetMsgData (r : Request) (data : bytes) : Request :=
  mkRequest (BanNet.SetMsgLen (BanNet.SetData (msg r) data) (zlen data mod 2 ^ 32)) (conn r).
Definition GetReqID (r : Request) : bytes := BanNet.Id (msg r).

Inductive HookAction := HookPass | HookDrop.
#[global] Instance HookAction_eq_dec : EqDecision HookAction.
Proof. solve_decision. Defined.

(** One [SendBuffMsg] on the request's connection: id and payload. *)
Definition response := (bytes * bytes)%type.

(** What a handler did: it answered (any number of times), or it waits for a log
    index to be committed and answers then. *)
Inductive handled :=
  | Answered (rs : list response)
  | Suspended (index : Z) (rs : list response).

Definition responses (h : handled) : list response := match h with Answered rs => rs | Suspended _ rs => rs end.

(** [banIface.IRouter].  A handler that panics or never returns is [None]. *)
Class IRouter (R : Type) := {
  PreHandle : R -> Request -> R * Request * HookAction * list response;
  Handle : R -> Request -> option (R * handled);
  PostHandle : R -> Request -> R;
}.

(** [banNet.BaseRouter]. *)
Inductive BaseRouter := base_router.
#[export] Instance BaseRouter_IRouter : IRouter BaseRouter := {
  PreHandle r req := (r, req, HookPass, []);
  Handle r req := Some (r, Answered []);
  PostHandle r req := r;
}.

Module Dispatch.

Section Dispatch.
Context {R : Type} `{IRouter R}.

(** [Arip] maps ids to routers by reference: [objects] is the store of the router
    objects, so a router registered under several ids is one object. *)
Record MsgHandle := mkHandle {
  Arip : gmap bytes nat;
  objects : list R;
  WorkerPoolSize : Z;
  TaskQueue : list (list Request);
}.

Definition set_objects (m : MsgHandle) (os : list R) : MsgHandle := mkHandle (Arip m) os (WorkerPoolSize m) (TaskQueue m).
Definition set_queues (m : MsgHandle) (qs : list (list Request)) : MsgHandle :=
  mkHandle (Arip m) (objects m) (WorkerPoolSize m) qs.

(** [NewMsgHandle] and [StartWorkerPool]: every worker has an empty queue. *)
Definition NewMsgHandle (poolSize : Z) (os : list R) : MsgHandle :=
  mkHandle ∅ os poolSize (replicate (Z.to_nat poolSize) []).

(** A second registration of an id is ignored. *)
Definition AddRouter (m : MsgHandle) (msgID : bytes) (r : nat) : MsgHandle :=
  match Arip m !! msgID with
  | Some _ => m
  | None => mkHandle (<[msgID := r]> (Arip m)) (objects m) (WorkerPoolSize m) (TaskQueue m)
  end.

(** Handler and hooks run on the shared object. *)
Definition DoMsgHandle (m : MsgHandle) (request : Request) : option (MsgHandle * handled) :=
  match Arip m !! GetReqID request with
  | None => Some (m, Answered [])
  | Some p =>
      r ← objects m !! p;
      let '(r, request, action, dropped) := PreHandle r request in
      if bool_decide (action = HookDrop) then Some (set_objects m (<[p := r]> (objects m)), Answered dropped) else
      '(r, h) ← Handle r request;
      let r := PostHandle r request in
      Some (set_objects m (<[p := r]> (objects m)), h)
  end.

(** *** The task queues: channels of capacity [MaxWorkerTaskLen] *)

Definition try_send (cap : Z) (qs : list (list Request)) (i : nat) (request : Request) : option (list (list Request)) :=
  q ← qs !! i; if zlen q <? cap then Some (<[i := q ++ [request]]> qs) else None.

(** The other queues, one after the other; [todo] are left to try. *)
Fixpoint steal (cap : Z) (todo : nat) (m : MsgHandle) (workerID i : Z) (request : Request) : option (list (list Request)) :=
  match todo with
  | O => None
  | S todo' =>
      match try_send cap (TaskQueue m) (Z.to_nat ((workerID + i) mod 2 ^ 32 mod WorkerPoolSize m)) request with
      | Some qs => Some qs
      | None => steal cap todo' m workerID (i + 1) request
      end
  end.

(** [None]: every queue is full and the reader waits. *)
Definition SendMsgToTaskQueue (cap : Z) (m : MsgHandle) (request : Request) : option MsgHandle :=
  let workerID := conn request mod WorkerPoolSize m in
  match try_send cap (TaskQueue m) (Z.to_nat workerID) request with
  | Some qs => Some (set_queues m qs)
  | None => qs ← steal cap (Z.to_nat (WorkerPoolSize m - 1)) m workerID 1 request; Some (set_queues m qs)
  end.

(** One turn of [StartOneWorker]: the request it took and what it did. *)
Definition StartOneWorker (m : MsgHandle) (workerId : nat) : option (MsgHandle * option (Request * handled)) :=
  match TaskQueue m !! workerId with
  | Some (request :: rest) =>
      '(m, h) ← DoMsgHandle (set_queues m (<[workerId := rest]> (TaskQueue m))) request;
      Some (m, Some (request, h))
  | _ => Some (m, None)
  end.

(** *** Properties of the queues *)

Lemma try_send_spec cap (qs : list (list Request)) i request :
  match try_send cap qs i request with
  | Some qs' => exists q, qs !! i = Some q /\ zlen q < cap /\ qs' = <[i := q ++ [request]]> qs
  | None => forall q, qs !! i = Some q -> cap <= zlen q
  end.
Proof.
  unfold try_send. destruct (qs !! i) as [q|]; cbn [mbind option_bind]; [|done].
  destruct (Z.ltb_spec (zlen q) cap); [by exists q|]. by intros q' [= <-].
Qed.

Lemma steal_spec cap todo m workerID i request :
  0 <= workerID -> 0 <= i -> 0 < WorkerPoolSize m -> workerID + i + Z.of_nat todo <= 2 ^ 32 ->
  match steal cap todo m workerID i request with
  | Some qs' => exists j q, TaskQueue m !! j = Some q /\ zlen q < cap /\ qs' = <[j := q ++ [request]]> (TaskQueue m)
  | None => forall d q, 0 <= d < Z.of_nat todo -> TaskQueue m !! Z.to_nat ((workerID + (i + d)) mod WorkerPoolSize m) = Some q -> cap <= zlen q
  end.
Proof.
  revert i. induction todo as [|todo IH]; intros i Hw Hi Hs Hb; cbn [steal]; [intros; lia|].
  rewrite (Z.mod_small (workerID + i)) by lia.
  pose proof (try_send_spec cap (TaskQueue m) (Z.to_nat ((workerID + i) mod WorkerPoolSize m)) request) as Ht.
  destruct (try_send _ _ _ _) as [qs'|]; [destruct Ht as (q & ? & ? & ?); by eexists _, q|].
  specialize (IH (i + 1) Hw ltac:(lia) Hs ltac:(lia)). destruct (steal _ _ _ _ _ _); [done|].
  intros d q Hd Hq. destruct (Z.eq_dec d 0) as [->|Hne]; [apply Ht; by rewrite Z.add_0_r in Hq|].
  apply (IH (d - 1)); [lia|]. by replace (i + 1 + (d - 1)) with (i + d) by lia.
Qed.

(** Every worker is [workerID] or the [i]th after it. *)
Lemma steal_covers workerID size j : 0 <= workerID < size -> 0 <= j < size ->
  j = workerID \/ exists d, 0 <= d < size - 1 /\ (workerID + (1 + d)) mod size = j.
Proof.
  intros Hw Hj. destruct (Z.eq_dec j workerID) as [|Hne]; [by left|right].
  destruct (Z.lt_ge_cases workerID j).
  - exists (j - workerID - 1). split; [lia|]. replace (workerID + (1 + (j - workerID - 1))) with j by lia. apply Z.mod_small. lia.
  - exists (j + size - workerID - 1). split; [lia|]. replace (workerID + (1 + (j + size - workerID - 1))) with (j + 1 * size) by lia.
    rewrite Z.mod_add by lia. apply Z.mod_small. lia.
Qed.

(** The worker pool as [NewMsgHandle] makes it; ids of connections are [uint32]. *)
Definition pool_ok (m : MsgHandle) : Prop := WorkerPoolSize m = zlen (TaskQueue m) /\ 0 < WorkerPoolSize m < 2 ^ 31.

Lemma SendMsgToTaskQueue_ok (cap : Z) (m : MsgHandle) (request : Request) (Hm : pool_ok m) (Hc : 0 <= conn request) :
  match SendMsgToTaskQueue cap m request with
  | Some m' => exists j q, TaskQueue m !! j = Some q /\ zlen q < cap /\
      m' = set_queues m (<[j := q ++ [request]]> (TaskQueue m)) /\
      forall own, TaskQueue m !! Z.to_nat (conn request mod WorkerPoolSize m) = Some own -> zlen own < cap ->
        j = Z.to_nat (conn request mod WorkerPoolSize m)
  | None => forall j q, TaskQueue m !! j = Some q -> cap <= zlen q
  end.
Proof.
  destruct Hm as [Hlen Hsize]. set (w := conn request mod WorkerPoolSize m).
  assert (0 <= w < WorkerPoolSize m) as Hw by (apply Z.mod_pos_bound; lia).
  unfold SendMsgToTaskQueue. fold w. pose proof (try_send_spec cap (TaskQueue m) (Z.to_nat w) request) as Ht.
  destruct (try_send _ _ _ _) as [qs|]; [destruct Ht as (q & ? & ? & ->); by exists (Z.to_nat w), q|].
  pose proof (steal_spec cap (Z.to_nat (WorkerPoolSize m - 1)) m w 1 request ltac:(lia) ltac:(lia) ltac:(lia) ltac:(lia)) as Hs.
  destruct (steal _ _ _ _ _ _) as [qs|]; cbn [mbind option_bind].
  - destruct Hs as (j & q & ? & ? & ->). exists j, q. split_and!; [done..|]. intros own Hown Hl. apply Ht in Hown. lia.
  - intros j q Hq. pose proof (lookup_lt_Some _ _ _ Hq) as Hj.
    destruct (steal_covers w (WorkerPoolSize m) (Z.of_nat j)) as [E|(d & Hd & E)]; [done|unfold zlen in Hlen; lia| |].
    + apply Ht. by rewrite <- E, Nat2Z.id.
    + apply (Hs d); [lia|]. by rewrite E, Nat2Z.id.
Qed.

(** a request goes to exactly one queue, at its end: to its connection's own
    worker when that has room, else to another worker's that has; the reader of
    the connection waits exactly when every queue of the pool is full. *)
Theorem queue_or_wait (cap : Z) (m : MsgHandle) (request : Request) (Hm : pool_ok m) (Hc : 0 <= conn request) :
  (forall m', SendMsgToTaskQueue cap m request = Some m' ->
     exists j q, TaskQueue m !! j = Some q /\ zlen q < cap /\
       m' = set_queues m (<[j := q ++ [request]]> (TaskQueue m)) /\
       forall own, TaskQueue m !! Z.to_nat (conn request mod WorkerPoolSize m) = Some own -> zlen own < cap ->
         j = Z.to_nat (conn request mod WorkerPoolSize m)) /\
  (SendMsgToTaskQueue cap m request = None <-> forall j q, TaskQueue m !! j = Some q -> cap <= zlen q).
Proof.
  pose proof (SendMsgToTaskQueue_ok cap m request Hm Hc) as Hs. destruct (SendMsgToTaskQueue cap m request) as [m1|].
  - split; [by intros m' [= <-]|]. split; [done|]. intros Hfull. destruct Hs as (j & q & Hj & Hl & _). specialize (Hfull j q Hj). lia.
  - split; [done|]. by split.
Qed.

(** *** Requests on their way through the pool *)

(** What was submitted and what a worker has handled, in order. *)
Inductive pool_run (cap : Z) (m0 : MsgHandle) : list Request -> list Request -> MsgHandle -> Prop :=
  | pool_nil : pool_run cap m0 [] [] m0
  | pool_submit subs done m request m' :
      pool_run cap m0 subs done m -> 0 <= conn request -> SendMsgToTaskQueue cap m request = Some m' ->
      pool_run cap m0 (subs ++ [request]) done m'
  | pool_work subs done m i m' request h :
      pool_run cap m0 subs done m -> StartOneWorker m i = Some (m', Some (request, h)) ->
      pool_run cap m0 subs (done ++ [request]) m'.

Lemma concat_push (qs : list (list Request)) i q x :
  qs !! i = Some q -> concat (<[i := q ++ [x]]> qs) ≡ₚ concat qs ++ [x].
Proof.
  revert i. induction qs as [|q0 qs IH]; intros [|i] Hq; try done; cbn [insert list_insert concat].
  - injection Hq as ->. rewrite <- !app_assoc. apply Permutation_app_head, Permutation_app_comm.
  - rewrite (IH i) by done. by rewrite app_assoc.
Qed.

Lemma concat_pop (qs : list (list Request)) i q x :
  qs !! i = Some (x :: q) -> concat qs ≡ₚ x :: concat (<[i := q]> qs).
Proof.
  revert i. induction qs as [|q0 qs IH]; intros [|i] Hq; try done; cbn [insert list_insert concat].
  - by injection Hq as ->.
  - rewrite (IH i) by done. by rewrite Permutation_middle.
Qed.

Lemma DoMsgHandle_queues m request m' h : DoMsgHandle m request = Some (m', h) ->
  TaskQueue m' = TaskQueue m /\ WorkerPoolSize m' = WorkerPoolSize m.
Proof.
  unfold DoMsgHandle. destruct (Arip m !! _) as [p|]; [|by intros [= <- _]].
  destruct (objects m !! p) as [r|]; cbn [mbind option_bind]; [|done].
  destruct (PreHandle r request) as [[[r1 req] action] dropped]. destruct (bool_decide _); [by intros [= <- _]|].
  destruct (Handle r1 req) as [[r2 h2]|]; cbn [mbind option_bind]; [|done]. by intros [= <- _].
Qed.

(** no request is lost and none is handled twice: at any moment the requests
    the readers have submitted are those the workers have handled and those in
    the queues; and no queue ever holds more than its capacity. *)
Theorem requests_handled_once (cap : Z) (m0 m : MsgHandle) (subs done : list Request)
    (Hm : pool_ok m0) (Hempty : concat (TaskQueue m0) = []) (Hcap : 0 <= cap) (Hrun : pool_run cap m0 subs done m) :
  subs ≡ₚ done ++ concat (TaskQueue m) /\ Forall (fun q => zlen q <= cap) (TaskQueue m).
Proof.
  assert (pool_ok m /\ subs ≡ₚ done ++ concat (TaskQueue m) /\ Forall (fun q => zlen q <= cap) (TaskQueue m)) as H3; [|by destruct H3].
  induction Hrun as [|subs done m request m' _ (I1 & I2 & I3) Hc Hsend|subs done m i m' request h _ (I1 & I2 & I3) Hw].
  - split; [done|]. split; [by rewrite Hempty|]. apply Forall_forall. intros q Hq.
    assert (q = []) as ->; [|done]. apply list_elem_of_lookup in Hq as [j Hj].
    destruct q as [|x q]; [done|]. apply concat_pop in Hj. rewrite Hempty in Hj. by apply Permutation_nil in Hj.
  - pose proof (SendMsgToTaskQueue_ok cap m request I1 Hc) as Hs. rewrite Hsend in Hs. destruct Hs as (j & q & Hj & Hl & -> & _).
    cbn [TaskQueue set_queues]. split; [|split].
    + destruct I1 as [E ?]. split; cbn [WorkerPoolSize TaskQueue set_queues]; [|done]. unfold zlen in *. by rewrite length_insert.
    + rewrite concat_push by done. by rewrite I2, app_assoc.
    + apply Forall_insert; [done|]. rewrite zlen_app, zlen_cons, zlen_nil. lia.
  - unfold StartOneWorker in Hw. destruct (TaskQueue m !! i) as [[|x q]|] eqn:Hq; [done| |done].
    destruct (DoMsgHandle _ _) as [[m1 h1]|] eqn:Hdo; [|done]. cbn [mbind option_bind] in Hw. injection Hw as <- <- <-.
    apply DoMsgHandle_queues in Hdo as [E1 E2]. cbn [TaskQueue WorkerPoolSize set_queues] in *. rewrite E1. split; [|split].
    + destruct I1 as [E ?]. split; rewrite ?E1, E2; [|done]. unfold zlen in *. by rewrite length_insert.
    + rewrite I2, (concat_pop _ _ _ _ Hq). by rewrite <- app_assoc.
    + apply Forall_insert; [done|]. eapply Forall_lookup in I3; [|exact Hq]. rewrite zlen_cons in I3. lia.
Qed.

End Dispatch.
#[global] Arguments MsgHandle : clear implicits.
End Dispatch.

(** ** Sample: two workers with queues of one place *)
Module DispatchSample.
Import Dispatch.

Definition handle0 : MsgHandle BaseRouter := NewMsgHandle 2 [base_router].
Definition request_of (c : Z) : Request := NewRequest (BanNet.NewMessage (of_string "GET") []) c.
(** Connection 2 has worker 0, which is busy: the request goes to worker 1. *)
Definition handle1 : MsgHandle BaseRouter := set_queues handle0 [[request_of 0]; []].
Definition handle2 : MsgHandle BaseRouter := set_queues handle0 [[request_of 0]; [request_of 2]].

Lemma handle0_ok m : WorkerPoolSize m = 2 -> zlen (TaskQueue m) = 2 -> @pool_ok BaseRouter m.
Proof. intros E1 E2. split; rewrite ?E1, ?E2; done. Qed.

Lemma queue_or_wait_witness :
  SendMsgToTaskQueue 1 handle1 (request_of 2) = Some handle2 /\
  (SendMsgToTaskQueue 1 handle2 (request_of 4) = None) /\
  exists j q, TaskQueue handle1 !! j = Some q /\ zlen q < 1.
Proof.
  split; [reflexivity|]. split.
  - apply (queue_or_wait 1 handle2 (request_of 4)); [by apply handle0_ok|done|].
    intros [|[|j]] q Hq; cbn in Hq; try discriminate; injection Hq as <-; vm_compute; discriminate.
  - destruct (queue_or_wait 1 handle1 (request_of 2)) as [H _]; [by apply handle0_ok|done|].
    destruct (H handle2 eq_refl) as (j & q & Hj & Hl & _). by exists j, q.
Defined.

Lemma sample_pool : pool_run 1 handle0 [request_of 0; request_of 2] [request_of 2] (set_queues handle0 [[request_of 0]; []]).
Proof.
  eapply (pool_work 1 handle0 _ [] handle2 1 _ (request_of 2) (Answered [])); [|reflexivity].
  apply (pool_submit 1 handle0 [request_of 0] [] handle1); [|done|reflexivity].
  by apply (pool_submit 1 handle0 [] [] handle0); [apply pool_nil|done|].
Qed.

Lemma requests_handled_once_witness :
  [request_of 0; request_of 2] ≡ₚ [request_of 2] ++ concat (TaskQueue handle1).
Proof.
  apply (requests_handled_once 1 handle0 handle1 [request_of 0; request_of 2] [request_of 2]);
    [by apply handle0_ok|reflexivity|done|exact sample_pool].
Defined.

End DispatchSample.
