(* ===== verification/Pool.v ===== *)
(** The life of the worker pool ([network/banNet/msgHandle.go]): [StartWorkerPool],
    readers that submit, workers, and [Stop], which closes the queues.  The queues
    and their workers are in Network.v. *)
From S2P Require Import Prelude Bytes Wire Network.
Import Dispatch.

Module Pool.

Section Pool.
Context {R : Type} `{IRouter R}.

(** The channels are nil until the pool is started; [ended] are the workers that
    have returned. *)
Record Pool := mkPool { handler : MsgHandle R; started : bool; closed : bool; ended : list nat }.

Definition set_handler (p : Pool) (m : MsgHandle R) : Pool := mkPool m (started p) (closed p) (ended p).

Definition new_pool (m : MsgHandle R) : Pool := mkPool m false false [].

Definition StartWorkerPool (p : Pool) : Pool :=
  mkPool (set_queues (handler p) (replicate (Z.to_nat (WorkerPoolSize (handler p))) [])) true (closed p) (ended p).

(** [SendMsgToTaskQueue] of a reader: sending on a nil channel waits for ever, on
    a closed one panics. *)
Inductive submission := Queued (p : Pool) | Blocks | Panics.

Definition submit (cap : Z) (p : Pool) (request : Request) : submission :=
  if negb (started p) then Blocks else
  if closed p then Panics else
  match SendMsgToTaskQueue cap (handler p) request with
  | Some m => Queued (set_handler p m)
  | None => Blocks
  end.

(** A turn of worker [i]: the request it handled, or its return on a channel that
    is closed and empty; [None]: it waits, or has ended. *)
Definition worker_turn (p : Pool) (i : nat) : option (Pool * option (Request * handled)) :=
  if negb (started p) || bool_decide (i ∈ ended p) then None else
  match TaskQueue (handler p) !! i with
  | None => None
  | Some [] => if closed p then Some (mkPool (handler p) (started p) (closed p) (i :: ended p), None) else None
  | Some (_ :: _) => '(m, done) ← StartOneWorker (handler p) i; Some (set_handler p m, done)
  end.

(** Closing the channels one after the other: [Server.Stop] has stopped the
    connections by then, so nobody submits meanwhile.  [None]: closing a closed
    channel panics. *)
Definition Stop (p : Pool) : option Pool :=
  if negb (started p) then Some p else
  if closed p then None else Some (mkPool (handler p) (started p) true (ended p)).

(** The pool from its making: what was submitted and what was handled. *)
Inductive pool_life (cap : Z) (m0 : MsgHandle R) : list Request -> list Request -> Pool -> Prop :=
  | life_new : pool_life cap m0 [] [] (new_pool m0)
  | life_start subs done p :
      pool_life cap m0 subs done p -> started p = false -> pool_life cap m0 subs done (StartWorkerPool p)
  | life_submit subs done p request p' :
      pool_life cap m0 subs done p -> 0 <= conn request -> submit cap p request = Queued p' ->
      pool_life cap m0 (subs ++ [request]) done p'
  | life_work subs done p i p' request h :
      pool_life cap m0 subs done p -> worker_turn p i = Some (p', Some (request, h)) ->
      pool_life cap m0 subs (done ++ [request]) p'
  | life_end subs done p i p' :
      pool_life cap m0 subs done p -> worker_turn p i = Some (p', None) -> pool_life cap m0 subs done p'
  | life_stop subs done p p' :
      pool_life cap m0 subs done p -> Stop p = Some p' -> pool_life cap m0 subs done p'.

(** ** Every life is a run of the queues *)

Definition opened (m : MsgHandle R) : MsgHandle R := set_queues m (replicate (Z.to_nat (WorkerPoolSize m)) []).

Record life_ok (cap : Z) (m0 : MsgHandle R) (subs done : list Request) (p : Pool) : Prop := {
  lo_fresh : started p = false -> subs = [] /\ done = [] /\ closed p = false /\ ended p = [] /\ handler p = m0;
  lo_run : started p = true -> pool_run cap (opened m0) subs done (handler p);
  lo_ended : forall i, i ∈ ended p -> closed p = true /\ TaskQueue (handler p) !! i = Some [];
}.

Lemma StartOneWorker_queues (m m' : MsgHandle R) i d :
  StartOneWorker m i = Some (m', d) ->
  TaskQueue m' = match TaskQueue m !! i with Some (_ :: rest) => <[i := rest]> (TaskQueue m) | _ => TaskQueue m end.
Proof.
  unfold StartOneWorker. destruct (TaskQueue m !! i) as [[|x rest]|]; [by intros [= <- _]| |by intros [= <- _]].
  destruct (DoMsgHandle _ _) as [[m1 h]|] eqn:E; [|done]. cbn [mbind option_bind]. intros [= <- _].
  by apply DoMsgHandle_queues in E as [-> _].
Qed.

Lemma life_invariant cap m0 subs done p : pool_life cap m0 subs done p -> life_ok cap m0 subs done p.
Proof.
  induction 1 as [|subs done p _ [I1 I2 I3] Hst|subs done p request p' _ [I1 I2 I3] Hc Hsub|subs done p i p' request h _ [I1 I2 I3] Hw
    |subs done p i p' _ [I1 I2 I3] Hw|subs done p p' _ [I1 I2 I3] Hs].
  - split; [by intros|done|by intros i ?%elem_of_nil].
  - destruct (I1 Hst) as (-> & -> & Hcl & He & Hh). split; cbn; [done| |by rewrite He; intros i ?%elem_of_nil].
    intros _. rewrite Hh. apply pool_nil.
  - unfold submit in Hsub. destruct (started p) eqn:Hst; [|done]. destruct (closed p) eqn:Hcl; [done|]. cbn in Hsub.
    destruct (SendMsgToTaskQueue cap (handler p) request) as [m|] eqn:E; [|done]. injection Hsub as <-.
    split; cbn; [congruence| |].
    + intros _. eapply pool_submit; eauto.
    + intros i Hi. destruct (I3 i Hi). congruence.
  - unfold worker_turn in Hw. destruct (started p) eqn:Hst; [|done]. cbn [negb orb] in Hw.
    case_bool_decide as Hi; [done|]. destruct (TaskQueue (handler p) !! i) as [[|x rest]|] eqn:Hq; [by destruct (closed p)| |done].
    destruct (StartOneWorker (handler p) i) as [[m d]|] eqn:E; [|done]. cbn in Hw. injection Hw as <- ->.
    split; cbn; [congruence| |].
    + intros _. eapply pool_work; eauto.
    + intros j Hj. destruct (I3 j Hj) as [? Hqj]. split; [done|]. rewrite (StartOneWorker_queues _ _ _ _ E), Hq.
      rewrite list_lookup_insert_ne; [done|]. intros <-. congruence.
  - unfold worker_turn in Hw. destruct (started p) eqn:Hst; [|done]. cbn [negb orb] in Hw.
    case_bool_decide as Hi; [done|]. destruct (TaskQueue (handler p) !! i) as [[|x rest]|] eqn:Hq; [| |done].
    + destruct (closed p) eqn:Hcl; [|done]. injection Hw as <-. split; cbn; [congruence|auto|].
      intros j [->|Hj]%elem_of_cons; [done|]. destruct (I3 j Hj). by split.
    + unfold StartOneWorker in Hw. rewrite Hq in Hw. by destruct (DoMsgHandle _ _) as [[m h]|].
  - unfold Stop in Hs. destruct (started p) eqn:Hst; cbn in Hs; [|by injection Hs as <-; split; rewrite ?Hst].
    destruct (closed p) eqn:Hcl; [done|]. injection Hs as <-. split; cbn; [congruence|auto|].
    intros i Hi. destruct (I3 i Hi). congruence.
Qed.

Lemma opened_ok m0 : 0 < WorkerPoolSize m0 < 2 ^ 31 -> pool_ok (opened m0) /\ concat (TaskQueue (opened m0)) = [].
Proof.
  intros Hm. split.
  - split; [|done]. cbn [opened WorkerPoolSize TaskQueue set_queues]. unfold zlen. rewrite length_replicate. lia.
  - cbn [opened TaskQueue set_queues]. by induction (Z.to_nat (WorkerPoolSize m0)).
Qed.

Lemma concat_nil (qs : list (list Request)) : (forall i, (i < length qs)%nat -> qs !! i = Some []) -> concat qs = [].
Proof.
  induction qs as [|q qs IH]; intros Hall; [done|]. cbn. pose proof (Hall 0%nat) as H0. cbn in H0.
  injection (H0 ltac:(lia)) as ->. cbn. apply IH. intros i Hi. apply (Hall (S i)). cbn. lia.
Qed.

(** C19: no request is lost and none is handled twice, up to the end of the pool:
    over every interleaving of [StartWorkerPool], readers, workers and [Stop], the
    requests submitted are at any moment those handled and those in the queues, and
    no queue exceeds its capacity; before the pool is started a reader waits; after
    [Stop] one that submits panics, as does a second [Stop]; and once every worker
    has returned, which [Stop] alone makes possible, every request that was
    submitted has been handled, exactly once. *)
Theorem pool_drains_on_stop (cap : Z) (m0 : MsgHandle R) (subs done : list Request) (p : Pool)
    (Hm : 0 < WorkerPoolSize m0 < 2 ^ 31) (Hcap : 0 <= cap) (Hlife : pool_life cap m0 subs done p) :
  (started p = true -> subs ≡ₚ done ++ concat (TaskQueue (handler p)) /\ Forall (fun q => zlen q <= cap) (TaskQueue (handler p))) /\
  (started p = false -> subs = [] /\ forall request, submit cap p request = Blocks) /\
  (closed p = true -> Stop p = None /\ forall request, submit cap p request = Panics) /\
  (forall i, i ∈ ended p -> closed p = true) /\
  (started p = true -> (forall i, (i < length (TaskQueue (handler p)))%nat -> i ∈ ended p) -> subs ≡ₚ done).
Proof.
  destruct (life_invariant _ _ _ _ _ Hlife) as [I1 I2 I3]. destruct (opened_ok m0 Hm) as [Ho He].
  assert (started p = true -> subs ≡ₚ done ++ concat (TaskQueue (handler p)) /\ Forall (fun q => zlen q <= cap) (TaskQueue (handler p)))
    as Hall by (intros Hst; by apply (requests_handled_once cap (opened m0)), I2).
  split_and!; [done| | |by intros i Hi; apply (I3 i Hi)|].
  - intros Hst. destruct (I1 Hst) as (-> & _). split; [done|]. intros request. unfold submit. by rewrite Hst.
  - intros Hcl. destruct (started p) eqn:Hst; [|by destruct (I1 eq_refl) as (_ & _ & ? & _); congruence].
    unfold Stop, submit. by rewrite Hst, Hcl.
  - intros Hst Hend. destruct (Hall Hst) as [Hperm _]. rewrite Hperm, concat_nil, app_nil_r; [done|].
    intros i Hi. apply (I3 i), Hend, Hi.
Qed.

End Pool.
#[global] Arguments Pool : clear implicits.

(** ** Sample: one request is queued when the pool of one worker is stopped *)

Definition sample_handle : MsgHandle BaseRouter := NewMsgHandle 1 [base_router].
Definition sample_request : Request := NewRequest (BanNet.NewMessage (of_string "GET") []) 7.
Definition sample_end : Pool BaseRouter := mkPool (set_queues sample_handle [[]]) true true [0%nat].

Lemma sample_life : pool_life 1 sample_handle [sample_request] [sample_request] sample_end.
Proof.
  set (q := set_queues sample_handle [[sample_request]]).
  apply (life_end _ _ _ _ (mkPool (set_queues sample_handle [[]]) true true []) 0); [|reflexivity].
  apply (life_work _ _ [sample_request] [] (mkPool q true true []) 0 _ _ (Answered [])); [|reflexivity].
  apply (life_stop _ _ _ _ (mkPool q true false [])); [|reflexivity].
  apply (life_submit _ _ [] [] (StartWorkerPool (new_pool sample_handle))); [|done|reflexivity].
  apply life_start; [apply life_new|reflexivity].
Qed.

Lemma pool_drains_on_stop_witness : [sample_request] ≡ₚ [sample_request] /\ Stop sample_end = None.
Proof.
  destruct (pool_drains_on_stop 1 sample_handle [sample_request] [sample_request] sample_end) as (_ & _ & H1 & _ & H2);
    [split; reflexivity|discriminate|exact sample_life|]. split.
  - apply H2; [reflexivity|]. intros i Hi. cbn in Hi. assert (i = 0%nat) as -> by lia. left.
  - by apply H1.
Defined.

End Pool.
