(* ===== verification/Connection.v ===== *)
(** Connections of [network/banNet]: the goroutines of [connection.go] and the
    channels between them, the table of [ConnManager.go], and the accept loop
    and shutdown of [server.go]. *)
From S2P Require Import Prelude Bytes Wire.
#[local] Existing Instance BanNet.Message_IMessage.

(** ** ConnManager.go *)
Module ConnManager.

(** [mu] says that the write lock is held; connections are named by what they
    are. *)
Record ConnManager := mkMgr { mu : bool; connections : gmap Z Z }.

Definition NewConnManager : ConnManager := mkMgr false ∅.

(** [None]: the caller waits for the lock. *)
Definition Lock (cm : ConnManager) : option ConnManager := if mu cm then None else Some (mkMgr true (connections cm)).
Definition Unlock (cm : ConnManager) : ConnManager := mkMgr false (connections cm).

Definition Add (cm : ConnManager) (connID c : Z) : option ConnManager :=
  cm ← Lock cm; Some (Unlock (mkMgr (mu cm) (<[connID := c]> (connections cm)))).

Definition Remove (cm : ConnManager) (connID : Z) : option ConnManager :=
  cm ← Lock cm; Some (Unlock (mkMgr (mu cm) (delete connID (connections cm)))).

Definition Get (cm : ConnManager) (connID : Z) : option (option Z) :=
  cm ← Lock cm; Some (connections cm !! connID).

(** [Len] takes no lock. *)
Definition Len (cm : ConnManager) : Z := Z.of_nat (size (connections cm)).

End ConnManager.

(** ** connection.go *)
Module Conn.

(** Where the three goroutines of a connection are.  The reader: in its loop, at
    the send on [ExitBuffChan], at the deferred [Stop], gone. *)
Inductive reader_place := Reading | Failing | RLeaving | RGone.
(** The writer: before the outer [select], before the inner one, waiting in the
    inner one, at the deferred [Stop], gone. *)
Inductive writer_place := Top | Inner | Idle | WLeaving | WGone.
(** [Start]: in the start callback, waiting for the exit token, gone. *)
Inductive starter_place := Starting | Waiting | SGone.

(** [ExitBuffChan] is a channel of capacity one; the socket is open until
    [stopOnce] is done.  The map [property] is never made. *)
Record Connection := mkConn {
  ConnID : Z;
  msgChan : list bytes;
  msgBuffChan : list bytes;
  ExitBuffChan : bool;
  stopOnce : bool;
  stopCalls : Z;
  reader : reader_place;
  writer : writer_place;
  starter : starter_place;
  socket : bytes;
  property : option (gmap bytes bytes);
}.

Definition msgChanCap : Z := 10.

Definition NewConnection (id : Z) : Connection := mkConn id [] [] false false 0 Reading Top Starting [] None.

Definition set_token (c : Connection) (b : bool) : Connection :=
  mkConn (ConnID c) (msgChan c) (msgBuffChan c) b (stopOnce c) (stopCalls c) (reader c) (writer c) (starter c) (socket c) (property c).
Definition set_reader (c : Connection) (r : reader_place) : Connection :=
  mkConn (ConnID c) (msgChan c) (msgBuffChan c) (ExitBuffChan c) (stopOnce c) (stopCalls c) r (writer c) (starter c) (socket c) (property c).
Definition set_writer (c : Connection) (w : writer_place) : Connection :=
  mkConn (ConnID c) (msgChan c) (msgBuffChan c) (ExitBuffChan c) (stopOnce c) (stopCalls c) (reader c) w (starter c) (socket c) (property c).
Definition set_starter (c : Connection) (s : starter_place) : Connection :=
  mkConn (ConnID c) (msgChan c) (msgBuffChan c) (ExitBuffChan c) (stopOnce c) (stopCalls c) (reader c) (writer c) s (socket c) (property c).
Definition set_high (c : Connection) (m : list bytes) : Connection :=
  mkConn (ConnID c) m (msgBuffChan c) (ExitBuffChan c) (stopOnce c) (stopCalls c) (reader c) (writer c) (starter c) (socket c) (property c).
Definition set_low (c : Connection) (b : list bytes) : Connection :=
  mkConn (ConnID c) (msgChan c) b (ExitBuffChan c) (stopOnce c) (stopCalls c) (reader c) (writer c) (starter c) (socket c) (property c).
Definition put_socket (c : Connection) (f : bytes) : Connection :=
  mkConn (ConnID c) (msgChan c) (msgBuffChan c) (ExitBuffChan c) (stopOnce c) (stopCalls c) (reader c) (writer c) (starter c) (socket c ++ f) (property c).
(** What [stopOnce] runs before it signals: the stop callback, and the socket is
    closed. *)
Definition close_conn (c : Connection) : Connection :=
  mkConn (ConnID c) (msgChan c) (msgBuffChan c) (ExitBuffChan c) true (stopCalls c + 1) (reader c) (writer c) (starter c) (socket c) (property c).

(** [SendMsg] and [SendBuffMsg]: an error of [Pack], or the frame in the channel;
    [None] while the channel is full. *)
Definition SendMsg (c : Connection) (msgID data : bytes) : option (Connection * result unit) :=
  match BanNet.Pack (BanNet.NewMessage msgID data) with
  | Error e => Some (c, Error e)
  | Ok f => if zlen (msgChan c) <? msgChanCap then Some (set_high c (msgChan c ++ [f]), Ok tt) else None
  end.

Definition SendBuffMsg (MaxMsgChanLen : Z) (c : Connection) (msgID data : bytes) : option (Connection * result unit) :=
  match BanNet.Pack (BanNet.NewMessage msgID data) with
  | Error e => Some (c, Error e)
  | Ok f => if zlen (msgBuffChan c) <? MaxMsgChanLen then Some (set_low c (msgBuffChan c ++ [f]), Ok tt) else None
  end.

(** Properties; writing to the nil map panics. *)
Definition SetProperty (c : Connection) (key value : bytes) : option Connection :=
  m ← property c;
  Some (mkConn (ConnID c) (msgChan c) (msgBuffChan c) (ExitBuffChan c) (stopOnce c) (stopCalls c) (reader c) (writer c) (starter c)
          (socket c) (Some (<[key := value]> m))).
Definition GetProperty (c : Connection) (key : bytes) : option bytes := m ← property c; m !! key.
Definition RemoveProperty (c : Connection) (key : bytes) : Connection :=
  mkConn (ConnID c) (msgChan c) (msgBuffChan c) (ExitBuffChan c) (stopOnce c) (stopCalls c) (reader c) (writer c) (starter c)
    (socket c) (delete key <$> property c).

(** *** The exit token *)

(** The writer waits in the inner [select]: nothing has been handed to it. *)
Definition parked (c : Connection) : Prop := writer c = Idle /\ msgBuffChan c = [].

(** A send on [ExitBuffChan] that goes through: to a goroutine that waits for it,
    or into the buffer when none does. *)
Inductive signal : Connection -> Connection -> Prop :=
  | sig_starter c : starter c = Waiting -> signal c (set_starter c SGone)
  | sig_writer c : parked c -> signal c (set_writer c WLeaving)
  | sig_buffer c : starter c <> Waiting -> ~ parked c -> ExitBuffChan c = false -> signal c (set_token c true).

(** [Stop]: the first call closes and signals, or gives the signal up; the others
    do nothing. *)
Inductive stops : Connection -> Connection -> Prop :=
  | stop_again c : stopOnce c = true -> stops c c
  | stop_signal c c' : stopOnce c = false -> signal (close_conn c) c' -> stops c c'
  | stop_default c : stopOnce c = false -> starter c <> Waiting -> ~ parked c -> ExitBuffChan c = true -> stops c (close_conn c).

(** *** The goroutines at work *)

(** What a step did to a frame: a handler queued it, the writer took it and wrote
    [n] bytes of it ([true] is the high-priority channel). *)
Inductive action := Queued (high : bool) (f : bytes) | Took (high : bool) (f : bytes) (n : nat) | Quiet.

(** A write of [f] that leaves [c']: all of it, or an error after [n] bytes; the
    socket takes nothing once it is closed. *)
Inductive writes (f : bytes) (c : Connection) : nat -> Connection -> Prop :=
  | write_ok : stopOnce c = false -> writes f c (length f) (set_writer (put_socket c f) Top)
  | write_err n : (n < length f)%nat -> (stopOnce c = true -> n = O) ->
      writes f c n (set_writer (put_socket c (take n f)) WLeaving).

Inductive step (MaxMsgChanLen : Z) : Connection -> action -> Connection -> Prop :=
  | s_high c id data f :
      BanNet.Pack (BanNet.NewMessage id data) = Ok f -> SendMsg c id data = Some (set_high c (msgChan c ++ [f]), Ok tt) ->
      step MaxMsgChanLen c (Queued true f) (set_high c (msgChan c ++ [f]))
  | s_low c id data f :
      BanNet.Pack (BanNet.NewMessage id data) = Ok f -> SendBuffMsg MaxMsgChanLen c id data = Some (set_low c (msgBuffChan c ++ [f]), Ok tt) ->
      step MaxMsgChanLen c (Queued false f) (set_low c (msgBuffChan c ++ [f]))
  (** the reader *)
  | s_fail c : reader c = Reading -> step MaxMsgChanLen c Quiet (set_reader c Failing)
  | s_reader_signal c c' : reader c = Failing -> signal c c' -> step MaxMsgChanLen c Quiet (set_reader c' RLeaving)
  | s_reader_stop c c' : reader c = RLeaving -> stops c c' -> step MaxMsgChanLen c Quiet (set_reader c' RGone)
  (** the writer *)
  | s_writer_exit c : writer c = Top \/ writer c = Inner -> ExitBuffChan c = true ->
      step MaxMsgChanLen c Quiet (set_writer (set_token c false) WLeaving)
  | s_writer_high c f m n c' : writer c = Top -> msgChan c = f :: m -> writes f (set_high c m) n c' ->
      step MaxMsgChanLen c (Took true f n) c'
  | s_writer_default c : writer c = Top -> ExitBuffChan c = false -> msgChan c = [] ->
      step MaxMsgChanLen c Quiet (set_writer c Inner)
  | s_writer_low c f b n c' : writer c = Inner \/ writer c = Idle -> msgBuffChan c = f :: b -> writes f (set_low c b) n c' ->
      step MaxMsgChanLen c (Took false f n) c'
  | s_writer_park c : writer c = Inner -> ExitBuffChan c = false -> msgBuffChan c = [] ->
      step MaxMsgChanLen c Quiet (set_writer c Idle)
  | s_writer_stop c c' : writer c = WLeaving -> stops c c' -> step MaxMsgChanLen c Quiet (set_writer c' WGone)
  (** the goroutine of [Start] *)
  | s_starter_exit c : starter c = Starting -> ExitBuffChan c = true ->
      step MaxMsgChanLen c Quiet (set_starter (set_token c false) SGone)
  | s_starter_wait c : starter c = Starting -> ExitBuffChan c = false -> step MaxMsgChanLen c Quiet (set_starter c Waiting).

Inductive runs (MaxMsgChanLen : Z) (c0 : Connection) : list action -> Connection -> Prop :=
  | runs_nil : runs MaxMsgChanLen c0 [] c0
  | runs_snoc tr c a c' : runs MaxMsgChanLen c0 tr c -> step MaxMsgChanLen c a c' -> runs MaxMsgChanLen c0 (tr ++ [a]) c'.

(** ** Properties *)

#[local] Ltac fields := cbn [ConnID msgChan msgBuffChan ExitBuffChan stopOnce stopCalls reader writer starter socket property
  set_token set_reader set_writer set_starter set_high set_low put_socket close_conn] in *.

#[global] Instance writer_place_eq_dec : EqDecision writer_place.
Proof. solve_decision. Defined.
#[global] Instance parked_dec c : Decision (parked c).
Proof. unfold parked. apply _. Defined.

Lemma signal_or c : (exists c', signal c c') \/ (starter c <> Waiting /\ ~ parked c /\ ExitBuffChan c = true).
Proof.
  destruct (decide (parked c)); [left; eexists; by apply sig_writer|].
  destruct (starter c) eqn:Hs; [|left; eexists; by apply sig_starter|];
    (destruct (ExitBuffChan c) eqn:He; [right; by split_and!|left; eexists; by apply sig_buffer; rewrite ?Hs]).
Qed.

Lemma stops_total c : exists c', stops c c'.
Proof.
  destruct (stopOnce c) eqn:Ho; [eexists; by apply stop_again|].
  destruct (signal_or (close_conn c)) as [[c' Hc]|(H1 & H2 & H3)]; [eexists; by apply stop_signal|].
  eexists. apply stop_default; done.
Qed.

(** What signals and stops leave alone, and what they do. *)
Lemma signal_same c c' : signal c c' ->
  stopOnce c' = stopOnce c /\ stopCalls c' = stopCalls c /\ reader c' = reader c /\ msgChan c' = msgChan c /\
  msgBuffChan c' = msgBuffChan c /\ socket c' = socket c.
Proof. by intros []. Qed.

Lemma stops_same c c' : stops c c' ->
  stopOnce c' = true /\ stopCalls c' = stopCalls c + (if stopOnce c then 0 else 1) /\ reader c' = reader c /\
  msgChan c' = msgChan c /\ msgBuffChan c' = msgBuffChan c /\ socket c' = socket c.
Proof.
  intros [|c0 c1 Ho Hs|c0 Ho _ _ _]; rewrite ?Ho, ?H; [split_and!; (done || lia)| |split_and!; (done || lia)].
  apply signal_same in Hs as (-> & -> & -> & -> & -> & ->). by split_and!.
Qed.

(** The writer a signal or a stop leaves. *)
Lemma signal_writer c c' : signal c c' -> writer c' = writer c \/ (writer c = Idle /\ writer c' = WLeaving).
Proof. intros [? ?|? [? _]|]; [by left|by right|by left]. Qed.

Lemma stops_writer c c' : stops c c' -> writer c' = writer c \/ (writer c = Idle /\ writer c' = WLeaving).
Proof. intros [|? ? _ Hs|]; [by left| |by left]. by apply signal_writer in Hs. Qed.

(** *** The exit protocol *)

Definition before_signal (c : Connection) : Prop := reader c = Reading \/ reader c = Failing.

Record conn_ok (c : Connection) : Prop := {
  ok_calls : stopCalls c = if stopOnce c then 1 else 0;
  ok_gone : reader c = RGone \/ writer c = WGone -> stopOnce c = true;
  ok_token : ExitBuffChan c = true -> starter c <> Waiting /\ ~ parked c;
  ok_open : before_signal c -> stopOnce c = false -> ExitBuffChan c = false /\ starter c <> SGone;
  ok_pending : before_signal c -> ExitBuffChan c = true -> starter c <> SGone;
}.

Lemma new_ok id : conn_ok (NewConnection id).
Proof. split; try done. by intros []. Qed.

Definition token_ok (c : Connection) : Prop := ExitBuffChan c = true -> starter c <> Waiting /\ ~ parked c.

Lemma signal_token c c' : token_ok c -> signal c c' -> token_ok c'.
Proof.
  intros Hc Hs. revert Hc. destruct Hs; intros Hc Ht; fields; [by destruct (Hc Ht)..|done].
Qed.

Lemma stops_token c c' : token_ok c -> stops c c' -> token_ok c'.
Proof.
  intros Hc Hs. revert Hc. destruct Hs as [|c c' _ Hs|]; intros Hc; [done|by apply (signal_token (close_conn c))|by intros _].
Qed.

Lemma writes_ok c m b f n c' :
  conn_ok c -> writer c <> WGone -> writes f (set_low (set_high c m) b) n c' -> conn_ok c'.
Proof.
  intros [O1 O2 O3 O4 O5] Hg Hw.
  assert (forall w, (w = Top \/ w = WLeaving) -> forall g, conn_ok (set_writer (put_socket (set_low (set_high c m) b) g) w)) as Hall;
    [|destruct Hw; apply Hall; auto].
  intros w Hwr g. split; unfold before_signal, parked in *; fields; try done.
  - intros [?|?]; [apply O2; by left|]. by destruct Hwr; subst.
  - intros Ht. destruct (O3 Ht) as [? _]. split; [done|]. intros [-> _]. by destruct Hwr.
Qed.

Lemma queue_ok c f : conn_ok c -> conn_ok (set_high c (msgChan c ++ [f])) /\ conn_ok (set_low c (msgBuffChan c ++ [f])).
Proof.
  intros [O1 O2 O3 O4 O5]. split; split; unfold before_signal, parked in *; fields; try done.
  intros He. destruct (O3 He) as [? _]. split; [done|]. intros [_ ?]. by destruct (msgBuffChan c).
Qed.

Lemma step_ok n c a c' : conn_ok c -> step n c a c' -> conn_ok c'.
Proof.
  intros Hc Hstep. pose proof Hc as [O1 O2 O3 O4 O5].
  destruct Hstep as [c id data f|c id data f|c Hr|c c' Hr Hs|c c' Hr Hs|c Hw Ht|c f m k c' Hw Hm Hwr|c Hw Ht Hm|c f b k c' Hw Hm Hwr|c Hw Ht Hb|c c' Hw Hs|c Hs Ht|c Hs Ht];
    try solve [split; unfold before_signal, parked in *; fields; try done; intuition congruence].
  - by apply queue_ok.
  - pose proof (signal_token c c' O3 Hs) as Ht. pose proof (signal_same _ _ Hs) as (E1 & E2 & E3 & _). pose proof (signal_writer _ _ Hs) as Ew.
    split; unfold before_signal, token_ok, parked in *; fields; rewrite ?E1, ?E2; try done; [|intuition congruence..].
    intros [?|E]; [done|]. destruct Ew as [Ew|[_ Ew]]; [apply O2; right; congruence|congruence].
  - pose proof (stops_token c c' O3 Hs) as Ht. pose proof (stops_same _ _ Hs) as (E1 & E2 & E3 & _).
    split; unfold before_signal, token_ok, parked in *; fields; rewrite ?E1, ?E2; try done; [|intuition congruence..].
    rewrite O1. by destruct (stopOnce c).
  - apply (writes_ok c m (msgBuffChan c) f k); [done|by rewrite Hw|exact Hwr].
  - apply (writes_ok c (msgChan c) b f k); [done|by destruct Hw as [-> | ->]|exact Hwr].
  - pose proof (stops_token c c' O3 Hs) as Ht. pose proof (stops_same _ _ Hs) as (E1 & E2 & E3 & _).
    split; unfold before_signal, token_ok, parked in *; fields; rewrite ?E1, ?E2, ?E3; try done.
    + rewrite O1. by destruct (stopOnce c).
    + intros He. split; [by apply Ht|]. by intros [].
    + intros Hb He. destruct Hs as [c Ho|c c' Ho Hs|c Ho H1 H2 H3]; [by apply O5| |by apply (O4 Hb)].
      destruct (O4 Hb Ho) as [Hf Hg]. inversion Hs; subst; fields; [congruence| |congruence].
      match goal with Hp : parked _ |- _ => destruct Hp; fields; congruence end.
Qed.

Lemma runs_ok n id tr c : runs n (NewConnection id) tr c -> conn_ok c.
Proof. induction 1; [apply new_ok|by eapply step_ok]. Qed.


Lemma runs_app n c0 tr1 c1 tr2 c2 : runs n c0 tr1 c1 -> runs n c1 tr2 c2 -> runs n c0 (tr1 ++ tr2) c2.
Proof.
  intros H1. induction 1 as [|tr c a c' _ IH Hs]; [by rewrite app_nil_r|]. rewrite app_assoc. by eapply runs_snoc.
Qed.

Lemma runs_one n c a c' : step n c a c' -> runs n c [a] c'.
Proof. intros Hs. apply (runs_snoc n c [] c a c'); [apply runs_nil|done]. Qed.

(** The reader, its signal given, stops the connection. *)
Lemma reader_leaves n c c1 : reader c = Failing -> signal c c1 ->
  exists tr c', runs n c tr c' /\ reader c' = RGone.
Proof.
  intros Hr Hs. destruct (stops_total (set_reader c1 RLeaving)) as [c2 Hc2].
  exists ([Quiet] ++ [Quiet]), (set_reader c2 RGone). split; [|done].
  eapply runs_app; apply runs_one; [by eapply s_reader_signal|by apply s_reader_stop].
Qed.

(** the exit protocol of a connection, under every interleaving of its
    reader, its writer and the goroutine of [Start]: the stop callback runs at
    most once, and has run once when the reader or the writer is gone; and the
    reader's blocking send of the exit token does not deadlock against the token
    [Stop] sends: from every reachable state in which the reader wants to leave
    it can still leave. *)
Theorem connection_stops_once (n id : Z) (tr : list action) (c : Connection) (Hrun : runs n (NewConnection id) tr c) :
  0 <= stopCalls c <= 1 /\
  (reader c = RGone \/ writer c = WGone -> stopCalls c = 1) /\
  (reader c = Failing -> exists tr' c', runs n c tr' c' /\ reader c' = RGone).
Proof.
  apply runs_ok in Hrun as [O1 O2 O3 O4 O5]. split; [|split].
  - rewrite O1. by destruct (stopOnce c).
  - intros Hg. by rewrite O1, O2.
  - intros Hr. destruct (signal_or c) as [[c1 Hs]|(H1 & H2 & H3)]; [by eapply reader_leaves|].
    assert (starter c = Starting) as Hst.
    { destruct (starter c) eqn:E; [done|done|]. by destruct (O5 (or_intror Hr) H3). }
    pose proof (s_starter_exit n c Hst H3) as Hstep. set (c1 := set_starter (set_token c false) SGone) in *.
    assert (exists c2, signal c1 c2) as [c2 Hs].
    { exists (set_token c1 true). apply sig_buffer; [done| |done]. exact H2. }
    destruct (reader_leaves n c1 c2 Hr Hs) as (tr' & c' & Hrun & Hc'). exists ([Quiet] ++ tr'), c'. split; [|done].
    by eapply runs_app; [apply runs_one|].
Qed.

Definition sample_exit : Connection := set_reader (NewConnection 7) Failing.

Lemma sample_fails : runs 8 (NewConnection 7) [Quiet] sample_exit.
Proof. by apply runs_one, s_fail. Qed.

Lemma connection_stops_once_witness : exists tr c, runs 8 sample_exit tr c /\ reader c = RGone.
Proof. by apply (connection_stops_once 8 7 [Quiet] sample_exit sample_fails). Defined.

(** *** What reaches the peer *)

Definition queued (high : bool) (tr : list action) : list bytes :=
  omap (fun a => match a with Queued h f => if eqb h high then Some f else None | _ => None end) tr.
Definition took (high : bool) (tr : list action) : list bytes :=
  omap (fun a => match a with Took h f _ => if eqb h high then Some f else None | _ => None end) tr.
(** The frames the writer took, in order, each with the bytes it wrote. *)
Definition taken (tr : list action) : list (bytes * nat) :=
  omap (fun a => match a with Took _ f n => Some (f, n) | _ => None end) tr.

Lemma queued_snoc h tr a : queued h (tr ++ [a]) = queued h tr ++ queued h [a].
Proof. apply omap_app. Qed.
Lemma took_snoc h tr a : took h (tr ++ [a]) = took h tr ++ took h [a].
Proof. apply omap_app. Qed.
Lemma taken_snoc tr a : taken (tr ++ [a]) = taken tr ++ taken [a].
Proof. apply omap_app. Qed.

(** What the socket holds, as long as the writer goes on and after it failed. *)
Definition wrote (tr : list action) (c : Connection) : Prop :=
  socket c = concat ((fun p : bytes * nat => take p.2 p.1) <$> taken tr) /\
  exists whole, Forall (fun p => p.2 = length p.1) whole /\
    (taken tr = whole \/ exists p, taken tr = whole ++ [p] /\ (writer c = WLeaving \/ writer c = WGone)).

Definition fifo (tr : list action) (c : Connection) : Prop :=
  queued true tr = took true tr ++ msgChan c /\ queued false tr = took false tr ++ msgBuffChan c /\ wrote tr c.

(** A quiet step queues and writes nothing, and the writer does not come back. *)
Lemma fifo_quiet tr c c' :
  fifo tr c -> msgChan c' = msgChan c -> msgBuffChan c' = msgBuffChan c -> socket c' = socket c ->
  (writer c = WLeaving \/ writer c = WGone -> writer c' = WLeaving \/ writer c' = WGone) -> fifo (tr ++ [Quiet]) c'.
Proof.
  intros (F1 & F2 & F3 & whole & F4 & F5) E1 E2 E3 Ew. unfold fifo, wrote.
  rewrite !queued_snoc, !took_snoc, taken_snoc. cbn. rewrite !app_nil_r, E1, E2, E3. split_and!; try done.
  exists whole. split; [done|]. destruct F5 as [?|(p & ? & ?)]; [by left|right; exists p; auto].
Qed.

(** A write, from a writer that has not failed. *)
Lemma wrote_write tr c c1 h f n c' :
  wrote tr c -> writer c <> WLeaving -> writer c <> WGone -> socket c1 = socket c -> writes f c1 n c' ->
  wrote (tr ++ [Took h f n]) c'.
Proof.
  intros (F3 & whole & F4 & F5) H1 H2 E Hw.
  assert (taken tr = whole) as Ht by (destruct F5 as [?|(p & _ & [?|?])]; done). clear F5.
  unfold wrote. rewrite taken_snoc, fmap_app, concat_app, <- F3, <- E. cbn [taken omap list_omap fmap list_fmap concat fst snd].
  rewrite app_nil_r. destruct Hw as [Ho|k Hk Ho]; fields.
  - rewrite firstn_all. split; [done|]. exists (whole ++ [(f, length f)]). split; [|left; by rewrite Ht].
    apply Forall_app. split; [done|]. by constructor.
  - split; [done|]. exists whole. split; [done|]. right. exists (f, k). rewrite Ht. split; [done|by left].
Qed.

Lemma writes_chans f c n c' : writes f c n c' -> msgChan c' = msgChan c /\ msgBuffChan c' = msgBuffChan c.
Proof. by intros []. Qed.

Lemma fifo_step n tr c a c' : fifo tr c -> step n c a c' -> fifo (tr ++ [a]) c'.
Proof.
  intros Hf Hstep.
  destruct Hstep as [c id data f|c id data f|c Hr|c c' Hr Hs|c c' Hr Hs|c Hw Ht|c f m k c' Hw Hm Hwr|c Hw Ht Hm|c f b k c' Hw Hm Hwr|c Hw Ht Hb|c c' Hw Hs|c Hs Ht|c Hs Ht];
    try solve [eapply fifo_quiet; [exact Hf|done..|fields; intuition congruence]].
  1, 2: destruct Hf as (F1 & F2 & F3 & whole & F4 & F5); unfold fifo, wrote; rewrite !queued_snoc, !took_snoc, taken_snoc;
    cbn; rewrite !app_nil_r, F1, F2, <- ?app_assoc; split_and!; try done; by exists whole.
  - pose proof (signal_same _ _ Hs) as (_ & _ & _ & E1 & E2 & E3). pose proof (signal_writer _ _ Hs) as Ew.
    eapply fifo_quiet; [exact Hf|done..|fields]. intuition congruence.
  - pose proof (stops_same _ _ Hs) as (_ & _ & _ & E1 & E2 & E3). pose proof (stops_writer _ _ Hs) as Ew.
    eapply fifo_quiet; [exact Hf|done..|fields]. intuition congruence.
  - destruct Hf as (F1 & F2 & F3). destruct (writes_chans _ _ _ _ Hwr) as [E1 E2].
    unfold fifo. rewrite !queued_snoc, !took_snoc. cbn. rewrite !app_nil_r, F1, F2, E1, E2. fields. rewrite Hm, <- !app_assoc.
    split_and!; try done. apply (wrote_write tr c (set_high c m)); [exact F3|by rewrite Hw..|done|exact Hwr].
  - destruct Hf as (F1 & F2 & F3). destruct (writes_chans _ _ _ _ Hwr) as [E1 E2].
    unfold fifo. rewrite !queued_snoc, !took_snoc. cbn. rewrite !app_nil_r, F1, F2, E1, E2. fields. rewrite Hm, <- !app_assoc.
    split_and!; try done. apply (wrote_write tr c (set_low c b)); [exact F3|by destruct Hw as [-> | ->]..|done|exact Hwr].
  - pose proof (stops_same _ _ Hs) as (_ & _ & _ & E1 & E2 & E3). eapply fifo_quiet; [exact Hf|done..|fields]. by right.
Qed.

(** C39: what the peer receives: under every interleaving the frames of each of
    the two channels leave in the order the handlers queued them, none is lost
    before the writer fails and none is sent twice (queued is written or still
    waiting); and the socket holds whole frames one after the other, except that
    a write error may cut the last one short, after which nothing is written. *)
Theorem writer_keeps_order (n id : Z) (tr : list action) (c : Connection) (Hrun : runs n (NewConnection id) tr c) :
  queued true tr = took true tr ++ msgChan c /\ queued false tr = took false tr ++ msgBuffChan c /\
  socket c = concat ((fun p : bytes * nat => take p.2 p.1) <$> taken tr) /\
  exists whole, Forall (fun p => p.2 = length p.1) whole /\
    (taken tr = whole \/ exists p, taken tr = whole ++ [p] /\ (writer c = WLeaving \/ writer c = WGone)).
Proof.
  assert (fifo tr c) as Hf; [|exact Hf].
  induction Hrun as [|tr c a c' _ IH Hs]; [|by eapply fifo_step].
  split; [done|]. split; [done|]. split; [done|]. exists []. split; [constructor|by left].
Qed.

(** A message from [NewConnection 7] on the wire. *)
Definition sample_frame : bytes := le_enc 4 2 ++ le_enc 2 2 ++ of_string "OK" ++ of_string "ok".

Lemma sample_sent : runs 8 (NewConnection 7) [Queued false sample_frame; Quiet; Took false sample_frame (length sample_frame)]
  (set_writer (put_socket (set_low (set_writer (set_low (NewConnection 7) [sample_frame]) Inner) []) sample_frame) Top).
Proof.
  apply (runs_app 8 _ [Queued false sample_frame] (set_low (NewConnection 7) [sample_frame]) [Quiet; _]);
    [apply runs_one, (s_low 8 (NewConnection 7) (of_string "OK") (of_string "ok") sample_frame); by vm_compute|].
  eapply (runs_app 8 _ [Quiet] _ [_]); [by apply runs_one, s_writer_default|]. apply runs_one.
  eapply (s_writer_low _ _ sample_frame []); [by left|done|]. by apply write_ok.
Qed.

Lemma writer_keeps_order_witness : exists c, runs 8 (NewConnection 7)
    [Queued false sample_frame; Quiet; Took false sample_frame (length sample_frame)] c /\
  queued false [Queued false sample_frame; Quiet; Took false sample_frame (length sample_frame)] = [sample_frame] ++ msgBuffChan c.
Proof.
  eexists. split; [exact sample_sent|]. destruct (writer_keeps_order 8 7 _ _ sample_sent) as (_ & -> & _). reflexivity.
Defined.

(** *** Two ways to lose a goroutine *)

(** The goroutine of [Start] was still in the start callback when the reader's
    token went to the writer and [Stop] could not send another. *)
Definition stranded (c : Connection) : Prop :=
  reader c = RGone /\ writer c = WGone /\ starter c = Waiting /\ ExitBuffChan c = false /\ stopOnce c = true.

Lemma stranded_step n c a c' : stranded c -> step n c a c' -> stranded c'.
Proof.
  intros (H1 & H2 & H3 & H4 & H5) Hs. destruct Hs; try (intuition congruence); by split_and!.
Qed.

Lemma start_goroutine_leaks (n id : Z) :
  exists tr c, runs n (NewConnection id) tr c /\ stranded c /\
    forall tr' c', runs n c tr' c' -> stranded c'.
Proof.
  set (c0 := NewConnection id).
  set (c1 := set_reader c0 Failing). set (c2 := set_reader (set_token c1 true) RLeaving).
  set (c3 := set_reader (close_conn c2) RGone). set (c4 := set_writer (set_token c3 false) WLeaving).
  set (c5 := set_writer c4 WGone). set (c6 := set_starter c5 Waiting).
  exists ([Quiet] ++ [Quiet] ++ [Quiet] ++ [Quiet] ++ [Quiet] ++ [Quiet]), c6. split; [|split; [done|]].
  - repeat (eapply runs_app; [apply runs_one|]).
    + by apply (s_fail n c0).
    + by apply (s_reader_signal n c1 (set_token c1 true)); [|apply sig_buffer; [done|by intros []|done]].
    + by apply (s_reader_stop n c2 (close_conn c2)); [|apply stop_default; [done|done|by intros []|done]].
    + by apply (s_writer_exit n c3); [left|].
    + by apply (s_writer_stop n c4 c4); [|apply stop_again].
    + by apply runs_one, (s_starter_wait n c5).
  - intros tr' c' Hr. induction Hr as [|tr c a c' _ IH Hs]; [done|]. by eapply stranded_step.
Qed.

(** Once the writer is gone nothing empties the channel of the answers. *)
Lemma writer_gone_step n c a c' : writer c = WGone -> step n c a c' -> writer c' = WGone /\ zlen (msgBuffChan c) <= zlen (msgBuffChan c').
Proof.
  intros Hw Hs. destruct Hs; try (intuition congruence); cbn; try (split; (done || lia)).
  - split; [done|]. rewrite zlen_app. pose proof (zlen_nonneg [f]). lia.
  - pose proof (signal_same _ _ H0) as (_ & _ & _ & _ & -> & _). destruct (signal_writer _ _ H0) as [->|[? _]]; [by split|congruence].
  - pose proof (stops_same _ _ H0) as (_ & _ & _ & _ & -> & _). destruct (stops_writer _ _ H0) as [->|[? _]]; [by split|congruence].
Qed.

(** a handler can wait for ever: when the writer of a connection has gone
    and its channel is full, every later [SendBuffMsg] on it blocks, whatever
    happens in between, and with it the worker that runs the handler. *)
Theorem dead_writer_blocks_handlers (n : Z) (c c' : Connection) (tr : list action) (msgID data : bytes)
    (Hw : writer c = WGone) (Hfull : n <= zlen (msgBuffChan c)) (Hrun : runs n c tr c') (Hid : zlen msgID <= 65535) :
  SendBuffMsg n c' msgID data = None.
Proof.
  assert (writer c' = WGone /\ n <= zlen (msgBuffChan c')) as [_ Hl].
  { induction Hrun as [|tr c1 a c2 _ [IH1 IH2] Hs]; [done|]. destruct (writer_gone_step _ _ _ _ IH1 Hs). split; [done|lia]. }
  unfold SendBuffMsg, BanNet.Pack. cbn [GetMsgID BanNet.Message_IMessage BanNet.NewMessage BanNet.Id].
  destruct (Z.ltb_spec 65535 (zlen msgID)); [lia|]. by destruct (Z.ltb_spec (zlen (msgBuffChan c')) n); [lia|].
Qed.

Lemma dead_writer_blocks_handlers_witness :
  SendBuffMsg 1 (set_low (set_writer (NewConnection 7) WGone) [sample_frame]) (of_string "OK") [] = None.
Proof.
  apply (dead_writer_blocks_handlers 1 (set_low (set_writer (NewConnection 7) WGone) [sample_frame])
    (set_low (set_writer (NewConnection 7) WGone) [sample_frame]) []); [done|vm_compute; discriminate|apply runs_nil|vm_compute; discriminate].
Defined.

(** [SetProperty] on a new connection panics. *)
Lemma SetProperty_panics id key value : SetProperty (NewConnection id) key value = None.
Proof. done. Qed.

End Conn.

(** ** server.go *)
Module Server.
Import ConnManager Conn.

(** [conns] is the store of the connection objects; [cid] is the accept loop's
    next id. *)
Record Server := mkServer { ConnMgr : ConnManager; conns : list Connection; cid : Z }.

Definition NewServer : Server := mkServer NewConnManager [] 0.

(** One turn of the accept loop; [None] while [Add] waits for the lock. *)
Definition accept (MaxConn : Z) (s : Server) : option Server :=
  if MaxConn <=? Len (ConnMgr s) then Some s else
  mgr ← Add (ConnMgr s) (cid s) (zlen (conns s));
  Some (mkServer mgr (conns s ++ [NewConnection (cid s)]) ((cid s + 1) mod 2 ^ 32)).

(** [Connection.Stop], to its end. *)
Inductive Stop (s : Server) (p : nat) : Server -> Prop :=
  | Stop_again c : conns s !! p = Some c -> stopOnce c = true -> Stop s p s
  | Stop_once c c' mgr : conns s !! p = Some c -> stopOnce c = false -> stops c c' ->
      Remove (ConnMgr s) (ConnID c) = Some mgr -> Stop s p (mkServer mgr (<[p := c']> (conns s)) (cid s)).

(** The loop of [ClearConn] over the table, in any order. *)
Inductive clear : Server -> list (Z * Z) -> Server -> Prop :=
  | clear_nil s : clear s [] s
  | clear_cons s id p s1 rest s2 : Stop s (Z.to_nat p) s1 ->
      clear (mkServer (mkMgr (mu (ConnMgr s1)) (delete id (connections (ConnMgr s1)))) (conns s1) (cid s1)) rest s2 ->
      clear s ((id, p) :: rest) s2.

(** It holds the lock all along. *)
Inductive ClearConn (s : Server) : Server -> Prop :=
  | ClearConn_all mgr l s1 : Lock (ConnMgr s) = Some mgr -> l ≡ₚ map_to_list (connections mgr) ->
      clear (mkServer mgr (conns s) (cid s)) l s1 -> ClearConn s (mkServer (Unlock (ConnMgr s1)) (conns s1) (cid s1)).

(** The server at work: it accepts, connections stop, and their goroutines do
    what does not stop them. *)
Inductive server_step (MaxConn : Z) (s : Server) : Server -> Prop :=
  | ss_accept s' : accept MaxConn s = Some s' -> server_step MaxConn s s'
  | ss_stop p s' : Stop s p s' -> server_step MaxConn s s'
  | ss_work p c c' : conns s !! p = Some c -> stopOnce c' = stopOnce c -> ConnID c' = ConnID c ->
      server_step MaxConn s (mkServer (ConnMgr s) (<[p := c']> (conns s)) (cid s)).

Record server_ok (MaxConn : Z) (s : Server) : Prop := {
  so_len : Len (ConnMgr s) <= MaxConn;
  so_free : mu (ConnMgr s) = false;
  so_live : forall id p, connections (ConnMgr s) !! id = Some p ->
    exists c, conns s !! Z.to_nat p = Some c /\ 0 <= p /\ ConnID c = id /\ stopOnce c = false;
}.

Lemma signal_id c c' : signal c c' -> ConnID c' = ConnID c.
Proof. by intros []. Qed.

Lemma stops_id c c' : stops c c' -> ConnID c' = ConnID c.
Proof. intros [|c1 c2 _ Hs|]; [done|by apply signal_id in Hs|done]. Qed.

Lemma accept_ok MaxConn s s' : server_ok MaxConn s -> accept MaxConn s = Some s' -> server_ok MaxConn s'.
Proof.
  intros [S1 S2 S3] Ha. unfold accept in Ha. destruct (Z.leb_spec MaxConn (Len (ConnMgr s))) as [|Hlt]; [by injection Ha as <-|].
  unfold Add, Lock in Ha. rewrite S2 in Ha. injection Ha as <-. split; [|done|].
  - unfold Len in *. cbn [ConnMgr Unlock connections]. rewrite map_size_insert. destruct (connections _ !! _); unfold Datatypes.id; lia.
  - cbn [ConnMgr Unlock connections conns]. intros id p Hp. apply lookup_insert_Some in Hp as [[<- <-]|[Hne Hp]].
    + exists (NewConnection (cid s)). rewrite zlen_to_nat, list_lookup_middle by done. by split_and!.
    + destruct (S3 id p Hp) as (c & Hc & Hrest). exists c. split; [|done]. by apply lookup_app_l_Some.
Qed.

Lemma stop_ok MaxConn s p s' : server_ok MaxConn s -> Stop s p s' -> server_ok MaxConn s'.
Proof.
  intros [S1 S2 S3] [c Hc Ho|c c' mgr Hc Ho Hs Hr]; [by split|]. unfold Remove, Lock in Hr. rewrite S2 in Hr. injection Hr as <-.
  split; [|done|].
  - unfold Len in *. cbn [ConnMgr Unlock connections]. rewrite map_size_delete. destruct (connections _ !! _); unfold Datatypes.id; lia.
  - cbn [ConnMgr Unlock connections conns]. intros id q Hq. apply lookup_delete_Some in Hq as [Hne Hq].
    destruct (S3 id q Hq) as (c1 & Hc1 & ? & <- & ?). exists c1. split; [|done].
    rewrite list_lookup_insert_ne; [done|]. intros ->. congruence.
Qed.

Lemma server_step_ok MaxConn s s' : server_ok MaxConn s -> server_step MaxConn s s' -> server_ok MaxConn s'.
Proof.
  intros Hs [s1 Ha|p s1 Hp|p c c' Hc Ho Hi]; [by eapply accept_ok|by eapply stop_ok|].
  destruct Hs as [S1 S2 S3]. split; [done|done|]. cbn [ConnMgr conns]. intros id q Hq. destruct (S3 id q Hq) as (c1 & Hc1 & ? & Hid & Hst).
  destruct (decide (p = Z.to_nat q)) as [->|Hne].
  - exists c'. rewrite list_lookup_insert_eq by (by eapply lookup_lt_Some). rewrite Hc in Hc1. injection Hc1 as ->. by rewrite Ho, Hi.
  - exists c1. by rewrite list_lookup_insert_ne.
Qed.

Lemma new_server_ok MaxConn : 0 <= MaxConn -> server_ok MaxConn NewServer.
Proof. intros Hm. split; [done|done|]. intros id p Hp. cbn in Hp. by rewrite lookup_empty in Hp. Qed.

Lemma reachable_ok MaxConn s : 0 <= MaxConn -> rtc (server_step MaxConn) NewServer s -> server_ok MaxConn s.
Proof. intros Hm Hr. eapply rtc_invariant; [|exact Hr|by apply new_server_ok]. intros a b Hs Ha. by eapply server_step_ok. Qed.

(** the accept loop keeps the table within [MaxConn], and the table holds
    connections that are still open only: under every interleaving of accepts
    and stops, every id in it leads to a connection object with that id whose
    [Stop] has not run. *)
Theorem connection_table_bounded (MaxConn : Z) (s : Server) (Hmax : 0 <= MaxConn)
    (Hrun : rtc (server_step MaxConn) NewServer s) :
  Len (ConnMgr s) <= MaxConn /\
  forall id p, connections (ConnMgr s) !! id = Some p ->
    exists c, conns s !! Z.to_nat p = Some c /\ ConnID c = id /\ stopOnce c = false.
Proof.
  destruct (reachable_ok MaxConn s Hmax Hrun) as [S1 _ S3]. split; [done|]. intros id p Hp.
  destruct (S3 id p Hp) as (c & ? & _ & ? & ?). by exists c.
Qed.

(** One connection accepted. *)
Definition sample_server : Server := mkServer (mkMgr false {[0 := 0]}) [NewConnection 0] 1.

Lemma sample_accepts : rtc (server_step 3) NewServer sample_server.
Proof. apply rtc_once, ss_accept. reflexivity. Qed.

Lemma connection_table_bounded_witness : Len (ConnMgr sample_server) <= 3.
Proof. apply (connection_table_bounded 3 sample_server); [lia|exact sample_accepts]. Defined.

(** shutting down never ends while a connection is open: [ClearConn] holds
    the table's lock and calls [Stop] on every connection, whose last act is
    [Remove], which takes the same lock; with an empty table it returns. *)
Theorem shutdown_deadlocks (MaxConn : Z) (s : Server) (Hmax : 0 <= MaxConn) (Hrun : rtc (server_step MaxConn) NewServer s) :
  (connections (ConnMgr s) <> ∅ -> forall s', ~ ClearConn s s') /\
  (connections (ConnMgr s) = ∅ -> ClearConn s s).
Proof.
  destruct (reachable_ok MaxConn s Hmax Hrun) as [S1 S2 S3]. split; intros Hc.
  - intros s' Hcl. inversion Hcl as [mgr l s1 Hl Hperm Hclear]; subst. unfold Lock in Hl. rewrite S2 in Hl. injection Hl as <-.
    cbn [connections] in Hperm. destruct l as [|[id p] l].
    { symmetry in Hperm. apply Permutation_nil_r in Hperm. by apply map_to_list_empty_iff in Hperm. }
    inversion Hclear as [|s0 id0 p0 s2 rest s3 Hstop Hrest]; subst.
    assert (connections (ConnMgr s) !! id = Some p) as Hp.
    { apply elem_of_map_to_list. rewrite <- Hperm. by left. }
    destruct (S3 id p Hp) as (c & Hlook & _ & _ & Hst). inversion Hstop as [c1 Hc1|c1 c' mgr Hc1 _ _ Hrem]; subst; cbn [conns] in *; [congruence|].
    discriminate Hrem.
  - destruct s as [[m t] cs ci]. cbn in *. subst. apply (ClearConn_all _ (mkMgr true ∅) [] (mkServer (mkMgr true ∅) cs ci)); [done|done|].
    constructor.
Qed.

Lemma shutdown_deadlocks_witness :
  Len (ConnMgr sample_server) = 1 /\ (forall s', ~ ClearConn sample_server s').
Proof.
  split; [vm_compute; reflexivity|].
  apply (shutdown_deadlocks 3 sample_server); [lia|exact sample_accepts|]. vm_compute. discriminate.
Defined.

End Server.
