(* ===== verification/Listen.v ===== *)
(** The life of the TCP server ([network/banNet/server.go]): [Start] with the
    worker pool, the listening socket and the accept loop, the exit signal, and
    [Stop] with its three parts.  The table and its connections are in
    Connection.v, the pool in Pool.v. *)
From S2P Require Import Prelude Bytes Wire Network Pool Connection.
Import Dispatch Pool ConnManager Conn Server.

Module Listen.

(** Where the goroutine of [Start] is: not started, at [StartWorkerPool], at
    [ResolveTCPAddr], at [ListenTCP], at the [select], in [AcceptTCP]; in [Stop]
    before the lock of the table, in the loop of [ClearConn], before
    [MsgHandle.Stop], before the socket is closed; gone. *)
Inductive place := NotStarted | Pooling | Resolving | Binding | Selecting | Accepting | Stopping | Clearing | Draining | Closing | Gone.

#[export] Instance place_eq_dec : EqDecision place.
Proof. solve_decision. Defined.

Section Listen.
Context {R : Type} `{IRouter R} {E : Type}.

(** [signalled]: a goroutine waits to send on [ExitCh], which has no buffer. *)
Record listener := mkListener {
  srv : Server;
  pool : Pool R;
  at_ : place;
  bound : bool;
  signalled : bool;
  ConnStartFunc : option (Connection -> E);
  ConnStopFunc : option (Connection -> E);
}.

Definition new_listener (m : MsgHandle R) : listener := mkListener NewServer (new_pool m) NotStarted false false None None.

Definition SetConnStartFunc (l : listener) (f : Connection -> E) : listener :=
  mkListener (srv l) (pool l) (at_ l) (bound l) (signalled l) (Some f) (ConnStopFunc l).
Definition SetConnStopFunc (l : listener) (f : Connection -> E) : listener :=
  mkListener (srv l) (pool l) (at_ l) (bound l) (signalled l) (ConnStartFunc l) (Some f).

(** What the callback does; [None] is the warning that there is none. *)
Definition CallConnStartFunc (l : listener) (c : Connection) : option E := f ← ConnStartFunc l; Some (f c).
Definition CallConnStopFunc (l : listener) (c : Connection) : option E := f ← ConnStopFunc l; Some (f c).

Definition go (l : listener) (p : place) : listener :=
  mkListener (srv l) (pool l) p (bound l) (signalled l) (ConnStartFunc l) (ConnStopFunc l).
Definition set_srv (l : listener) (s : Server) : listener :=
  mkListener s (pool l) (at_ l) (bound l) (signalled l) (ConnStartFunc l) (ConnStopFunc l).
Definition set_pool (l : listener) (p : Pool R) : listener :=
  mkListener (srv l) p (at_ l) (bound l) (signalled l) (ConnStartFunc l) (ConnStopFunc l).
Definition set_bound (l : listener) (b : bool) : listener :=
  mkListener (srv l) (pool l) (at_ l) b (signalled l) (ConnStartFunc l) (ConnStopFunc l).
Definition set_signalled (l : listener) (b : bool) : listener :=
  mkListener (srv l) (pool l) (at_ l) (bound l) b (ConnStartFunc l) (ConnStopFunc l).

(** [Serve] is [Start] and then waiting for ever. *)
Definition Start (l : listener) : option listener := if decide (at_ l = NotStarted) then Some (go l Pooling) else None.

(** What the connections do by themselves: they stop, and their goroutines work. *)
Inductive conn_step (s : Server) : Server -> Prop :=
  | cs_stop p s' : Stop s p s' -> conn_step s s'
  | cs_work p c c' : conns s !! p = Some c -> stopOnce c' = stopOnce c -> ConnID c' = ConnID c ->
      conn_step s (mkServer (ConnMgr s) (<[p := c']> (conns s)) (cid s)).

Inductive turn (MaxConn : Z) (l : listener) : listener -> Prop :=
  (** the goroutine of [Start] *)
  | t_start l' : Start l = Some l' -> turn MaxConn l l'
  | t_pool : at_ l = Pooling -> turn MaxConn l (go (set_pool l (StartWorkerPool (pool l))) Resolving)
  | t_resolve (ok : bool) : at_ l = Resolving -> turn MaxConn l (go l (if ok then Binding else Gone))
  | t_listen : at_ l = Binding -> turn MaxConn l (go (set_bound l true) Selecting)
  | t_listen_fails : at_ l = Binding -> turn MaxConn l (go l Gone)
  | t_exit : at_ l = Selecting -> signalled l = true -> turn MaxConn l (go (set_signalled l false) Stopping)
  | t_default : at_ l = Selecting -> signalled l = false -> turn MaxConn l (go l Accepting)
  | t_accept_fails : at_ l = Accepting -> turn MaxConn l (go l Selecting)
  | t_accept s : at_ l = Accepting -> accept MaxConn (srv l) = Some s -> turn MaxConn l (go (set_srv l s) Selecting)
  (** [Stop] *)
  | t_lock mgr : at_ l = Stopping -> Lock (ConnMgr (srv l)) = Some mgr ->
      turn MaxConn l (go (set_srv l (mkServer mgr (conns (srv l)) (cid (srv l)))) Clearing)
  | t_clear cs s : at_ l = Clearing -> cs ≡ₚ map_to_list (connections (ConnMgr (srv l))) -> clear (srv l) cs s ->
      turn MaxConn l (go (set_srv l (mkServer (Unlock (ConnMgr s)) (conns s) (cid s))) Draining)
  | t_drain p : at_ l = Draining -> Pool.Stop (pool l) = Some p -> turn MaxConn l (go (set_pool l p) Closing)
  | t_close : at_ l = Closing -> turn MaxConn l (go (set_bound l false) Gone)
  (** everybody else: a signal, the connections, readers and workers at the pool *)
  | t_signal : turn MaxConn l (set_signalled l true)
  | t_conn s : conn_step (srv l) s -> turn MaxConn l (set_srv l s)
  | t_work p : started p = started (pool l) -> closed p = closed (pool l) -> turn MaxConn l (set_pool l p).

(** ** The invariant *)

Definition table (l : listener) : gmap Z Z := connections (ConnMgr (srv l)).
Definition unlocked (s : Server) : Server := mkServer (Unlock (ConnMgr s)) (conns s) (cid s).

Definition early (p : place) : bool := bool_decide (p = NotStarted \/ p = Pooling).
Definition listening (p : place) : bool :=
  match p with Selecting | Accepting | Stopping | Clearing | Draining | Closing => true | _ => false end.
Definition serving (p : place) : bool := match p with Selecting | Accepting | Stopping | Clearing => true | _ => false end.

Record listener_ok (MaxConn : Z) (l : listener) : Prop := {
  lo_server : server_ok MaxConn (unlocked (srv l));
  lo_lock : mu (ConnMgr (srv l)) = bool_decide (at_ l = Clearing);
  lo_pool : started (pool l) = negb (early (at_ l));
  lo_conns : early (at_ l) = true -> conns (srv l) = [];
  lo_bound : bound l = listening (at_ l);
  lo_empty : serving (at_ l) = false -> table l = ∅;
  lo_open : at_ l <> Closing -> at_ l <> Gone -> closed (pool l) = false;
}.

Lemma conn_step_server MaxConn s s' : conn_step s s' -> server_step MaxConn s s'.
Proof. intros [p s1 Hs|p c c' Hc Ho Hi]; [by eapply ss_stop|by eapply ss_work]. Qed.

(** While the lock is held nothing leaves the table. *)
Lemma conn_step_locked s s' : mu (ConnMgr s) = true -> conn_step s s' -> ConnMgr s' = ConnMgr s /\ conn_step (unlocked s) (unlocked s').
Proof.
  intros Hm [p s1 Hs|p c c' Hc Ho Hi].
  - destruct Hs as [c Hc Ho|c c' mgr _ _ _ Hr]; [|unfold Remove, Lock in Hr; by rewrite Hm in Hr].
    split; [done|]. eapply cs_stop, Stop_again; [exact Hc|done].
  - split; [done|]. by apply (cs_work (unlocked s) p c c').
Qed.

Lemma unlocked_free s : mu (ConnMgr s) = false -> unlocked s = s.
Proof. destruct s as [[m t] cs ci]. cbn. by intros ->. Qed.

Lemma conn_step_table s s' : mu (ConnMgr s) = false -> conn_step s s' ->
  mu (ConnMgr s') = false /\ (connections (ConnMgr s) = ∅ -> connections (ConnMgr s') = ∅) /\ (conns s = [] -> conns s' = []).
Proof.
  intros Hm [p s1 Hs|p c c' Hc Ho Hi].
  - destruct Hs as [c Hc Ho|c c' mgr Hc _ _ Hr]; [done|]. unfold Remove, Lock in Hr. rewrite Hm in Hr. injection Hr as <-.
    split; [done|]. cbn. split; [|by intros Ec; rewrite Ec in Hc]. intros ->. apply delete_empty.
  - split; [done|]. split; [done|]. cbn. by intros ->.
Qed.

(** The loop of [ClearConn] cannot take a connection out of the table. *)
Lemma clear_stuck MaxConn s cs s' :
  server_ok MaxConn (unlocked s) -> mu (ConnMgr s) = true -> cs ≡ₚ map_to_list (connections (ConnMgr s)) -> clear s cs s' ->
  connections (ConnMgr s) = ∅ /\ s' = s.
Proof.
  intros [_ _ S3] Hm Hperm Hc. destruct Hc as [s|s id p s1 rest s2 Hstop _].
  { split; [|done]. symmetry in Hperm. apply Permutation_nil_r in Hperm. by apply map_to_list_empty_iff in Hperm. }
  exfalso. assert (connections (ConnMgr s) !! id = Some p) as Hp by (apply elem_of_map_to_list; rewrite <- Hperm; by left).
  destruct (S3 id p Hp) as (c & Hlook & _ & _ & Hst). cbn [unlocked conns] in Hlook.
  destruct Hstop as [c1 Hc1|c1 c' mgr Hc1 _ _ Hrem]; [congruence|]. unfold Remove, Lock in Hrem. by rewrite Hm in Hrem.
Qed.

Lemma new_listener_ok MaxConn m : 0 <= MaxConn -> listener_ok MaxConn (new_listener m).
Proof. intros Hm. split; by try apply new_server_ok. Qed.

#[local] Ltac places := intros; unfold table in *; cbn in *; simplify_eq; try done;
  match goal with L : _ -> _ -> closed ?p = false |- closed ?p = false => by apply L | _ => by auto end.

Lemma turn_ok MaxConn l l' : 0 <= MaxConn -> turn MaxConn l l' -> listener_ok MaxConn l -> listener_ok MaxConn l'.
Proof.
  intros Hmax Ht [L1 L2 L3 L4 L5 L6 L7]. destruct l as [sv po pl b sg f g]. unfold table in *. cbn in *.
  destruct Ht as [l' Hs|Hp|ok Hp|Hp|Hp|Hp Hsig|Hp Hsig|Hp|s Hp Ha|mgr Hp Hlock|cs s Hp Hperm Hcl|p Hp Hst|Hp| |s Hs|p Hst Hcl]; cbn in *;
    try (subst pl; split; places; fail).
  - unfold Start in Hs. cbn in Hs. destruct (decide (pl = NotStarted)) as [->|]; [|done]. injection Hs as <-. split; places.
  - subst pl. destruct ok; split; places.
  - subst pl. rewrite (unlocked_free sv L2) in L1. pose proof (accept_ok _ _ _ L1 Ha) as L1'. pose proof L1' as [_ Hf _].
    split; unfold table; cbn; try done; [by rewrite unlocked_free|by intros; apply L7].
  - subst pl. unfold Lock in Hlock. rewrite L2 in Hlock. injection Hlock as <-. split; places.
  - subst pl. destruct (clear_stuck MaxConn sv cs s L1 L2 Hperm Hcl) as [Hempty ->]. split; places.
  - subst pl. unfold Pool.Stop in Hst. rewrite L3, L7 in Hst by done. injection Hst as <-. split; places.
  - by split.
  - destruct (mu (ConnMgr sv)) eqn:Hm.
    + destruct (conn_step_locked sv s Hm Hs) as [Em Hs']. split; unfold table; cbn; rewrite ?Em, ?Hm; try done.
      * eapply server_step_ok; [exact L1|by apply conn_step_server].
      * intros He. exfalso. symmetry in L2. apply bool_decide_eq_true in L2. by subst pl.
    + destruct (conn_step_table sv s Hm Hs) as (Hm' & Ht' & Hc'). rewrite (unlocked_free sv Hm) in L1.
      split; unfold table; cbn; rewrite ?Hm'; try done; [|by auto|by auto].
      rewrite (unlocked_free s Hm'). eapply server_step_ok; [exact L1|by apply conn_step_server].
  - split; unfold table; cbn; rewrite ?Hst, ?Hcl; done.
Qed.

Lemma listener_reachable MaxConn m l : 0 <= MaxConn -> rtc (turn MaxConn) (new_listener m) l -> listener_ok MaxConn l.
Proof.
  intros Hm Hr. eapply (rtc_invariant (turn MaxConn) (listener_ok MaxConn)); [|exact Hr|by apply new_listener_ok].
  intros a b Hs Ha. by eapply turn_ok.
Qed.

(** The goroutine that could not resolve or listen is gone for good, while
    [Serve] keeps the process. *)
Lemma gone_for_good MaxConn l l' : at_ l = Gone -> rtc (turn MaxConn) l l' -> at_ l' = Gone /\ bound l' = bound l.
Proof.
  intros Hg Hr. eapply (rtc_invariant (turn MaxConn) (fun x => at_ x = Gone /\ bound x = bound l)) in Hr; [done| |done].
  intros x y Ht [Hx Hb].
  destruct Ht as [y Hs|Hp|ok Hp|Hp|Hp|Hp Hsig|Hp Hsig|Hp|s Hp Ha|mgr Hp Hlock|cs s Hp Hperm Hcl|p Hp Hst|Hp| |s Hs|p Hst Hcl];
    try congruence; try done. unfold Start in Hs. by rewrite decide_False in Hs by (by rewrite Hx).
Qed.

(** C20: the life of the TCP server, over every interleaving of its accept loop,
    its connections, its workers and the exit signal.  The table never holds more
    than [MaxConn]; no connection exists before the workers run; the queues are
    closed only once the table is empty, and closing them does not panic; but
    [Stop] with a connection in the table never gets past it: from then on,
    whatever happens, the table keeps its connections, the port stays open and the
    server never exits. *)
Theorem server_life (MaxConn : Z) (m : MsgHandle R) (l : listener) (Hmax : 0 <= MaxConn)
    (Hrun : rtc (turn MaxConn) (new_listener m) l) :
  Len (ConnMgr (srv l)) <= MaxConn /\
  (conns (srv l) <> [] -> started (pool l) = true) /\
  (closed (pool l) = true -> table l = ∅) /\
  (at_ l = Draining -> exists p, Pool.Stop (pool l) = Some p) /\
  (at_ l = Clearing -> table l <> ∅ -> forall l', rtc (turn MaxConn) l l' -> at_ l' = Clearing /\ bound l' = true /\ table l' = table l).
Proof.
  pose proof (listener_reachable MaxConn m l Hmax Hrun) as Hl. pose proof Hl as [[S1 _ _] L2 L3 L4 L5 L6 L7]. split_and!.
  - exact S1.
  - intros Hc. rewrite L3. destruct (early (at_ l)); [by destruct (Hc (L4 eq_refl))|done].
  - intros Hc. apply L6. destruct (at_ l); try done; rewrite L7 in Hc; done.
  - intros Hd. unfold Pool.Stop. rewrite L3, L7, Hd by (by rewrite Hd). by eexists.
  - intros Hc Hne l' Hr. clear Hrun.
    eapply (rtc_invariant (turn MaxConn) (fun x => listener_ok MaxConn x /\ at_ x = Clearing /\ bound x = true /\ table x = table l)) in Hr.
    + by destruct Hr as [_ Hr].
    + intros x y Ht (Hx & Hcx & Hbx & Htx). split; [by eapply turn_ok|]. pose proof Hx as [X1 X2 _ _ _ _ _].
      assert (mu (ConnMgr (srv x)) = true) as Hm by (rewrite X2, Hcx; done).
      destruct Ht as [y Hs|Hp|ok Hp|Hp|Hp|Hp Hsig|Hp Hsig|Hp|s Hp Ha|mgr Hp Hlock|cs s Hp Hperm Hcl|p Hp Hst|Hp| |s Hs|p Hst Hcl]; try congruence.
      * unfold Start in Hs. by rewrite decide_False in Hs by (by rewrite Hcx).
      * destruct (clear_stuck MaxConn _ cs s X1 Hm Hperm Hcl) as [He _]. unfold table in *. congruence.
      * done.
      * destruct (conn_step_locked _ s Hm Hs) as [Em _]. unfold table in *. cbn. by rewrite Em.
      * done.
    + split_and!; try done. by rewrite L5, Hc.
Qed.

End Listen.
#[global] Arguments listener : clear implicits.

(** ** Sample: a client connects, then the signal comes *)

Definition sample_turns : list (listener BaseRouter unit -> listener BaseRouter unit) :=
  [fun l => go l Pooling; fun l => go (set_pool l (StartWorkerPool (pool l))) Resolving; fun l => go l Binding;
   fun l => go (set_bound l true) Selecting; fun l => go l Accepting;
   fun l => go (set_srv l (mkServer (mkMgr false {[0 := 0]}) [NewConnection 0] 1)) Selecting;
   fun l => set_signalled l true; fun l => go (set_signalled l false) Stopping;
   fun l => go (set_srv l (mkServer (mkMgr true {[0 := 0]}) [NewConnection 0] 1)) Clearing].
Definition sample_stuck : listener BaseRouter unit := foldl (fun l f => f l) (new_listener Pool.sample_handle) sample_turns.

Lemma sample_stuck_reached : rtc (turn 3) (new_listener Pool.sample_handle) sample_stuck.
Proof.
  eapply rtc_l; [apply t_start; reflexivity|]. eapply rtc_l; [by apply t_pool|]. eapply rtc_l; [by apply (t_resolve _ _ true)|].
  eapply rtc_l; [by apply t_listen|]. eapply rtc_l; [by apply t_default|]. eapply rtc_l; [by eapply t_accept|].
  eapply rtc_l; [apply t_signal|]. eapply rtc_l; [by apply t_exit|]. eapply rtc_l; [by eapply t_lock|]. apply rtc_refl.
Qed.

Lemma server_life_witness :
  at_ sample_stuck = Clearing /\ Len (ConnMgr (srv sample_stuck)) = 1 /\ started (pool sample_stuck) = true /\
  forall l', rtc (turn 3) sample_stuck l' -> at_ l' = Clearing /\ bound l' = true.
Proof.
  destruct (server_life 3 Pool.sample_handle sample_stuck ltac:(lia) sample_stuck_reached) as (_ & Hst & _ & _ & Hstuck).
  split; [reflexivity|]. split; [vm_compute; reflexivity|]. split; [apply Hst; discriminate|].
  intros l' Hr. destruct (Hstuck eq_refl ltac:(vm_compute; discriminate) l' Hr) as (Ha & Hb & _). by split.
Defined.

End Listen.
