(* ===== verification/Service.v ===== *)
(** The key-value server of [service/fsm.go] and the request handlers of
    [service/router.go]: commands and their JSON text, the two write paths,
    recovery from the storage log, the entries Raft applies, and the replies. *)
From S2P Require Import Prelude Bytes Strconv SkipList Bloom SSTable MemTable Engine StorageWAL RaftWAL Raft Wire Proto Json Predicate Network.
Import Json Scan.

(** The [Command] field of a Raft log entry; the command itself is [Cmd.Command]. *)
Abbreviation log_command := Command.

(** ** Commands *)
Module Cmd.

(** A nil key behaves as the empty one, so [Key] has no nil. *)
Record Command := mkCommand { Type_ : bytes; Key : bytes; Value : option bytes }.

Definition TypePut : bytes := of_string "Put".
Definition TypeDelete : bytes := of_string "Delete".

Definition open_brace : byte := byte_of 123.

(** A member of an object: its name in quotes, and its text. *)
Definition member (name : string) (text : bytes) : bytes := quote :: of_string name ++ quote :: colon :: text.

(** [json.Marshal(cmd)]. *)
Definition EncodeCommand (cmd : Command) : bytes :=
  open_brace :: member "Type" (MarshalString (Type_ cmd)) ++ comma :: member "Key" (MarshalBytes (Some (Key cmd))) ++
  comma :: member "Value" (MarshalBytes (Value cmd)) ++ [brace].

(** [foldName], as far as it decides equality with an ASCII name: letters in
    upper case; U+017F and U+212A fold to S and K. *)
Definition upper (b : byte) : byte := if between 97 122 (bval b) then byte_of (bval b - 32) else b.

Fixpoint foldName (s : bytes) : bytes :=
  match s with
  | [] => []
  | b :: s1 =>
      match s1 with
      | b1 :: s2 =>
          if (bval b =? 197) && (bval b1 =? 191) then byte_of 83 :: foldName s2 else
          match s2 with
          | b2 :: s3 =>
              if (bval b =? 226) && (bval b1 =? 132) && (bval b2 =? 170) then byte_of 75 :: foldName s3
              else upper b :: foldName s1
          | [] => upper b :: foldName s1
          end
      | [] => upper b :: foldName s1
      end
  end.

(** Decoding into a [string], into a byte of an array, into a [[]byte]; [None] is
    an error, [null] leaves the variable (a slice becomes nil). *)
Definition decode_string (raw old : bytes) : option bytes :=
  match parse raw with
  | Some Null => Some old
  | Some (Str body) => unquote body
  | _ => None
  end.

Definition decode_uint8 (raw : bytes) (old : byte) : option byte :=
  match parse raw with
  | Some Null => Some old
  | Some (Num t) => match parse_digits 0 t with Some n => if n <? 256 then Some (byte_of n) else None | None => None end
  | _ => None
  end.

Definition decode_bytes (raw : bytes) (old : option bytes) : option (option bytes) :=
  match parse raw with
  | Some Null => Some None
  | Some (Str body) => s ← unquote body; b ← Base64.DecodeString s; Some (Some b)
  | Some (Arr elems) =>
      Some <$> mapM (fun p : nat * bytes => decode_uint8 p.2 (default (byte_of 0) (default [] old !! p.1))) (imap pair elems)
  | _ => None
  end.

(** One member, into the field its name matches without regard to case. *)
Definition set_field (cmd : option Command) (p : bytes * bytes) : option Command :=
  cmd ← cmd;
  name ← unquote p.1;
  if bool_decide (foldName name = of_string "TYPE") then
    t ← decode_string p.2 (Type_ cmd); Some (mkCommand t (Key cmd) (Value cmd))
  else if bool_decide (foldName name = of_string "KEY") then
    k ← decode_bytes p.2 (Some (Key cmd)); Some (mkCommand (Type_ cmd) (default [] k) (Value cmd))
  else if bool_decide (foldName name = of_string "VALUE") then
    v ← decode_bytes p.2 (Value cmd); Some (mkCommand (Type_ cmd) (Key cmd) v)
  else Some cmd.

(** [json.Unmarshal(data, &cmd)]; [None] is an error. *)
Definition DecodeCommand (data : bytes) : option Command :=
  let zero := mkCommand [] [] None in
  match parse data with
  | Some Null => Some zero
  | Some (Obj members) => foldl set_field (Some zero) members
  | _ => None
  end.

(** *** The round trip *)

Definition kv_command (cmd : Command) : Prop := Type_ cmd = TypePut \/ Type_ cmd = TypeDelete.

Lemma base64_plain s : Forall plain (Base64.EncodeToString s).
Proof.
  eapply Forall_impl; [apply Base64.EncodeToString_chars|]. intros b Hb%Base64.base64_char_code.
  split_and!; [intros ->; change (bval quote) with 34 in Hb; lia|intros ->; change (bval backslash) with 92 in Hb; lia|lia|lia].
Qed.

Lemma MarshalBytes_scan f d v q r :
  exists w b t, MarshalBytes v = b :: t /\ is_space b = false /\
    scan_value (S f) d (MarshalBytes v ++ q :: r) = Some (w, q :: r).
Proof.
  destruct v as [v|].
  - exists (Str (Base64.EncodeToString v)), quote, (Base64.EncodeToString v ++ [quote]). split; [done|]. split; [done|].
    cbn [MarshalBytes app]. rewrite <- app_assoc. apply (scan_string_value f d _ (q :: r)), base64_plain.
  - exists Null, (byte_of 110), (of_string "ull"). split; [done|]. split; [done|]. apply scan_null.
Qed.

Lemma MarshalBytes_decode v old : decode_bytes (MarshalBytes v) old = Some v.
Proof.
  destruct v as [v|]; [|done]. unfold decode_bytes. cbn [MarshalBytes]. pose proof (base64_plain v) as Hp.
  rewrite parse_string, unquote_plain by done. cbn [mbind option_bind]. by rewrite Base64.DecodeString_EncodeToString.
Qed.

Lemma scan_members_bytes f d name v q r :
  Forall plain name -> is_space q = false ->
  scan_members (S (S f)) d (quote :: name ++ quote :: colon :: MarshalBytes v ++ q :: r) =
    if bval q =? 125 then Some ([(name, MarshalBytes v)], r) else
    if bval q =? 44 then '(ms, r') ← scan_members (S f) d (skip_space r); Some ((name, MarshalBytes v) :: ms, r') else None.
Proof.
  intros Hname Hq. destruct (MarshalBytes_scan f d v q r) as (w & b & t & E & Hb & Hs). rewrite E in *.
  by apply (scan_member (S f) d name b t w q r).
Qed.

Lemma parse_EncodeCommand cmd :
  kv_command cmd ->
  parse (EncodeCommand cmd) =
    Some (Obj [(of_string "Type", MarshalString (Type_ cmd)); (of_string "Key", MarshalBytes (Some (Key cmd)));
               (of_string "Value", MarshalBytes (Value cmd))]).
Proof.
  intros Hk.
  assert (exists t, MarshalString (Type_ cmd) = quote :: t ++ [quote] /\ Forall plain t) as (t & Ht & Hp).
  { destruct Hk as [-> | ->]; [exists TypePut|exists TypeDelete]; (split; [by vm_compute|repeat constructor; by vm_compute]). }
  unfold EncodeCommand. apply parse_value; [done|].
  set (text := open_brace :: _).
  assert (exists f, (2 * length text)%nat = S (S (S (S (S f))))) as [f ->].
  { exists (2 * length text - 5)%nat. assert (3 <= length text)%nat; [|lia].
    unfold text, member. rewrite !length_cons, length_app, !length_cons, length_app. lia. }
  subst text. rewrite Ht. unfold member. cbn [scan_value].
  change (bval open_brace =? 34) with false. change (bval open_brace =? 123) with true. cbn iota.
  change (maxNestingDepth <=? 0) with false. cbn iota. rewrite <- !app_comm_cons, <- !app_assoc, <- !app_comm_cons.
  rewrite (skip_space_no quote) by done. change (bval quote =? 125) with false. cbn iota.
  rewrite (scan_member _ _ (of_string "Type") quote (t ++ [quote]) (Str t) comma);
    [|repeat constructor; by vm_compute|done|done|rewrite <- app_assoc; by apply scan_string_value].
  change (bval comma =? 125) with false. change (bval comma =? 44) with true. cbn iota.
  rewrite (skip_space_no quote) by done. cbn [app].
  rewrite scan_members_bytes by (first [done | repeat constructor; by vm_compute]).
  change (bval comma =? 125) with false. change (bval comma =? 44) with true. cbn iota.
  rewrite (skip_space_no quote) by done.
  rewrite scan_members_bytes by (first [done | repeat constructor; by vm_compute]).
  reflexivity.
Qed.

Lemma DecodeCommand_EncodeCommand cmd : kv_command cmd -> DecodeCommand (EncodeCommand cmd) = Some cmd.
Proof.
  intros Hk. unfold DecodeCommand. rewrite parse_EncodeCommand by done.
  assert (decode_string (MarshalString (Type_ cmd)) [] = Some (Type_ cmd)) as Hs
    by (by destruct Hk as [-> | ->]; vm_compute).
  assert (unquote (of_string "Type") = Some (of_string "Type")) as Et by (by vm_compute).
  assert (unquote (of_string "Key") = Some (of_string "Key")) as Ek by (by vm_compute).
  assert (unquote (of_string "Value") = Some (of_string "Value")) as Ev by (by vm_compute).
  cbn [foldl]. unfold set_field at 3. cbn [mbind option_bind fst snd Type_]. rewrite Et. cbn [mbind option_bind].
  rewrite bool_decide_true, Hs by (by vm_compute). cbn [mbind option_bind Key Value].
  unfold set_field at 2. cbn [mbind option_bind fst snd Type_ Key Value]. rewrite Ek. cbn [mbind option_bind].
  rewrite bool_decide_false, bool_decide_true, MarshalBytes_decode by (by vm_compute).
  cbn [mbind option_bind Key Value Type_ default].
  unfold set_field. cbn [mbind option_bind fst snd Type_ Key Value]. rewrite Ev. cbn [mbind option_bind].
  rewrite !bool_decide_false, bool_decide_true, MarshalBytes_decode by (by vm_compute). by destruct cmd.
Qed.

End Cmd.

(** ** The server *)
Module KV.
Import Cmd.

Section KV.
Context {M : Type} `{IMemTable M} `{Raft.RaftConfig}.

(** [wal] is the log's file, present in standalone mode only; [raft] is present in
    the other.  [replays] are the goroutines [go k.replaySnapshot(entry)] not yet
    run. *)
Record KVServer := mkKV {
  raft : option Raft.Raft;
  storage : Engine.Engine M;
  wal : option bytes;
  replays : list LogEntry;
}.

Definition set_raft (k : KVServer) (r : Raft.Raft) : KVServer := mkKV (Some r) (storage k) (wal k) (replays k).
Definition set_storage (k : KVServer) (e : Engine.Engine M) : KVServer := mkKV (raft k) e (wal k) (replays k).
Definition set_wal (k : KVServer) (f : bytes) : KVServer := mkKV (raft k) (storage k) (Some f) (replays k).
Definition set_replays (k : KVServer) (l : list LogEntry) : KVServer := mkKV (raft k) (storage k) (wal k) l.

(** The callback of [replayWAL]; the state is [None] once a write has not
    returned. *)
Definition replay_op (st : option (Engine.Engine M)) (op : Z) (key : bytes) (value : option bytes)
    : option (Engine.Engine M) * option goerr :=
  match st with
  | None => (None, Some (Err "not returned"))
  | Some e =>
      let r := if op =? WAL.WALOpPut then Engine.Put e key value
               else if op =? WAL.WALOpDelete then Engine.Delete e key else Some (e, Ok tt) in
      match r with
      | None => (None, Some (Err "not returned"))
      | Some (e, Ok _) => (Some e, None)
      | Some (e, Error err) => (Some e, Some err)
      end
  end.

(** A replay error is logged, no more. *)
Definition replayWAL (k : KVServer) : option KVServer :=
  e ← (WAL.Replay replay_op (wal k) (Some (storage k))).1; Some (set_storage k e).

(** The file [NewWAL] opens is created when it does not exist. The memtable's
    goroutines (the one that loads the table list and the flush worker) do not run
    during the replay. *)
Definition NewKVServer (standalone : bool) (memTable : M) (walFile : option bytes) (peers : list bytes) (me : Z)
    (disk : RaftWAL.RaftWAL) : option KVServer :=
  let store := Engine.NewEngine memTable in
  if standalone then replayWAL (mkKV None store (Some (default [] walFile)) [])
  else r ← Raft.NewRaft peers me disk; Some (mkKV (Some r) store None []).

(** [f] is what the disk does with the append. *)
Definition writeStandalone (f : WAL.fault) (k : KVServer) (cmd : Command) : option (KVServer * result unit) :=
  let file := default [] (wal k) in
  if bool_decide (Type_ cmd = TypePut) then
    match WAL.Append f file WAL.WALOpPut (Key cmd) (Value cmd) with
    | (file, Some err) => Some (set_wal k file, Error err)
    | (file, None) => '(e, r) ← Engine.Put (storage k) (Key cmd) (Value cmd); Some (set_storage (set_wal k file) e, r)
    end
  else if bool_decide (Type_ cmd = TypeDelete) then
    match WAL.Append f file WAL.WALOpDelete (Key cmd) None with
    | (file, Some err) => Some (set_wal k file, Error err)
    | (file, None) => '(e, r) ← Engine.Delete (storage k) (Key cmd); Some (set_storage (set_wal k file) e, r)
    end
  else Some (k, Ok tt).

(** [AppendEntry] through Raft: what it sends to the peers, and the index. *)
Definition AppendEntry (k : KVServer) (r : Raft.Raft) (cmd : Command)
    : option (KVServer * list (nat * option Raft.rpc) * result Z) :=
  '(r, msgs, res) ← Raft.AppendEntry r (EncodeCommand cmd); Some (set_raft k r, msgs, res).

(** [Write]: done, or waiting for an index to be committed ([WaitForCommit] then
    returns nil). *)
Inductive outcome := Done (r : result unit) | Waits (index : Z).

Definition Write (f : WAL.fault) (k : KVServer) (cmd : Command)
    : option (KVServer * list (nat * option Raft.rpc) * outcome) :=
  match raft k with
  | None => '(k, r) ← writeStandalone f k cmd; Some (k, [], Done r)
  | Some r =>
      '(k, msgs, res) ← AppendEntry k r cmd;
      match res with
      | Error err => Some (k, msgs, Done (Error err))
      | Ok index =>
          let waits := match raft k with Some r => Raft.WaitCommitIndex_blocks r index | None => false end in
          Some (k, msgs, if waits then Waits index else Done (Ok tt))
      end
  end.

(** [Apply]: an entry that is no command is skipped, and the result of a write
    dropped. *)
Definition Apply (k : KVServer) (entry : LogEntry) : option KVServer :=
  if IsSnapshot entry then Some (set_replays k (replays k ++ [entry])) else
  match DecodeCommand (log_command entry) with
  | None => Some k
  | Some cmd =>
      if bool_decide (Type_ cmd = TypePut) then
        '(e, _) ← Engine.Put (storage k) (Key cmd) (Value cmd); Some (set_storage k e)
      else if bool_decide (Type_ cmd = TypeDelete) then
        '(e, _) ← Engine.Delete (storage k) (Key cmd); Some (set_storage k e)
      else Some k
  end.

(** The loop of [replaySnapshot]: the entries of a snapshot as writes; what does
    not decode is skipped. *)
Definition snapshot_write (e : LogEntry) : option entry :=
  cmd ← DecodeCommand (log_command e);
  if bool_decide (Type_ cmd = TypePut) then Some (Key cmd, Value cmd)
  else if bool_decide (Type_ cmd = TypeDelete) then Some (Key cmd, None) else None.

Definition replaySnapshot (k : KVServer) (entry : LogEntry) : option KVServer :=
  entries ← Codec.DeserializeLogEntries (log_command entry);
  match entries with
  | [] => Some k
  | _ => '(e, _) ← Engine.FlushToSSTable (storage k) (omap snapshot_write entries); Some (set_storage k e)
  end.

(** The goroutine that started first runs. *)
Definition run_replay (k : KVServer) : option KVServer :=
  match replays k with
  | [] => Some k
  | entry :: rest => replaySnapshot (set_replays k rest) entry
  end.

(** One turn of [Run]: the next entry of Raft's apply channel. *)
Definition Run (k : KVServer) : option KVServer :=
  match raft k with
  | None => Some k
  | Some r =>
      match Raft.buf (Raft.r_ApplyCh r) with
      | [] => Some k
      | entry :: _ =>
          Apply (set_raft k (Raft.set_applied r (Raft.r_lastApplied r) (Raft.chan_recv (Raft.r_ApplyCh r)))) entry
      end
  end.

Definition Get (k : KVServer) (key : bytes) : option (KVServer * result bytes) :=
  '(e, r) ← Engine.Get (storage k) key; Some (set_storage k e, r).

Definition maxScanResults : Z := 10000.

(** The callback of [Scan]. *)
Definition scan_fn (pred : Predicate.Predicate) (out : list ScanEntry) (key value : bytes) : list ScanEntry * bool :=
  if negb (Predicates.Eval pred value) then (out, true) else
  let out := out ++ [mkScanEntry key value] in
  (out, negb (maxScanResults <=? zlen out)).

Definition Scan (k : KVServer) (start end_ : bytes) (pred : Predicate.Predicate) : option (list ScanEntry) :=
  Engine.Scan (storage k) start end_ (scan_fn pred) [].

(** [WaitUntilReady] returns when this is [false]. *)
Definition WaitUntilReady_blocks (k : KVServer) : bool :=
  match raft k with
  | None => false
  | Some r => (zlen (Raft.r_peers r) =? 1) && negb (bool_decide (Raft.r_state r = Raft.Leader))
  end.

End KV.
#[global] Arguments KVServer : clear implicits.
End KV.

(** ** The router *)
Module Routing.
Import Cmd KV.

Definition MsgPut : bytes := of_string "PUT".
Definition MsgGet : bytes := of_string "GET".
Definition MsgDelete : bytes := of_string "DEL".
Definition MsgScan : bytes := of_string "SCAN".
Definition MsgRespOK : bytes := of_string "OK".
Definition MsgRespErr : bytes := of_string "ERR".

Definition sendErr : response := (MsgRespErr, Proto.KV.statusPayload Proto.KV.StatusError).
Definition sendOK : response := (MsgRespOK, Proto.KV.statusPayload Proto.KV.StatusOK).
Definition sendDropped : response := (MsgRespErr, Proto.KV.statusPayload Proto.KV.StatusDropped).

(** The counters of [pkg/metrics] that the handlers bump. *)
Record Counters := mkCounters { Writes : Z; Reads : Z; Scans : Z; Deletes : Z; WriteErrors : Z }.
Definition Add64 (c d : Z) : Z := int64_of (c + d).
Definition no_counts : Counters := mkCounters 0 0 0 0 0.
Definition add_write (c : Counters) : Counters := mkCounters (Add64 (Writes c) 1) (Reads c) (Scans c) (Deletes c) (WriteErrors c).
Definition add_read (c : Counters) : Counters := mkCounters (Writes c) (Add64 (Reads c) 1) (Scans c) (Deletes c) (WriteErrors c).
Definition add_scan (c : Counters) : Counters := mkCounters (Writes c) (Reads c) (Add64 (Scans c) 1) (Deletes c) (WriteErrors c).
Definition add_delete (c : Counters) : Counters := mkCounters (Writes c) (Reads c) (Scans c) (Add64 (Deletes c) 1) (WriteErrors c).
Definition add_write_error (c : Counters) : Counters := mkCounters (Writes c) (Reads c) (Scans c) (Deletes c) (Add64 (WriteErrors c) 1).

Section Routing.
Context {M : Type} `{IMemTable M} `{Raft.RaftConfig} {F : Type}.

(** The hooks close over their own state, [hookState]; the counters are global and
    the process has one router. *)
Record Router := mkRouter {
  kv : KVServer M;
  preHandleFunc : option (F -> Request -> F * Request * HookAction);
  postHandleFunc : option (F -> Request -> F);
  hookState : F;
  counters : Counters;
}.

Definition set_kv (r : Router) (k : KVServer M) : Router := mkRouter k (preHandleFunc r) (postHandleFunc r) (hookState r) (counters r).
Definition set_hookState (r : Router) (f : F) : Router := mkRouter (kv r) (preHandleFunc r) (postHandleFunc r) f (counters r).
Definition count (add : Counters -> Counters) (r : Router) : Router :=
  mkRouter (kv r) (preHandleFunc r) (postHandleFunc r) (hookState r) (add (counters r)).

Definition NewRouter (k : KVServer M) (f : F) : Router := mkRouter k None None f no_counts.
Definition SetPreHandle (r : Router) (h : F -> Request -> F * Request * HookAction) : Router :=
  mkRouter (kv r) (Some h) (postHandleFunc r) (hookState r) (counters r).
Definition SetPostHandle (r : Router) (h : F -> Request -> F) : Router :=
  mkRouter (kv r) (preHandleFunc r) (Some h) (hookState r) (counters r).

Definition PreHandle (r : Router) (request : Request) : Router * Request * HookAction * list response :=
  match preHandleFunc r with
  | None => (r, request, HookPass, [])
  | Some h =>
      let '(f, request, action) := h (hookState r) request in
      (set_hookState r f, request, action, if bool_decide (action = HookDrop) then [sendDropped] else [])
  end.

(** What a write answers, now or when its index is committed. *)
Definition reply (o : outcome) : handled :=
  match o with
  | Done (Error _) => Answered [sendErr]
  | Done (Ok _) => Answered [sendOK]
  | Waits index => Suspended index [sendOK]
  end.

(** What it counts; a write that waits is counted with its answer, once it
    resumes. *)
Definition counted (add : Counters -> Counters) (o : outcome) : Counters -> Counters :=
  match o with
  | Done (Error _) => add_write_error
  | Done (Ok _) => add
  | Waits _ => fun c => c
  end.

(** The messages a Raft write sends to the peers are not the client's. *)
Definition handle_write (f : WAL.fault) (r : Router) (cmd : Command) (add : Counters -> Counters) : option (Router * handled) :=
  '(k, _, o) ← Write f (kv r) cmd; Some (count (counted add o) (set_kv r k), reply o).

Definition handlePut (f : WAL.fault) (r : Router) (data : bytes) : option (Router * handled) :=
  if zlen data <? 8 then Some (r, Answered []) else
  keyLen ← le32_at 0 data;
  valueLen ← le32_at 4 data;
  if zlen data <? 8 + keyLen + valueLen then Some (r, Answered []) else
  key ← slice 8 (8 + keyLen) data;
  value ← slice (8 + keyLen) (8 + keyLen + valueLen) data;
  handle_write f r (mkCommand TypePut key (Some value)) add_write.

Definition handleGet (r : Router) (data : bytes) : option (Router * handled) :=
  if zlen data <? 4 then Some (r, Answered []) else
  keyLen ← le32_at 0 data;
  if zlen data <? 4 + keyLen then Some (r, Answered []) else
  key ← slice 4 (4 + keyLen) data;
  let r := count add_read r in
  '(k, res) ← Get (kv r) key;
  Some (set_kv r k, Answered [match res with
                              | Error _ => sendErr
                              | Ok value => (MsgRespOK, Proto.KV.getResponse value)
                              end]).

Definition handleDelete (f : WAL.fault) (r : Router) (data : bytes) : option (Router * handled) :=
  if zlen data <? 4 then Some (r, Answered []) else
  keyLen ← le32_at 0 data;
  if zlen data <? 4 + keyLen then Some (r, Answered []) else
  key ← slice 4 (4 + keyLen) data;
  handle_write f r (mkCommand TypeDelete key None) add_delete.

Definition handleScan (r : Router) (data : bytes) : option (Router * handled) :=
  req ← DecodeScanRequest data;
  match req with
  | Error _ => Some (r, Answered [sendErr])
  | Ok req =>
      let r := count add_scan r in
      entries ← Scan (kv r) (Start req) (End_ req) (Pred req);
      Some (r, Answered [(MsgRespOK, EncodeScanResponse Proto.KV.StatusOK entries)])
  end.

(** The dispatch on the message id; [f] is what the disk does with an append. *)
Definition Handle (f : WAL.fault) (r : Router) (request : Request) : option (Router * handled) :=
  let msgID := GetReqID request in
  let data := GetMsgData request in
  if bool_decide (msgID = MsgPut) then handlePut f r data else
  if bool_decide (msgID = MsgGet) then handleGet r data else
  if bool_decide (msgID = MsgDelete) then handleDelete f r data else
  if bool_decide (msgID = MsgScan) then handleScan r data
  else Some (r, Answered []).

Definition PostHandle (r : Router) (request : Request) : Router :=
  match postHandleFunc r with None => r | Some h => set_hookState r (h (hookState r) request) end.

(** The router as [banIface.IRouter], on a disk that works. *)
#[export] Instance Router_IRouter : IRouter Router := {
  PreHandle := PreHandle;
  Handle := Handle WAL.NoFault;
  PostHandle := PostHandle;
}.

End Routing.
#[global] Arguments Router : clear implicits.
End Routing.
