(* ===== verification/Recovery.v ===== *)
(** Recovery: what the log of the standalone server and the entries of the Raft
    log mean for the store, across crashes and snapshots; and the order two
    overlapping writes reach log and memtable in. *)
From S2P Require Import Prelude Bytes Credit SkipList Bloom SSTable MemTable Engine StorageWAL RaftWAL Raft Service.
Import Credits Partitioned SSTable MemTable.

Module Recovery.

(** ** What the memtable holds after a log of operations *)

(** An operation as [(op, key, value)], as the log has it. *)
Abbreviation logged := (Z * bytes * option bytes)%type.

Definition write_op (c : content) (o : logged) : content :=
  if o.1.1 =? WAL.WALOpPut then write c o.1.2 o.2
  else if o.1.1 =? WAL.WALOpDelete then write c o.1.2 None else c.

(** What the operation leaves under its key. *)
Definition op_value (o : logged) : option bytes := if o.1.1 =? WAL.WALOpPut then o.2 else None.

Definition kv_op (o : logged) : Prop := o.1.1 = WAL.WALOpPut \/ o.1.1 = WAL.WALOpDelete.

(** The last of [ops] on [key]. *)
Fixpoint latest (key : bytes) (ops : list logged) : option (option bytes) :=
  match ops with
  | [] => None
  | o :: rest => match latest key rest with
                 | Some v => Some v
                 | None => if decide (o.1.2 = key) then Some (op_value o) else None
                 end
  end.

Lemma latest_app key a b : latest key (a ++ b) = match latest key b with Some v => Some v | None => latest key a end.
Proof. induction a as [|o a IH]; cbn [app latest]; [by destruct (latest key b)|]. rewrite IH. by destruct (latest key b). Qed.

Lemma write_op_all c o key : kv_op o -> all (write_op c o) key = if decide (o.1.2 = key) then Some (op_value o) else all c key.
Proof. intros [E|E]; unfold write_op, op_value; rewrite E; done. Qed.

Lemma writes_all ops c key : Forall kv_op ops ->
  all (foldl write_op c ops) key = match latest key ops with Some v => Some v | None => all c key end.
Proof.
  intros Hk. revert c. induction Hk as [|o ops Ho _ IH]; intros c; [done|]. cbn [foldl latest].
  rewrite IH, write_op_all by done. destruct (latest key ops); [done|]. by destruct (decide _).
Qed.

(** Replay turns an empty value into a deletion and changes nothing else. *)
Lemma latest_replayed key ops : Forall kv_op ops ->
  latest key (WAL.replayed <$> ops) = (fun v : option bytes => match v with Some [] => None | _ => v end) <$> latest key ops.
Proof.
  intros Hk. induction Hk as [|o ops Ho _ IH]; [done|]. rewrite fmap_cons. cbn [latest]. rewrite IH.
  destruct (latest key ops) as [v|]; [done|]. cbn. destruct o as [[op k] [[|b v]|]]; cbn;
    destruct (decide (k = key)); try done; unfold op_value; cbn; by destruct (op =? WAL.WALOpPut).
Qed.

Lemma kv_op_replayed ops : Forall kv_op ops -> Forall kv_op (WAL.replayed <$> ops).
Proof. intros Hk. apply Forall_fmap. eapply Forall_impl; [exact Hk|]. by intros [[op k] [[|b v]|]]. Qed.

Section Laws.
Context {M : Type} `{IMemTableLaws M} `{Raft.RaftConfig}.

(** One operation on the memtable. *)
Definition do_op (m : M) (o : logged) : option (M * result unit) :=
  if o.1.1 =? WAL.WALOpPut then mt_Put m o.1.2 o.2 else mt_Delete m o.1.2.

Definition op_bytes (o : logged) : Z := if o.1.1 =? WAL.WALOpPut then entry_bytes (o.1.2, o.2) else zlen o.1.2.

(** The credit for each operation is there when its turn comes. *)
Fixpoint room_for (m : M) (ops : list logged) : Prop :=
  match ops with
  | [] => True
  | o :: rest => mt_Fits m (op_bytes o) = true /\ forall m', do_op m o = Some (m', Ok tt) -> room_for m' rest
  end.

Lemma do_op_spec m c o : promises m c -> kv_op o -> mt_Fits m (op_bytes o) = true ->
  exists m', do_op m o = Some (m', Ok tt) /\ promises m' (write_op c o).
Proof.
  intros Hm [E|E]; unfold do_op, op_bytes, write_op; rewrite E; cbn [Z.eqb WAL.WALOpPut WAL.WALOpDelete Pos.eqb]; intros Hf.
  - by apply ml_put.
  - by apply ml_delete.
Qed.

(** What the log's callback does is the operation. *)
Lemma replay_op_do_op e o : kv_op o ->
  KV.replay_op (Some e) o.1.1 o.1.2 o.2 =
    match do_op (Engine.memTable e) o with
    | None => (None, Some (Err "not returned"))
    | Some (m, Ok _) => (Some (Engine.set_memTable e m), None)
    | Some (m, Error err) => (Some (Engine.set_memTable e m), Some err)
    end.
Proof.
  intros [E|E]; unfold KV.replay_op, do_op, Engine.Put, Engine.Delete; rewrite E;
    cbn [Z.eqb WAL.WALOpPut WAL.WALOpDelete Pos.eqb].
  - by destruct (mt_Put _ _ _) as [[m [u|err]]|].
  - by destruct (mt_Delete _ _) as [[m [u|err]]|].
Qed.

(** Operations one after the other, each done. *)
Fixpoint do_ops (m : M) (ops : list logged) : option M :=
  match ops with
  | [] => Some m
  | o :: rest => '(m, r) ← do_op m o; match r with Ok _ => do_ops m rest | Error _ => None end
  end.

Lemma fold_ops_runs e ops m' : Forall kv_op ops -> do_ops (Engine.memTable e) ops = Some m' ->
  WAL.fold_ops KV.replay_op ops (Some e) = (Some (Engine.set_memTable e m'), None).
Proof.
  intros Hk. revert e. induction Hk as [|o ops Ho _ IH]; intros e; cbn [do_ops].
  { intros [= <-]. by destruct e. }
  pose proof (replay_op_do_op e o Ho) as E. destruct (do_op (Engine.memTable e) o) as [[m1 [u|err]]|]; cbn [mbind option_bind]; try done.
  intros Hrun. destruct o as [[op k] v]. cbn [fst snd WAL.fold_ops] in *. rewrite E.
  by rewrite (IH (Engine.set_memTable e m1) Hrun).
Qed.

Lemma do_ops_spec m c ops : promises m c -> Forall kv_op ops -> room_for m ops ->
  exists m', do_ops m ops = Some m' /\ promises m' (foldl write_op c ops).
Proof.
  intros Hm Hk. revert m c Hm. induction Hk as [|o ops Ho _ IH]; intros m c Hm Hr; [by exists m|].
  destruct Hr as [Hf Hr]. destruct (do_op_spec _ c o Hm Ho Hf) as (m' & Hdo & Hm').
  specialize (Hr m' Hdo). cbn [do_ops foldl]. rewrite Hdo. by apply IH.
Qed.

(** *** The standalone server *)

(** The log record of a command. *)
Definition op_of (cmd : Cmd.Command) : logged :=
  if bool_decide (Cmd.Type_ cmd = Cmd.TypePut) then (WAL.WALOpPut, Cmd.Key cmd, Cmd.Value cmd)
  else (WAL.WALOpDelete, Cmd.Key cmd, None).

Lemma op_of_kv cmd : kv_op (op_of cmd).
Proof. unfold op_of, kv_op. case_bool_decide; auto. Qed.

(** A standalone server whose log holds [ops]. *)
Record standalone (k : KV.KVServer M) (ops : list logged) (c : content) : Prop := {
  st_raft : KV.raft k = None;
  st_wal : KV.wal k = Some (WAL.log_of ops);
  st_ops : Forall WAL.op_ok ops;
  st_mem : promises (Engine.memTable (KV.storage k)) c;
}.

(** A write that the memtable takes: the record is in the log, the caller is
    answered. *)
Lemma write_runs k ops cmd m' :
  KV.raft k = None -> KV.wal k = Some (WAL.log_of ops) -> Cmd.kv_command cmd ->
  do_op (Engine.memTable (KV.storage k)) (op_of cmd) = Some (m', Ok tt) ->
  exists k', KV.Write WAL.NoFault k cmd = Some (k', [], KV.Done (Ok tt)) /\ KV.raft k' = None /\
    KV.wal k' = Some (WAL.log_of (ops ++ [op_of cmd])) /\ Engine.memTable (KV.storage k') = m'.
Proof.
  intros S1 S2 Hk Hdo.
  assert (forall op key v, op_of cmd = (op, key, v) -> (WAL.Append WAL.NoFault (WAL.log_of ops) op key v) =
    (WAL.log_of (ops ++ [op_of cmd]), None)) as Happ.
  { intros op key v E. rewrite WAL.log_of_snoc, E. done. }
  unfold KV.Write. rewrite S1. unfold KV.writeStandalone. rewrite S2. cbn [default from_option id].
  destruct Hk as [E|E].
  - unfold op_of in *. rewrite bool_decide_true in * by done. rewrite (Happ _ _ _ eq_refl).
    unfold do_op in Hdo. cbn [fst snd Z.eqb WAL.WALOpPut Pos.eqb] in Hdo. unfold Engine.Put. rewrite Hdo. cbn [mbind option_bind].
    eexists. by split_and!.
  - unfold op_of in *. rewrite E in *. rewrite bool_decide_false, bool_decide_true by done.
    rewrite bool_decide_false in * by done. rewrite (Happ _ _ _ eq_refl).
    unfold do_op in Hdo. cbn [fst snd Z.eqb WAL.WALOpPut WAL.WALOpDelete Pos.eqb] in Hdo. unfold Engine.Delete. rewrite Hdo. cbn [mbind option_bind].
    eexists. by split_and!.
Qed.

Lemma write_spec k ops c cmd :
  standalone k ops c -> Cmd.kv_command cmd -> WAL.op_ok (op_of cmd) ->
  mt_Fits (Engine.memTable (KV.storage k)) (op_bytes (op_of cmd)) = true ->
  exists k' m', KV.Write WAL.NoFault k cmd = Some (k', [], KV.Done (Ok tt)) /\
    standalone k' (ops ++ [op_of cmd]) (write_op c (op_of cmd)) /\
    do_op (Engine.memTable (KV.storage k)) (op_of cmd) = Some (m', Ok tt) /\ Engine.memTable (KV.storage k') = m'.
Proof.
  intros [S1 S2 S3 S4] Hk Ho Hf.
  destruct (do_op_spec _ c (op_of cmd) S4 (op_of_kv cmd) Hf) as (m' & Hdo & Hm').
  destruct (write_runs k ops cmd m' S1 S2 Hk Hdo) as (k' & Hrun & R1 & R2 & <-).
  exists k', (Engine.memTable (KV.storage k')). split; [done|]. split; [|done]. split; [done|done| |done].
  apply Forall_app. by split; [|constructor].
Qed.

(** Writes one after the other, each acknowledged. *)
Fixpoint write_all (k : KV.KVServer M) (cmds : list Cmd.Command) : option (KV.KVServer M) :=
  match cmds with
  | [] => Some k
  | cmd :: rest =>
      '(k, _, o) ← KV.Write WAL.NoFault k cmd;
      match o with KV.Done (Ok _) => write_all k rest | _ => None end
  end.

Lemma write_all_runs k ops cmds m' :
  KV.raft k = None -> KV.wal k = Some (WAL.log_of ops) -> Forall Cmd.kv_command cmds ->
  do_ops (Engine.memTable (KV.storage k)) (op_of <$> cmds) = Some m' ->
  exists k', write_all k cmds = Some k' /\ KV.wal k' = Some (WAL.log_of (ops ++ (op_of <$> cmds))) /\
    Engine.memTable (KV.storage k') = m'.
Proof.
  intros S1 S2 Hk. revert k ops S1 S2. induction Hk as [|cmd cmds Hc _ IH]; intros k ops S1 S2; cbn [fmap list_fmap do_ops write_all].
  { intros [= <-]. exists k. by rewrite app_nil_r. }
  destruct (do_op _ _) as [[m1 [[]|err]]|] eqn:Hdo; cbn [mbind option_bind]; try done.
  destruct (write_runs k ops cmd m1 S1 S2 Hc Hdo) as (k1 & -> & R1 & R2 & <-). cbn [mbind option_bind].
  intros Hrun. destruct (IH k1 _ R1 R2 Hrun) as (k' & Hrun' & Hw & Hm). exists k'. rewrite <- app_assoc in Hw. done.
Qed.

Lemma get_spec k ops c key : standalone k ops c ->
  exists k', KV.Get k key = Some (k', MemTable.answer (all c key)) /\ standalone k' ops c.
Proof.
  intros [S1 S2 S3 S4]. unfold KV.Get, Engine.Get. destruct (ml_get _ c key S4) as (m & -> & Hm). cbn [mbind option_bind].
  eexists. split; [done|]. by split.
Qed.

(** A restart on the log [ops], whose last record may be torn. *)
Lemma restart_runs m ops (torn : logged) n peers me disk m' :
  Forall WAL.op_ok ops -> Forall kv_op ops -> do_ops m (WAL.replayed <$> ops) = Some m' ->
  WAL.op_ok torn -> (n < length (WAL.record_of torn))%nat ->
  exists k, KV.NewKVServer true m (Some (WAL.log_of ops ++ take n (WAL.record_of torn))) peers me disk = Some k /\
    KV.raft k = None /\ Engine.memTable (KV.storage k) = m'.
Proof.
  intros Hok Hk Hr Ht Hn. unfold KV.NewKVServer, KV.replayWAL. cbn [KV.wal KV.storage default from_option id].
  rewrite WAL.Replay_log_torn by done.
  rewrite (fold_ops_runs (Engine.NewEngine m) (WAL.replayed <$> ops) m') by (done || by apply kv_op_replayed).
  cbn [fst mbind option_bind]. eexists. by split_and!.
Qed.

(** *** What Raft has committed *)

Definition log_entry (p : Z * Z * Cmd.Command) : LogEntry := mkEntry p.1.1 p.1.2 (Cmd.EncodeCommand p.2) false.

Definition ops_of (ps : list (Z * Z * Cmd.Command)) : list logged := (fun p => op_of p.2) <$> ps.

Fixpoint apply_all (k : KV.KVServer M) (entries : list LogEntry) : option (KV.KVServer M) :=
  match entries with
  | [] => Some k
  | e :: rest => k ← KV.Apply k e; apply_all k rest
  end.

Lemma apply_spec k c p :
  promises (Engine.memTable (KV.storage k)) c -> Cmd.kv_command p.2 ->
  mt_Fits (Engine.memTable (KV.storage k)) (op_bytes (op_of p.2)) = true ->
  exists k', KV.Apply k (log_entry p) = Some k' /\ promises (Engine.memTable (KV.storage k')) (write_op c (op_of p.2)) /\
    do_op (Engine.memTable (KV.storage k)) (op_of p.2) = Some (Engine.memTable (KV.storage k'), Ok tt) /\
    KV.replays k' = KV.replays k.
Proof.
  intros Hm Hk Hf. destruct p as [[i t] cmd]. cbn [snd] in *.
  destruct (do_op_spec _ c (op_of cmd) Hm (op_of_kv cmd) Hf) as (m' & Hdo & Hm'). rewrite Hdo.
  unfold KV.Apply, log_entry. cbn [fst snd IsSnapshot Command]. rewrite Cmd.DecodeCommand_EncodeCommand by done.
  unfold op_of, do_op, Engine.Put, Engine.Delete in *. destruct Hk as [E|E].
  - rewrite bool_decide_true in * by done. cbn [fst snd Z.eqb WAL.WALOpPut Pos.eqb] in Hdo. rewrite Hdo. by eexists.
  - rewrite E in *. rewrite bool_decide_false in Hdo, Hm' by done. rewrite !bool_decide_false, bool_decide_true by done.
    cbn [fst snd Z.eqb WAL.WALOpPut WAL.WALOpDelete Pos.eqb] in Hdo. rewrite Hdo. by eexists.
Qed.

Lemma apply_all_spec k c ps :
  promises (Engine.memTable (KV.storage k)) c -> Forall (fun p => Cmd.kv_command p.2) ps ->
  room_for (Engine.memTable (KV.storage k)) (ops_of ps) ->
  exists k', apply_all k (log_entry <$> ps) = Some k' /\
    promises (Engine.memTable (KV.storage k')) (foldl write_op c (ops_of ps)) /\ KV.replays k' = KV.replays k.
Proof.
  intros Hm Hk. revert k c Hm. induction Hk as [|p ps Hp _ IH]; intros k c Hm Hr; [by exists k|].
  cbn [ops_of fmap list_fmap room_for] in Hr. destruct Hr as [Hf Hr].
  destruct (apply_spec k c p Hm Hp Hf) as (k1 & Hrun & Hm1 & Hdo & Hrep). specialize (Hr _ Hdo).
  destruct (IH k1 _ Hm1 Hr) as (k' & Hrun' & Hm' & Hrep'). exists k'. rewrite fmap_cons. cbn [apply_all].
  rewrite Hrun. cbn [mbind option_bind]. split; [exact Hrun'|]. split; [exact Hm'|congruence].
Qed.

(** The writes a snapshot of these entries replays. *)
Definition write_of (cmd : Cmd.Command) : entry := ((op_of cmd).1.2, op_value (op_of cmd)).

Lemma snapshot_writes ps :
  Forall (fun p => Cmd.kv_command p.2) ps ->
  omap KV.snapshot_write (log_entry <$> ps) = (fun p => write_of p.2) <$> ps.
Proof.
  induction 1 as [|[[i t] cmd] ps Hp _ IH]; [done|]. rewrite !fmap_cons. cbn [omap list_omap snd fst].
  assert (KV.snapshot_write (log_entry (i, t, cmd)) = Some (write_of cmd)) as ->; [|by f_equal].
  unfold KV.snapshot_write, log_entry. cbn [fst snd Command]. rewrite Cmd.DecodeCommand_EncodeCommand by done.
  cbn [mbind option_bind]. unfold write_of, op_of, op_value. destruct Hp as [E|E]; cbn in E; rewrite E.
  - by rewrite !bool_decide_true.
  - rewrite !bool_decide_false, bool_decide_true by done. done.
Qed.

Lemma find_reverse_writes ps key :
  find key (reverse ((fun p : Z * Z * Cmd.Command => write_of p.2) <$> ps)) = latest key (ops_of ps).
Proof.
  induction ps as [|p ps IH]; [done|]. unfold ops_of in *. rewrite !fmap_cons, reverse_cons, find_app, IH.
  cbn [latest]. destruct (latest key _); [done|]. rewrite find_cons. by destruct (decide _).
Qed.

(** C34: the Raft path: entries made by [AppendEntry] of puts and deletes are
    decoded from their JSON text to exactly the commands that were written, and
    applied in log order, while each finds its credit, so the store afterwards
    holds for every key its last committed value and leaves the other keys alone.
    A snapshot of the same entries, replayed by the goroutine [Apply] starts for
    it, is written as one table, and when the table's write succeeds the store
    shows the same values for every key the memtable does not hold itself; when it
    fails the store is as it was. *)
Theorem committed_entries_reach_store (k : KV.KVServer M) (c : content) (ps : list (Z * Z * Cmd.Command)) (i t : Z)
    (Hm : promises (Engine.memTable (KV.storage k)) c) (Hcmds : Forall (fun p => Cmd.kv_command p.2) ps)
    (Hroom : room_for (Engine.memTable (KV.storage k)) (ops_of ps))
    (Hsizes : Forall (fun p => log_entry_ok (log_entry p)) ps) (Hcount : u32 (zlen ps))
    (Hpayload : zlen (Codec.SerializeLogEntries (log_entry <$> ps)) < 2 ^ 63) (Hreplays : KV.replays k = [])
    (Hflush : flush_ok (Engine.memTable (KV.storage k)) ((fun p => write_of p.2) <$> ps)) (Hne : ps <> []) :
  (exists k', apply_all k (log_entry <$> ps) = Some k' /\
     forall key, exists k'', KV.Get k' key =
       Some (k'', MemTable.answer (match latest key (ops_of ps) with Some v => Some v | None => all c key end))) /\
  exists k1 k2 m' r, KV.Apply k (mkEntry i t (Codec.SerializeLogEntries (log_entry <$> ps)) true) = Some k1 /\
    KV.run_replay k1 = Some k2 /\ Engine.memTable (KV.storage k2) = m' /\
    mt_FlushToSSTable (Engine.memTable (KV.storage k)) ((fun p => write_of p.2) <$> ps) = Some (m', r) /\
    match r with
    | Ok _ => exists c2, promises m' c2 /\
        forall key, all c2 key =
          match find key (hot c) with
          | Some v => Some v
          | None => match latest key (ops_of ps) with Some v => Some v | None => all c key end
          end
    | Error _ => promises m' c
    end.
Proof.
  set (ops := ops_of ps). assert (Forall kv_op ops) as Hkv.
  { apply Forall_fmap, Forall_forall. intros p _. apply op_of_kv. }
  split.
  - destruct (apply_all_spec k c ps Hm Hcmds Hroom) as (k' & Hrun & Hm' & _). exists k'. split; [done|]. intros key.
    unfold KV.Get, Engine.Get. destruct (ml_get _ _ key Hm') as (m' & -> & _). cbn [mbind option_bind].
    eexists. by rewrite writes_all.
  - set (k1 := KV.set_replays k (KV.replays k ++ [mkEntry i t (Codec.SerializeLogEntries (log_entry <$> ps)) true])).
    destruct (ml_flush _ c _ Hm Hflush) as (m' & r & Hrun & Hm').
    exists k1, (KV.set_storage (KV.set_replays k1 []) (Engine.set_memTable (KV.storage k) m')), m', r.
    split; [done|]. split; [|split; [done|split; [exact Hrun|]]].
    + unfold KV.run_replay, k1. cbn [KV.replays KV.set_replays]. rewrite Hreplays. cbn [app].
      unfold KV.replaySnapshot. cbn [Command]. rewrite Codec.Deserialize_Serialize;
        [|by apply Forall_fmap|by unfold zlen; rewrite length_fmap|done].
      cbn [mbind option_bind]. rewrite snapshot_writes by done. destruct ps as [|p ps]; [done|].
      cbn [fmap list_fmap]. unfold Engine.FlushToSSTable. cbn [KV.storage KV.set_replays].
      cbn [fmap list_fmap] in Hrun. rewrite Hrun. done.
    + destruct r as [u|e]; [|done]. eexists. split; [exact Hm'|]. intros key. cbn [under all].
      by rewrite find_reverse_writes.
Qed.

End Laws.

(** ** Overlapping writes

    [writeStandalone] appends to the log and then writes the memtable; requests of
    different connections interleave between the two. *)
Section Overlap.
Context {M : Type} `{IMemTable M}.

Inductive request := Received (cmd : Cmd.Command) | Logged (cmd : Cmd.Command) | Acknowledged (cmd : Cmd.Command).

Record server := mkServer { s_wal : bytes; s_mem : M; s_requests : list request }.

Inductive serve : server -> server -> Prop :=
  | serve_log w m a cmd b :
      serve (mkServer w m (a ++ Received cmd :: b))
            (mkServer (WAL.Append WAL.NoFault w (op_of cmd).1.1 (op_of cmd).1.2 (op_of cmd).2).1 m (a ++ Logged cmd :: b))
  | serve_put w m m' a cmd b :
      do_op m (op_of cmd) = Some (m', Ok tt) ->
      serve (mkServer w m (a ++ Logged cmd :: b)) (mkServer w m' (a ++ Acknowledged cmd :: b)).

(** The two steps of one request, nothing in between, are [Write]. *)
Lemma Write_serves (k : KV.KVServer M) `{Raft.RaftConfig} cmd m' a b :
  KV.raft k = None -> Cmd.kv_command cmd -> do_op (Engine.memTable (KV.storage k)) (op_of cmd) = Some (m', Ok tt) ->
  exists w' k', KV.Write WAL.NoFault k cmd = Some (k', [], KV.Done (Ok tt)) /\
    KV.wal k' = Some w' /\ Engine.memTable (KV.storage k') = m' /\
    rtc serve (mkServer (default [] (KV.wal k)) (Engine.memTable (KV.storage k)) (a ++ Received cmd :: b))
              (mkServer w' m' (a ++ Acknowledged cmd :: b)).
Proof.
  intros Hr Hk Hdo. set (w' := (WAL.Append WAL.NoFault (default [] (KV.wal k)) (op_of cmd).1.1 (op_of cmd).1.2 (op_of cmd).2).1).
  assert (rtc serve (mkServer (default [] (KV.wal k)) (Engine.memTable (KV.storage k)) (a ++ Received cmd :: b))
            (mkServer w' m' (a ++ Acknowledged cmd :: b))) as Hs.
  { eapply rtc_l; [apply serve_log|]. eapply rtc_l; [by apply serve_put|]. apply rtc_refl. }
  exists w'. unfold KV.Write. rewrite Hr. unfold KV.writeStandalone. unfold op_of, do_op in *.
  destruct Hk as [E|E]; rewrite E in *.
  - rewrite !bool_decide_true in * by done. cbn [fst snd Z.eqb WAL.WALOpPut Pos.eqb] in Hdo. cbn [WAL.Append].
    unfold Engine.Put. rewrite Hdo. cbn [mbind option_bind]. eexists. split; [done|]. split_and!; [|done|done].
    unfold w'. by rewrite bool_decide_true.
  - rewrite !bool_decide_false in Hdo by done. rewrite bool_decide_false, bool_decide_true by done.
    cbn [fst snd Z.eqb WAL.WALOpPut WAL.WALOpDelete Pos.eqb] in Hdo. cbn [WAL.Append].
    unfold Engine.Delete. rewrite Hdo. cbn [mbind option_bind]. eexists. split; [done|]. split_and!; [|done|done].
    unfold w'. by rewrite E, bool_decide_false.
Qed.

End Overlap.
#[global] Arguments server : clear implicits.

(** ** Without a budget every write fits *)
Section Unlimited.
Context `{BloomMathLaws} `{StorageConfig} {T : Type} `{OrderedTableLaws T} (clock : Z -> world).
#[local] Instance unlimited_ops : IMemTable (Live.Live T) := Live.live_memtable clock.

Lemma acquireCredit_budget (m : MemTable T) n : budget (credits (acquireCredit m n).1) = budget (credits m).
Proof.
  unfold acquireCredit, TryAcquire, Acquire. destruct (fits (credits m) n); [done|]. cbn. by destruct (fits _ _).
Qed.

Lemma write_locked_budget (m m' : MemTable T) key value cs r :
  write_locked m key value cs = Some (m', r) -> budget (credits m') = budget (credits m).
Proof.
  unfold write_locked. destruct (active m); [|by intros [= <- _]].
  destruct (t_insert _ _ _ _) as [[t' d]|]; [|done]. cbn [mbind option_bind]. destruct (_ <? _); by intros [= <- _].
Qed.

Lemma write_end_budget (m : MemTable T) n r : budget (credits (write_end m n r).1) = budget (credits m).
Proof. destruct r as [d|e]; cbn; [|done]. by destruct (_ =? 0). Qed.

Lemma write_budget (m m' : MemTable T) key value n cs r :
  (let '(m, ok) := acquireCredit m n in
   if negb ok then Some (m, None) else
   '(m, r) ← write_locked m key value cs; let '(m, r) := write_end m n r in Some (m, Some r)) = Some (m', r) ->
  budget (credits m') = budget (credits m).
Proof.
  pose proof (acquireCredit_budget m n) as Ha. destruct (acquireCredit m n) as [m1 []]; cbn [negb fst] in *;
    [|by intros [= <- _]].
  destruct (write_locked m1 key value cs) as [[m2 r2]|] eqn:Hw; [|done]. cbn [mbind option_bind].
  apply write_locked_budget in Hw. pose proof (write_end_budget m2 n r2) as He.
  destruct (write_end m2 n r2) as [m3 r3]. intros [= <- _]. cbn in He. congruence.
Qed.

Lemma do_op_budget (l l' : Live.Live T) o r :
  do_op l o = Some (l', r) -> budget (credits (Live.table l')) = budget (credits (Live.table l)).
Proof.
  unfold do_op. destruct (_ =? _); cbn.
  - destruct (MemTable.Put _ _ _ _) as [[m [r'|]]|] eqn:E; cbn; try done. intros [= <- _]. by apply write_budget in E.
  - destruct (MemTable.Delete _ _ _) as [[m [r'|]]|] eqn:E; cbn; try done. intros [= <- _]. by apply write_budget in E.
Qed.

Lemma unlimited_room (l : Live.Live T) ops : budget (credits (Live.table l)) <= 0 -> room_for l ops.
Proof.
  revert l. induction ops as [|o ops IH]; intros l Hb; [done|]. split.
  - cbn. unfold fits. by rewrite (proj2 (Z.leb_le _ _) Hb).
  - intros l' Hdo%do_op_budget. apply IH. lia.
Qed.

(** *** A crash and a restart

    What was written since the last flush is in the active table, and [Get] looks
    there first: what it finds does not depend on the table a flush has under way,
    nor on the table files and what the memtable knows of them. *)
Definition in_active (l : Live.Live T) (h : list entry) : Prop :=
  exists t, active (Live.table l) = Some t /\ t_rep t h.

Definition put_op (h : list entry) (o : logged) : list entry := put o.1.2 (op_value o) h.

Lemma do_op_active l h o : in_active l h -> kv_op o -> mt_Fits l (op_bytes o) = true ->
  exists l', do_op l o = Some (l', Ok tt) /\ in_active l' (put_op h o).
Proof.
  intros (t & Ha & Ht) Hk Hf.
  assert (forall n key value cs, fits (credits (Live.table l)) n = true -> exists m,
    (let '(m, ok) := acquireCredit (Live.table l) n in
     if negb ok then Some (m, None) else
     '(m, r) ← write_locked m key value cs; let '(m, r) := write_end m n r in Some (m, Some r)) = Some (m, Some (Ok tt)) /\
    exists t', active m = Some t' /\ t_rep t' (put key value h)) as Hw.
  { intros n key value cs Hn. unfold acquireCredit, TryAcquire. rewrite Hn. cbn [negb]. unfold write_locked.
    cbn [active set_credits]. rewrite Ha. destruct (law_insert t h key value cs Ht) as (t' & -> & Ht'). cbn [mbind option_bind].
    destruct (_ <? _); cbn [write_end]; destruct (_ =? 0); eexists; (split; [reflexivity|]); by exists t'. }
  unfold do_op, put_op, op_value. destruct Hk as [E|E]; rewrite E; cbn [Z.eqb WAL.WALOpPut WAL.WALOpDelete Pos.eqb];
    unfold op_bytes in Hf; rewrite E in Hf; cbn in Hf |- *; unfold MemTable.Put, MemTable.Delete.
  - destruct (Hw _ o.1.2 o.2 (Live.next_coins l) Hf) as (m & Hm & Hr). unfold entry_bytes in Hm. cbn [fst snd] in Hm.
    rewrite Hm. cbn. by eexists.
  - destruct (Hw _ o.1.2 None (Live.next_coins l) Hf) as (m & Hm & Hr). rewrite Hm. cbn. by eexists.
Qed.

Lemma do_ops_active l h ops : in_active l h -> Forall kv_op ops -> room_for l ops ->
  exists l', do_ops l ops = Some l' /\ in_active l' (foldl put_op h ops).
Proof.
  intros Hl Hk. revert l h Hl. induction Hk as [|o ops Ho _ IH]; intros l h Hl Hr; [by exists l|].
  destruct Hr as [Hf Hr]. destruct (do_op_active l h o Hl Ho Hf) as (l' & Hdo & Hl').
  specialize (Hr l' Hdo). cbn [do_ops foldl]. rewrite Hdo. by apply IH.
Qed.

Lemma find_puts key ops h : sorted h ->
  find key (foldl put_op h ops) = match latest key ops with Some v => Some v | None => find key h end.
Proof.
  revert h. induction ops as [|o ops IH]; intros h Hh; [done|]. cbn [foldl latest].
  rewrite IH by (by apply put_sorted). destruct (latest key ops); [done|]. unfold put_op.
  rewrite (find_put _ _ _ _ Hh). by destruct (decide _).
Qed.

(** The memtable with another table list and other files. *)
Definition with_tables (k : KV.KVServer (Live.Live T)) (ss : SSTable) : KV.KVServer (Live.Live T) :=
  let l := Engine.memTable (KV.storage k) in
  KV.set_storage k (Engine.set_memTable (KV.storage k) (Live.with_table l (set_sst (Live.table l) ss))).

Lemma get_active k h key v ss : in_active (Engine.memTable (KV.storage k)) h -> find key h = Some v ->
  exists k', KV.Get (with_tables k ss) key = Some (k', MemTable.visible v).
Proof.
  intros (t & Ha & Ht) Hf. unfold KV.Get, Engine.Get. cbn. unfold MemTable.Get. cbn. rewrite Ha, (law_search t h key Ht), Hf.
  cbn. by eexists.
Qed.

Context `{Raft.RaftConfig}.


End Unlimited.

(** ** Sample: a memtable of skip lists without a budget *)
Section Sample.
#[local] Existing Instances Partitioned.sample_math Partitioned.sample_math_laws MemTable.sample_list MemTable.sample_list_laws.
#[local] Instance sample_storage : StorageConfig := {
  MaxMemTableSize := 100; MemTableMaxInflightBytes := 0; MaxCompactionSize := 4 }.
#[local] Instance sample_raft : Raft.RaftConfig := { Raft.RaftSnapshotThreshold := 0; Raft.RaftSnapshotKeepEntries := 0 }.
#[local] Instance sample_ops : IMemTable (Live.Live SkipList.table) := Live.live_memtable SSTable.sample_world.
#[local] Instance sample_laws : IMemTableLaws (Live.Live SkipList.table) := Live.live_memtable_laws SSTable.sample_world.

Definition sample_live : Live.Live SkipList.table := Live.mkLive (MemTable.NewMemTable ∅) 0 [].
Definition sample_server : KV.KVServer (Live.Live SkipList.table) :=
  KV.mkKV None (Engine.NewEngine sample_live) (Some []) [].
Definition sample_put : Cmd.Command := Cmd.mkCommand Cmd.TypePut (of_string "k") (Some (of_string "v1")).

Lemma sample_promises : promises sample_live (mkContent (fun _ => None) []).
Proof. apply Live.new_live_promises. Qed.

Lemma sample_standalone : standalone sample_server [] (mkContent (fun _ => None) []).
Proof. split; [done|done|constructor|apply sample_promises]. Qed.

Definition other_put : Cmd.Command := Cmd.mkCommand Cmd.TypePut (of_string "k") (Some (of_string "v2")).
Definition sample_delete : Cmd.Command := Cmd.mkCommand Cmd.TypeDelete (of_string "j") None.

Lemma sample_in_active : in_active sample_live [].
Proof. exists t_new. split; [done|apply law_new]. Qed.


(** Two puts of [c], a put of [a:1] and a delete of [b:2]. *)
Definition sample_committed : list (Z * Z * Cmd.Command) :=
  [(0, 1, Cmd.mkCommand Cmd.TypePut (of_string "c") (Some (of_string "old")));
   (1, 1, Cmd.mkCommand Cmd.TypePut (of_string "a:1") (Some (of_string "x")));
   (2, 1, Cmd.mkCommand Cmd.TypeDelete (of_string "b:2") None);
   (3, 1, Cmd.mkCommand Cmd.TypePut (of_string "c") (Some []))].

Definition raft_server : KV.KVServer (Live.Live SkipList.table) := KV.mkKV None (Engine.NewEngine sample_live) None [].

Lemma sample_flush_ok : flush_ok (Engine.memTable (KV.storage raft_server)) ((fun p => write_of p.2) <$> sample_committed).
Proof.
  split; [split; [constructor|constructor|intros l _; by left]|]. intros es Hs Hf.
  assert (es = sample_table) as ->; [|split; [apply sample_world_ok|by intros ?%elem_of_nil|apply sample_writable]].
  apply find_ext; [exact Hs|apply sample_sorted|]. intros k. rewrite Hf. unfold sample_table.
  change (reverse _) with [(of_string "c", Some []); (of_string "b:2", None);
    (of_string "a:1", Some (of_string "x")); (of_string "c", Some (of_string "old"))].
  rewrite !find_cons. cbn [fst snd find]. repeat (destruct (decide _)); try done; subst; discriminate.
Qed.

Lemma committed_entries_reach_store_witness :
  exists k' k'', apply_all raft_server (log_entry <$> sample_committed) = Some k' /\
    KV.Get k' (of_string "c") = Some (k'', Ok []) /\
    exists k1 k2, KV.Apply raft_server (mkEntry 3 1 (Codec.SerializeLogEntries (log_entry <$> sample_committed)) true) = Some k1 /\
      KV.run_replay k1 = Some k2 /\
      exists k3, KV.Get k2 (of_string "a:1") = Some (k3, Ok (of_string "x")).
Proof.
  destruct (committed_entries_reach_store raft_server (mkContent (fun _ => None) []) sample_committed 3 1)
    as [(k' & H1 & H2) (k1 & k2 & m' & r & H3 & H4 & Hk2 & Hrun & Hr)].
  - apply sample_promises.
  - constructor; [by left|constructor; [by left|constructor; [by right|constructor; [by left|constructor]]]].
  - by apply unlimited_room.
  - repeat (constructor; [eval_closed|]). constructor.
  - eval_closed.
  - eval_closed.
  - reflexivity.
  - apply sample_flush_ok.
  - discriminate.
  - destruct (H2 (of_string "c")) as (k'' & Hget). exists k', k''. split; [exact H1|]. split; [exact Hget|].
    exists k1, k2. split; [exact H3|]. split; [exact H4|].
    assert (r = Ok tt) as -> by (vm_compute in Hrun; by injection Hrun).
    destruct Hr as (c2 & Hm' & Hc2). unfold KV.Get, Engine.Get. rewrite Hk2.
    destruct (ml_get m' c2 (of_string "a:1") Hm') as (m3 & -> & _). rewrite Hc2. by eexists.
Defined.

(** Recovery does not keep the order of overlapping writes: two connections
    put different values under one key, the first reaches the log first and the
    memtable last; both are acknowledged and readers see the first value, but
    after a crash the log is replayed in its own order and the key has the
    second value. *)
Theorem recovery_reorders_writes :
  exists s k, rtc serve (mkServer [] sample_live [Received sample_put; Received other_put]) s /\
    s_requests s = [Acknowledged sample_put; Acknowledged other_put] /\
    (exists m, mt_Get (s_mem s) (of_string "k") = Some (m, Ok (of_string "v1"))) /\
    KV.NewKVServer true sample_live (Some (s_wal s)) [] 0 (RaftWAL.mkWAL None None None) = Some k /\
    exists k', KV.Get k (of_string "k") = Some (k', Ok (of_string "v2")).
Proof.
  set (c0 := mkContent (fun _ => None) []). set (o1 := op_of sample_put). set (o2 := op_of other_put).
  destruct (unlimited_room SSTable.sample_world sample_live [o2; o1] ltac:(done)) as [F2 F1].
  destruct (do_op_spec sample_live c0 o2 sample_promises (op_of_kv _) F2) as (m1 & D1 & P1).
  specialize (F1 m1 D1) as [F1 _].
  destruct (do_op_spec m1 _ o1 P1 (op_of_kv _) F1) as (m2 & D2 & P2).
  set (w := WAL.log_of [o1; o2]).
  destruct (do_ops_spec sample_live c0 (WAL.replayed <$> [o1; o2]) sample_promises) as (m3 & D3 & P3);
    [apply kv_op_replayed; constructor; [by left|constructor; [by left|constructor]]|by apply unlimited_room|].
  destruct (restart_runs sample_live [o1; o2] o1 0 [] 0 (RaftWAL.mkWAL None None None) m3)
    as (k & Hrun & Hraft & <-); [constructor; [eval_closed|constructor; [eval_closed|constructor]]
    |constructor; [by left|constructor; [by left|constructor]]|exact D3|eval_closed|vm_compute; lia|].
  rewrite take_0, app_nil_r in Hrun.
  exists (mkServer w m2 [Acknowledged sample_put; Acknowledged other_put]), k. split_and!.
  - eapply rtc_l; [apply (serve_log [] sample_live [] sample_put [Received other_put])|].
    eapply rtc_l; [apply (serve_log _ sample_live [Logged sample_put] other_put [])|].
    eapply rtc_l; [exact (serve_put _ sample_live m1 [Logged sample_put] other_put [] D1)|].
    eapply rtc_l; [exact (serve_put _ m1 m2 [] sample_put [Acknowledged other_put] D2)|]. apply rtc_refl.
  - done.
  - destruct (ml_get m2 _ (of_string "k") P2) as (m & Hget & _). by exists m.
  - exact Hrun.
  - unfold KV.Get, Engine.Get. destruct (ml_get _ _ (of_string "k") P3) as (m & -> & _). by eexists.
Qed.

End Sample.

End Recovery.
