(* ===== verification/Grpc.v ===== *)
(** The gRPC service of [test_grpc/grpc_server.go] and its client
    [test_grpc/grpc_client.go], beside the router: the same store behind another
    door.  The generated stubs and the transport carry the fields unchanged, up
    to what proto3 does to an empty byte field: it is not sent, and arrives as
    nil. *)
From S2P Require Import Prelude Bytes SkipList Bloom SSTable MemTable Engine StorageWAL RaftWAL Raft Network Service Recovery.
Import Cmd.

Module Grpc.

(** ** The messages of [kv.proto] *)
Record PutRequest := mkPut { put_Key : option bytes; put_Value : option bytes }.
Record GetRequest := mkGet { get_Key : option bytes }.
Record DeleteRequest := mkDelete { del_Key : option bytes }.
Record Response := mkResponse { Success : bool; Value : option bytes }.

(** A byte field after the transport. *)
Definition carried (b : bytes) : option bytes := if decide (b = []) then None else Some b.
(** A nil key is the empty key to everything behind the service. *)
Definition the_key (k : option bytes) : bytes := default [] k.

Section Grpc.
Context {M : Type} `{IMemTable M} `{Raft.RaftConfig}.

(** What a handler does: it replies, or it waits for an index to be committed and
    then replies with success. *)
Inductive answer := Replied (r : Response) | Blocked (index : Z) (r : Response).

(** [s.kv.AppendEntry] and [WaitForCommit]: a nil Raft pointer panics. *)
Definition append_and_wait (k : KV.KVServer M) (cmd : Command)
    : option (KV.KVServer M * list (nat * option Raft.rpc) * answer) :=
  match KV.raft k with
  | None => None
  | Some r =>
      '(k, msgs, res) ← KV.AppendEntry k r cmd;
      match res with
      | Error _ => Some (k, msgs, Replied (mkResponse false None))
      | Ok index =>
          let waits := match KV.raft k with Some r => Raft.WaitCommitIndex_blocks r index | None => false end in
          let ok := mkResponse true None in
          Some (k, msgs, if waits then Blocked index ok else Replied ok)
      end
  end.

Definition Put (k : KV.KVServer M) (req : PutRequest) := append_and_wait k (mkCommand TypePut (the_key (put_Key req)) (put_Value req)).

Definition Delete (k : KV.KVServer M) (req : DeleteRequest) := append_and_wait k (mkCommand TypeDelete (the_key (del_Key req)) None).

Definition Get (k : KV.KVServer M) (req : GetRequest) : option (KV.KVServer M * Response) :=
  '(k, r) ← KV.Get k (the_key (get_Key req));
  Some (k, match r with Error _ => mkResponse false None | Ok value => mkResponse true (carried value) end).

(** ** The client *)

(** The call the stub makes: an error of the transport, or the response. *)
Definition outcome := (goerr + Response)%type.

Definition client_write (o : outcome) : result unit :=
  match o with
  | inl e => Error e
  | inr resp => if Success resp then Ok tt else Error (Err "server returned failure")
  end.

Definition client_get (o : outcome) : result bytes :=
  match o with
  | inl e => Error e
  | inr resp => if Success resp then Ok (default [] (Value resp)) else Error (Err "key not found")
  end.

(** ** What it has in common with the router, and what not *)

(** The answer of the router for the same write. *)
Definition same_answer (a : answer) (o : KV.outcome) : Prop :=
  match a, o with
  | Replied r, KV.Done res => Success r = match res with Ok _ => true | Error _ => false end
  | Blocked i r, KV.Waits j => i = j /\ Success r = true
  | _, _ => False
  end.

Lemma append_and_wait_write f k r cmd :
  KV.raft k = Some r ->
  match append_and_wait k cmd, KV.Write f k cmd with
  | Some (k1, msgs1, a), Some (k2, msgs2, o) => k1 = k2 /\ msgs1 = msgs2 /\ same_answer a o
  | None, None => True
  | _, _ => False
  end.
Proof.
  intros Hr. unfold append_and_wait, KV.Write. rewrite Hr.
  destruct (KV.AppendEntry k r cmd) as [[[k' msgs] [index|e]]|]; cbn; try done.
  destruct (KV.raft k') as [r'|]; [|done]. by destruct (Raft.WaitCommitIndex_blocks r' index).
Qed.

(** C36: the gRPC service and the router are the same front to a replicated store:
    for a non-empty value the put of a client reaches Raft as the router's put
    does (same entry, same messages to the peers, same state), and succeeds,
    waits and fails with it; so does a delete; a get returns what the store holds
    for every value, the empty one included.  Without Raft, in the standalone
    mode the configuration defaults to, every write through gRPC panics, and the
    process with it, where the router writes. *)
Theorem grpc_agrees_with_router (f : WAL.fault) (k : KV.KVServer M) (r : Raft.Raft) (key value : bytes)
    (Hraft : KV.raft k = Some r) (Hv : value <> []) :
  let agree (g : option (KV.KVServer M * list (nat * option Raft.rpc) * answer)) (cmd : Command) :=
    match g, KV.Write f k cmd with
    | Some (k1, msgs1, a), Some (k2, msgs2, o) => k1 = k2 /\ msgs1 = msgs2 /\ same_answer a o
    | None, None => True
    | _, _ => False
    end in
  agree (Put k (mkPut (carried key) (carried value))) (mkCommand TypePut key (Some value)) /\
  agree (Delete k (mkDelete (carried key))) (mkCommand TypeDelete key None) /\
  (forall k' res, KV.Get k key = Some (k', res) ->
     exists resp, Get k (mkGet (carried key)) = Some (k', resp) /\
       client_get (inr resp) = match res with Ok v => Ok v | Error _ => Error (Err "key not found") end) /\
  (forall k1 req1 req2, KV.raft k1 = None -> Put k1 req1 = None /\ Delete k1 req2 = None).
Proof.
  intros agree. assert (forall b, the_key (carried b) = b) as Hkey by (intros b; unfold carried; by destruct (decide (b = [])) as [->|]).
  assert (carried value = Some value) as Hval by (unfold carried; by rewrite decide_False).
  split_and!.
  - unfold agree, Put. cbn [put_Key put_Value]. rewrite Hkey, Hval. by apply (append_and_wait_write f k r).
  - unfold agree, Delete. cbn [del_Key]. rewrite Hkey. by apply (append_and_wait_write f k r).
  - intros k' res Hg. unfold Get. cbn [get_Key]. rewrite Hkey, Hg. cbn [mbind option_bind]. eexists. split; [done|].
    destruct res as [v|e]; cbn; [|done]. f_equal. apply (Hkey v).
  - intros k1 req1 req2 Hk1. unfold Put, Delete, append_and_wait. by rewrite Hk1.
Qed.

(** An empty value is lost on the way: the put arrives as a command without a
    value, which is how a deletion is stored. *)
Lemma empty_put_has_no_value (k : KV.KVServer M) key :
  Put k (mkPut (carried key) (carried [])) = append_and_wait k (mkCommand TypePut key None).
Proof. unfold Put, carried. cbn. f_equal. f_equal. by destruct (decide (key = [])) as [->|]. Qed.

End Grpc.

(** ** Sample: the leader of a cluster of one *)
Section Sample.
#[local] Existing Instances Partitioned.sample_math MemTable.sample_list Recovery.sample_storage Recovery.sample_raft Recovery.sample_ops.

Definition sample_leader : option Raft.Raft :=
  r ← Raft.NewRaft [of_string "a"] 0 Raft.empty_disk; '(r, _) ← Raft.startElection r; Some (Raft.finishElection r []).

Definition sample_server (r : Raft.Raft) : KV.KVServer (Live.Live SkipList.table) :=
  KV.mkKV (Some r) (Engine.NewEngine Recovery.sample_live) None [].

Lemma grpc_agrees_with_router_witness :
  exists r k msgs, sample_leader = Some r /\
    Put (sample_server r) (mkPut (carried (of_string "k")) (carried (of_string "v"))) = Some (k, msgs, Replied (mkResponse true None)) /\
    KV.Write WAL.NoFault (sample_server r) (mkCommand TypePut (of_string "k") (Some (of_string "v"))) = Some (k, msgs, KV.Done (Ok tt)).
Proof.
  assert (exists r, sample_leader = Some r) as [r Hr] by (eexists; vm_compute; reflexivity).
  destruct (grpc_agrees_with_router WAL.NoFault (sample_server r) r (of_string "k") (of_string "v") eq_refl ltac:(discriminate)) as (Hput & _).
  assert (snd <$> Put (sample_server r) (mkPut (carried (of_string "k")) (carried (of_string "v"))) = Some (Replied (mkResponse true None))) as Hans
    by (vm_compute in Hr; injection Hr as <-; vm_compute; reflexivity).
  exists r. destruct (Put (sample_server r) _) as [[[k msgs] a]|]; [|discriminate Hans]. cbn in Hans. injection Hans as ->.
  exists k, msgs. split; [exact Hr|]. split; [reflexivity|].
  destruct (KV.Write _ _ _) as [[[k2 msgs2] o]|]; [|contradiction].
  destruct Hput as (<- & <- & Ho). destruct o as [[[]|e]|i]; cbn in Ho; [reflexivity|discriminate Ho|contradiction].
Defined.

End Sample.
End Grpc.
