(* ===== verification/Client.v ===== *)
(** The client of [client/client.go] and its conversation with the server: the
    requests it packs, the connection that carries them through dispatcher and
    router, and the answers it reads. *)
From S2P Require Import Prelude Bytes SkipList Bloom SSTable MemTable Engine StorageWAL RaftWAL Raft Wire Proto Json Predicate Network Service Recovery.
Import MemTable Scan Dispatch Routing Recovery.
#[local] Existing Instances BanNet.Message_IMessage Utils.Message_IMessage.

(** ** The connection, seen from the client *)
Module Link.

Section Link.
Context {R : Type} `{IRouter R} (MaxPackageSize : Z).

(** What [SendBuffMsg] puts on the wire; its error is dropped. *)
Definition frame (p : response) : bytes :=
  match BanNet.Pack (BanNet.NewMessage p.1 p.2) with Ok f => f | Error _ => [] end.

(** The messages of a stream, handled one after the other: the dispatcher
    afterwards and the bytes answered.  A handler that waits has not answered. *)
Fixpoint handle_all (m : MsgHandle R) (connID : Z) (msgs : list BanNet.Message) : option (MsgHandle R * bytes) :=
  match msgs with
  | [] => Some (m, [])
  | msg :: rest =>
      '(m, h) ← DoMsgHandle m (NewRequest msg connID);
      match h with
      | Suspended _ _ => None
      | Answered rs => '(m, out) ← handle_all m connID rest; Some (m, concat (frame <$> rs) ++ out)
      end
  end.

(** What comes back for the bytes of [stream]. *)
Definition exchange (m : MsgHandle R) (connID : Z) (stream : bytes) : option (MsgHandle R * bytes) :=
  handle_all m connID (BanNet.StartReader MaxPackageSize stream).1.

End Link.
End Link.

(** ** client/client.go *)
Module Client.
Import Link.

Section Client.
Context {R : Type} `{IRouter R} (MaxPackageSize : Z).

(** A connected client: the server at the other end, and the connection's id. *)
Record Client := mkClient { server : MsgHandle R; connID : Z }.

(** [send]: the packed message, or an error. *)
Definition send {M} `{IMessage M} (msg : M) : result bytes := BanNet.Pack msg.

(** [readResponse]: message id, payload and what follows. *)
Definition readResponse (conn : bytes) : result (bytes * bytes * bytes) :=
  let? (header, conn) := read_full BanNet.GetHeadLen conn in
  let? tempMsg := BanNet.UnPack MaxPackageSize header in
  let? (msgID, conn) :=
    if 0 <? BanNet.IDLen tempMsg then read_full (BanNet.IDLen tempMsg) conn else Ok ([], conn) in
  let? (data, conn) :=
    if 0 <? BanNet.DataLen tempMsg then read_full (BanNet.DataLen tempMsg) conn else Ok ([], conn) in
  Ok (msgID, data, conn).

(** A request and the payload of its answer; [None] when nothing comes back. *)
Definition request {M} `{IMessage M} (c : Client) (msg : M) : option (Client * result bytes) :=
  match send msg with
  | Error e => Some (c, Error e)
  | Ok packet =>
      '(s, reply) ← exchange MaxPackageSize (server c) (connID c) packet;
      let c := mkClient s (connID c) in
      match readResponse reply with
      | Error e => Some (c, Error e)
      | Ok (_, payload, _) => Some (c, Ok payload)
      end
  end.

(** The end of [SendPut] and [SendDelete]. *)
Definition check_status (payload : bytes) : option (result unit) :=
  r ← Proto.KV.parseStatus payload;
  match r with
  | Error e => Some (Error e)
  | Ok (status, _) => Some (if bool_decide (status = Proto.KV.StatusOK) then Ok tt else Error (Err "server error"))
  end.

Definition SendPut (c : Client) (key value : bytes) : option (Client * result unit) :=
  '(c, r) ← request c (Utils.NewMessage MsgPut key value);
  match r with Error e => Some (c, Error e) | Ok payload => s ← check_status payload; Some (c, s) end.

Definition SendGet (c : Client) (key : bytes) : option (Client * result bytes) :=
  '(c, r) ← request c (Utils.NewMessage2 MsgGet (Proto.KV.encodeKey key));
  match r with Error e => Some (c, Error e) | Ok payload => v ← Proto.KV.parseGetResponse payload; Some (c, v) end.

Definition SendDelete (c : Client) (key : bytes) : option (Client * result unit) :=
  '(c, r) ← request c (Utils.NewMessage2 MsgDelete (Proto.KV.encodeKey key));
  match r with Error e => Some (c, Error e) | Ok payload => s ← check_status payload; Some (c, s) end.

Definition SendScan (c : Client) (req : ScanRequest) : option (Client * result (list ScanEntry)) :=
  '(c, r) ← request c (Utils.NewMessage2 MsgScan (EncodeScanRequest req));
  match r with
  | Error e => Some (c, Error e)
  | Ok payload =>
      d ← DecodeScanResponse payload;
      match d with
      | Error e => Some (c, Error e)
      | Ok (status, entries) =>
          Some (c, if bool_decide (status = Proto.KV.StatusOK) then Ok entries else Error (Err "server error"))
      end
  end.

Lemma readResponse_frame id data rest :
  zlen id <= 65535 -> u32 (zlen data) -> (0 < MaxPackageSize -> zlen data <= MaxPackageSize) ->
  readResponse (frame (id, data) ++ rest) = Ok (id, data, rest).
Proof.
  intros Hid Hd Hmax. set (m := BanNet.NewMessage id data).
  assert (BanNet.sendable MaxPackageSize m) as Hs.
  { split_and!; cbn; [done|by apply Z.mod_small|done|done]. }
  destruct (BanNet.Pack m) as [p|] eqn:Hp.
  2: { unfold BanNet.Pack in Hp. cbn in Hp. destruct (Z.ltb_spec 65535 (zlen id)); [lia|done]. }
  assert (frame (id, data) = p) as -> by (unfold frame; cbn [fst snd]; fold m; by rewrite Hp).
  pose proof (BanNet.readFrame_Pack MaxPackageSize m p rest Hs Hp) as Hr. unfold BanNet.readFrame in Hr.
  unfold readResponse. destruct (read_full BanNet.GetHeadLen (p ++ rest)) as [[header conn]|]; [|done]. cbn [rbind] in *.
  destruct (BanNet.UnPack MaxPackageSize header) as [m0|] eqn:Hm0; [|done]. cbn [rbind] in *.
  assert (BanNet.Id m0 = []) as Hid0.
  { unfold BanNet.UnPack in Hm0. destruct (read_full 4 header) as [[d4 r]|]; [|done]. cbn [rbind] in Hm0.
    destruct (read_full 2 r) as [[d2 r2]|]; [|done]. cbn [rbind] in Hm0. destruct (_ && _); [done|]. by injection Hm0 as <-. }
  destruct (0 <? BanNet.IDLen m0).
  - destruct (read_full (BanNet.IDLen m0) conn) as [[i conn1]|]; [|done]. cbn [rbind BanNet.DataLen BanNet.SetMsgID] in *.
    destruct (if 0 <? BanNet.DataLen m0 then _ else _) as [[x conn2]|]; [|done]. cbn [rbind] in *. injection Hr as E1 _ _ E2 E3. congruence.
  - cbn [rbind] in *. destruct (if 0 <? BanNet.DataLen m0 then _ else _) as [[x conn2]|]; [|done]. cbn [rbind] in *.
    assert (BanNet.SetData m0 x = BanNet.received m /\ conn2 = rest) as [E ->] by (split; congruence).
    pose proof (f_equal BanNet.Id E) as E1. pose proof (f_equal BanNet.Data E) as E2. cbn in E1, E2. congruence.
Qed.

(** A request that is answered by one message: what comes back. *)
Lemma exchange_spec {M} `{IMessage M} (c : Client) (m : M) s id payload :
  BanNet.sendable MaxPackageSize m ->
  DoMsgHandle (server c) (NewRequest (BanNet.received m) (connID c)) = Some (s, Answered [(id, payload)]) ->
  exists packet, send m = Ok packet /\ exchange MaxPackageSize (server c) (connID c) packet = Some (s, frame (id, payload)).
Proof.
  intros Hs Hrun.
  assert (exists p, BanNet.Pack m = Ok p) as [p Hpack].
  { unfold BanNet.Pack. destruct Hs as [Hl _]. destruct (Z.ltb_spec 65535 (zlen (GetMsgID m))); [lia|by eexists]. }
  exists p. split; [done|]. unfold exchange.
  assert (BanNet.StartReader MaxPackageSize p = ([BanNet.received m], Some EOF)) as ->.
  { rewrite BanNet.StartReader_unfold, <- (app_nil_r p), (BanNet.readFrame_Pack MaxPackageSize m p []) by done. done. }
  cbn [fst handle_all]. rewrite Hrun. cbn [mbind option_bind fmap list_fmap concat]. by rewrite !app_nil_r.
Qed.

Lemma request_spec {M} `{IMessage M} (c : Client) (m : M) s id payload :
  BanNet.sendable MaxPackageSize m ->
  DoMsgHandle (server c) (NewRequest (BanNet.received m) (connID c)) = Some (s, Answered [(id, payload)]) ->
  zlen id <= 65535 -> u32 (zlen payload) -> (0 < MaxPackageSize -> zlen payload <= MaxPackageSize) ->
  request c m = Some (mkClient s (connID c), Ok payload).
Proof.
  intros Hs Hrun Hid Hp Hmax. destruct (exchange_spec c m s id payload Hs Hrun) as (packet & Hsend & Hex).
  unfold request. rewrite Hsend, Hex. cbn [mbind option_bind].
  rewrite <- (app_nil_r (frame _)). by rewrite readResponse_frame.
Qed.

End Client.
#[global] Arguments Client : clear implicits.
End Client.
