(* ===== verification/Session.v ===== *)
(** The server as its clients see it: sessions of requests that several clients
    send through connection, dispatcher, router, log and memtable, against the
    map of keys they are meant to work on. *)
From S2P Require Import Prelude Bytes Credit SkipList Bloom SSTable MemTable Engine StorageWAL RaftWAL Raft Wire Proto Json Predicate Network Service Recovery Client.
Import Credits Partitioned SSTable MemTable Scan Dispatch Routing Recovery Link Client.
#[local] Existing Instances BanNet.Message_IMessage Utils.Message_IMessage.

Module Session.

Section Session.
Context {M : Type} `{IMemTableLaws M} `{Raft.RaftConfig} {F : Type} (MaxPackageSize : Z).

(** ** Calls and their answers *)
Inductive call :=
  | CPut (key value : bytes)
  | CGet (key : bytes)
  | CDelete (key : bytes)
  | CScan (req : ScanRequest).

Inductive reply :=
  | Written (r : result unit)
  | Value (r : result bytes)
  | Entries (r : result (list ScanEntry)).

(** The client's method. *)
Definition do_call (c : Client (Router M F)) (o : call) : option (Client (Router M F) * reply) :=
  match o with
  | CPut k v => '(c, r) ← SendPut MaxPackageSize c k v; Some (c, Written r)
  | CGet k => '(c, r) ← SendGet MaxPackageSize c k; Some (c, Value r)
  | CDelete k => '(c, r) ← SendDelete MaxPackageSize c k; Some (c, Written r)
  | CScan req => '(c, r) ← SendScan MaxPackageSize c req; Some (c, Entries r)
  end.

(** ** The map *)

(** What a scan finds: the live keys in the bounds whose value passes, in key
    order, and no more than the server's limit. *)
Definition hits (req : ScanRequest) (h : list entry) : list ScanEntry :=
  take (Z.to_nat KV.maxScanResults)
    ((fun p => mkScanEntry p.1 p.2) <$>
       filter (fun p => Is_true (Predicates.Eval (Pred req) p.2))
         (live_until (End_ req) (filter (fun e => ~ blt e.1 (Start req)) h))).

Definition answer_call (c : content) (o : call) : content * reply :=
  match o with
  | CPut k v => (write c k (Some v), Written (Ok tt))
  | CDelete k => (write c k None, Written (Ok tt))
  | CGet k => (c, Value (match all c k with
                         | Some (Some v) => Ok v
                         | _ => Error (Err "key not found or server error")
                         end))
  | CScan req => (c, Entries (Ok (hits req (hot c))))
  end.

(** A session: calls of the connections, one after the other, and what the
    memtable's goroutines do in between. *)
Inductive event := Call (connID : Z) (o : call) | Background (j : work).

(** Background work moves entries to disk: what scans reach shrinks or stays,
    what it holds stays the newest. *)
Definition reachable_by_scan (c : content) (h : list entry) : Prop :=
  sorted h /\ forall k v, find k h = Some v -> all c k = Some v.

Inductive map_run : content -> list event -> content -> list reply -> Prop :=
  | mr_nil c : map_run c [] c []
  | mr_call c i o evs c' rs :
      map_run (answer_call c o).1 evs c' rs -> map_run c (Call i o :: evs) c' ((answer_call c o).2 :: rs)
  | mr_background c j h evs c' rs :
      reachable_by_scan c h -> map_run (mkContent (all c) h) evs c' rs -> map_run c (Background j :: evs) c' rs.

(** ** The server *)

(** [p] is the router object of the four message ids. *)
Definition background (p : nat) (m : MsgHandle (Router M F)) (j : work) : option (MsgHandle (Router M F)) :=
  r ← objects m !! p;
  e ← Engine.Work (KV.storage (kv r)) j;
  Some (set_objects m (<[p := set_kv r (KV.set_storage (kv r) e)]> (objects m))).

Fixpoint run (p : nat) (m : MsgHandle (Router M F)) (evs : list event) : option (MsgHandle (Router M F) * list reply) :=
  match evs with
  | [] => Some (m, [])
  | Call i o :: rest =>
      '(c, r) ← do_call (mkClient m i) o;
      '(m, rs) ← run p (server c) rest; Some (m, r :: rs)
  | Background j :: rest => m ← background p m j; run p m rest
  end.

(** ** What a session needs *)

Definition size_ok (n : Z) : Prop := u32 n /\ (0 < MaxPackageSize -> n <= MaxPackageSize).

Definition call_msg (o : call) : Utils.Message :=
  match o with
  | CPut k v => Utils.NewMessage MsgPut k v
  | CGet k => Utils.NewMessage2 MsgGet (Proto.KV.encodeKey k)
  | CDelete k => Utils.NewMessage2 MsgDelete (Proto.KV.encodeKey k)
  | CScan req => Utils.NewMessage2 MsgScan (EncodeScanRequest req)
  end.

Definition mem_after (m : M) (o : call) (m' : M) : Prop :=
  match o with
  | CPut k v => mt_Put m k (Some v) = Some (m', Ok tt)
  | CDelete k => mt_Delete m k = Some (m', Ok tt)
  | CGet k => exists r, mt_Get m k = Some (m', r)
  | CScan _ => m' = m
  end.

(** Frames fit their length fields and the receiver's limit, records the log's
    length fields, and a write finds its credit. *)
Definition call_ok (m : M) (o : call) : Prop :=
  size_ok (zlen (Utils.Data (call_msg o))) /\
  match o with
  | CPut k v => WAL.op_ok (WAL.WALOpPut, k, Some v) /\ mt_Fits m (entry_bytes (k, Some v)) = true
  | CDelete k => WAL.op_ok (WAL.WALOpDelete, k, None) /\ mt_Fits m (zlen k) = true
  | CGet k => forall m' v, mt_Get m k = Some (m', Ok v) -> size_ok (zlen (Proto.KV.getResponse v))
  | CScan req => request_ok req /\
      forall es, mt_ScanRange m (Start req) (End_ req) (KV.scan_fn (Pred req)) [] = Some es ->
        size_ok (zlen (EncodeScanResponse Proto.KV.StatusOK es))
  end.

Fixpoint session_ok (m : M) (evs : list event) : Prop :=
  match evs with
  | [] => True
  | Call _ o :: rest => call_ok m o /\ forall m', mem_after m o m' -> session_ok m' rest
  | Background j :: rest => work_ok m j /\ forall m', mt_Work m j = Some m' -> session_ok m' rest
  end.

(** What a call leaves in the log. *)
Definition call_log (o : call) : list logged :=
  match o with
  | CPut k v => [(WAL.WALOpPut, k, Some v)]
  | CDelete k => [(WAL.WALOpDelete, k, None)]
  | CGet _ | CScan _ => []
  end.

Definition session_log (evs : list event) : list logged :=
  concat ((fun e => match e with Call _ o => call_log o | Background _ => [] end) <$> evs).

(** A hook that lets every request through as it is. *)
Definition transparent (r : Router M F) : Prop :=
  match preHandleFunc r with
  | None => True
  | Some h => forall f req, exists f', h f req = (f', req, HookPass)
  end.

Definition mem (r : Router M F) : M := Engine.memTable (KV.storage (kv r)).

(** A router object of a standalone server. *)
Record serving (r : Router M F) (ops : list logged) (c : content) : Prop := {
  sv_hook : transparent r;
  sv_kv : standalone (kv r) ops c;
}.

(** The hooks and the hook's state are those of [r]. *)
Definition same_hooks (r r' : Router M F) : Prop :=
  preHandleFunc r' = preHandleFunc r /\ postHandleFunc r' = postHandleFunc r /\ hookState r' = hookState r.

Lemma serving_same r r' ops c ops' c' : serving r ops c -> same_hooks r r' -> standalone (kv r') ops' c' -> serving r' ops' c'.
Proof. intros [S1 _] (E1 & _ & _) Hs. split; [|done]. unfold transparent. by rewrite E1. Qed.

(** The dispatcher sends the four message ids to object [p]. *)
Record serves (m : MsgHandle (Router M F)) (p : nat) (r : Router M F) : Prop := {
  se_object : objects m !! p = Some r;
  se_ids : forall id, id ∈ [MsgPut; MsgGet; MsgDelete; MsgScan] -> Arip m !! id = Some p;
}.

(** ** The handlers parse what the clients build *)

Lemma handlePut_parse f (r : Router M F) data :
  handlePut f r data =
    (p ← Proto.KV.parsePut data;
     match p with
     | Some (k, v) => handle_write f r (Cmd.mkCommand Cmd.TypePut k (Some v)) add_write
     | None => Some (r, Answered [])
     end).
Proof.
  unfold handlePut, Proto.KV.parsePut. destruct (Z.ltb_spec (zlen data) 8); [done|].
  destruct (le32_at_Some 0 data) as (k & -> & Hk); [lia|lia|].
  destruct (le32_at_Some 4 data) as (v & -> & Hv); [lia|lia|]. cbn [mbind option_bind]. unfold u32 in *.
  destruct (Z.ltb_spec k 0), (Z.ltb_spec v 0); try lia. cbn [orb].
  destruct (zlen data <? 8 + k + v); [done|].
  destruct (slice 8 (8 + k) data); [cbn [mbind option_bind]|done]. by destruct (slice (8 + k) (8 + k + v) data).
Qed.

Lemma handleGet_parse (r : Router M F) data :
  handleGet r data =
    (p ← Proto.KV.parseKeyed data;
     match p with
     | Some key => '(k, res) ← KV.Get (kv r) key;
                   Some (set_kv (count add_read r) k, Answered [match res with
                                               | Error _ => sendErr
                                               | Ok value => (MsgRespOK, Proto.KV.getResponse value)
                                               end])
     | None => Some (r, Answered [])
     end).
Proof.
  unfold handleGet, Proto.KV.parseKeyed. destruct (zlen data <? 4); [done|]. destruct (le32_at 0 data); [|done].
  cbn [mbind option_bind]. destruct (_ <? _); [done|]. by destruct (slice _ _ data).
Qed.

Lemma handleDelete_parse f (r : Router M F) data :
  handleDelete f r data =
    (p ← Proto.KV.parseKeyed data;
     match p with
     | Some key => handle_write f r (Cmd.mkCommand Cmd.TypeDelete key None) add_delete
     | None => Some (r, Answered [])
     end).
Proof.
  unfold handleDelete, Proto.KV.parseKeyed. destruct (zlen data <? 4); [done|]. destruct (le32_at 0 data); [|done].
  cbn [mbind option_bind]. destruct (_ <? _); [done|]. by destruct (slice _ _ data).
Qed.

(** ** Scans *)

Lemma feed_scan_fn pred ps out :
  zlen out < KV.maxScanResults ->
  feed (KV.scan_fn pred) ps out =
    take (Z.to_nat KV.maxScanResults)
      (out ++ ((fun p => mkScanEntry p.1 p.2) <$> filter (fun p => Is_true (Predicates.Eval pred p.2)) ps)).
Proof.
  revert out. induction ps as [|[k v] ps IH]; intros out Hl.
  { cbn. rewrite app_nil_r, take_ge; [done|]. unfold zlen in Hl. lia. }
  cbn [feed fst snd]. rewrite filter_cons. cbn [snd]. unfold KV.scan_fn at 1.
  destruct (Predicates.Eval pred v); cbn [negb].
  - rewrite decide_True by done. cbn [fmap list_fmap fst snd]. rewrite zlen_app, zlen_cons, zlen_nil.
    set (e := mkScanEntry k v). rewrite (cons_middle e out (_ <$> _)), (app_assoc out [e]).
    destruct (Z.leb_spec KV.maxScanResults (zlen out + (1 + 0))); cbn [negb].
    + rewrite take_app_le, take_ge; [done|..]; rewrite length_app; unfold zlen in *; cbn [length]; lia.
    + apply IH. rewrite zlen_app, zlen_cons, zlen_nil. lia.
  - rewrite decide_False by (intros []). apply IH. done.
Qed.

Lemma zlen_entries es :
  zlen es <= zlen (concat (encodeEntry <$> es)) /\
  (zlen (concat (encodeEntry <$> es)) < 2 ^ 32 -> Forall entry_ok es).
Proof.
  induction es as [|e es [IH1 IH2]]; [done|]. rewrite fmap_cons. cbn [concat]. rewrite zlen_app, zlen_cons.
  pose proof (zlen_nonneg es). pose proof (zlen_nonneg (Key e)). pose proof (zlen_nonneg (Proto.Scan.Value e)).
  assert (zlen (encodeEntry e) = 8 + zlen (Key e) + zlen (Proto.Scan.Value e)) as El by (unfold encodeEntry; len_lia).
  split; [lia|]. intros Hl. constructor; [unfold entry_ok, u32; lia|apply IH2; lia].
Qed.

Lemma response_fits status es :
  u32 (zlen (EncodeScanResponse status es)) -> Forall entry_ok es /\ u32 (zlen es).
Proof.
  intros [_ Hu]. destruct (zlen_entries es) as [Hn Hi]. unfold EncodeScanResponse in Hu. rewrite !zlen_app in Hu.
  pose proof (zlen_nonneg status). pose proof (zlen_nonneg es).
  pose proof (zlen_nonneg (le_enc 4 (zlen es))). pose proof (zlen_nonneg [byte_of (zlen status)]).
  split; [apply Hi; lia|unfold u32; lia].
Qed.

(** ** One call *)

(** What the client makes of the payload. *)
Definition finish (o : call) (payload : bytes) : option reply :=
  match o with
  | CPut _ _ | CDelete _ => Written <$> check_status payload
  | CGet _ => Value <$> Proto.KV.parseGetResponse payload
  | CScan _ =>
      (fun d : result (bytes * list ScanEntry) => Entries
         match d with
         | Error e => Error e
         | Ok (status, entries) => if bool_decide (status = Proto.KV.StatusOK) then Ok entries else Error (Err "server error")
         end) <$> DecodeScanResponse payload
  end.

Lemma do_call_request (c : Client (Router M F)) o :
  do_call c o =
    ('(c, r) ← request MaxPackageSize c (call_msg o);
     match r with
     | Error e => Some (c, match o with CPut _ _ | CDelete _ => Written (Error e) | CGet _ => Value (Error e) | CScan _ => Entries (Error e) end)
     | Ok payload => x ← finish o payload; Some (c, x)
     end).
Proof.
  destruct o; cbn [do_call call_msg finish]; unfold SendPut, SendGet, SendDelete, SendScan;
    (destruct (request _ _ _) as [[c' [e|e]]|]; [|done..]); cbn [mbind option_bind].
  1, 3: by destruct (check_status e).
  - by destruct (Proto.KV.parseGetResponse e).
  - by destruct (DecodeScanResponse e) as [[[st es]|err]|].
Qed.

Hypothesis small_replies : 0 < MaxPackageSize -> 8 <= MaxPackageSize.

Lemma handle_write_spec (r : Router M F) ops c cmd add :
  standalone (kv r) ops c -> Cmd.kv_command cmd -> WAL.op_ok (op_of cmd) -> mt_Fits (mem r) (op_bytes (op_of cmd)) = true ->
  exists r', handle_write WAL.NoFault r cmd add = Some (r', Answered [sendOK]) /\
    standalone (kv r') (ops ++ [op_of cmd]) (write_op c (op_of cmd)) /\ same_hooks r r' /\ do_op (mem r) (op_of cmd) = Some (mem r', Ok tt).
Proof.
  intros S2 Hk Ho Hf. destruct (write_spec (kv r) ops c cmd S2 Hk Ho Hf) as (k' & m' & Hrun & Hs & Hdo & Hm).
  unfold handle_write. rewrite Hrun. cbn [mbind option_bind Routing.reply]. eexists. split; [done|]. split; [done|]. split; [done|].
  unfold mem in *. cbn [kv set_kv count]. by rewrite Hm.
Qed.

Lemma size_ok_small n : 0 <= n <= 8 -> size_ok n.
Proof. intros Hn. split; [unfold u32; lia|]. intros Hm. specialize (small_replies Hm). lia. Qed.

Lemma fits_lengths a b k v : zlen (a ++ b ++ k ++ v) < 2 ^ 32 -> @zlen byte k < 2 ^ 32 /\ @zlen byte v < 2 ^ 32.
Proof.
  rewrite !zlen_app. pose proof (@zlen_nonneg byte a). pose proof (@zlen_nonneg byte b).
  pose proof (zlen_nonneg k). pose proof (zlen_nonneg v). lia.
Qed.

Lemma key_fits k : size_ok (zlen (Proto.KV.encodeKey k)) -> u32 (zlen k).
Proof.
  intros [[_ Hu] _]. unfold Proto.KV.encodeKey, Utils.ByteBuilder in Hu. rewrite app_nil_r, zlen_app in Hu.
  pose proof (zlen_nonneg (le_enc 4 (zlen k))). split; [done|lia].
Qed.

Definition answered (r : Router M F) (ops : list logged) (c : content) (o : call) (h : option (Router M F * handled)) : Prop :=
  exists r' id payload, h = Some (r', Answered [(id, payload)]) /\
    standalone (kv r') (ops ++ call_log o) (answer_call c o).1 /\ same_hooks r r' /\
    mem_after (mem r) o (mem r') /\ zlen id <= 65535 /\ size_ok (zlen payload) /\
    finish o payload = Some (answer_call c o).2.

Lemma put_answered r ops c k v :
  standalone (kv r) ops c -> call_ok (mem r) (CPut k v) ->
  answered r ops c (CPut k v) (handlePut WAL.NoFault r (Utils.Data (call_msg (CPut k v)))).
Proof.
  intros Hs [Hl [Ho Hf]]. cbn [call_msg Utils.NewMessage Utils.Data] in *. rewrite <- Proto.KV.encodePut_NewKVData in *.
  pose proof (fits_lengths _ _ _ _ (proj2 (proj1 Hl))) as [Hk Hv].
  rewrite handlePut_parse, Proto.KV.parsePut_encodePut by (split; [done|lia]). cbn [mbind option_bind].
  set (cmd := Cmd.mkCommand _ _ _). assert (op_of cmd = (WAL.WALOpPut, k, Some v)) as E by done.
  destruct (handle_write_spec r ops c cmd add_write) as (r' & Hrun & Hs' & Hh & Hdo); [done|by left|by rewrite E|by rewrite E|].
  exists r', MsgRespOK, (Proto.KV.statusPayload Proto.KV.StatusOK). rewrite E in *.
  split; [exact Hrun|]. split; [exact Hs'|]. split; [exact Hh|]. split; [exact Hdo|]. split; [done|]. split; [by apply size_ok_small|]. by vm_compute.
Qed.

Lemma delete_answered r ops c k :
  standalone (kv r) ops c -> call_ok (mem r) (CDelete k) ->
  answered r ops c (CDelete k) (handleDelete WAL.NoFault r (Utils.Data (call_msg (CDelete k)))).
Proof.
  intros Hs [Hl [Ho Hf]]. cbn [call_msg Utils.NewMessage2 Utils.Data] in *.
  rewrite handleDelete_parse, Proto.KV.parseKeyed_encodeKey by (by apply key_fits). cbn [mbind option_bind].
  set (cmd := Cmd.mkCommand _ _ _). assert (op_of cmd = (WAL.WALOpDelete, k, None)) as E by done.
  destruct (handle_write_spec r ops c cmd add_delete) as (r' & Hrun & Hs' & Hh & Hdo); [done|by right|by rewrite E|by rewrite E|].
  exists r', MsgRespOK, (Proto.KV.statusPayload Proto.KV.StatusOK). rewrite E in *.
  split; [exact Hrun|]. split; [exact Hs'|]. split; [exact Hh|]. split; [exact Hdo|]. split; [done|]. split; [by apply size_ok_small|]. by vm_compute.
Qed.

Lemma get_answered r ops c k :
  standalone (kv r) ops c -> call_ok (mem r) (CGet k) ->
  answered r ops c (CGet k) (handleGet r (Utils.Data (call_msg (CGet k)))).
Proof.
  intros S2 [Hl Hfit]. cbn [call_msg Utils.NewMessage2 Utils.Data] in *.
  rewrite handleGet_parse, Proto.KV.parseKeyed_encodeKey by (by apply key_fits). cbn [mbind option_bind].
  destruct S2 as [T1 T2 T3 T4]. unfold KV.Get, Engine.Get.
  destruct (ml_get _ c k T4) as (m' & Hget & Hm'). unfold mem in *. rewrite Hget in *. cbn [mbind option_bind].
  specialize (Hfit m'). set (res := match answer (all c k) with Error _ => _ | Ok _ => _ end).
  exists (set_kv (count add_read r) (KV.set_storage (kv r) (Engine.set_memTable (KV.storage (kv r)) m'))), res.1, res.2. cbn [call_log]. rewrite app_nil_r.
  split; [by destruct res|]. split; [by split|]. split; [done|]. split; [by eexists|]. subst res. cbn [answer_call snd finish].
  destruct (all c k) as [[v|]|]; cbn [answer visible fst snd] in *.
  2, 3: split; [done|]; (split; [by apply size_ok_small|by vm_compute]).
  specialize (Hfit v eq_refl). split; [done|]. split; [exact Hfit|].
  destruct (Proto.KV.parseGetResponse_getResponse v) as [-> _]; [|done].
  destruct Hfit as [[_ Hu] _]. unfold Proto.KV.getResponse in Hu. rewrite !zlen_app, zlen_le_enc in Hu.
  change (zlen (Proto.KV.statusPayload _)) with 3 in Hu. lia.
Qed.

Lemma scan_answered r ops c req :
  standalone (kv r) ops c -> call_ok (mem r) (CScan req) ->
  answered r ops c (CScan req) (handleScan r (Utils.Data (call_msg (CScan req)))).
Proof.
  intros S2 [Hl [Hr Hfit]]. cbn [call_msg Utils.NewMessage2 Utils.Data] in *.
  unfold handleScan. rewrite DecodeScanRequest_Encode by done. cbn [mbind option_bind]. cbv zeta.
  unfold KV.Scan, Engine.Scan, mem in *. pose proof (ml_scan _ c (Start req) (End_ req) (KV.scan_fn (Pred req)) [] (st_mem _ _ _ S2)) as E.
  rewrite feed_scan_fn in E by done. cbn [app] in E. fold (hits req (hot c)) in E. change (kv (count add_scan r)) with (kv r). rewrite E in *. cbn [mbind option_bind].
  specialize (Hfit _ eq_refl). destruct (response_fits _ _ (proj1 Hfit)) as [He Hn].
  exists (count add_scan r), MsgRespOK, (EncodeScanResponse Proto.KV.StatusOK (hits req (hot c))). cbn [call_log]. rewrite app_nil_r.
  split; [done|]. split; [done|]. split; [done|]. split; [done|]. split; [done|]. split; [exact Hfit|].
  cbn [finish]. by rewrite DecodeScanResponse_Encode.
Qed.

Lemma handle_answered r ops c o i :
  standalone (kv r) ops c -> call_ok (mem r) o ->
  answered r ops c o (Routing.Handle WAL.NoFault r (NewRequest (BanNet.received (call_msg o)) i)).
Proof.
  intros Hs Hok. unfold Routing.Handle.
  change (GetMsgData (NewRequest (BanNet.received (call_msg o)) i)) with (Utils.Data (call_msg o)).
  destruct o.
  - rewrite bool_decide_true by done. by apply put_answered.
  - rewrite bool_decide_false, bool_decide_true by done. by apply get_answered.
  - rewrite !bool_decide_false, bool_decide_true by done. by apply delete_answered.
  - rewrite !bool_decide_false, bool_decide_true by done. by apply scan_answered.
Qed.

Lemma call_sendable m o : call_ok m o -> BanNet.sendable MaxPackageSize (call_msg o).
Proof.
  intros [[Hu Hmax] _]. destruct o; (split; [vm_compute; discriminate|]; split; [by apply Z.mod_small|]; by split).
Qed.

Lemma call_id o : GetMsgID (call_msg o) ∈ [MsgPut; MsgGet; MsgDelete; MsgScan].
Proof. destruct o; cbn [call_msg GetMsgID Utils.Message_IMessage Utils.Id Utils.NewMessage Utils.NewMessage2]; set_solver. Qed.

(** The hook and the handler, on the object the dispatcher finds. *)
Lemma dispatch_spec m p r ops c i o :
  serves m p r -> serving r ops c -> call_ok (mem r) o ->
  exists m' r' id payload,
    DoMsgHandle m (NewRequest (BanNet.received (call_msg o)) i) = Some (m', Answered [(id, payload)]) /\
    zlen id <= 65535 /\ size_ok (zlen payload) /\ finish o payload = Some (answer_call c o).2 /\
    serves m' p r' /\ serving r' (ops ++ call_log o) (answer_call c o).1 /\ mem_after (mem r) o (mem r').
Proof.
  intros [Ho Hids] [Hh Hkv] Hok. set (req := NewRequest (BanNet.received (call_msg o)) i).
  assert (exists f, Routing.PreHandle r req = (set_hookState r f, req, HookPass, [])) as [f Hpre].
  { unfold Routing.PreHandle, transparent in *. destruct r as [k [h|] post s]; cbn in *; [|by exists s].
    destruct (Hh s req) as [f ->]. by exists f. }
  destruct (handle_answered (set_hookState r f) ops c o i) as (r1 & id & payload & Hrun & Hk1 & Hh1 & Hm1 & Hid & Hsize & Hfin); [done|done|].
  assert (serving (set_hookState r f) ops c) as Hs0 by (split; [exact Hh|exact Hkv]).
  pose proof (serving_same _ _ _ _ _ _ Hs0 Hh1 Hk1) as Hs1. fold req in Hrun.
  set (r' := Routing.PostHandle r1 req).
  assert (serving r' (ops ++ call_log o) (answer_call c o).1 /\ mem r' = mem r1) as [Hs' Hm'].
  { destruct Hs1 as [T1 T2]. subst r'. unfold Routing.PostHandle. by destruct (postHandleFunc r1). }
  exists (set_objects m (<[p := r']> (objects m))), r', id, payload.
  split; [|do 3 (split; [done|]); split; [|split; [done|by rewrite Hm']]].
  - unfold DoMsgHandle. change (GetReqID req) with (GetMsgID (call_msg o)). rewrite Hids by apply call_id. rewrite Ho.
    cbn [mbind option_bind Network.PreHandle Router_IRouter Network.Handle Network.PostHandle]. rewrite Hpre. rewrite bool_decide_false by done.
    by rewrite Hrun.
  - split; [|done]. cbn [objects set_objects]. apply list_lookup_insert_eq. by eapply lookup_lt_Some.
Qed.

Lemma do_call_spec m p r ops c i o :
  serves m p r -> serving r ops c -> call_ok (mem r) o ->
  exists m' r', do_call (mkClient m i) o = Some (mkClient m' i, (answer_call c o).2) /\
    serves m' p r' /\ serving r' (ops ++ call_log o) (answer_call c o).1 /\ mem_after (mem r) o (mem r').
Proof.
  intros Hm Hr Hok. destruct (dispatch_spec m p r ops c i o Hm Hr Hok) as (m' & r' & id & payload & Hdo & Hid & [Hu Hmax] & Hfin & Hrest).
  exists m', r'. split; [|done].
  rewrite do_call_request, (request_spec MaxPackageSize (mkClient m i) _ _ id payload (call_sendable _ _ Hok) Hdo) by done.
  cbn [mbind option_bind]. by rewrite Hfin.
Qed.

Lemma background_spec m p r ops c j :
  serves m p r -> serving r ops c -> work_ok (mem r) j ->
  exists m' r' h, background p m j = Some m' /\ serves m' p r' /\ serving r' ops (mkContent (all c) h) /\
    mt_Work (mem r) j = Some (mem r').
Proof.
  intros [Ho Hids] [Hh [T1 T2 T3 T4]] Hok. destruct (ml_work _ c j T4 Hok) as (m' & h & Hrun & Hp). unfold mem in *.
  unfold background. rewrite Ho. cbn [mbind option_bind]. unfold Engine.Work. rewrite Hrun. cbn [mbind option_bind].
  eexists _, (set_kv r (KV.set_storage (kv r) (Engine.set_memTable (KV.storage (kv r)) m'))), h.
  split; [done|]. split; [|split; [split; [exact Hh|by split]|done]].
  split; [|done]. cbn [objects set_objects]. apply list_lookup_insert_eq. by eapply lookup_lt_Some.
Qed.

(** What the memtable shows follows the session. *)
Lemma mem_after_promises m c o m' :
  promises m c -> call_ok m o -> mem_after m o m' -> promises m' (answer_call c o).1.
Proof.
  intros Hp [_ Hok] Ha. destruct o as [k v|k|k|req]; cbn [mem_after answer_call fst] in *.
  - destruct Hok as [_ Hf]. destruct (ml_put m c k (Some v) Hp Hf) as (m1 & E & Hp1). congruence.
  - destruct Ha as [r Ha]. destruct (ml_get m c k Hp) as (m1 & E & Hp1). congruence.
  - destruct Hok as [_ Hf]. destruct (ml_delete m c k Hp Hf) as (m1 & E & Hp1). congruence.
  - by subst.
Qed.

Lemma get_ok m c k :
  promises m c -> size_ok (zlen (Proto.KV.encodeKey k)) ->
  (forall v, all c k = Some (Some v) -> size_ok (zlen (Proto.KV.getResponse v))) -> call_ok m (CGet k).
Proof.
  intros Hp Hk Hv. split; [done|]. intros m' v E. destruct (ml_get m c k Hp) as (m1 & E1 & _). rewrite E1 in E.
  apply Hv. destruct (all c k) as [[x|]|]; cbn [answer visible] in E; congruence.
Qed.

(** the map, for a standalone server whose hook, if it has one, lets every request
    through unchanged (the server [main] builds is in [Shipped.v]): for every
    session, in which clients put, get, delete and scan over their connections,
    one request after the other, while the memtable flushes and compacts in
    between, frames fit and every write finds its credit, every request comes
    back, and every reply is the one the map gives: a get returns the last value
    put under its key and the error of a missing key after a delete, whether the
    value is in memory or on disk by then; a scan returns live keys in the bounds
    with their newest values, in order, as far as they are not yet on disk; and
    the log holds exactly the session's writes, in order. *)
Theorem client_refines_map (m : MsgHandle (Router M F)) (p : nat) (r : Router M F) (ops : list logged) (c : content)
    (evs : list event) (Hm : serves m p r) (Hr : serving r ops c) (Hok : session_ok (mem r) evs) :
  exists m' r' c' replies, run p m evs = Some (m', replies) /\ map_run c evs c' replies /\
    serves m' p r' /\ serving r' (ops ++ session_log evs) c'.
Proof.
  revert m r ops c Hm Hr Hok. induction evs as [|[i o|j] evs IH]; intros m r ops c Hm Hr Hok.
  - exists m, r, c, []. rewrite app_nil_r. split; [done|]. split; [constructor|done].
  - destruct Hok as [Hok Hrest]. destruct (do_call_spec m p r ops c i o Hm Hr Hok) as (m1 & r1 & Hrun & Hm1 & Hr1 & Haft).
    destruct (IH m1 r1 _ _ Hm1 Hr1 (Hrest _ Haft)) as (m' & r' & c' & rs & Hrun' & Hmap & Hm' & Hr').
    exists m', r', c', ((answer_call c o).2 :: rs). cbn [run]. rewrite Hrun. cbn [mbind option_bind server]. rewrite Hrun'.
    split; [done|]. split; [by constructor|]. split; [done|]. by rewrite <- app_assoc in Hr'.
  - destruct Hok as [Hok Hrest]. destruct (background_spec m p r ops c j Hm Hr Hok) as (m1 & r1 & h & Hrun & Hm1 & Hr1 & Haft).
    destruct (IH m1 r1 _ _ Hm1 Hr1 (Hrest _ Haft)) as (m' & r' & c' & rs & Hrun' & Hmap & Hm' & Hr').
    exists m', r', c', rs. cbn [run]. rewrite Hrun. cbn [mbind option_bind]. split; [done|]. split; [|done].
    econstructor; [|done]. destruct Hr1 as [_ [_ _ _ Hp]]. apply (ml_hot _ _ Hp).
Qed.

End Session.

(** Sizes of closed frames; and on with the memtable a step leaves. *)
Ltac eval_size := split; [split; [vm_compute; discriminate|vm_compute; reflexivity]|intros _; vm_compute; discriminate].
Ltac next_table E := vm_compute in E; first [injection E as <- | subst].
Ltac eval_call := split; [eval_size|first [split; [eval_closed|reflexivity] | split; [eval_closed|let es := fresh in let E := fresh in intros es E; vm_compute in E; injection E as <-; eval_size]]].
(** From one call of the session to the next; [P] is what the memtable shows. *)
Ltac next_call P Q :=
  let Hok := fresh in let m := fresh "m" in let E := fresh in
  match goal with |- call_ok ?s ?m0 ?o /\ _ => assert (call_ok s m0 o) as Hok by eval_call end;
  split; [exact Hok|]; intros m E; pose proof (mem_after_promises _ _ _ _ _ P Hok E) as Q; next_table E; clear Hok.

(** ** Sample: the router under the four ids, on the memtable of [Recovery] *)
Section Sample.
#[local] Existing Instances Partitioned.sample_math Partitioned.sample_math_laws MemTable.sample_list MemTable.sample_list_laws
  Recovery.sample_storage Recovery.sample_raft Recovery.sample_ops Recovery.sample_laws.

Definition sample_handle : MsgHandle (Router (Live.Live SkipList.table) unit) :=
  let m := NewMsgHandle 2 [NewRouter Recovery.sample_server tt] in
  AddRouter (AddRouter (AddRouter (AddRouter m MsgPut 0) MsgGet 0) MsgDelete 0) MsgScan 0.

Definition sample_scan : ScanRequest :=
  mkScanRequest (of_string "a") [] (Predicate.mkPredicate [] Predicate.OpNone []).

Definition sample_session : list event :=
  [Call 1 (CPut (of_string "c") []); Call 2 (CDelete (of_string "b:2")); Call 1 (CPut (of_string "a:1") (of_string "x"));
   Call 2 (CScan sample_scan); Background Live.JFlush; Call 2 (CGet (of_string "a:1")); Call 1 (CGet (of_string "b:2"))].

Lemma client_refines_map_witness :
  exists m', run 4096 0 sample_handle sample_session =
    Some (m', [Written (Ok tt); Written (Ok tt); Written (Ok tt);
               Entries (Ok [mkScanEntry (of_string "a:1") (of_string "x"); mkScanEntry (of_string "c") []]);
               Value (Ok (of_string "x")); Value (Error (Err "key not found or server error"))]).
Proof.
  destruct (client_refines_map 4096 ltac:(intros _; vm_compute; discriminate) sample_handle 0 (NewRouter Recovery.sample_server tt) []
    (mkContent (fun _ => None) []) sample_session) as (m' & r' & c' & replies & Hrun & Hmap & _).
  - split; [done|]. intros id Hid. repeat (apply elem_of_cons in Hid as [-> |Hid]; [by vm_compute|]). by apply elem_of_nil in Hid.
  - split; [exact I|exact Recovery.sample_standalone].
  - pose proof Recovery.sample_promises as P0. cbn [session_ok sample_session]. next_call P0 P1. next_call P1 P2. next_call P2 P3.
    next_call P3 P4. clear P0 P1 P2 P3. match goal with |- work_ok ?m ?j /\ _ => assert (work_ok m j) as Hj end.
    { intros m t es E1 E2. vm_compute in E1. injection E1 as <- <-. vm_compute in E2. injection E2 as <-.
      split; [apply SSTable.sample_world_ok|by intros ?%elem_of_nil|apply SSTable.sample_writable]. }
    split; [exact Hj|]. intros m Hm. destruct (ml_work _ _ _ P4 Hj) as (m4 & h & E & P5). rewrite E in Hm. injection Hm as <-.
    assert (call_ok 4096 m4 (CGet (of_string "a:1"))) as Hok.
    { apply (get_ok 4096 _ _ _ P5); [eval_size|]. intros v Hv. vm_compute in Hv. injection Hv as <-. eval_size. }
    split; [exact Hok|]. intros m5 E5. pose proof (mem_after_promises 4096 _ _ _ _ P5 Hok E5) as P6.
    split; [|done]. apply (get_ok 4096 _ _ _ P6); [eval_size|]. intros v Hv. vm_compute in Hv. discriminate.
  - exists m'. rewrite Hrun. clear Hrun. unfold sample_session in Hmap.
    repeat match goal with Hr : map_run _ _ _ _ |- _ => inversion Hr; subst; clear Hr end.
    vm_compute. reflexivity.
Defined.

End Sample.
End Session.
