(* ===== verification/Deadline.v ===== *)
(** The deadlines of the client ([Connect], [send] and [readResponse] of
    [client/client.go]): a reply that misses its deadline stays on the connection,
    and every later request reads the answer of an earlier one. *)
From S2P Require Import Prelude Bytes Credit SkipList Bloom SSTable MemTable Engine StorageWAL RaftWAL Raft Wire Proto Json Predicate Network Service Recovery Client Session.
Import Credits Partitioned SSTable MemTable Scan Dispatch Routing Recovery Link Client Session.
#[local] Existing Instances BanNet.Message_IMessage Utils.Message_IMessage.

Module Deadline.

(** ** Reading under a deadline

    A reader gets the bytes that arrive in time; it gives its result and the
    bytes it has not taken off the connection, also when it fails. *)
Definition reader (A : Type) : Type := bytes -> result A * bytes.
Definition rd_ret {A} (a : A) : reader A := fun ready => (Ok a, ready).
Definition rd_fail {A} (e : goerr) : reader A := fun ready => (Error e, ready).
Definition rd_bind {A B} (m : reader A) (k : A -> reader B) : reader B := fun ready =>
  match m ready with
  | (Ok a, ready) => k a ready
  | (Error e, ready) => (Error e, ready)
  end.
#[local] Notation "'let!' x ':=' m 'in' k" := (rd_bind m (fun x => k))
  (at level 10, x pattern, m at level 100, k at level 200).

Definition Timeout : goerr := Err "i/o timeout".

(** [io.ReadFull]: too few bytes are taken all the same. *)
Definition ReadFull (n : Z) : reader bytes := fun ready =>
  match read_full n ready with
  | Ok (b, rest) => (Ok b, rest)
  | Error _ => (Error Timeout, [])
  end.

Section Deadline.
Context {R : Type} `{IRouter R} (MaxPackageSize : Z).

(** ** The client *)

(** A connection: the server at the other end, its id there, and the bytes the
    server has answered and the client has not read. *)
Record Conn := mkConn { c_server : MsgHandle R; c_id : Z; unread : bytes }.

(** [Connect]: a new connection, with nothing on it. *)
Definition Connect (s : MsgHandle R) (dialled : result Z) : result Conn :=
  let? id := dialled in Ok (mkConn s id []).

Definition readResponse : reader (bytes * bytes) :=
  let! header := ReadFull BanNet.GetHeadLen in
  match BanNet.UnPack MaxPackageSize header with
  | Error e => rd_fail e
  | Ok tempMsg =>
      let! msgID := (if 0 <? BanNet.IDLen tempMsg then ReadFull (BanNet.IDLen tempMsg) else rd_ret []) in
      let! data := (if 0 <? BanNet.DataLen tempMsg then ReadFull (BanNet.DataLen tempMsg) else rd_ret []) in
      rd_ret (msgID, data)
  end.

(** What has arrived when the deadline fires: everything the server has
    answered so far, or only so many bytes of it. *)
Inductive arrival := InTime | Cut (k : nat).
#[export] Instance arrival_eq_dec : EqDecision arrival.
Proof. solve_decision. Defined.

Definition arrived (a : arrival) (stream : bytes) : nat :=
  match a with InTime => length stream | Cut k => k end.

(** [send] and [readResponse]; what is late comes after the request failed. *)
Definition request_by {M} `{IMessage M} (a : arrival) (c : Conn) (msg : M) : option (Conn * result bytes) :=
  match send msg with
  | Error e => Some (c, Error e)
  | Ok packet =>
      '(s, reply) ← exchange MaxPackageSize (c_server c) (c_id c) packet;
      let stream := unread c ++ reply in
      let '(r, rest) := readResponse (take (arrived a stream) stream) in
      Some (mkConn s (c_id c) (rest ++ drop (arrived a stream) stream),
            let? (_, payload) := r in Ok payload)
  end.

(** The reads of [Client.v] and these agree on what is there in time. *)
Lemma readResponse_reads s id data rest :
  Client.readResponse MaxPackageSize s = Ok (id, data, rest) -> readResponse s = (Ok (id, data), rest).
Proof.
  unfold Client.readResponse, readResponse, rd_bind, ReadFull. intros Hr.
  destruct (read_full BanNet.GetHeadLen s) as [[header conn]|]; [|done]. cbn [rbind] in Hr.
  destruct (BanNet.UnPack MaxPackageSize header) as [m|]; [|done]. cbn [rbind] in Hr.
  destruct (0 <? BanNet.IDLen m); [destruct (read_full (BanNet.IDLen m) conn) as [[i conn1]|]; [|done]|];
    cbn [rbind rd_ret] in *;
    (destruct (0 <? BanNet.DataLen m); [destruct (read_full (BanNet.DataLen m) _) as [[x conn2]|]; [|done]|]);
    cbn [rbind rd_ret] in *; by simplify_eq.
Qed.

(** A response the client can read. *)
Definition readable (p : response) : Prop :=
  zlen p.1 <= 65535 /\ u32 (zlen p.2) /\ (0 < MaxPackageSize -> zlen p.2 <= MaxPackageSize).

Lemma reads_frame p rest : readable p -> readResponse (frame p ++ rest) = (Ok p, rest).
Proof. destruct p as [id data]. intros (? & ? & ?). apply readResponse_reads. by apply Client.readResponse_frame. Qed.

(** The responses on the connection. *)
Definition queued (ps : list response) : bytes := concat (frame <$> ps).

(** A request answered by one message, and the responses before it. *)
Lemma request_by_spec {M} `{IMessage M} a (ps : list response) s s' i (m : M) p :
  BanNet.sendable MaxPackageSize m ->
  DoMsgHandle s (NewRequest (BanNet.received m) i) = Some (s', Answered [p]) ->
  Forall readable (ps ++ [p]) -> a = InTime \/ a = Cut 0 ->
  request_by a (mkConn s i (queued ps)) m =
    Some match a with
         | InTime => (mkConn s' i (queued (drop 1 (ps ++ [p]))), Ok (default p (head ps)).2)
         | Cut _ => (mkConn s' i (queued (ps ++ [p])), Error Timeout)
         end.
Proof.
  intros Hs Hrun Hp Ha. destruct p as [id payload].
  destruct (Client.exchange_spec MaxPackageSize (mkClient s i) m s' id payload Hs Hrun) as (packet & Hsend & Hex).
  cbn [server connID] in Hex. unfold request_by. cbn [c_server c_id unread]. rewrite Hsend, Hex. cbn [mbind option_bind].
  assert (queued ps ++ frame (id, payload) = queued (ps ++ [(id, payload)])) as ->.
  { unfold queued. rewrite fmap_app, concat_app. cbn [fmap list_fmap concat]. by rewrite app_nil_r. }
  destruct Ha as [-> | ->]; cbn [arrived].
  - rewrite firstn_all, drop_all.
    destruct ps as [|[? ?] ps]; cbn [app head default] in *; unfold queued; rewrite fmap_cons; cbn [concat];
      (rewrite reads_frame by (by inversion Hp)); cbn [rbind]; rewrite app_nil_r; done.
  - done.
Qed.

End Deadline.
#[global] Arguments Conn : clear implicits.

(** ** Sessions of one client *)
Section Sessions.
Context {M : Type} `{IMemTableLaws M} `{Raft.RaftConfig} {F : Type} (MaxPackageSize : Z).

(** The client's method when the request failed. *)
Definition failed (o : call) (e : goerr) : reply :=
  match o with
  | CPut _ _ | CDelete _ => Written (Error e)
  | CGet _ => Value (Error e)
  | CScan _ => Entries (Error e)
  end.

Definition do_call_by (a : arrival) (c : Conn (Router M F)) (o : call) : option (Conn (Router M F) * reply) :=
  '(c, r) ← request_by MaxPackageSize a c (call_msg o);
  match r with
  | Error e => Some (c, failed o e)
  | Ok payload => x ← finish o payload; Some (c, x)
  end.

Fixpoint run_by (c : Conn (Router M F)) (evs : list (arrival * call)) : option (Conn (Router M F) * list reply) :=
  match evs with
  | [] => Some (c, [])
  | (a, o) :: rest => '(c, r) ← do_call_by a c o; '(c, rs) ← run_by c rest; Some (c, r :: rs)
  end.

(** What a client gets that reads the responses in the order they were sent,
    whatever it asked. *)
Fixpoint in_order (ps : list response) (evs : list (arrival * call)) : option (list reply) :=
  match evs with
  | [] => Some []
  | (Cut _, o) :: rest => rs ← in_order ps rest; Some (failed o Timeout :: rs)
  | (InTime, o) :: rest =>
      match ps with
      | [] => None
      | p :: ps => r ← finish o p.2; rs ← in_order ps rest; Some (r :: rs)
      end
  end.

(** The requests that got an answer in time. *)
Definition heard (evs : list (arrival * call)) : nat := length (filter (fun e => e.1 = InTime) evs).

(** [p] answers [o] with [r]. *)
Definition answers (o : call) (p : response) (r : reply) : Prop := finish o p.2 = Some r.

(** No response of a frame's size stops a client. *)
Lemma finish_total o (p : response) : readable MaxPackageSize p -> is_Some (finish o p.2).
Proof.
  intros (_ & [_ Hu] & _). destruct o; cbn [finish]; apply fmap_is_Some.
  1, 3: unfold check_status; destruct (Proto.KV.parseStatus_total p.2) as [[[? ?]|?] ->]; eauto.
  - by apply Proto.KV.parseGetResponse_total.
  - apply DecodeScanResponse_total.
Qed.

(** A client that is never late gets the answers to its own requests. *)
Lemma in_order_in_time (evs : list (arrival * call)) ps rs :
  Forall (fun e => e.1 = InTime) evs -> Forall3 answers evs.*2 ps rs -> in_order ps evs = Some rs.
Proof.
  intros Hin. revert ps rs. induction Hin as [|[a o] evs E _ IH]; intros ps rs H3; inversion H3; subst; [done|].
  cbn in E. subst a. cbn [in_order]. unfold answers in *.
  match goal with E : finish _ _ = Some _ |- _ => rewrite E end. cbn [mbind option_bind]. by erewrite IH.
Qed.

Hypothesis small_replies : 0 < MaxPackageSize -> 8 <= MaxPackageSize.

(** One call: its response queues up behind the others, and the first one of
    the queue is taken off when the read is in time. *)
Lemma do_call_by_spec m p r ops c i a o q :
  serves m p r -> serving r ops c -> call_ok MaxPackageSize (mem r) o -> Forall (readable MaxPackageSize) q -> a = InTime \/ a = Cut 0 ->
  exists m' r' pr q' x,
    do_call_by a (mkConn m i (queued q)) o = Some (mkConn m' i (queued q'), x) /\
    answers o pr (answer_call c o).2 /\ Forall (readable MaxPackageSize) q' /\
    (forall ps evs rs, in_order (q' ++ ps) evs = Some rs -> in_order (q ++ pr :: ps) ((a, o) :: evs) = Some (x :: rs)) /\
    (forall ps, drop (heard [(a, o)]) (q ++ pr :: ps) = q' ++ ps) /\
    serves m' p r' /\ serving r' (ops ++ call_log o) (answer_call c o).1 /\ mem_after (mem r) o (mem r').
Proof.
  intros Hm Hr Hok Hq Ha.
  destruct (dispatch_spec MaxPackageSize small_replies m p r ops c i o Hm Hr Hok) as (m' & r' & id & payload & Hdo & Hid & [Hu Hmax] & Hfin & Hrest).
  set (pr := (id, payload) : response). assert (readable MaxPackageSize pr) as Hpr by by split_and!.
  assert (Forall (readable MaxPackageSize) (q ++ [pr])) as Hqp by (apply Forall_app; split; [done|by apply Forall_singleton]).
  pose proof (request_by_spec MaxPackageSize a q m m' i _ pr (call_sendable _ _ _ Hok) Hdo Hqp Ha) as Hrq.
  exists m', r', pr. unfold do_call_by. rewrite Hrq. cbn [mbind option_bind]. assert (answers o pr (answer_call c o).2) as Hans by done. clearbody pr.
  setoid_rewrite (cons_middle pr q). setoid_rewrite (assoc_L (++) q [pr]).
  destruct Ha as [-> | ->]; cbn [fst snd].
  - destruct (q ++ [pr]) as [|h q'] eqn:E; [by destruct q|]. inversion Hqp as [|? ? Hh Hq']; subst.
    assert (default pr (head q) = h) as -> by (destruct q; by simplify_eq/=).
    destruct (finish_total o h Hh) as [x Hx]. exists q', x. cbn [drop]. rewrite Hx. cbn [mbind option_bind].
    split_and!; try done; [|by apply Hrest..].
    intros ps evs rs Hin. cbn [app in_order]. by rewrite Hx, Hin.
  - exists (q ++ [pr]), (failed o Timeout).
    split_and!; try done; [|by apply Hrest..].
    intros ps evs rs Hin. cbn [in_order]. by rewrite Hin.
Qed.

Lemma heard_cons e evs : heard (e :: evs) = (heard [e] + heard evs)%nat.
Proof. unfold heard. rewrite !filter_cons, filter_nil. by destruct (decide _). Qed.

(** A session from any queue of earlier responses. *)
Lemma run_by_spec m p r ops c i evs q :
  serves m p r -> serving r ops c -> session_ok MaxPackageSize (mem r) (Call i <$> evs.*2) ->
  Forall (fun e => e.1 = InTime \/ e.1 = Cut 0) evs -> Forall (readable MaxPackageSize) q ->
  exists m' r' c' ps rs replies,
    run_by (mkConn m i (queued q)) evs = Some (mkConn m' i (queued (drop (heard evs) (q ++ ps))), replies) /\
    map_run c (Call i <$> evs.*2) c' rs /\ Forall3 answers evs.*2 ps rs /\ in_order (q ++ ps) evs = Some replies /\
    serves m' p r' /\ serving r' (ops ++ session_log (Call i <$> evs.*2)) c'.
Proof.
  intros Hm Hr Hok Hpace Hq. revert m r ops c q Hm Hr Hok Hq. induction Hpace as [|[a o] evs Ha _ IH]; intros m r ops c q Hm Hr Hok Hq.
  - exists m, r, c, [], [], []. unfold heard. cbn. rewrite !app_nil_r. split_and!; (done || constructor).
  - destruct Hok as [Hok Hrest].
    destruct (do_call_by_spec m p r ops c i a o q Hm Hr Hok Hq Ha) as (m1 & r1 & pr & q1 & x & Hrun & Hpr & Hq1 & Hord & Hdrop & Hm1 & Hr1 & Haft).
    destruct (IH m1 r1 _ _ q1 Hm1 Hr1 (Hrest _ Haft) Hq1) as (m' & r' & c' & ps & rs & replies & Hrun' & Hmap & H3 & Hin & Hm' & Hr').
    exists m', r', c', (pr :: ps), ((answer_call c o).2 :: rs), (x :: replies). cbn [run_by]. rewrite Hrun. cbn [mbind option_bind].
    rewrite Hrun'. cbn [mbind option_bind]. rewrite heard_cons.
    split_and!; [|by constructor|by constructor|by apply Hord|done|by rewrite <- app_assoc in Hr'].
    by rewrite <- drop_drop, Hdrop.
Qed.

(** C22: a late reply is read by the next request, and so on for good.  Over
    every session of a client whose requests are each answered in time or not at
    all before the deadline: the server carries out every request, the late ones
    too; the [n]-th answer the client reads is the server's answer to the
    [n]-th request it sent, whatever it asked for by then, and what it has not
    read stays on the connection.  So a client that never times out gets the
    map's answers, and after one timeout each reply belongs to an earlier
    request: a get returns the value of another key. *)
Theorem late_answers_shift (m : MsgHandle (Router M F)) (p : nat) (r : Router M F) (ops : list logged) (c : content) (i : Z)
    (evs : list (arrival * call)) (Hm : serves m p r) (Hr : serving r ops c)
    (Hok : session_ok MaxPackageSize (mem r) (Call i <$> evs.*2))
    (Hpace : Forall (fun e => e.1 = InTime \/ e.1 = Cut 0) evs) :
  exists m' r' c' ps rs replies,
    run_by (mkConn m i []) evs = Some (mkConn m' i (queued (drop (heard evs) ps)), replies) /\
    map_run c (Call i <$> evs.*2) c' rs /\ Forall3 answers evs.*2 ps rs /\ in_order ps evs = Some replies /\
    (Forall (fun e => e.1 = InTime) evs -> replies = rs) /\
    serves m' p r' /\ serving r' (ops ++ session_log (Call i <$> evs.*2)) c'.
Proof.
  destruct (run_by_spec m p r ops c i evs [] Hm Hr Hok Hpace ltac:(constructor)) as (m' & r' & c' & ps & rs & replies & Hrun & Hmap & H3 & Hin & Hrest).
  exists m', r', c', ps, rs, replies. split_and!; [done..| |by apply Hrest|by apply Hrest].
  intros Hall. pose proof (in_order_in_time evs ps rs Hall H3). cbn in Hin. congruence.
Qed.

End Sessions.

(** A get that finds a value or none, and on with the memtable it leaves. *)
Ltac next_get P Q :=
  let Hok := fresh in let m := fresh "m" in let E := fresh in let v := fresh in let Hv := fresh in let x := fresh in
  match goal with |- call_ok ?s ?m0 ?o /\ _ => assert (call_ok s m0 o) as Hok
    by (apply (get_ok s _ _ _ P); [eval_size|intros v Hv; vm_compute in Hv; first [discriminate | injection Hv as <-; eval_size]]) end;
  split; [exact Hok|]; intros m E; pose proof (mem_after_promises _ _ _ _ _ P Hok E) as Q;
  destruct E as [x E]; vm_compute in E; injection E as <- <-; clear Hok.

(** ** Sample: the answer to the late get of one key is taken for the value of
    another, and a later write is believed because of an earlier answer *)
Section Sample.
#[local] Existing Instances Partitioned.sample_math Partitioned.sample_math_laws MemTable.sample_list MemTable.sample_list_laws
  Recovery.sample_storage Recovery.sample_raft Recovery.sample_ops Recovery.sample_laws.

Definition sample_calls : list (arrival * call) :=
  [(InTime, CPut (of_string "a:1") (of_string "x")); (InTime, CPut (of_string "c") (of_string "y"));
   (Cut 0, CGet (of_string "a:1")); (InTime, CGet (of_string "c")); (InTime, CDelete (of_string "c"))].

Definition sample_replies : list reply :=
  [Written (Ok tt); Written (Ok tt); Value (Error Timeout); Value (Ok (of_string "x")); Written (Ok tt)].

Lemma late_answers_shift_witness : exists m' ps,
  run_by 4096 (mkConn sample_handle 1 []) sample_calls = Some (mkConn m' 1 (queued (drop 4 ps)), sample_replies).
Proof.
  destruct (late_answers_shift 4096 ltac:(intros _; vm_compute; discriminate) sample_handle 0 (NewRouter Recovery.sample_server tt) []
    (mkContent (fun _ => None) []) 1 sample_calls) as (m' & r' & c' & ps & rs & replies & Hrun & _).
  - split; [done|]. intros id Hid. repeat (apply elem_of_cons in Hid as [-> |Hid]; [by vm_compute|]). by apply elem_of_nil in Hid.
  - split; [exact I|exact Recovery.sample_standalone].
  - pose proof Recovery.sample_promises as P0. cbn [session_ok sample_calls fmap list_fmap snd]. next_call P0 P1. next_call P1 P2. clear P0 P1.
    next_get P2 P3. next_get P3 P4. split; [eval_call|done].
  - repeat constructor; (by left) || (by right).
  - exists m', ps. rewrite Hrun.
    assert (snd <$> run_by 4096 (mkConn sample_handle 1 []) sample_calls = Some sample_replies) as E by (vm_compute; reflexivity).
    rewrite Hrun in E. by injection E as ->.
Defined.

(** A reply of which some bytes came in time is not even a frame any more: the
    next header is read from its middle. *)
Definition torn_calls : list (arrival * call) :=
  [(InTime, CPut (of_string "a:1") (of_string "x")); (Cut 3, CGet (of_string "a:1")); (InTime, CGet (of_string "a:1"))].

Example torn_reply :
  snd <$> run_by 4096 (mkConn sample_handle 1 []) torn_calls =
    Some [Written (Ok tt); Value (Error Timeout); Value (Error (Err "data too large"))].
Proof. vm_compute. reflexivity. Qed.

End Sample.
End Deadline.
