(* ===== verification/Torn.v ===== *)
(** Requests that are cut off on the way ([Close] and the write deadline of
    [client/client.go]): the server's reader keeps the beginning of a frame, and
    takes the bytes of the client's next request for its end. *)
From S2P Require Import Prelude Bytes Credit SkipList Bloom SSTable MemTable Engine StorageWAL RaftWAL Raft Wire Proto Json Predicate Network Service Recovery Client Session Deadline.
Import Credits Partitioned SSTable MemTable Scan Dispatch Routing Recovery Link Session.
#[local] Existing Instances BanNet.Message_IMessage Utils.Message_IMessage.

Module Torn.

(** ** The server's reader on a connection that stays open *)

(** The frames that are complete, and the bytes of the next one the reader waits
    for more of; [None] when it has closed the connection. *)
Fixpoint pump_loop (fuel : nat) (max : Z) (s : bytes) : list BanNet.Message * option bytes :=
  match fuel with
  | O => ([], Some s)
  | S fuel' =>
      match BanNet.readFrame max s with
      | Ok (msg, s') => let (msgs, pending) := pump_loop fuel' max s' in (msg :: msgs, pending)
      | Error (Err _) => ([], None)
      | Error _ => ([], Some s)
      end
  end.
Definition pump (max : Z) (s : bytes) : list BanNet.Message * option bytes := pump_loop (S (length s)) max s.

Lemma pump_fuel max fuel s : (length s < fuel)%nat -> pump_loop fuel max s = pump max s.
Proof.
  unfold pump. assert (length s < S (length s))%nat as H by lia. revert H. generalize (S (length s)) as f2. revert s.
  induction fuel as [|fuel IH]; intros s f2 H2 H1; [lia|]. destruct f2 as [|f2]; [lia|]. cbn [pump_loop].
  destruct (BanNet.readFrame max s) as [[m s']|] eqn:E; [|done]. apply BanNet.readFrame_shorter in E. by rewrite (IH s' f2) by lia.
Qed.

Lemma pump_unfold max s :
  pump max s = match BanNet.readFrame max s with
               | Ok (msg, s') => let (msgs, pending) := pump max s' in (msg :: msgs, pending)
               | Error (Err _) => ([], None)
               | Error _ => ([], Some s)
               end.
Proof.
  unfold pump at 1. cbn [pump_loop]. destruct (BanNet.readFrame max s) as [[m s']|] eqn:E; [|done].
  apply BanNet.readFrame_shorter in E. by rewrite pump_fuel by lia.
Qed.

(** What is there is read as [StartReader] reads it. *)
Lemma pump_reads max s : (pump max s).1 = (BanNet.StartReader max s).1.
Proof.
  induction (Nat.lt_wf_0_projected (@length byte) s) as [s _ IH]. rewrite pump_unfold, BanNet.StartReader_unfold.
  destruct (BanNet.readFrame max s) as [[m s']|e] eqn:E; [|by destruct e]. apply BanNet.readFrame_shorter in E. specialize (IH s' E).
  destruct (pump max s'), (BanNet.StartReader max s'). cbn in *. by rewrite IH.
Qed.

(** ** The client *)
Section Client.
Context {R : Type} `{IRouter R} (MaxPackageSize : Z).

(** The server, the connection's id there, what its reader holds of a frame that
    is not complete, and what the client has not read. *)
Record Conn := mkConn { c_server : MsgHandle R; c_id : Z; inbox : option bytes; unread : bytes }.

(** [conn] is nil before [Connect] has succeeded. *)
Record Client := mkClient { conn : option Conn; closed : bool }.
Definition NewClient : Client := mkClient None false.

(** [Connect]: a failed dial leaves the connection nil. *)
Definition Connect (s : MsgHandle R) (dialled : result Z) : Client * result unit :=
  match dialled with
  | Ok id => (mkClient (Some (mkConn s id (Some []) [])) false, Ok tt)
  | Error e => (mkClient None false, Error (Err "failed to connect"))
  end.

Definition Closed : goerr := Err "use of closed network connection".

Definition Close (c : Client) : Client * result unit :=
  match conn c with
  | None => (c, Ok tt)
  | Some _ => if closed c then (c, Error Closed) else (mkClient (conn c) true, Ok tt)
  end.

(** Bytes that reach the server. *)
Definition deliver (c : Conn) (w : bytes) : option Conn :=
  match inbox c with
  | None => Some c
  | Some s =>
      let '(msgs, pending) := pump MaxPackageSize (s ++ w) in
      '(m, out) ← handle_all (c_server c) (c_id c) msgs;
      Some (mkConn m (c_id c) pending (unread c ++ out))
  end.

(** [conn.Write] under its deadline: all of the packet, or an error after [k]
    bytes. *)
Inductive written := All | Fails (k : nat).

(** [send] and, when it succeeds, [readResponse] of what the server has answered;
    [None] is a panic on the nil connection. *)
Definition request {M} `{IMessage M} (w : written) (cl : Client) (msg : M) : option (Client * result bytes) :=
  match BanNet.Pack msg with
  | Error e => Some (cl, Error e)
  | Ok packet =>
      c ← conn cl;
      if closed cl then Some (cl, Error Closed) else
      match w with
      | Fails k => c ← deliver c (take k packet); Some (mkClient (Some c) false, Error Deadline.Timeout)
      | All =>
          c ← deliver c packet;
          let '(r, rest) := Deadline.readResponse MaxPackageSize (unread c) in
          Some (mkClient (Some (mkConn (c_server c) (c_id c) (inbox c) rest)) false, let? (_, payload) := r in Ok payload)
      end
  end.

Definition do_call (w : written) (cl : Client) (o : call) : option (Client * reply) :=
  '(cl, r) ← request w cl (call_msg o);
  match r with
  | Error e => Some (cl, Deadline.failed o e)
  | Ok payload => x ← finish o payload; Some (cl, x)
  end.

Fixpoint run (cl : Client) (evs : list (written * call)) : option (Client * list reply) :=
  match evs with
  | [] => Some (cl, [])
  | (w, o) :: rest => '(cl, r) ← do_call w cl o; '(cl, rs) ← run cl rest; Some (cl, r :: rs)
  end.

(** A request before [Connect] panics; after [Close] it fails and reaches nobody. *)
Lemma request_without_connection {M} `{IMessage M} w (msg : M) packet : BanNet.Pack msg = Ok packet -> request w NewClient msg = None.
Proof. unfold request. by intros ->. Qed.

Lemma request_after_close {M} `{IMessage M} w cl (msg : M) packet :
  BanNet.Pack msg = Ok packet -> is_Some (conn cl) -> request w (Close cl).1 msg = Some ((Close cl).1, Error Closed).
Proof.
  intros Hp [c Hc]. unfold request, Close. rewrite Hp, Hc. destruct (closed cl) eqn:Ec; cbn [fst conn closed]; rewrite ?Hc; cbn; by rewrite ?Ec.
Qed.

End Client.
#[global] Arguments Conn : clear implicits.
#[global] Arguments Client : clear implicits.

(** ** A frame cut off *)

(** The reader fails on a prefix of a good frame only because it ends. *)
Lemma readFrame_short max {M} `{IMessage M} (m : M) p k :
  BanNet.sendable max m -> BanNet.Pack m = Ok p -> (k < length p)%nat ->
  exists e, BanNet.readFrame max (take k p) = Error e /\ (e = EOF \/ e = UnexpectedEOF).
Proof.
  intros Hs Hp Hk. pose proof (BanNet.readFrame_Pack max m p [] Hs Hp) as Hall. rewrite app_nil_r in Hall.
  destruct (BanNet.readFrame max (take k p)) as [[m' s']|e] eqn:E.
  { apply (BanNet.readFrame_extend _ _ _ _ (drop k p)) in E. rewrite take_drop, Hall in E. injection E as _ E.
    symmetry in E. apply app_nil in E as [_ E]. apply (f_equal length) in E. rewrite length_drop in E. cbn in E. lia. }
  exists e. split; [done|]. unfold BanNet.readFrame in E.
  assert (forall n s e, read_full n s = Error e -> e = EOF \/ e = UnexpectedEOF) as Hfull.
  { intros n s e0. unfold read_full. destruct (_ <=? _); [done|]. destruct s; intros [= <-]; auto. }
  destruct (read_full BanNet.GetHeadLen (take k p)) as [[head h]|e0] eqn:E1; [|cbn in E; simplify_eq; by eapply Hfull]. cbn [rbind] in E.
  destruct (BanNet.UnPack max head) as [m0|e0] eqn:E2.
  2: { exfalso. apply (read_full_extend _ _ _ _ (drop k p)) in E1; [|done]. rewrite take_drop in E1.
       unfold BanNet.readFrame in Hall. rewrite E1 in Hall. cbn [rbind] in Hall. by rewrite E2 in Hall. }
  cbn [rbind] in E.
  repeat (match type of E with
          | context [if ?b then _ else _] => destruct b
          | context [read_full ?n ?t] => let H := fresh in destruct (read_full n t) as [[? ?]|] eqn:H
          end; cbn [rbind] in E); try done; injection E as <-; by eapply Hfull.
Qed.

Lemma pump_short max {M} `{IMessage M} (m : M) p k :
  BanNet.sendable max m -> BanNet.Pack m = Ok p -> (k < length p)%nat -> pump max (take k p) = ([], Some (take k p)).
Proof. intros Hs Hp Hk. rewrite pump_unfold. by destruct (readFrame_short max m p k Hs Hp Hk) as (e & -> & [-> | ->]). Qed.

(** The frame of a put: all but the value, then the value. *)
Definition put_head (key value : bytes) : bytes :=
  le_enc 4 (zlen (Utils.NewKVData key value) mod 2 ^ 32) ++ le_enc 2 (zlen MsgPut) ++ MsgPut ++ le_enc 4 (zlen key) ++ le_enc 4 (zlen value) ++ key.

Lemma Pack_put key value : BanNet.Pack (Utils.NewMessage MsgPut key value) = Ok (put_head key value ++ value).
Proof.
  unfold BanNet.Pack, put_head, Utils.NewMessage, Utils.NewKVData. cbn [GetMsgID GetMsgLen GetData Utils.Message_IMessage Utils.Id Utils.DataLen Utils.Data].
  destruct (Z.ltb_spec 65535 (zlen MsgPut)) as [Hl|_]; [vm_compute in Hl; discriminate|].
  cbn [Utils.ByteBuilder]. rewrite app_nil_r. by rewrite <- !app_assoc.
Qed.

(** Only the length of the value is in the head. *)
Lemma put_head_length key value value' : length value' = length value -> put_head key value' = put_head key value.
Proof.
  intros E. unfold put_head, Utils.NewKVData. cbn [Utils.ByteBuilder]. assert (zlen value' = zlen value) as Hz by (unfold zlen; by rewrite E).
  rewrite !zlen_app, !zlen_le_enc, Hz. done.
Qed.

Lemma sendable_put max key value value' :
  length value' = length value -> BanNet.sendable max (Utils.NewMessage MsgPut key value) ->
  BanNet.sendable max (Utils.NewMessage MsgPut key value').
Proof.
  intros E. unfold BanNet.sendable, Utils.NewMessage, Utils.NewKVData.
  cbn [GetMsgID GetMsgLen GetData Utils.Message_IMessage Utils.Id Utils.DataLen Utils.Data Utils.ByteBuilder].
  assert (zlen value' = zlen value) as Hz by (unfold zlen; by rewrite E). by rewrite !zlen_app, !zlen_le_enc, Hz.
Qed.

(** All but the last [n] bytes of a put's frame are not a frame. *)
Lemma put_cut_off max (key value : bytes) (n : nat) :
  BanNet.sendable max (Utils.NewMessage MsgPut key value) -> (0 < n)%nat ->
  let p := put_head key value ++ value in pump max (take (length p - n) p) = ([], Some (take (length p - n) p)).
Proof.
  intros Hs Hn p. eapply pump_short; [exact Hs|apply Pack_put|]. fold p. unfold p, put_head.
  rewrite !length_app, length_le_enc. lia.
Qed.

(** With [n] bytes of another frame they are one. *)
Lemma put_completed max (key value p2 : bytes) (j n : nat) :
  BanNet.sendable max (Utils.NewMessage MsgPut key value) -> (j + n)%nat = length value -> (n <= length p2)%nat ->
  let p := put_head key value ++ value in
  pump max (take (length p - n) p ++ p2) =
    (BanNet.received (Utils.NewMessage MsgPut key (take j value ++ take n p2)) :: (pump max (drop n p2)).1, (pump max (drop n p2)).2).
Proof.
  intros Hs Hj Hn p. set (value' := take j value ++ take n p2).
  assert (length value' = length value) as Hl by (unfold value'; rewrite length_app, !length_take; lia).
  assert (take (length p - n) p = put_head key value ++ take j value) as Ht.
  { unfold p. rewrite length_app. replace (length (put_head key value) + length value - n)%nat with (length (put_head key value) + j)%nat by lia.
    by rewrite take_app_add. }
  rewrite Ht. assert ((put_head key value ++ take j value) ++ p2 = (put_head key value' ++ value') ++ drop n p2) as ->.
  { rewrite (put_head_length key value value') by done. unfold value'. rewrite <- !app_assoc. by rewrite take_drop. }
  rewrite pump_unfold. rewrite (BanNet.readFrame_Pack max (Utils.NewMessage MsgPut key value') _ (drop n p2)); [|by eapply sendable_put|apply Pack_put].
  by destruct (pump max (drop n p2)).
Qed.

(** C23: a write that misses its deadline makes the client's next request part of
    its value. When the last [n] bytes of a put's frame do not reach the server,
    [SendPut] reports the error, but the client keeps the connection in use and
    the server's reader, having handled nothing, waits for the rest. The next call
    on that client, whatever it is, is sent, and its first [n] bytes complete the
    frame: the server handles a put of the same key with that garbage at the end of
    its value, then whatever frames it finds from the middle of the request on,
    and the client takes the first answer on the connection for the answer of its
    second call. *)
Theorem torn_put_swallows_request {R} `{IRouter R} (max : Z) (s : MsgHandle R) (id : Z) (un : bytes)
    (key value p p2 : bytes) (j n : nat) (o : call)
    (Hp : BanNet.Pack (call_msg (CPut key value)) = Ok p) (Hs : BanNet.sendable max (call_msg (CPut key value)))
    (Hp2 : BanNet.Pack (call_msg o) = Ok p2)
    (Hj : (j + n)%nat = length value) (Hn : (0 < n <= length p2)%nat) :
  let cut := take (length p - n) p in
  let cl1 := mkClient (Some (mkConn s id (Some cut) un)) false in
  do_call max (Fails (length cut)) (mkClient (Some (mkConn s id (Some []) un)) false) (CPut key value) =
    Some (cl1, Written (Error Deadline.Timeout)) /\
  do_call max All cl1 o =
    '(m, out) ← handle_all s id
       (BanNet.received (Utils.NewMessage MsgPut key (take j value ++ take n p2)) :: (pump max (drop n p2)).1);
    let '(r, rest) := Deadline.readResponse max (un ++ out) in
    x ← match r with Error e => Some (Deadline.failed o e) | Ok (_, payload) => finish o payload end;
    Some (mkClient (Some (mkConn m id (pump max (drop n p2)).2 rest)) false, x).
Proof.
  intros cut cl1. unfold call_msg in Hp, Hs. rewrite Pack_put in Hp. injection Hp as <-. split.
  - unfold do_call, request, call_msg. rewrite Pack_put. cbn [mbind option_bind conn closed]. unfold deliver. cbn [inbox app].
    replace (take (length cut) _) with cut by (unfold cut; rewrite length_take; f_equal; lia).
    unfold cut. rewrite (put_cut_off max key value n Hs) by lia. cbn. by rewrite app_nil_r.
  - unfold do_call, request. rewrite Hp2. unfold cl1, deliver. cbn [mbind option_bind conn closed inbox c_server c_id unread].
    unfold cut. rewrite (put_completed max key value p2 j n) by (done || lia).
    destruct (handle_all s id _) as [[m out]|]; cbn [mbind option_bind]; [|done]. cbn [unread c_server c_id inbox].
    destruct (Deadline.readResponse max (un ++ out)) as [[[i payload]|e] rest]; cbn; [|done]. by destruct (finish o payload).
Qed.

(** ** Sample: the beginning of a get becomes the end of a value *)
Section Sample.
#[local] Existing Instances Partitioned.sample_math MemTable.sample_list Recovery.sample_storage Recovery.sample_raft Recovery.sample_ops.

Definition sample_put : bytes := put_head (of_string "a:1") (of_string "12345678") ++ of_string "12345678".
Definition sample_get : bytes :=
  match BanNet.Pack (Utils.NewMessage2 MsgGet (Proto.KV.encodeKey (of_string "c"))) with Ok p => p | Error _ => [] end.

Lemma torn_put_swallows_request_witness :
  exists cl1,
    do_call 4096 (Fails (length (take (length sample_put - 4) sample_put))) (mkClient (Some (mkConn sample_handle 1 (Some []) [])) false)
      (CPut (of_string "a:1") (of_string "12345678")) = Some (cl1, Written (Error Deadline.Timeout)) /\
    snd <$> do_call 4096 All cl1 (CGet (of_string "c")) = Some (Value (Error (Err "invalid response format"))).
Proof.
  pose proof (torn_put_swallows_request 4096 sample_handle 1 [] (of_string "a:1") (of_string "12345678") sample_put sample_get 4 4
    (CGet (of_string "c"))) as T. cbv zeta in T. destruct T as [T1 T2].
  - apply Pack_put.
  - vm_compute. split_and!; (done || (intros; discriminate) || (split; [discriminate|reflexivity])).
  - reflexivity.
  - reflexivity.
  - split; [lia|]. vm_compute. lia.
  - eexists. split; [exact T1|]. rewrite T2. vm_compute. reflexivity.
Defined.

(** The client's put fails and its get gets the answer of a put; another client
    finds the key with a value nobody sent. *)
Example torn_put_is_stored :
  match run 4096 (Connect sample_handle (Ok 1)).1
      [(Fails (length sample_put - 4), CPut (of_string "a:1") (of_string "12345678")); (All, CGet (of_string "c"))] with
  | Some (cl, rs) =>
      rs = [Written (Error Deadline.Timeout); Value (Error (Err "invalid response format"))] /\
      match conn cl with
      | Some c => snd <$> run 4096 (Connect (c_server c) (Ok 2)).1 [(All, CGet (of_string "a:1"))] =
          Some [Value (Ok (of_string "1234" ++ take 4 sample_get))]
      | None => False
      end
  | None => False
  end.
Proof. vm_compute. split; reflexivity. Qed.

End Sample.

End Torn.
