(* ===== verification/Ingest.v ===== *)
(** The ingest hook of [service/ingesthook/filter.go] with the counters of
    [pkg/metrics], and the router it is installed in ([Server/server.go]). *)
From S2P Require Import Prelude Bytes Strconv SkipList Bloom SSTable MemTable Engine StorageWAL RaftWAL Raft Wire Proto Json JsonText Predicate Network Service Recovery Client Session.
Import Json.
#[local] Existing Instance Routing.Router_IRouter.

(** ** pkg/metrics: the counters the hook touches ([atomic.Int64]) *)
Module Metrics.

Record Metrics := mkMetrics {
  FramesDroppedMalformed : Z;
  FramesDroppedOversized : Z;
  FramesDroppedNonMonotonic : Z;
}.

Definition zero : Metrics := mkMetrics 0 0 0.
Definition drop_malformed (m : Metrics) : Metrics :=
  mkMetrics (Routing.Add64 (FramesDroppedMalformed m) 1) (FramesDroppedOversized m) (FramesDroppedNonMonotonic m).
Definition drop_oversized (m : Metrics) : Metrics :=
  mkMetrics (FramesDroppedMalformed m) (Routing.Add64 (FramesDroppedOversized m) 1) (FramesDroppedNonMonotonic m).
Definition drop_nonmonotonic (m : Metrics) : Metrics :=
  mkMetrics (FramesDroppedMalformed m) (FramesDroppedOversized m) (Routing.Add64 (FramesDroppedNonMonotonic m) 1).

End Metrics.

(** ** service/ingesthook/filter.go *)
Module Filter.
Import Metrics.

Record Filter := mkFilter {
  redactFields : list bytes;
  maxValueLen : Z;
  dropBackward : bool;
  lastTS : gmap bytes Z;
}.

Definition NewFilter (redactFields : list bytes) (maxValueLen : Z) (dropBackward : bool) : Filter :=
  mkFilter redactFields maxValueLen dropBackward ∅.

Definition set_lastTS (f : Filter) (m : gmap bytes Z) : Filter := mkFilter (redactFields f) (maxValueLen f) (dropBackward f) m.

(** The JSON text of [[REDACTED]] in quotes. *)
Definition redactedValue : bytes := quote :: of_string "[REDACTED]" ++ [quote].

(** Device and timestamp; both parts of the cut must be non-empty. *)
Definition parseKey (key : bytes) : option (bytes * Z) :=
  match cut_last_byte colon key with
  | Some (device, ts) =>
      match device, ts with
      | [], _ | _, [] => None
      | _, _ => t ← ParseInt ts; Some (device, t)
      end
  | None => None
  end.

(** [json.Marshal] of a map of raw messages: members sorted by name, each value
    compacted.  The values passed the scanner, so there is no error. *)
Definition marshal_member (p : bytes * bytes) : bytes := MarshalString p.1 ++ colon :: compact Outside p.2.

Fixpoint join_members (ms : list bytes) : bytes :=
  match ms with
  | [] => []
  | [m] => m
  | m :: rest => m ++ comma :: join_members rest
  end.

Definition name_le (p q : bytes * bytes) : Prop := ble p.1 q.1.
#[global] Instance name_le_dec p q : Decision (name_le p q).
Proof. unfold name_le. apply _. Defined.

Definition marshal_map (m : gmap bytes bytes) : bytes :=
  Cmd.open_brace :: join_members (marshal_member <$> merge_sort name_le (map_to_list m)) ++ [brace].

(** The loop over the fields: the map, and whether one was present. *)
Definition redact_field (st : gmap bytes bytes * bool) (field : bytes) : gmap bytes bytes * bool :=
  match st.1 !! field with
  | Some _ => (<[field := redactedValue]> st.1, true)
  | None => st
  end.

Definition redact (value : bytes) (fields : list bytes) : bytes * bool :=
  match fields with
  | [] => (value, false)
  | _ =>
      match unmarshal_object value with
      | None => (value, false)
      | Some m =>
          let '(m, changed) := foldl redact_field (m, false) fields in
          if negb changed then (value, false) else (marshal_map m, true)
      end
  end.

(** The check of a key's timestamp, under the filter's lock: the filter
    afterwards, and whether the frame is dropped. *)
Definition check_ts (f : Filter) (key : bytes) : Filter * bool :=
  if negb (dropBackward f) then (f, false) else
  match parseKey key with
  | None => (f, false)
  | Some (device, ts) =>
      match lastTS f !! device with
      | Some last => if ts <=? last then (f, true) else (set_lastTS f (<[device := ts]> (lastTS f)), false)
      | None => (set_lastTS f (<[device := ts]> (lastTS f)), false)
      end
  end.

(** The hook; [None] of [parsePut] is a panic, which no payload causes. *)
Definition Handle (st : Filter * Metrics) (req : Request) : option ((Filter * Metrics) * Request * HookAction) :=
  let '(f, m) := st in
  if negb (bool_decide (GetReqID req = Routing.MsgPut)) then Some (f, m, req, HookPass) else
  p ← Proto.KV.parsePut (GetMsgData req);
  match p with
  | None => Some (f, drop_malformed m, req, HookDrop)
  | Some (key, value) =>
      if (0 <? maxValueLen f) && (maxValueLen f <? zlen value) then Some (f, drop_oversized m, req, HookDrop) else
      let '(f, backward) := check_ts f key in
      if backward then Some (f, drop_nonmonotonic m, req, HookDrop) else
      let '(newValue, changed) := redact value (redactFields f) in
      let req := if changed then SetMsgData req (Proto.KV.encodePut key newValue) else req in
      Some (f, m, req, HookPass)
  end.

(** As [SetPreHandle] takes it. *)
Definition hook (st : Filter * Metrics) (req : Request) : (Filter * Metrics) * Request * HookAction :=
  default (st, req, HookPass) (Handle st req).

(** ** The time check *)

(** Device and timestamp of a PUT frame. *)
Definition frame_key (req : Request) : option (bytes * Z) :=
  if bool_decide (GetReqID req = Routing.MsgPut) then
    match Proto.KV.parsePut (GetMsgData req) with
    | Some (Some (key, _)) => parseKey key
    | _ => None
    end
  else None.

Lemma check_ts_spec f key :
  dropBackward f = true ->
  match check_ts f key with
  | (f', true) => f' = f /\ exists d ts last, parseKey key = Some (d, ts) /\ lastTS f !! d = Some last /\ ts <= last
  | (f', false) =>
      match parseKey key with
      | None => f' = f
      | Some (d, ts) => f' = set_lastTS f (<[d := ts]> (lastTS f)) /\ forall last, lastTS f !! d = Some last -> last < ts
      end
  end.
Proof.
  intros Hd. unfold check_ts. rewrite Hd. cbn [negb]. destruct (parseKey key) as [[d ts]|] eqn:Hk; [|done].
  destruct (lastTS f !! d) as [last|] eqn:Hl; [|by split].
  destruct (Z.leb_spec ts last); [split; [done|by exists d, ts, last]|]. split; [done|]. by intros ? [= <-].
Qed.

(** What the hook does to the times it remembers. *)
Lemma hook_times f m req f' m' req' a :
  dropBackward f = true -> hook (f, m) req = (f', m', req', a) ->
  dropBackward f' = true /\
  match a, frame_key req with
  | HookPass, Some (d, ts) => lastTS f' = <[d := ts]> (lastTS f) /\ forall last, lastTS f !! d = Some last -> last < ts
  | _, _ => lastTS f' = lastTS f
  end.
Proof.
  intros Hd. unfold hook, Handle, frame_key.
  destruct (bool_decide (GetReqID req = Routing.MsgPut)); cbn [negb]; [|intros [= <- <- <- <-]; by split].
  destruct (Proto.KV.parsePut_total (GetMsgData req)) as [p ->]. cbn [mbind option_bind].
  destruct p as [[key value]|]; [|intros [= <- <- <- <-]; by split].
  destruct (_ && _); [intros [= <- <- <- <-]; by split|].
  pose proof (check_ts_spec f key Hd) as Hc. destruct (check_ts f key) as [f1 []].
  - destruct Hc as (-> & d & ts & last & -> & _). intros [= <- <- <- <-]. by split.
  - destruct (redact value (redactFields f1)) as [nv ch]. intros [= <- <- <- <-].
    destruct (parseKey key) as [[d ts]|]; [destruct Hc as [-> Hlast]|subst f1]; by split.
Qed.

(** Devices and times of the frames that pass, in order. *)
Fixpoint accepted (st : Filter * Metrics) (reqs : list Request) : list (bytes * Z) :=
  match reqs with
  | [] => []
  | req :: rest =>
      let '(st', _, a) := hook st req in
      match a, frame_key req with
      | HookPass, Some x => x :: accepted st' rest
      | _, _ => accepted st' rest
      end
  end.

Definition times_of (device : bytes) (l : list (bytes * Z)) : list Z :=
  omap (fun p => if decide (p.1 = device) then Some p.2 else None) l.

(** with the time check on, the frames of one device that pass the hook have
    strictly increasing timestamps, whatever frames of other devices, malformed
    frames and requests of other kinds come in between, and all of them are later
    than what the filter remembers of the device. *)
Theorem accepted_timestamps_increase (f : Filter) (m : Metrics) (reqs : list Request) (device : bytes)
    (Hd : dropBackward f = true) :
  StronglySorted Z.lt (times_of device (accepted (f, m) reqs)) /\
  forall last, lastTS f !! device = Some last -> Forall (fun t => last < t) (times_of device (accepted (f, m) reqs)).
Proof.
  revert f m Hd. induction reqs as [|req reqs IH]; intros f m Hd; [split; [constructor|intros; constructor]|].
  cbn [accepted]. destruct (hook (f, m) req) as [[[f' m'] req'] a] eqn:Hh.
  destruct (hook_times _ _ _ _ _ _ _ Hd Hh) as [Hd' Ht]. specialize (IH f' m' Hd') as [IH1 IH2].
  assert (lastTS f' = lastTS f -> StronglySorted Z.lt (times_of device (accepted (f', m') reqs)) /\
    forall last, lastTS f !! device = Some last -> Forall (fun t => last < t) (times_of device (accepted (f', m') reqs))) as Hsame.
  { intros <-. by split. }
  destruct a; [|by apply Hsame]. destruct (frame_key req) as [[d ts]|]; [|by apply Hsame]. clear Hsame.
  destruct Ht as [Hl Hlast]. unfold times_of in *. cbn [omap list_omap fst snd]. destruct (decide (d = device)) as [->|Hne].
  - assert (Forall (fun t => ts < t) (omap (fun p : bytes * Z => if decide (p.1 = device) then Some p.2 else None) (accepted (f', m') reqs))) as Hall.
    { apply IH2. by rewrite Hl, lookup_insert_eq. }
    split; [by constructor|]. intros last Hlk. specialize (Hlast last Hlk). constructor; [done|].
    eapply Forall_impl; [exact Hall|]. cbn. lia.
  - split; [done|]. intros last Hlk. apply IH2. by rewrite Hl, lookup_insert_ne.
Qed.

(** ** Redaction *)

Lemma redact_fields_spec fields m ch :
  let '(m', ch') := foldl redact_field (m, ch) fields in
  (forall k, m' !! k = if bool_decide (k ∈ fields) then (fun _ => redactedValue) <$> (m !! k) else m !! k) /\
  (ch' = true <-> ch = true \/ exists k, k ∈ fields /\ is_Some (m !! k)).
Proof.
  revert m ch. induction fields as [|field fields IH]; intros m ch; cbn [foldl].
  { split; [done|]. split; [by left|]. by intros [?|(k & ?%elem_of_nil & _)]. }
  unfold redact_field at 2. cbn [fst]. destruct (m !! field) as [old|] eqn:Hf.
  - specialize (IH (<[field := redactedValue]> m) true). destruct (foldl _ _ _) as [m' ch']. destruct IH as [IH1 IH2]. split.
    + intros k. rewrite IH1. destruct (decide (k = field)) as [->|Hne].
      * rewrite lookup_insert_eq, Hf, (bool_decide_true (field ∈ field :: fields)) by left. by destruct (bool_decide _).
      * rewrite lookup_insert_ne by done. assert (k ∈ field :: fields <-> k ∈ fields) as E by set_solver.
        by rewrite (bool_decide_ext _ _ E).
    + split; [|by intros _; apply IH2; left]. intros _. right. exists field. split; [left|by rewrite Hf].
  - specialize (IH m ch). destruct (foldl _ _ _) as [m' ch']. destruct IH as [IH1 IH2]. split.
    + intros k. rewrite IH1. destruct (decide (k = field)) as [->|Hne].
      * rewrite Hf. by repeat destruct (bool_decide _).
      * assert (k ∈ field :: fields <-> k ∈ fields) as E by set_solver. by rewrite (bool_decide_ext _ _ E).
    + rewrite IH2. split; (intros [?|(k & Hk & Hs)]; [by left|right]).
      * exists k. split; [by right|done].
      * apply elem_of_cons in Hk as [->|Hk]; [rewrite Hf in Hs; by destruct Hs|by exists k].
Qed.

(** The value is rewritten exactly when it is an object with a field to redact. *)
Lemma redact_spec value fields :
  (exists obj obj', unmarshal_object value = Some obj /\ (exists k, k ∈ fields /\ is_Some (obj !! k)) /\
     redact value fields = (marshal_map obj', true) /\
     forall k, obj' !! k = if bool_decide (k ∈ fields) then (fun _ => redactedValue) <$> (obj !! k) else obj !! k) \/
  (redact value fields = (value, false) /\
     forall obj k, unmarshal_object value = Some obj -> k ∈ fields -> obj !! k = None).
Proof.
  destruct fields as [|f0 fields]; [right; split; [done|]; by intros ? ? _ ?%elem_of_nil|]. unfold redact.
  destruct (unmarshal_object value) as [obj|] eqn:Hobj; [|by right].
  pose proof (redact_fields_spec (f0 :: fields) obj false) as Hs. destruct (foldl _ _ _) as [m ch]. destruct Hs as [Hm Hch].
  destruct ch; cbn [negb].
  - left. exists obj, m. destruct (proj1 Hch eq_refl) as [?|Hk]; [done|]. by split_and!.
  - right. split; [done|]. intros o k [= <-] Hk. destruct (obj !! k) eqn:E; [|done].
    assert (false = true); [|done]. apply Hch. right. exists k. by rewrite E.
Qed.

(** *** What is marshalled reads back *)

(** Texts that [json.Marshal] can write: names that are text, values that are
    JSON. *)
Definition member_ok (p : bytes * bytes) : Prop := utf8 p.1 /\ exists g, value_text g (maxNestingDepth - 1) p.2.

Definition read_member (p : bytes * bytes) : option (bytes * bytes) := name ← unquote p.1; Some (name, p.2).

Lemma read_member_ok body name x : unquote body = Some name -> read_member (body, x) = Some (name, x).
Proof. intros Hq. unfold read_member. cbn [fst snd]. by rewrite Hq. Qed.

Lemma member_scan p : member_ok p ->
  exists g body, marshal_member p = quote :: body ++ quote :: colon :: compact Outside p.2 /\ str_body body /\
    unquote body = Some p.1 /\ rescans g (maxNestingDepth - 1) p.2.
Proof.
  intros (Hu & g & _ & Hr). destruct (MarshalString_text p.1 Hu) as (body & E & Hb & Hq). exists g, body.
  split; [|done]. unfold marshal_member. rewrite E. cbn. by rewrite <- app_assoc.
Qed.

Lemma join_scan ps : ps <> [] -> Forall member_ok ps ->
  exists g ms, (forall r, scan_members g (maxNestingDepth - 1) (join_members (marshal_member <$> ps) ++ brace :: r) = Some (ms, r)) /\
    mapM read_member ms = Some ((fun p => (p.1, compact Outside p.2)) <$> ps).
Proof.
  intros Hne Hok. induction Hok as [|p ps Hp Hok IH]; [done|]. clear Hne.
  destruct (member_scan p Hp) as (g & body & E & Hb & Hq & Hr). destruct ps as [|p2 ps].
  - exists (S g), [(body, compact Outside p.2)]. split.
    + intros r. cbn [fmap list_fmap join_members]. rewrite E. destruct (Hr (brace :: r)) as [v Hv]; [by right; right|].
      cbn [app]. rewrite <- app_assoc. cbn [app]. rewrite (scan_member_text _ _ _ _ _ _ _ Hb Hv), skip_space_no by done.
      rewrite upto_app. done.
    + cbn [mapM fmap list_fmap]. by rewrite (read_member_ok body) with (name := p.1) by done.
  - destruct IH as (g2 & ms & Hms & Hread); [done|]. set (G := Nat.max g g2).
    exists (S G), ((body, compact Outside p.2) :: ms). split.
    + intros r. change (join_members (marshal_member <$> p :: p2 :: ps)) with
        (marshal_member p ++ comma :: join_members (marshal_member <$> p2 :: ps)). rewrite E. specialize (Hms r).
      set (rest := join_members (marshal_member <$> p2 :: ps)) in *.
      destruct (Hr (comma :: rest ++ brace :: r)) as [v Hv]; [by left|].
      assert ((quote :: body ++ quote :: colon :: compact Outside p.2) ++ comma :: rest =
        quote :: body ++ quote :: colon :: compact Outside p.2 ++ comma :: rest) as -> by (cbn; by rewrite <- app_assoc).
      cbn [app]. rewrite <- !app_assoc. cbn [app]. rewrite <- !app_assoc. cbn [app].
      assert (scan_value G (maxNestingDepth - 1) (compact Outside p.2 ++ comma :: rest ++ brace :: r) = Some (v, comma :: rest ++ brace :: r)) as Hv'
        by (destruct (scan_mono g) as [Hm _]; apply Hm; [unfold G; lia|done]).
      rewrite (scan_member_text _ _ _ _ _ _ _ Hb Hv'), skip_space_no by done. rewrite upto_app.
      change (bval comma =? 125) with false. change (bval comma =? 44) with true. cbn iota.
      assert (scan_members G (maxNestingDepth - 1) (rest ++ brace :: r) = Some (ms, r)) as Hms'
        by (destruct (scan_mono g2) as (_ & _ & Hm); apply Hm; [unfold G; lia|done]).
      destruct (members_head _ _ _ _ _ Hms') as [s' Eh]. rewrite Eh in *. rewrite skip_space_no by done. by rewrite Hms'.
    + cbn [mapM]. rewrite (read_member_ok body) with (name := p.1) by done. cbn [mbind option_bind]. by rewrite Hread.
Qed.

(** The entries of the map a list of members with distinct names makes. *)
Lemma foldl_put_member l m0 k :
  NoDup l.*1 -> foldl put_member m0 l !! k = match (list_to_map l : gmap bytes bytes) !! k with Some v => Some v | None => m0 !! k end.
Proof.
  revert m0. induction l as [|[k' v'] l IH]; intros m0 Hn; [done|]. apply NoDup_cons in Hn as [Hk Hn].
  rewrite list_to_map_cons. cbn [foldl]. rewrite IH by done. unfold put_member. cbn [fst snd].
  destruct (decide (k' = k)) as [->|Hne].
  - rewrite !lookup_insert_eq. by rewrite not_elem_of_list_to_map_1.
  - by rewrite !lookup_insert_ne.
Qed.

Lemma foldl_put_member_from l m0 k v : foldl put_member m0 l !! k = Some v -> (k, v) ∈ l \/ m0 !! k = Some v.
Proof.
  revert m0. induction l as [|[k' v'] l IH]; intros m0 H; [by right|]. cbn [foldl] in H. apply IH in H as [H|H]; [left; by right|].
  unfold put_member in H. cbn [fst snd] in H. apply lookup_insert_Some in H as [[<- <-]|[_ H]]; [left; by left|by right].
Qed.

Lemma marshal_map_reads m : map_Forall (fun k v => member_ok (k, v)) m ->
  unmarshal_object (marshal_map m) = Some (compact Outside <$> m).
Proof.
  intros Hok. unfold marshal_map. set (ps := merge_sort name_le (map_to_list m)).
  assert (ps ≡ₚ map_to_list m) as Hperm by apply merge_sort_Permutation.
  destruct ps as [|p0 ps0] eqn:Hps.
  { symmetry in Hperm. apply Permutation_nil_r, map_to_list_empty_iff in Hperm as ->. by rewrite fmap_empty. }
  rewrite <- Hps in Hperm.
  rewrite <- Hps.
  assert (Forall member_ok ps) as Hall.
  { apply Forall_forall. intros [k v] Hin. rewrite Hperm in Hin. apply elem_of_map_to_list in Hin. by apply Hok. }
  assert (NoDup ps.*1) as Hnd by (rewrite Hperm; apply NoDup_fst_map_to_list).
  assert (ps <> []) as Hne by (by rewrite Hps). clear Hps p0 ps0.
  destruct (join_scan ps Hne Hall) as (g & ms & Hscan & Hread). specialize (Hscan []).
  assert (parse (Cmd.open_brace :: join_members (marshal_member <$> ps) ++ [brace]) = Some (Obj ms)) as Hparse.
  { apply (parse_of_scan (S g)); [done|]. cbn [scan_value]. change (bval Cmd.open_brace =? 34) with false.
    change (bval Cmd.open_brace =? 123) with true. change (maxNestingDepth <=? 0) with false. cbn iota.
    destruct (members_head _ _ _ _ _ Hscan) as [s' Eh]. rewrite Eh in *. rewrite skip_space_no by done.
    change (bval quote =? 125) with false. cbn iota. by rewrite Hscan. }
  unfold unmarshal_object. rewrite Hparse. change (fun p => name ← unquote p.1; Some (name, p.2)) with read_member. rewrite Hread.
  cbn [mbind option_bind]. f_equal. apply map_eq. intros k. rewrite foldl_put_member.
  - rewrite lookup_fmap, lookup_empty. change (fun p : bytes * bytes => (p.1, compact Outside p.2)) with (prod_map (@id bytes) (compact Outside)).
    rewrite list_to_map_fmap, lookup_fmap, (list_to_map_proper ps (map_to_list m)) by done.
    rewrite list_to_map_to_list. by destruct (m !! k).
  - rewrite <- list_fmap_compose. exact Hnd.
Qed.

(** A frame that the hook builds is never malformed, whatever its size. *)
Lemma le32_at_wrapped a z c : le32_at (zlen a) (a ++ le_enc 4 z ++ c) = Some (z mod 2 ^ 32).
Proof.
  assert (le_enc 4 z = le_enc 4 (z mod 2 ^ 32)) as ->.
  { pose proof (le_enc_dec (le_enc 4 z)) as E. rewrite length_le_enc, le_dec_enc in E. symmetry. exact E. }
  apply le32_at_app; [|done]. pose proof (Z.mod_pos_bound z (2 ^ 32)). unfold u32. lia.
Qed.

Lemma parsePut_rebuilt key value : exists k v, Proto.KV.parsePut (Proto.KV.encodePut key value) = Some (Some (k, v)).
Proof.
  destruct (Proto.KV.parsePut_total (Proto.KV.encodePut key value)) as [[[k v]|] E]; [by exists k, v|]. exfalso.
  unfold Proto.KV.parsePut, Proto.KV.encodePut in E. revert E. set (data := le_enc 4 (zlen key) ++ _).
  pose proof (zlen_nonneg key). pose proof (zlen_nonneg value).
  assert (zlen data = 8 + zlen key + zlen value) as Hl by (unfold data; len_lia).
  assert (le32_at 0 data = Some (zlen key mod 2 ^ 32)) as -> by (apply (le32_at_wrapped [])).
  assert (le32_at 4 data = Some (zlen value mod 2 ^ 32)) as ->.
  { pose proof (le32_at_wrapped (le_enc 4 (zlen key)) (zlen value) (key ++ value)) as E. by rewrite zlen_le_enc in E. }
  pose proof (Z.mod_pos_bound (zlen key) (2 ^ 32)). pose proof (Z.mod_pos_bound (zlen value) (2 ^ 32)).
  pose proof (Z.mod_le (zlen key) (2 ^ 32)). pose proof (Z.mod_le (zlen value) (2 ^ 32)).
  cbn [mbind option_bind]. rewrite Hl. destruct (Z.ltb_spec (8 + zlen key + zlen value) 8); [lia|].
  destruct (Z.ltb_spec (zlen key mod 2 ^ 32) 0), (Z.ltb_spec (zlen value mod 2 ^ 32) 0),
    (Z.ltb_spec (8 + zlen key + zlen value) (8 + zlen key mod 2 ^ 32 + zlen value mod 2 ^ 32)); try lia. cbn [orb].
  by repeat (destruct (slice _ _ data); cbn [mbind option_bind]).
Qed.

Lemma unmarshal_members_ok value obj : unmarshal_object value = Some obj -> map_Forall (fun k v => member_ok (k, v)) obj.
Proof.
  unfold unmarshal_object. destruct (parse value) as [v|] eqn:Hp; [|done].
  destruct v as [| | | | |members]; try done; [intros [= <-]; apply map_Forall_empty|].
  intros (ms & Hms & [= <-])%bind_Some k v Hk. apply foldl_put_member_from in Hk as [Hk|Hk]; [|by rewrite lookup_empty in Hk].
  apply mapM_Some in Hms. pose proof (parse_members _ _ Hp) as Hall. apply list_elem_of_lookup in Hk as [i Hi].
  destruct (Forall2_lookup_r _ _ _ _ _ Hms Hi) as (p & Hpi & Hread). rewrite Forall_lookup in Hall.
  destruct (Hall i p Hpi) as (_ & g & Hv). apply bind_Some in Hread as (name & Hq & [= <- <-]).
  split; [by eapply unquote_utf8|by exists g].
Qed.

Lemma redactedValue_text : exists g, value_text g (maxNestingDepth - 1) redactedValue.
Proof.
  exists 1%nat. destruct (scan_compact 1) as [Hv _].
  destruct (Hv (maxNestingDepth - 1) redactedValue (Str (of_string "[REDACTED]")) []) as (w & E & Hw); [by vm_compute|].
  rewrite app_nil_r in E. by subst w.
Qed.

(** The value the hook leaves reads as the object with its fields redacted. *)
Lemma redact_reads value fields obj :
  unmarshal_object value = Some obj ->
  exists obj', unmarshal_object (redact value fields).1 = Some obj' /\
    (forall k, k ∈ fields -> obj' !! k = (fun _ => redactedValue) <$> (obj !! k)) /\
    (forall k, k ∉ fields -> obj' !! k = obj !! k \/ obj' !! k = compact Outside <$> (obj !! k)).
Proof.
  intros Hobj. destruct (redact_spec value fields) as [(o & obj' & Ho & _ & E & Hobj')|[E Hnone]]; rewrite E; cbn [fst].
  - rewrite Ho in Hobj. injection Hobj as ->. exists (compact Outside <$> obj'). split.
    + apply marshal_map_reads. intros k v Hk. rewrite Hobj' in Hk. pose proof (unmarshal_members_ok _ _ Ho) as Hall.
      destruct (bool_decide (k ∈ fields)).
      * destruct (obj !! k) as [old|] eqn:Hold; [|done]. injection Hk as <-. destruct (Hall k old Hold) as [Hu _].
        split; [done|apply redactedValue_text].
      * by apply Hall.
    + split; intros k Hk; rewrite lookup_fmap, Hobj'.
      * rewrite bool_decide_true by done. by destruct (obj !! k).
      * rewrite bool_decide_false by done. by right.
  - exists obj. split; [done|]. split; [|by left]. intros k Hk. by rewrite (Hnone obj k).
Qed.

(** What becomes of a PUT frame that parses: it is dropped, or passes with its
    value redacted. *)
Lemma hook_put f m req key value :
  GetReqID req = Routing.MsgPut -> Proto.KV.parsePut (GetMsgData req) = Some (Some (key, value)) ->
  u32 (zlen key) -> u32 (zlen (redact value (redactFields f)).1) ->
  exists f' m' req' a, hook (f, m) req = (f', m', req', a) /\ redactFields f' = redactFields f /\ maxValueLen f' = maxValueLen f /\
    dropBackward f' = dropBackward f /\
    (a = HookPass -> GetReqID req' = Routing.MsgPut /\
       Proto.KV.parsePut (GetMsgData req') = Some (Some (key, (redact value (redactFields f)).1))).
Proof.
  intros Hput Hparse Hkey Hnew. unfold hook, Handle. rewrite bool_decide_true, Hparse by done. cbn [negb mbind option_bind].
  destruct (_ && _); [by eexists _, _, _, _|].
  assert (redactFields (check_ts f key).1 = redactFields f /\ maxValueLen (check_ts f key).1 = maxValueLen f /\
    dropBackward (check_ts f key).1 = dropBackward f) as (E1 & E2 & E3).
  { unfold check_ts. destruct (negb _); [done|]. destruct (parseKey key) as [[d ts]|]; [|done].
    destruct (lastTS f !! d); [|done]. by destruct (_ <=? _). }
  destruct (check_ts f key) as [f1 []]; cbn [fst] in *; [by eexists _, _, _, _|]. rewrite E1.
  destruct (redact value (redactFields f)) as [nv []] eqn:Er; cbn [fst] in *; eexists _, _, _, _; (split; [reflexivity|]);
    (split_and!; [done..|]); intros _; (split; [done|]).
  - change (GetMsgData (SetMsgData req ?d)) with d. by rewrite Proto.KV.parsePut_encodePut.
  - destruct (redact_spec value (redactFields f)) as [(o & obj' & _ & _ & E & _)|[E _]]; rewrite Er in E; [done|].
    injection E as ->. done.
Qed.

(** redaction: when a PUT frame whose value is a JSON object passes the hook,
    the frame the store gets has the same key and a value that is again a JSON
    object with the same members, in which every field to redact that was there
    reads [[REDACTED]] and every other member has its old value, as it was or
    compacted. *)
Theorem redaction_hides_fields (f : Filter) (m : Metrics) (req : Request) (f' : Filter) (m' : Metrics) (req' : Request)
    (key value : bytes) (obj : gmap bytes bytes)
    (Hput : GetReqID req = Routing.MsgPut) (Hparse : Proto.KV.parsePut (GetMsgData req) = Some (Some (key, value)))
    (Hpass : hook (f, m) req = (f', m', req', HookPass)) (Hobj : unmarshal_object value = Some obj)
    (Hkey : u32 (zlen key)) (Hnew : u32 (zlen (redact value (redactFields f)).1)) :
  exists value' obj', Proto.KV.parsePut (GetMsgData req') = Some (Some (key, value')) /\ unmarshal_object value' = Some obj' /\
    (forall k, k ∈ redactFields f -> obj' !! k = (fun _ => redactedValue) <$> (obj !! k)) /\
    (forall k, k ∉ redactFields f -> obj' !! k = obj !! k \/ obj' !! k = compact Outside <$> (obj !! k)).
Proof.
  destruct (hook_put f m req key value Hput Hparse Hkey Hnew) as (f1 & m1 & req1 & a & Hrun & _ & _ & _ & Hdata).
  rewrite Hrun in Hpass. injection Hpass as <- <- <- ->. destruct (Hdata eq_refl) as [_ Hp].
  destruct (redact_reads value (redactFields f) obj Hobj) as (obj' & H1 & H2 & H3). by exists (redact value (redactFields f)).1, obj'.
Qed.

(** ** One reply per frame *)

Lemma hook_outcome f m req f' m' req' a :
  GetReqID req = Routing.MsgPut -> hook (f, m) req = (f', m', req', a) ->
  match a with
  | HookDrop => f' = f /\ req' = req /\ (m' = drop_malformed m \/ m' = drop_oversized m \/ m' = drop_nonmonotonic m)
  | HookPass => m' = m /\ GetReqID req' = Routing.MsgPut /\
      exists key value, Proto.KV.parsePut (GetMsgData req') = Some (Some (key, value))
  end.
Proof.
  intros Hid. unfold hook, Handle. rewrite bool_decide_true by done. cbn [negb].
  destruct (Proto.KV.parsePut (GetMsgData req)) as [p|] eqn:Hp; [|by destruct (Proto.KV.parsePut_total (GetMsgData req)) as [? E]; rewrite E in Hp].
  cbn [mbind option_bind]. destruct p as [[key value]|]; [|intros [= <- <- <- <-]; auto].
  destruct (_ && _); [intros [= <- <- <- <-]; auto|].
  assert (check_ts f key = (f, true) \/ (check_ts f key).2 = false) as Hc.
  { unfold check_ts. destruct (negb _); [by right|]. destruct (parseKey key) as [[d ts]|]; [|by right].
    destruct (lastTS f !! d); [|by right]. destruct (_ <=? _); [by left|by right]. }
  destruct (check_ts f key) as [f1 []].
  - destruct Hc as [[= ->]|?]; [|done]. intros [= <- <- <- <-]. auto.
  - destruct (redact value (redactFields f1)) as [nv []]; intros [= <- <- <- <-]; (split; [done|]; split; [done|]).
    + apply (parsePut_rebuilt key nv).
    + by exists key, value.
Qed.

(** the hook forgets nothing of a frame it let through: the same frame sent
    again is dropped as a replay, whatever became of the first one; so a client
    that retries after its write failed is told [dropped], and the value is lost. *)
Theorem retry_is_dropped (f : Filter) (m : Metrics) (req : Request) (d : bytes) (ts : Z) (f1 : Filter) (m1 : Metrics) (req1 : Request)
    (Hd : dropBackward f = true) (Hkey : frame_key req = Some (d, ts)) (Hpass : hook (f, m) req = (f1, m1, req1, HookPass)) :
  hook (f1, m1) req = (f1, drop_nonmonotonic m1, req, HookDrop).
Proof.
  destruct (hook_times _ _ _ _ _ _ _ Hd Hpass) as [Hd1 Hl]. rewrite Hkey in Hl. destruct Hl as [Hl _].
  unfold frame_key in Hkey. destruct (bool_decide (GetReqID req = Routing.MsgPut)) eqn:Hid; [|done].
  unfold hook, Handle in *. rewrite Hid in *. cbn [negb] in *.
  destruct (Proto.KV.parsePut (GetMsgData req)) as [[[key value]|]|]; [|done|done]. cbn [mbind option_bind] in *.
  assert (maxValueLen f1 = maxValueLen f) as ->.
  { destruct (_ && _); [done|]. destruct (check_ts f key) as [f2 []] eqn:Hc; [done|].
    destruct (redact _ _). injection Hpass as <- _ _. unfold check_ts in Hc. rewrite Hd, Hkey in Hc. cbn [negb] in Hc.
    destruct (lastTS f !! d); [destruct (_ <=? _)|]; by injection Hc as <-. }
  destruct (_ && _); [done|]. unfold check_ts at 1. rewrite Hd1, Hkey, Hl, lookup_insert_eq. cbn [negb].
  by rewrite Z.leb_refl.
Qed.

Section Replies.
Context {M : Type} `{IMemTable M} `{Raft.RaftConfig}.

Lemma write_responses f (r r' : Routing.Router M (Filter * Metrics)) cmd add h :
  Routing.handle_write f r cmd add = Some (r', h) ->
  (responses h = [Routing.sendOK] \/ responses h = [Routing.sendErr]) /\ Routing.hookState r' = Routing.hookState r.
Proof.
  unfold Routing.handle_write. destruct (KV.Write f (Routing.kv r) cmd) as [[[k msgs] o]|]; cbn [mbind option_bind]; [|done].
  intros [= <- <-]. split; [|done]. destruct o as [[?|?]|?]; cbn; auto.
Qed.

(** with the filter installed as the server installs it, a PUT frame gets
    exactly one reply, be it malformed, too large, late, accepted or refused by
    the store: a frame the filter drops is answered [dropped], touches neither
    log nor memtable and is counted in one of the three drop counters; a frame
    that passes is answered by the outcome of its write and counted in none. *)
Theorem put_frames_answered_once (m m' : Dispatch.MsgHandle (Routing.Router M (Filter * Metrics))) (p : nat)
    (r : Routing.Router M (Filter * Metrics)) (f : Filter) (c : Metrics) (request : Request) (h : handled)
    (Hid : Dispatch.Arip m !! Routing.MsgPut = Some p) (Hobj : Dispatch.objects m !! p = Some r)
    (Hpre : Routing.preHandleFunc r = Some hook) (Hpost : Routing.postHandleFunc r = None)
    (Hst : Routing.hookState r = (f, c)) (Hput : GetReqID request = Routing.MsgPut)
    (Hrun : Dispatch.DoMsgHandle m request = Some (m', h)) :
  exists rsp r', responses h = [rsp] /\ Dispatch.objects m' !! p = Some r' /\
    ((rsp = Routing.sendDropped /\ Routing.kv r' = Routing.kv r /\ (Routing.hookState r').1 = f /\
        ((Routing.hookState r').2 = drop_malformed c \/ (Routing.hookState r').2 = drop_oversized c \/
         (Routing.hookState r').2 = drop_nonmonotonic c)) \/
     ((rsp = Routing.sendOK \/ rsp = Routing.sendErr) /\ (Routing.hookState r').2 = c)).
Proof.
  unfold Dispatch.DoMsgHandle in Hrun. rewrite Hput, Hid, Hobj in Hrun. cbn [mbind option_bind Network.PreHandle Routing.Router_IRouter] in Hrun.
  unfold Routing.PreHandle in Hrun. rewrite Hpre, Hst in Hrun.
  destruct (hook (f, c) request) as [[[f1 c1] req1] a] eqn:Hh. pose proof (hook_outcome _ _ _ _ _ _ _ Hput Hh) as Ho.
  assert (forall x : Routing.Router M (Filter * Metrics), <[p := x]> (Dispatch.objects m) !! p = Some x) as Hat.
  { intros x. apply list_lookup_insert_eq. by eapply lookup_lt_Some. }
  destruct a.
  - destruct Ho as (-> & Hid1 & key & value & Hparse). rewrite bool_decide_false in Hrun by done.
    cbn [Network.Handle Routing.Router_IRouter] in Hrun. unfold Routing.Handle in Hrun. rewrite bool_decide_true in Hrun by done.
    rewrite Session.handlePut_parse, Hparse in Hrun. cbn [mbind option_bind] in Hrun.
    destruct (Routing.handle_write _ _ _ _) as [[r2 h2]|] eqn:Hw; [|done]. cbn [mbind option_bind Network.PostHandle Routing.Router_IRouter] in Hrun.
    injection Hrun as <- <-. destruct (write_responses _ _ _ _ _ _ Hw) as [Hrsp Hst2]. unfold Routing.PostHandle.
    assert (Routing.postHandleFunc r2 = None) as ->.
    { unfold Routing.handle_write in Hw. destruct (KV.Write _ _ _) as [[[k msgs] o]|]; [|done]. by injection Hw as <- _. }
    destruct Hrsp as [Hrsp|Hrsp]; rewrite Hrsp; eexists _, r2; (split; [done|]; split; [apply Hat|]; right; rewrite Hst2; auto).
  - destruct Ho as (-> & -> & Hc). rewrite bool_decide_true in Hrun by done. injection Hrun as <- <-.
    eexists _, _. split; [done|]. split; [apply Hat|]. by left.
Qed.

(** A GET or DEL frame that does not parse gets no reply at all, hook or not. *)
Lemma malformed_get_unanswered f (r : Routing.Router M (Filter * Metrics)) c :
  Routing.Handle f r (NewRequest (BanNet.NewMessage Routing.MsgGet []) c) = Some (r, Answered []).
Proof. done. Qed.

End Replies.

(** ** Sample: a device that sends its readings twice and out of order *)
Section Sample.
#[local] Existing Instances Recovery.sample_storage Recovery.sample_raft Recovery.sample_ops.

Definition sample_filter : Filter := NewFilter [of_string "az"; of_string "gps"] 0 true.

Definition sample_frame (key : string) : Request :=
  NewRequest (BanNet.NewMessage Routing.MsgPut (Proto.KV.encodePut (of_string key) Predicates.sample_row)) 4.

Lemma accepted_timestamps_increase_witness :
  times_of (of_string "imu:d") (accepted (sample_filter, zero)
    [sample_frame "imu:d:5"; sample_frame "imu:e:1"; sample_frame "imu:d:5"; sample_frame "imu:d:-3"; sample_frame "imu:d:9"]) = [5; 9] /\
  StronglySorted Z.lt [5; 9].
Proof.
  assert (times_of (of_string "imu:d") (accepted (sample_filter, zero)
    [sample_frame "imu:d:5"; sample_frame "imu:e:1"; sample_frame "imu:d:5"; sample_frame "imu:d:-3"; sample_frame "imu:d:9"]) = [5; 9]) as E
    by (vm_compute; reflexivity).
  split; [exact E|]. rewrite <- E. by apply (accepted_timestamps_increase sample_filter zero).
Defined.

Lemma sample_passes : exists f1 req1, hook (sample_filter, zero) (sample_frame "imu:d:5") = (f1, zero, req1, HookPass).
Proof.
  assert ((hook (sample_filter, zero) (sample_frame "imu:d:5")).2 = HookPass /\
    (hook (sample_filter, zero) (sample_frame "imu:d:5")).1.1.2 = zero) as [E1 E2] by (split; vm_compute; reflexivity).
  destruct (hook _ _) as [[[f1 m1] req1] a]. cbn in E1, E2. subst. by exists f1, req1.
Qed.

Lemma retry_is_dropped_witness :
  exists f1, (exists req1, hook (sample_filter, zero) (sample_frame "imu:d:5") = (f1, zero, req1, HookPass)) /\
    hook (f1, zero) (sample_frame "imu:d:5") = (f1, mkMetrics 0 0 1, sample_frame "imu:d:5", HookDrop).
Proof.
  destruct sample_passes as (f1 & req1 & E). exists f1. split; [by exists req1|].
  by apply (retry_is_dropped sample_filter zero (sample_frame "imu:d:5") (of_string "imu:d") 5 f1 zero req1).
Defined.

Lemma redaction_hides_fields_witness :
  exists req1 value' obj', (exists f1, hook (sample_filter, zero) (sample_frame "imu:d:5") = (f1, zero, req1, HookPass)) /\
    Proto.KV.parsePut (GetMsgData req1) = Some (Some (of_string "imu:d:5", value')) /\
    unmarshal_object value' = Some obj' /\ obj' !! of_string "az" = Some redactedValue.
Proof.
  destruct sample_passes as (f1 & req1 & E).
  destruct (redaction_hides_fields sample_filter zero (sample_frame "imu:d:5") f1 zero req1
    (of_string "imu:d:5") Predicates.sample_row Predicates.sample_obj)
    as (value' & obj' & H1 & H2 & H3 & _).
  - reflexivity.
  - vm_compute. reflexivity.
  - exact E.
  - exact Predicates.sample_row_obj.
  - eval_closed.
  - vm_compute. split; [discriminate|reflexivity].
  - exists req1, value', obj'. split; [by exists f1|]. split; [exact H1|]. split; [exact H2|]. rewrite H3 by left. vm_compute. reflexivity.
Defined.

Definition sample_router : Routing.Router (Live.Live SkipList.table) (Filter * Metrics) :=
  Routing.SetPreHandle (Routing.NewRouter Recovery.sample_server (sample_filter, zero)) hook.
Definition sample_server : Dispatch.MsgHandle (Routing.Router (Live.Live SkipList.table) (Filter * Metrics)) :=
  Dispatch.AddRouter (Dispatch.NewMsgHandle 2 [sample_router]) Routing.MsgPut 0.

Lemma put_frames_answered_once_witness :
  exists m' h, Dispatch.DoMsgHandle sample_server (sample_frame "imu:d:5") = Some (m', h) /\ exists rsp, responses h = [rsp].
Proof.
  assert ((if Dispatch.DoMsgHandle sample_server (sample_frame "imu:d:5") then true else false) = true) as Hrun by (vm_compute; reflexivity).
  destruct (Dispatch.DoMsgHandle sample_server (sample_frame "imu:d:5")) as [[m' h]|] eqn:E; [|discriminate Hrun].
  exists m', h. split; [reflexivity|].
  destruct (put_frames_answered_once sample_server m' 0 sample_router sample_filter zero (sample_frame "imu:d:5") h) as (rsp & r' & H & _);
    [vm_compute; reflexivity|reflexivity..|exact E|]. exists rsp. exact H.
Defined.

End Sample.

End Filter.
