(* ===== verification/Metrics.v ===== *)
(** The metrics of [pkg/metrics/metrics.go] together: the counters the hook, the
    router and the memtable bump, the two gauges, the snapshot and its logger; and
    that the counters account for the requests of a server. *)
From S2P Require Import Prelude Bytes Strconv SkipList Bloom SSTable MemTable Engine StorageWAL RaftWAL Raft Wire Proto Network Service Recovery Client Session Ingest.
Import Routing.

Module Exposition.

(** ** Gauges *)

Section Gauges.
(** What the callback reads. *)
Context {W : Type}.

Record Gauges := mkGauges { memTableInflightFn : option (W -> Z); memTableBudget : Z }.
Definition no_gauges : Gauges := mkGauges None 0.

Definition SetMemTableGauges (g : Gauges) (inflight : option (W -> Z)) (budget : Z) : Gauges :=
  mkGauges (match inflight with Some f => Some f | None => memTableInflightFn g end) budget.

Definition memTableInflight (g : Gauges) (w : W) : Z :=
  match memTableInflightFn g with Some f => f w | None => 0 end.

(** ** Snapshots *)

Record Snapshot := mkSnapshot {
  DroppedMalformed : Z; DroppedOversized : Z; DroppedNonMonotonic : Z;
  s_Writes : Z; s_Reads : Z; s_Scans : Z; s_Deletes : Z; s_WriteErrors : Z;
  BackpressureStalls : Z; MemTableInflightBytes : Z; MemTableBudgetBytes : Z;
}.

Definition Take (d : Metrics.Metrics) (c : Counters) (stalls : Z) (g : Gauges) (w : W) : Snapshot :=
  mkSnapshot (Metrics.FramesDroppedMalformed d) (Metrics.FramesDroppedOversized d) (Metrics.FramesDroppedNonMonotonic d)
    (Writes c) (Reads c) (Scans c) (Deletes c) (WriteErrors c) stalls (memTableInflight g w) (memTableBudget g).

(** What the logger's [select] receives. *)
Inductive wake := Tick (s : Snapshot) | Done.

Fixpoint logger_loop (wakes : list wake) : list Snapshot :=
  match wakes with
  | Tick s :: rest => s :: logger_loop rest
  | Done :: _ | [] => []
  end.

(** The lines it logs. *)
Definition StartLogger (interval : Z) (wakes : list wake) : list Snapshot :=
  if interval <=? 0 then [] else logger_loop wakes.

End Gauges.
#[global] Arguments Gauges : clear implicits.

(** ** The counters account for the requests *)

Section Accounting.
Context {M : Type} `{IMemTable M} `{Raft.RaftConfig} {F : Type}.

Abbreviation served := (Request * handled)%type.

(** A server's requests, handled one after the other. *)
Definition handle_all (f : WAL.fault) (r : Router M F) (reqs : list Request) : option (Router M F * list served) :=
  foldl (fun s req => '(r, out) ← s; '(r, h) ← Handle f r req; Some (r, out ++ [(req, h)])) (Some (r, [])) reqs.

Definition is_id (id : bytes) (s : served) : bool := bool_decide (GetReqID s.1 = id).
Definition write_ok (id : bytes) (s : served) : bool :=
  is_id id s && match s.2 with Answered [rsp] => bool_decide (rsp = sendOK) | _ => false end.
Definition write_failed (s : served) : bool :=
  (is_id MsgPut s || is_id MsgDelete s) && match s.2 with Answered [rsp] => bool_decide (rsp = sendErr) | _ => false end.
(** An answer, whatever it says. *)
Definition was_answered (id : bytes) (s : served) : bool :=
  is_id id s && match s.2 with Answered (_ :: _) => true | _ => false end.
Definition scan_ok (s : served) : bool :=
  is_id MsgScan s && match s.2 with Answered [rsp] => bool_decide (rsp.1 = MsgRespOK) | _ => false end.

Definition number (p : served -> bool) (l : list served) : Z := zlen (filter (fun s => p s = true) l).

Lemma number_snoc p l s : number p (l ++ [s]) = number p l + Z.b2z (p s).
Proof.
  unfold number. rewrite filter_app, zlen_app, filter_cons. destruct (p s); [by rewrite decide_True|by rewrite decide_False].
Qed.

Lemma number_bound p l : 0 <= number p l <= zlen l.
Proof. unfold number, zlen. pose proof (length_filter (fun s => p s = true) l). lia. Qed.

(** What one request adds. *)
Definition add64b (c : Z) (b : bool) : Z := if b then Add64 c 1 else c.
Definition tally (s : served) (c : Counters) : Counters :=
  mkCounters (add64b (Writes c) (write_ok MsgPut s)) (add64b (Reads c) (was_answered MsgGet s)) (add64b (Scans c) (scan_ok s))
    (add64b (Deletes c) (write_ok MsgDelete s)) (add64b (WriteErrors c) (write_failed s)).

Lemma write_tally f (r r' : Router M F) cmd add h :
  handle_write f r cmd add = Some (r', h) ->
  (h = Answered [sendOK] /\ counters r' = add (counters r)) \/
  (h = Answered [sendErr] /\ counters r' = add_write_error (counters r)) \/
  (exists i, h = Suspended i [sendOK] /\ counters r' = counters r).
Proof.
  unfold handle_write. destruct (KV.Write f (kv r) cmd) as [[[k msgs] o]|]; [|done]. cbn [mbind option_bind].
  destruct o as [[u|e]|i]; intros [= <- <-]; cbn; eauto.
Qed.

Lemma handle_tally f (r r' : Router M F) req h :
  Handle f r req = Some (r', h) -> counters r' = tally (req, h) (counters r).
Proof.
  assert (forall id id' : bytes, id <> id' -> GetReqID req = id -> is_id id' (req, h) = false) as Hne
    by (intros id id' ? <-; by apply bool_decide_eq_false).
  assert (forall id, GetReqID req = id -> is_id id (req, h) = true) as Heq by (intros id ?; by apply bool_decide_eq_true).
  assert (counters r = mkCounters (Writes (counters r)) (Reads (counters r)) (Scans (counters r)) (Deletes (counters r))
    (WriteErrors (counters r))) as Heta by (by destruct (counters r)).
  unfold Handle, tally, write_ok, was_answered, scan_ok, write_failed.
  case_bool_decide as E1; [|case_bool_decide as E2; [|case_bool_decide as E3; [|case_bool_decide as E4]]].
  - rewrite (Heq MsgPut), (Hne MsgPut MsgGet), (Hne MsgPut MsgScan), (Hne MsgPut MsgDelete) by done. cbn [andb orb snd].
    unfold handlePut. case_match; [by intros [= <- <-]|].
    destruct (le32_at 0 _) as [n|]; [|done]. destruct (le32_at 4 _) as [n'|]; [|done]. cbn [mbind option_bind].
    case_match; [by intros [= <- <-]|]. destruct (slice 8 _ _); [|done]. cbn [mbind option_bind].
    destruct (slice (8 + n) _ _); [|done]. cbn [mbind option_bind].
    intros [[-> ->]|[[-> ->]|(i & -> & ->)]]%write_tally; cbn; done.
  - rewrite (Heq MsgGet), (Hne MsgGet MsgPut), (Hne MsgGet MsgScan), (Hne MsgGet MsgDelete) by done. cbn [andb orb snd].
    unfold handleGet. case_match; [by intros [= <- <-]|].
    destruct (le32_at 0 _) as [n|]; [|done]. cbn [mbind option_bind].
    case_match; [by intros [= <- <-]|]. destruct (slice 4 _ _); [|done]. cbn [mbind option_bind].
    destruct (KV.Get _ _) as [[k res]|]; [|done]. cbn [mbind option_bind]. by intros [= <- <-].
  - rewrite (Heq MsgDelete), (Hne MsgDelete MsgPut), (Hne MsgDelete MsgScan), (Hne MsgDelete MsgGet) by done. cbn [andb orb snd].
    unfold handleDelete. case_match; [by intros [= <- <-]|].
    destruct (le32_at 0 _) as [n|]; [|done]. cbn [mbind option_bind].
    case_match; [by intros [= <- <-]|]. destruct (slice 4 _ _); [|done]. cbn [mbind option_bind].
    intros [[-> ->]|[[-> ->]|(i & -> & ->)]]%write_tally; cbn; done.
  - rewrite (Heq MsgScan), (Hne MsgScan MsgPut), (Hne MsgScan MsgGet), (Hne MsgScan MsgDelete) by done. cbn [andb orb snd].
    unfold handleScan. destruct (Scan.DecodeScanRequest _) as [[q|e]|]; [| |done]; cbn [mbind option_bind]; [|by intros [= <- <-]].
    destruct (KV.Scan _ _ _ _) as [es|]; [|done]. cbn [mbind option_bind]. by intros [= <- <-].
  - intros [= <- <-]. unfold is_id. rewrite !bool_decide_false by done. done.
Qed.

(** C37: the counters account for the requests: after any run of requests, on a
    disk with any fault and with or without Raft, [Writes] is the number of PUTs
    answered OK, [Deletes] that of DELs answered OK, [WriteErrors] that of PUTs and
    DELs answered with an error, [Reads] that of GETs answered at all and [Scans]
    that of SCANs answered with their hits; malformed requests, which get no answer
    or (for SCAN) an error, and writes still waiting for their commit count nowhere. *)
Theorem counters_account_for_requests (f : WAL.fault) (k : KV.KVServer M) (hooks : F) (reqs : list Request)
    (r' : Router M F) (out : list served)
    (Hrun : handle_all f (NewRouter k hooks) reqs = Some (r', out)) (Hlen : zlen reqs < 2 ^ 63) :
  out.*1 = reqs /\
  counters r' = mkCounters (number (write_ok MsgPut) out) (number (was_answered MsgGet) out) (number scan_ok out)
                  (number (write_ok MsgDelete) out) (number write_failed out).
Proof.
  revert r' out Hrun Hlen. induction reqs as [|req reqs IH] using rev_ind; intros r' out Hrun Hlen.
  { by injection Hrun as <- <-. }
  unfold handle_all in *. rewrite foldl_app in Hrun. cbn [foldl] in Hrun.
  destruct (foldl _ _ reqs) as [[r1 out1]|] eqn:E; [|done]. cbn [mbind option_bind] in Hrun.
  destruct (Handle f r1 req) as [[r2 h]|] eqn:Hh; [|done]. cbn in Hrun. injection Hrun as <- <-.
  rewrite zlen_app in Hlen. change (zlen [req]) with 1 in Hlen.
  destruct (IH r1 out1 eq_refl) as [Hreqs Hc]; [lia|]. split; [by rewrite fmap_app, Hreqs|].
  rewrite (handle_tally _ _ _ _ _ Hh), Hc. unfold tally. cbn [Writes Reads Scans Deletes WriteErrors].
  assert (zlen out1 = zlen reqs) as Ho by (rewrite <- Hreqs; unfold zlen; by rewrite length_fmap).
  assert (forall p, add64b (number p out1) (p (req, h)) = number p (out1 ++ [(req, h)])) as Hadd.
  { intros p. rewrite number_snoc. pose proof (number_bound p out1). unfold add64b.
    destruct (p (req, h)); cbn [Z.b2z]; [|lia]. apply int64_of_small. lia. }
  by rewrite !Hadd.
Qed.

End Accounting.

(** ** A run *)

Section Sample.
#[local] Existing Instances Recovery.sample_storage Recovery.sample_raft Recovery.sample_ops Partitioned.sample_math MemTable.sample_list.

(** A PUT, a PUT cut short, a GET, a DEL and a SCAN that does not decode. *)
Definition sample_requests : list Request :=
  let frame id data := NewRequest (BanNet.NewMessage id data) 1 in
  [frame MsgPut (Proto.KV.encodePut (of_string "k") (of_string "v")); frame MsgPut (of_string "short");
   frame MsgGet (Proto.KV.encodeKey (of_string "k")); frame MsgDelete (Proto.KV.encodeKey (of_string "k"));
   frame MsgScan (of_string "?")].

Lemma counters_account_for_requests_witness :
  exists r' out, handle_all WAL.NoFault (NewRouter Recovery.sample_server tt) sample_requests = Some (r', out) /\
    out.*1 = sample_requests /\
    counters r' = mkCounters (number (write_ok MsgPut) out) (number (was_answered MsgGet) out) (number scan_ok out)
                    (number (write_ok MsgDelete) out) (number write_failed out) /\
    counters r' = mkCounters 1 1 0 1 0.
Proof.
  destruct (handle_all WAL.NoFault (NewRouter Recovery.sample_server tt) sample_requests) as [[r' out]|] eqn:E;
    [|vm_compute in E; discriminate E].
  exists r', out. split; [done|].
  destruct (counters_account_for_requests WAL.NoFault Recovery.sample_server tt sample_requests r' out E) as [H1 H2]; [vm_compute; reflexivity|].
  split; [exact H1|]. split; [exact H2|]. vm_compute in E. by injection E as <- _.
Defined.

End Sample.

End Exposition.
