(* ===== verification/Main.v ===== *)
(** The program [Server/server.go]: the ingest hook, the router and the store put
    together as [main] puts them, and what a client sees of it. *)
From S2P Require Import Prelude Bytes Strconv SkipList Bloom SSTable MemTable Engine StorageWAL RaftWAL Raft Wire Proto Json JsonText Predicate Network Service Recovery Client Session Ingest.
Import Json Dispatch Routing Recovery Session.
#[local] Existing Instance Routing.Router_IRouter.

Module Main.
Import Metrics Filter.

Section Main.
Context {M : Type} `{IMemTableLaws M} `{Raft.RaftConfig}.

Definition redacted_fields : list bytes := [of_string "gps"; of_string "user_id"].

(** The router with its hook. *)
Definition main_router (k : KV.KVServer M) : Router M (Filter * Metrics) :=
  SetPreHandle (NewRouter k (NewFilter redacted_fields 0 true, zero)) hook.

(** [main], up to [Serve]: one router object under the four ids. *)
Definition main (WorkerPoolSize : Z) (k : KV.KVServer M) : MsgHandle (Router M (Filter * Metrics)) :=
  let server := NewMsgHandle WorkerPoolSize [main_router k] in
  let server := AddRouter server MsgPut 0 in
  let server := AddRouter server MsgGet 0 in
  let server := AddRouter server MsgDelete 0 in
  AddRouter server MsgScan 0.

(** ** The running server *)

(** The dispatcher [m] of a standalone server whose log holds [ops] and whose
    store shows [c]. *)
Record running (m : MsgHandle (Router M (Filter * Metrics))) (r : Router M (Filter * Metrics)) (ops : list logged) (c : content) : Prop := {
  rn_serves : serves m 0 r;
  rn_hook : preHandleFunc r = Some hook;
  rn_post : postHandleFunc r = None;
  rn_fields : redactFields (hookState r).1 = redacted_fields;
  rn_limit : maxValueLen (hookState r).1 = 0;
  rn_backward : dropBackward (hookState r).1 = true;
  rn_store : standalone (kv r) ops c;
}.

Lemma main_running n k ops c : standalone k ops c -> running (main n k) (main_router k) ops c.
Proof.
  intros Hk. split; try done. split; [done|]. intros id Hid.
  repeat (apply elem_of_cons in Hid as [->|Hid]; [by vm_compute|]). by apply elem_of_nil in Hid.
Qed.

(** The object of the router is replaced by its next state. *)
Lemma running_next m r ops c r' ops' c' :
  running m r ops c -> preHandleFunc r' = preHandleFunc r -> postHandleFunc r' = postHandleFunc r ->
  redactFields (hookState r').1 = redactFields (hookState r).1 -> maxValueLen (hookState r').1 = maxValueLen (hookState r).1 ->
  dropBackward (hookState r').1 = dropBackward (hookState r).1 -> standalone (kv r') ops' c' ->
  running (set_objects m (<[0%nat := r']> (objects m))) r' ops' c'.
Proof.
  intros [[So Si] ? ? ? ? ? ?] ? ? ? ? ? ?. split; try congruence. split; [|exact Si].
  cbn. apply list_lookup_insert_eq. by eapply lookup_lt_Some.
Qed.

(** ** Requests through the hook *)

(** The command the store gets of a PUT. *)
Definition stored (key value : bytes) : logged :=
  (WAL.WALOpPut, key, Some (redact value redacted_fields).1).

Lemma put_through m r ops c req key value :
  running m r ops c -> GetReqID req = MsgPut -> Proto.KV.parsePut (GetMsgData req) = Some (Some (key, value)) ->
  u32 (zlen key) -> u32 (zlen (redact value redacted_fields).1) ->
  WAL.op_ok (stored key value) -> mt_Fits (mem r) (op_bytes (stored key value)) = true ->
  exists m' r', (DoMsgHandle m req = Some (m', Answered [sendDropped]) /\ running m' r' ops c /\ kv r' = kv r) \/
    (DoMsgHandle m req = Some (m', Answered [sendOK]) /\ running m' r' (ops ++ [stored key value]) (write_op c (stored key value))).
Proof.
  intros Hr Hput Hparse Hkey Hnew Hop Hfit. pose proof Hr as [[So Si] Hh Hp Hf Hl Hd Hs].
  destruct (hookState r) as [f ms] eqn:Hst. cbn [fst] in *. rewrite <- Hf in Hnew.
  destruct (hook_put f ms req key value Hput Hparse Hkey Hnew) as (f' & ms' & req' & a & Hrun & E1 & E2 & E3 & Hdata).
  unfold DoMsgHandle. rewrite Hput, Si, So by left. cbn [mbind option_bind Network.PreHandle Network.Handle Network.PostHandle Router_IRouter].
  unfold Routing.PreHandle. rewrite Hh, Hst, Hrun. set (r1 := set_hookState r (f', ms')).
  assert (redactFields f' = redactFields f) as E1' by done.
  destruct a; [rewrite !bool_decide_false by done|rewrite !bool_decide_true by done].
  - destruct (Hdata eq_refl) as [Hid Hp']. unfold Routing.Handle. rewrite Hid, bool_decide_true by done.
    rewrite handlePut_parse, Hp'. cbn [mbind option_bind]. unfold handle_write. rewrite Hf.
    destruct (write_spec (kv r) ops c (Cmd.mkCommand Cmd.TypePut key (Some (redact value redacted_fields).1)) Hs)
      as (k' & m' & Hw & Hs' & _); [by left|exact Hop|exact Hfit|].
    change (kv r1) with (kv r). rewrite Hw. cbn [mbind option_bind]. unfold PostHandle. cbn [count set_kv set_hookState postHandleFunc r1].
    rewrite Hp. eexists _, _. right. split; [reflexivity|].
    eapply running_next; [exact Hr|done|done|by rewrite Hst|by rewrite Hst|by rewrite Hst|exact Hs'].
  - exists (set_objects m (<[0%nat := set_hookState r (f', ms')]> (objects m))), (set_hookState r (f', ms')). left.
    split; [done|]. split; [|done].
    eapply running_next; [exact Hr|done|done|by rewrite Hst|by rewrite Hst|by rewrite Hst|exact Hs].
Qed.

(** The hook does not touch a GET. *)
Lemma get_through m r ops c key i :
  running m r ops c -> u32 (zlen key) ->
  exists m' r', DoMsgHandle m (NewRequest (BanNet.NewMessage MsgGet (Proto.KV.encodeKey key)) i) =
      Some (m', Answered [match MemTable.answer (all c key) with
                          | Error _ => sendErr
                          | Ok v => (MsgRespOK, Proto.KV.getResponse v)
                          end]) /\ running m' r' ops c.
Proof.
  intros Hr Hkey. pose proof Hr as [[So Si] Hh Hp Hf Hl Hd Hs]. set (req := NewRequest _ i).
  unfold DoMsgHandle. change (GetReqID req) with MsgGet. rewrite Si, So by (right; left).
  cbn [mbind option_bind Network.PreHandle Network.Handle Network.PostHandle Router_IRouter].
  assert (hook (hookState r) req = (hookState r, req, HookPass)) as Hpass.
  { destruct (hookState r) as [f ms]. unfold hook, Handle. by rewrite bool_decide_false by done. }
  unfold Routing.PreHandle. rewrite Hh, Hpass, !bool_decide_false by done. unfold Routing.Handle.
  change (GetReqID req) with MsgGet. rewrite bool_decide_false, bool_decide_true by done.
  change (GetMsgData req) with (Proto.KV.encodeKey key).
  rewrite handleGet_parse, Proto.KV.parseKeyed_encodeKey by done. cbn [mbind option_bind].
  destruct (get_spec (kv r) ops c key Hs) as (k' & Hget & Hs'). change (kv (set_hookState r (hookState r))) with (kv r).
  rewrite Hget. cbn [mbind option_bind]. unfold PostHandle. cbn [count set_kv set_hookState postHandleFunc]. rewrite Hp.
  eexists _, _. split; [reflexivity|]. by eapply running_next.
Qed.

End Main.

(** ** A reading with a position *)

Section Sample.
#[local] Existing Instances Partitioned.sample_math Partitioned.sample_math_laws MemTable.sample_list MemTable.sample_list_laws
  Recovery.sample_storage Recovery.sample_raft Recovery.sample_ops Recovery.sample_laws.

Definition sample_value : bytes :=
  of_string "{" ++ quote :: of_string "gps" ++ quote :: of_string ":1," ++ quote :: of_string "az" ++ quote :: of_string ":2}".
Definition sample_obj : gmap bytes bytes := <[of_string "az" := of_string "2"]> {[of_string "gps" := of_string "1"]}.

Lemma sample_value_obj : unmarshal_object sample_value = Some sample_obj.
Proof.
  unfold unmarshal_object.
  assert (parse sample_value = Some (Obj [(of_string "gps", of_string "1"); (of_string "az", of_string "2")]))
    as -> by (vm_compute; reflexivity).
  cbn [mapM]. rewrite !unquote_plain by (repeat constructor; by vm_compute). done.
Qed.

Definition sample_put : Request := NewRequest (BanNet.NewMessage MsgPut (Proto.KV.encodePut (of_string "imu:d:5") sample_value)) 1.
Definition sample_main : MsgHandle (Router (Live.Live SkipList.table) (Filter * Metrics)) := main 2 Recovery.sample_server.

End Sample.

End Main.

(** ** The health check of [service/ha.go]

    The store changes between two checks, so a tick brings it and the time. *)
Module Health.
Section Health.
Context {M : Type}.

Record HA := mkHA { ha_kv : KV.KVServer M; isHealthy : bool; lastCheck : Z }.
Definition NewHA (k : KV.KVServer M) (now : Z) : HA := mkHA k true now.

Definition GetState (r : Raft.Raft) : Raft.State * Z := (Raft.r_state r, Raft.r_Term r).

Definition checkHealth (h : HA) (tick : KV.KVServer M * Z) : HA :=
  let h := mkHA tick.1 (isHealthy h) (lastCheck h) in
  let h := match KV.raft (ha_kv h) with
           | Some r => let '(state, _) := GetState r in if bool_decide (state = Raft.Follower) then h else h
           | None => h
           end in
  mkHA (ha_kv h) true tick.2.

Definition healthCheckLoop (h : HA) (ticks : list (KV.KVServer M * Z)) : HA := foldl checkHealth h ticks.
Definition IsHealthy (h : HA) : bool := isHealthy h.

(** Whatever state the store and its Raft node are in, the node reports itself
    healthy. *)
Lemma always_healthy k now ticks : IsHealthy (healthCheckLoop (NewHA k now) ticks) = true.
Proof.
  unfold IsHealthy, healthCheckLoop. induction ticks as [|t ticks _] using rev_ind; [done|]. by rewrite foldl_snoc.
Qed.

End Health.
End Health.
