(* ===== verification/Shipped.v ===== *)
(** Sessions against the server as [Server/server.go] ships it: the map of the keys
    behind the ingest hook that drops timestamps going backwards and redacts. *)
From S2P Require Import Prelude Bytes Strconv SkipList Bloom SSTable MemTable Engine StorageWAL RaftWAL Raft Wire Proto Json JsonText Predicate Network Service Recovery Client Session Ingest Main.
Import Json Dispatch Routing Recovery Link Client Session Metrics Filter Main.
#[local] Existing Instances Routing.Router_IRouter BanNet.Message_IMessage Utils.Message_IMessage.

Module Shipped.

Section Shipped.
Context {M : Type} `{IMemTableLaws M} `{Raft.RaftConfig} (MaxPackageSize : Z).
Hypothesis small_replies : 0 < MaxPackageSize -> 8 <= MaxPackageSize.

(** ** The map behind the filter *)

(** What the store shows, and the newest timestamp accepted of every device. *)
Record filtered := mkFiltered { shown : content; newest : gmap bytes Z }.

(** A key [imu:<device>:<timestamp>] is accepted when its timestamp is newer than
    the device's last; any other key always is. *)
Definition accept (last : gmap bytes Z) (key : bytes) : option (gmap bytes Z) :=
  match parseKey key with
  | None => Some last
  | Some (device, ts) =>
      match last !! device with
      | Some t => if decide (t < ts) then Some (<[device := ts]> last) else None
      | None => Some (<[device := ts]> last)
      end
  end.

Definition redacted (value : bytes) : bytes := (redact value redacted_fields).1.

(** What of a call reaches the store, with the timestamps after it. *)
Definition passed (last : gmap bytes Z) (o : call) : option (gmap bytes Z * call) :=
  match o with
  | CPut k v => last ← accept last k; Some (last, CPut k (redacted v))
  | _ => Some (last, o)
  end.

Definition answer_filtered (s : filtered) (o : call) : filtered * reply :=
  match passed (newest s) o with
  | None => (s, Written (Error (Err "server error")))
  | Some (last, o') => (mkFiltered (answer_call (shown s) o').1 last, (answer_call (shown s) o').2)
  end.

Inductive filtered_run : filtered -> list event -> filtered -> list reply -> Prop :=
  | fr_nil s : filtered_run s [] s []
  | fr_call s i o evs s' rs :
      filtered_run (answer_filtered s o).1 evs s' rs -> filtered_run s (Call i o :: evs) s' ((answer_filtered s o).2 :: rs)
  | fr_background s j h evs s' rs :
      reachable_by_scan (shown s) h -> filtered_run (mkFiltered (mkContent (all (shown s)) h) (newest s)) evs s' rs ->
      filtered_run s (Background j :: evs) s' rs.

(** ** What a session needs *)

(** The request's frame fits; the record of a write that is not dropped fits the
    log's length fields and finds its credit; a reply fits its frame. *)
Definition shipped_call_ok (m : M) (last : gmap bytes Z) (o : call) : Prop :=
  size_ok MaxPackageSize (zlen (Utils.Data (call_msg o))) /\
  match passed last o with
  | None => True
  | Some (_, CPut k v) => WAL.op_ok (WAL.WALOpPut, k, Some v) /\ mt_Fits m (entry_bytes (k, Some v)) = true
  | Some (_, o') => call_ok MaxPackageSize m o'
  end.

Definition shipped_mem (m : M) (last : gmap bytes Z) (o : call) (m' : M) : Prop :=
  match passed last o with None => m' = m | Some (_, o') => mem_after m o' m' end.

Definition seen (last : gmap bytes Z) (o : call) : gmap bytes Z :=
  match passed last o with None => last | Some (last', _) => last' end.

Fixpoint shipped_ok (m : M) (last : gmap bytes Z) (evs : list event) : Prop :=
  match evs with
  | [] => True
  | Call _ o :: rest => shipped_call_ok m last o /\ forall m', shipped_mem m last o m' -> shipped_ok m' (seen last o) rest
  | Background j :: rest => work_ok m j /\ forall m', mt_Work m j = Some m' -> shipped_ok m' last rest
  end.

(** The session's records in the log. *)
Fixpoint shipped_log (last : gmap bytes Z) (evs : list event) : list logged :=
  match evs with
  | [] => []
  | Call _ o :: rest => match passed last o with None => [] | Some (_, o') => call_log o' end ++ shipped_log (seen last o) rest
  | Background _ :: rest => shipped_log last rest
  end.

(** ** The hook *)

Lemma check_ts_accept f key :
  dropBackward f = true ->
  check_ts f key = match accept (lastTS f) key with Some last => (set_lastTS f last, false) | None => (f, true) end.
Proof.
  intros Hd. unfold check_ts, accept. rewrite Hd. cbn [negb]. destruct (parseKey key) as [[d ts]|]; [|by destruct f].
  destruct (lastTS f !! d) as [t|]; [|done]. destruct (Z.leb_spec ts t); [by rewrite decide_False by lia|by rewrite decide_True by lia].
Qed.

Lemma hook_other (st : Filter * Metrics) req : GetReqID req <> MsgPut -> hook st req = (st, req, HookPass).
Proof. intros Hid. destruct st as [f ms]. unfold hook, Handle. by rewrite bool_decide_false. Qed.

(** The hook on a put that parses, as [main] configures it. *)
Lemma hook_shipped f ms req key value :
  redactFields f = redacted_fields -> maxValueLen f = 0 -> dropBackward f = true ->
  GetReqID req = MsgPut -> Proto.KV.parsePut (GetMsgData req) = Some (Some (key, value)) ->
  match accept (lastTS f) key with
  | None => hook (f, ms) req = (f, drop_nonmonotonic ms, req, HookDrop)
  | Some last => u32 (zlen key) -> u32 (zlen (redacted value)) ->
      exists req', hook (f, ms) req = (set_lastTS f last, ms, req', HookPass) /\ GetReqID req' = MsgPut /\
        Proto.KV.parsePut (GetMsgData req') = Some (Some (key, redacted value))
  end.
Proof.
  intros Hf Hl Hd Hput Hparse. unfold hook, Handle. rewrite bool_decide_true, Hparse by done. cbn [negb mbind option_bind].
  rewrite Hl. cbn [Z.ltb Z.compare andb]. rewrite (check_ts_accept f key Hd). destruct (accept (lastTS f) key) as [last|]; [|done].
  intros Hkey Hnew. change (redactFields (set_lastTS f last)) with (redactFields f). rewrite Hf.
  unfold redacted in *. destruct (redact value redacted_fields) as [nv ch] eqn:Er. cbn [fst default from_option id] in *.
  eexists. split; [reflexivity|]. destruct ch.
  - split; [done|]. change (GetMsgData (SetMsgData req ?d)) with d. by rewrite Proto.KV.parsePut_encodePut.
  - split; [done|]. destruct (redact_spec value redacted_fields) as [(o & obj' & _ & _ & E & _)|[E _]]; rewrite Er in E; [done|].
    injection E as ->. done.
Qed.

(** ** One call *)

Lemma running_serves m r ops c o : running m r ops c -> Arip m !! GetMsgID (call_msg o) = Some 0%nat /\ objects m !! 0%nat = Some r.
Proof. intros [[So Si] _ _ _ _ _ _]. split; [apply Si, (call_id MaxPackageSize small_replies)|done]. Qed.

(** The client's side: whatever answers the request. *)
Lemma call_through (m : MsgHandle (Router M (Filter * Metrics))) i o m' id payload :
  BanNet.sendable MaxPackageSize (call_msg o) ->
  DoMsgHandle m (NewRequest (BanNet.received (call_msg o)) i) = Some (m', Answered [(id, payload)]) ->
  zlen id <= 65535 -> size_ok MaxPackageSize (zlen payload) ->
  do_call MaxPackageSize (mkClient m i) o = x ← finish o payload; Some (mkClient m' i, x).
Proof.
  intros Hs Hdo Hid [Hu Hmax]. rewrite do_call_request.
  rewrite (request_spec MaxPackageSize (mkClient m i) _ _ id payload Hs Hdo) by done. done.
Qed.

Lemma shipped_sendable o : size_ok MaxPackageSize (zlen (Utils.Data (call_msg o))) -> BanNet.sendable MaxPackageSize (call_msg o).
Proof. intros [Hu Hmax]. destruct o; (split; [vm_compute; discriminate|]; split; [by apply Z.mod_small|]; by split). Qed.

(** A call the hook lets through, handled. *)
Lemma dispatch_passed m r ops c req req' (st' : Filter * Metrics) r1 id payload ops' c' :
  running m r ops c -> GetReqID req ∈ [MsgPut; MsgGet; MsgDelete; MsgScan] ->
  hook (hookState r) req = (st', req', HookPass) ->
  redactFields st'.1 = redacted_fields -> maxValueLen st'.1 = 0 -> dropBackward st'.1 = true ->
  Routing.Handle WAL.NoFault (set_hookState r st') req' = Some (r1, Answered [(id, payload)]) ->
  same_hooks (set_hookState r st') r1 -> standalone (kv r1) ops' c' ->
  let m' := set_objects m (<[0%nat := r1]> (objects m)) in
  DoMsgHandle m req = Some (m', Answered [(id, payload)]) /\ running m' r1 ops' c'.
Proof.
  intros Hr Hid Hhook F1 F2 F3 Hrun (S1 & S2 & S3) Hs m'. pose proof Hr as [[So Si] Hh Hp Hf Hl Hd _].
  unfold DoMsgHandle. rewrite (Si _ Hid), So. cbn [mbind option_bind Network.PreHandle Network.Handle Network.PostHandle Router_IRouter].
  unfold Routing.PreHandle. rewrite Hh, Hhook, !bool_decide_false by done. rewrite Hrun. cbn [mbind option_bind].
  unfold Routing.PostHandle. rewrite S2. cbn [set_hookState postHandleFunc]. rewrite Hp. split; [done|].
  eapply running_next; [exact Hr|exact S1|exact S2|rewrite S3; cbn [set_hookState hookState]; congruence..|exact Hs].
Qed.

Definition shipped_step (m : MsgHandle (Router M (Filter * Metrics))) (r : Router M (Filter * Metrics)) (ops : list logged) (c : content) (o : call) (i : Z) : Prop :=
  let s := mkFiltered c (lastTS (hookState r).1) in
  exists m' r', do_call MaxPackageSize (mkClient m i) o = Some (mkClient m' i, (answer_filtered s o).2) /\
    running m' r' (ops ++ match passed (newest s) o with None => [] | Some (_, o') => call_log o' end) (shown (answer_filtered s o).1) /\
    lastTS (hookState r').1 = newest (answer_filtered s o).1 /\ shipped_mem (mem r) (newest s) o (mem r').

(** Everything but a put passes the hook as it is. *)
Lemma other_call m r ops c o i :
  running m r ops c -> GetMsgID (call_msg o) <> MsgPut -> call_ok MaxPackageSize (mem r) o -> shipped_step m r ops c o i.
Proof.
  intros Hr Hid Hok. set (req := NewRequest (BanNet.received (call_msg o)) i).
  assert (passed (lastTS (hookState r).1) o = Some (lastTS (hookState r).1, o)) as Hp by (by destruct o).
  destruct (handle_answered MaxPackageSize small_replies (set_hookState r (hookState r)) ops c o i (rn_store _ _ _ _ Hr) Hok)
    as (r1 & id & payload & Hrun & Hs & Hh & Hm & Hl & Hsize & Hfin). fold req in Hrun.
  destruct (dispatch_passed m r ops c req req (hookState r) r1 id payload (ops ++ call_log o) (answer_call c o).1 Hr) as [Hdo Hr'];
    [exact (call_id MaxPackageSize small_replies o)|by apply hook_other|apply Hr..|exact Hrun|exact Hh|exact Hs|].
  unfold shipped_step, shipped_mem, answer_filtered. cbn [newest shown]. rewrite Hp. eexists _, r1. split; [|split; [exact Hr'|split; [|exact Hm]]].
  - by rewrite (call_through m i o _ _ _ (call_sendable _ _ _ Hok) Hdo Hl Hsize), Hfin.
  - destruct Hh as (_ & _ & ->). done.
Qed.

(** The frame of a put, parsed. *)
Lemma put_frame k v i :
  size_ok MaxPackageSize (zlen (Utils.Data (call_msg (CPut k v)))) ->
  Proto.KV.parsePut (GetMsgData (NewRequest (BanNet.received (call_msg (CPut k v))) i)) = Some (Some (k, v)).
Proof.
  intros Hl. cbn [call_msg Utils.NewMessage Utils.Data] in Hl. rewrite <- Proto.KV.encodePut_NewKVData in Hl.
  pose proof (fits_lengths _ _ _ _ (proj2 (proj1 Hl))) as [Hk Hv].
  change (GetMsgData _) with (Utils.NewKVData k v). rewrite <- Proto.KV.encodePut_NewKVData.
  apply Proto.KV.parsePut_encodePut; [|by split]. split; [apply zlen_nonneg|done].
Qed.

(** A put the hook drops: the client is told, nothing else happens. *)
Lemma dropped_put m r ops c k v i :
  running m r ops c -> size_ok MaxPackageSize (zlen (Utils.Data (call_msg (CPut k v)))) -> accept (lastTS (hookState r).1) k = None ->
  shipped_step m r ops c (CPut k v) i.
Proof.
  intros Hr Hl Ha. pose proof (shipped_sendable _ Hl) as Hsend. set (req := NewRequest (BanNet.received (call_msg (CPut k v))) i).
  pose proof Hr as [[So Si] Hh Hp Hf Hm Hd Hs]. destruct (hookState r) as [f ms] eqn:Hst. cbn [fst] in *.
  pose proof (hook_shipped f ms req k v Hf Hm Hd eq_refl (put_frame k v i Hl)) as Hk. rewrite Ha in Hk.
  set (r1 := set_hookState r (f, drop_nonmonotonic ms)).
  assert (DoMsgHandle m req = Some (set_objects m (<[0%nat := r1]> (objects m)), Answered [sendDropped])) as Hdo.
  { unfold DoMsgHandle. rewrite (Si (GetReqID req)), So by (exact (call_id MaxPackageSize small_replies (CPut k v))).
    cbn [mbind option_bind Network.PreHandle Router_IRouter]. unfold Routing.PreHandle. by rewrite Hh, Hst, Hk, !bool_decide_true. }
  unfold shipped_step, shipped_mem, answer_filtered. cbn [newest shown passed]. rewrite Hst. cbn [fst]. rewrite Ha.
  cbn [mbind option_bind fst snd shown newest]. rewrite app_nil_r. eexists _, r1. split; [|split; [|done]].
  - by rewrite (call_through m i (CPut k v) _ _ _ Hsend Hdo) by (done || by apply size_ok_small).
  - eapply running_next; [exact Hr|done|done|by rewrite Hst..|exact Hs].
Qed.

(** A put the hook accepts: the redacted value is stored. *)
Lemma accepted_put m r ops c k v last i :
  running m r ops c -> shipped_call_ok (mem r) (lastTS (hookState r).1) (CPut k v) -> accept (lastTS (hookState r).1) k = Some last ->
  shipped_step m r ops c (CPut k v) i.
Proof.
  intros Hr [Hl Hok] Ha. pose proof (shipped_sendable _ Hl) as Hsend. set (req := NewRequest (BanNet.received (call_msg (CPut k v))) i).
  cbn [passed] in Hok. rewrite Ha in Hok. cbn [mbind option_bind] in Hok. destruct Hok as [Hop Hfit].
  pose proof (rn_fields _ _ _ _ Hr) as Hf. pose proof (rn_limit _ _ _ _ Hr) as Hm. pose proof (rn_backward _ _ _ _ Hr) as Hd.
  destruct (hookState r) as [f ms] eqn:Hst. cbn [fst] in *.
  pose proof (hook_shipped f ms req k v Hf Hm Hd eq_refl (put_frame k v i Hl)) as Hk. rewrite Ha in Hk.
  destruct (Hk (proj1 (proj2 Hop)) (proj2 (proj2 Hop))) as (req' & Hhook & Hid & Hparse).
  set (r0 := set_hookState r (set_lastTS f last, ms)). set (cmd := Cmd.mkCommand Cmd.TypePut k (Some (redacted v))).
  assert (op_of cmd = (WAL.WALOpPut, k, Some (redacted v))) as Ecmd by done.
  destruct (handle_write_spec r0 ops c cmd add_write (rn_store _ _ _ _ Hr)) as (r1 & Hw & Hs & Hh & Hdo); [by left|by rewrite Ecmd|by rewrite Ecmd|].
  assert (Routing.Handle WAL.NoFault r0 req' = Some (r1, Answered [sendOK])) as Hrun.
  { unfold Routing.Handle. rewrite Hid, bool_decide_true by done. rewrite handlePut_parse, Hparse. exact Hw. }
  destruct (dispatch_passed m r ops c req req' (set_lastTS f last, ms) r1 MsgRespOK (Proto.KV.statusPayload Proto.KV.StatusOK) (ops ++ [op_of cmd]) (write_op c (op_of cmd)) Hr) as [Hsent Hr'];
    [exact (call_id MaxPackageSize small_replies (CPut k v))|by rewrite Hst|done..|exact Hrun|exact Hh|exact Hs|].
  unfold shipped_step, shipped_mem, answer_filtered. cbn [newest shown passed]. rewrite Hst. cbn [fst]. rewrite Ha.
  cbn [mbind option_bind fst snd shown newest]. eexists _, r1. split; [|split; [exact Hr'|split; [|exact Hdo]]].
  - by rewrite (call_through m i (CPut k v) _ _ _ Hsend Hsent) by (done || by apply size_ok_small).
  - destruct Hh as (_ & _ & ->). done.
Qed.

Lemma shipped_call m r ops c o i :
  running m r ops c -> shipped_call_ok (mem r) (lastTS (hookState r).1) o -> shipped_step m r ops c o i.
Proof.
  intros Hr Hok. destruct o as [k v|k|k|req].
  - destruct (accept (lastTS (hookState r).1) k) as [last|] eqn:Ha; [by eapply accepted_put|by apply dropped_put; [|apply Hok|]].
  - by apply other_call; [|by vm_compute|apply Hok].
  - by apply other_call; [|by vm_compute|apply Hok].
  - by apply other_call; [|by vm_compute|apply Hok].
Qed.

(** *** A session *)

Lemma running_background m r ops c j :
  running m r ops c -> work_ok (mem r) j ->
  exists m' r' h, background 0 m j = Some m' /\ running m' r' ops (mkContent (all c) h) /\
    hookState r' = hookState r /\ mt_Work (mem r) j = Some (mem r').
Proof.
  intros Hr Hok. pose proof Hr as [[Ho Hids] _ _ _ _ _ [T1 T2 T3 T4]].
  destruct (ml_work _ c j T4 Hok) as (m' & h & Hrun & Hp). unfold mem in *.
  unfold background. rewrite Ho. cbn [mbind option_bind]. unfold Engine.Work. rewrite Hrun. cbn [mbind option_bind].
  eexists _, (set_kv r (KV.set_storage (kv r) (Engine.set_memTable (KV.storage (kv r)) m'))), h.
  split; [done|]. split; [|split; [done|done]]. by eapply running_next.
Qed.

Lemma shipped_session m r ops c evs :
  running m r ops c -> shipped_ok (mem r) (lastTS (hookState r).1) evs ->
  exists m' r' s' replies, run MaxPackageSize 0 m evs = Some (m', replies) /\
    filtered_run (mkFiltered c (lastTS (hookState r).1)) evs s' replies /\
    running m' r' (ops ++ shipped_log (lastTS (hookState r).1) evs) (shown s') /\ lastTS (hookState r').1 = newest s'.
Proof.
  revert m r ops c. induction evs as [|[i o|j] evs IH]; intros m r ops c Hr Hok.
  - exists m, r, (mkFiltered c (lastTS (hookState r).1)), []. cbn [shipped_log]. rewrite app_nil_r. split; [done|]. split; [constructor|done].
  - destruct Hok as [Hok Hrest]. destruct (shipped_call m r ops c o i Hr Hok) as (m1 & r1 & Hrun & Hr1 & Hl1 & Haft).
    cbn [newest] in *. set (s := mkFiltered c _) in *.
    assert (newest (answer_filtered s o).1 = seen (lastTS (hookState r).1) o) as Hseen.
    { unfold answer_filtered, seen, s. cbn [newest]. by destruct (passed _ o) as [[]|]. }
    specialize (Hrest _ Haft). rewrite <- Hseen, <- Hl1 in Hrest.
    destruct (IH m1 r1 _ _ Hr1 Hrest) as (m' & r' & s' & rs & Hrun' & Hmap & Hr' & Hl').
    exists m', r', s', ((answer_filtered s o).2 :: rs). cbn [run]. rewrite Hrun. cbn [mbind option_bind server]. rewrite Hrun'.
    split; [done|]. split; [|split; [|done]].
    + constructor. rewrite Hl1 in Hmap. by destruct (answer_filtered s o).1.
    + cbn [shipped_log]. rewrite <- Hseen, <- Hl1, app_assoc. exact Hr'.
  - destruct Hok as [Hok Hrest]. destruct (running_background m r ops c j Hr Hok) as (m1 & r1 & h & Hrun & Hr1 & Hh & Haft).
    specialize (Hrest _ Haft). rewrite <- Hh in Hrest.
    destruct (IH m1 r1 _ _ Hr1 Hrest) as (m' & r' & s' & rs & Hrun' & Hmap & Hr' & Hl'). rewrite Hh in Hmap, Hr'.
    exists m', r', s', rs. cbn [run]. rewrite Hrun. cbn [mbind option_bind]. split; [done|]. split; [|split; [exact Hr'|done]].
    econstructor; [|exact Hmap]. apply (ml_hot _ _ (st_mem _ _ _ (rn_store _ _ _ _ Hr1))).
Qed.

(** C17: the shipped server keeps private fields out of the store. On the server
    [main] builds over a standalone store, after any session of its clients: a PUT
    whose value is a JSON object, under a key and with a value that fit the log's
    length fields and find their credit, is answered in one of two ways. Either the
    client is told that the frame was dropped, and log and store are as before; or
    it is told OK, and then the log has got exactly one record and the store the
    same value, a JSON object with the same fields in which [gps] and [user_id]
    read [[REDACTED]] and every other field is as it was (or compacted), and the
    client that gets the key next, whoever it is, is sent that object. *)
Theorem shipped_server_redacts (n : Z) (k : KV.KVServer M) (ops : list logged) (c : content) (evs : list event)
    (m : MsgHandle (Router M (Filter * Metrics))) (replies : list reply) (r : Router M (Filter * Metrics))
    (req : Request) (key value : bytes) (obj : gmap bytes bytes)
    (Hk : standalone k ops c) (Hok : shipped_ok (Engine.memTable (KV.storage k)) ∅ evs)
    (Hrun : run MaxPackageSize 0 (main n k) evs = Some (m, replies)) (Hr : objects m !! 0%nat = Some r)
    (Hput : GetReqID req = MsgPut) (Hparse : Proto.KV.parsePut (GetMsgData req) = Some (Some (key, value)))
    (Hobj : unmarshal_object value = Some obj) (Hop : WAL.op_ok (stored key value)) (Hfit : mt_Fits (mem r) (op_bytes (stored key value)) = true) :
  exists m' r', objects m' !! 0%nat = Some r' /\
    ((DoMsgHandle m req = Some (m', Answered [sendDropped]) /\ kv r' = kv r) \/
     (DoMsgHandle m req = Some (m', Answered [sendOK]) /\
      exists value' obj', KV.wal (kv r') = Some (WAL.log_of (ops ++ shipped_log ∅ evs ++ [(WAL.WALOpPut, key, Some value')])) /\
        unmarshal_object value' = Some obj' /\
        (forall f, f ∈ redacted_fields -> obj' !! f = (fun _ => redactedValue) <$> (obj !! f)) /\
        (forall f, f ∉ redacted_fields -> obj' !! f = obj !! f \/ obj' !! f = compact Outside <$> (obj !! f)) /\
        forall i, exists m2, DoMsgHandle m' (NewRequest (BanNet.NewMessage MsgGet (Proto.KV.encodeKey key)) i) =
          Some (m2, Answered [(MsgRespOK, Proto.KV.getResponse value')]))).
Proof.
  destruct (shipped_session (main n k) (main_router k) ops c evs (main_running n k ops c Hk) Hok) as (m1 & r1 & s1 & rs & Hrun1 & _ & Hr1 & _).
  rewrite Hrun in Hrun1. injection Hrun1 as <- <-. assert (r1 = r) as ->.
  { destruct Hr1 as [[Ho _] _ _ _ _ _ _]. congruence. }
  destruct (put_through m r _ _ req key value Hr1 Hput Hparse (proj1 (proj2 Hop)) (proj2 (proj2 Hop)) Hop Hfit)
    as (m' & r' & [(Hdo & Hr' & Hkv)|[Hdo Hr']]); exists m', r'; (split; [apply Hr'|]); [by left|right]. split; [done|].
  destruct (redact_reads value redacted_fields obj Hobj) as (obj' & H1' & H2' & H3').
  exists (redact value redacted_fields).1, obj'. split_and!; [|done|done|done|].
  { rewrite app_assoc. apply Hr'. }
  intros i. destruct (get_through m' r' _ _ key i Hr' (proj1 (proj2 Hop))) as (m2 & r2 & Hget & _). exists m2. rewrite Hget.
  assert (all (write_op (shown s1) (stored key value)) key = Some (Some (redact value redacted_fields).1)) as ->; [|done].
  unfold write_op, stored. cbn. by rewrite decide_True.
Qed.


End Shipped.

(** ** Sample: a reading with a position, a late one, and what a client gets *)
Section Sample.
#[local] Existing Instances Partitioned.sample_math Partitioned.sample_math_laws MemTable.sample_list MemTable.sample_list_laws
  Recovery.sample_storage Recovery.sample_raft Recovery.sample_ops Recovery.sample_laws.

Definition sample_events : list event :=
  [Call 1 (CPut (of_string "imu:d:5") sample_value); Call 2 (CPut (of_string "imu:d:4") sample_value); Call 2 (CGet (of_string "imu:d:5"))].

(** The value with its position hidden, as the store has it. *)
Definition sample_redacted : bytes := (redact sample_value redacted_fields).1.

Lemma sample_events_ok : shipped_ok 4096 (Engine.memTable (KV.storage Recovery.sample_server)) ∅ sample_events.
Proof.
  split; [split; [eval_size|split; [eval_closed|vm_compute; reflexivity]]|]. intros m1 E1. vm_compute in E1. injection E1 as <-.
  split; [split; [eval_size|vm_compute; exact I]|]. intros m2 E2. vm_compute in E2. subst m2.
  split; [split; [eval_size|split; [eval_size|]]|done]. intros m3 v E3. vm_compute in E3. injection E3 as <- <-. eval_size.
Qed.


(** A session with one deletion, then a reading. *)
Definition sample_before : list event := [Call 1 (CDelete (of_string "x"))].
Definition sample_main : option (MsgHandle (Router (Live.Live SkipList.table) (Filter * Metrics)) * list reply) :=
  run 4096 0 (main 2 Recovery.sample_server) sample_before.

Lemma shipped_server_redacts_witness :
  exists m m' value' obj', fst <$> sample_main = Some m /\ DoMsgHandle m sample_put = Some (m', Answered [sendOK]) /\
    unmarshal_object value' = Some obj' /\ obj' !! of_string "gps" = Some redactedValue /\
    exists m2, DoMsgHandle m' (NewRequest (BanNet.NewMessage MsgGet (Proto.KV.encodeKey (of_string "imu:d:5"))) 2) =
      Some (m2, Answered [(MsgRespOK, Proto.KV.getResponse value')]).
Proof.
  assert (bool_decide (is_Some sample_main) = true) as Hsome by (vm_compute; reflexivity).
  apply bool_decide_eq_true in Hsome as [[m rs] Hrun].
  assert (snd <$> ('(m, _) ← sample_main; DoMsgHandle m sample_put) = Some (Answered [sendOK])) as Hdo by (vm_compute; reflexivity).
  assert ((fun r => mt_Fits (mem r) (op_bytes (stored (of_string "imu:d:5") sample_value))) <$> ('(m, _) ← sample_main; objects m !! 0%nat) = Some true)
    as Hfit by (vm_compute; reflexivity).
  rewrite Hrun in Hdo, Hfit. cbn [mbind option_bind] in Hdo, Hfit. destruct (objects m !! 0%nat) as [r|] eqn:Hr; [|done].
  destruct (shipped_server_redacts 4096 ltac:(intros _; vm_compute; discriminate) 2 Recovery.sample_server [] (mkContent (fun _ => None) [])
    sample_before m rs r sample_put (of_string "imu:d:5") sample_value sample_obj) as (m' & r' & _ & [[Hdo' _]|(Hdo' & value' & obj' & _ & H1 & H2 & _ & H3)]).
  - apply Recovery.sample_standalone.
  - split; [split; [eval_size|split; [eval_size|split; [eval_closed|reflexivity]]]|intros; exact I].
  - exact Hrun.
  - exact Hr.
  - reflexivity.
  - vm_compute. reflexivity.
  - exact sample_value_obj.
  - eval_closed.
  - by injection Hfit.
  - rewrite Hdo' in Hdo. discriminate Hdo.
  - exists m, m', value', obj'. split; [by rewrite Hrun|]. split; [exact Hdo'|]. split; [exact H1|]. split; [|apply H3].
    rewrite H2 by left. unfold sample_obj. rewrite lookup_insert_ne by done. by rewrite lookup_singleton_eq.
Defined.

End Sample.
End Shipped.
