(* ===== verification/Console.v ===== *)
(** The console of the client ([client/interactive.go]) and its command-line mode
    ([client/main.go]): how a line becomes a request, what is shown, and that a
    script of typed commands shows what the server of [Shipped.v] answers.  Output
    is a list of messages, one per text the code prints. *)
From S2P Require Import Prelude Bytes Strconv Credit SkipList Bloom SSTable MemTable Engine StorageWAL RaftWAL Raft Wire Proto Json JsonText Predicate Network Service Recovery Client Session Ingest Main Shipped.
Import Credits Partitioned SSTable MemTable Scan Dispatch Routing Recovery Link Client Session Shipped.
#[local] Existing Instances BanNet.Message_IMessage Utils.Message_IMessage.

Module Console.

(** ** strings.TrimSpace, strings.Fields and strings.ToLower *)

(** [unicode.IsSpace]. *)
Definition IsSpace (r : Z) : bool :=
  between 9 13 r || (r =? 32) || (r =? 133) || (r =? 160) || (r =? 5760) || between 8192 8202 r ||
  (r =? 8232) || (r =? 8233) || (r =? 8239) || (r =? 8287) || (r =? 12288).

(** The runes of a text with the bytes of each; every turn takes a byte. *)
Fixpoint runes (fuel : nat) (s : bytes) : list (Z * bytes) :=
  match fuel, s with
  | S fuel', _ :: _ =>
      let '(r, n) := Utf8.DecodeRune s in (r, take n s) :: runes fuel' (drop n s)
  | _, _ => []
  end.
Definition decode (s : bytes) : list (Z * bytes) := runes (length s) s.
Definition encode (l : list (Z * bytes)) : bytes := concat (snd <$> l).

Fixpoint drop_spaces (l : list (Z * bytes)) : list (Z * bytes) :=
  match l with
  | [] => []
  | p :: l' => if IsSpace p.1 then drop_spaces l' else l
  end.

Definition TrimSpace (s : bytes) : bytes := encode (reverse (drop_spaces (reverse (drop_spaces (decode s))))).

(** [word] is the field read so far. *)
Fixpoint fields_loop (l : list (Z * bytes)) (word : bytes) : list bytes :=
  match l with
  | [] => if decide (word = []) then [] else [word]
  | (r, b) :: l' =>
      if IsSpace r then if decide (word = []) then fields_loop l' [] else word :: fields_loop l' []
      else fields_loop l' (word ++ b)
  end.
Definition Fields (s : bytes) : list bytes := fields_loop (decode s) [].

(** [unicode.ToLower] as far as it gives ASCII letters. *)
Definition ToLower (r : Z) : Z :=
  if between 65 90 r then r + 32 else if r =? 304 then 105 else if r =? 8490 then 107 else r.

(** [strings.ToLower(s) == name] for a [name] in ASCII. *)
Definition lower_is (s : bytes) (name : string) : bool :=
  bool_decide (ToLower <$> (decode s).*1 = bval <$> of_string name).

Definition space : byte := byte_of 32.
Definition newline : byte := byte_of 10.

(** [strings.Join(parts, sep)] with a blank. *)
Fixpoint Join (parts : list bytes) : bytes :=
  match parts with
  | [] => []
  | [p] => p
  | p :: rest => p ++ space :: Join rest
  end.

(** ** The commands *)

Inductive shown :=
  | Usage | Failed (e : goerr) | Written_ok | Got (value : bytes) | Hits (entries : list ScanEntry)
  | BadOperator (op : bytes) | ShortPredicate | Unknown | Help | Bye | ReadFailed.

Definition dashToEmpty (s : bytes) : bytes := if decide (s = of_string "-") then [] else s.

Definition parseOp (s : bytes) : option Z :=
  if decide (s = of_string ">") then Some Predicate.OpGT else
  if decide (s = of_string ">=") then Some Predicate.OpGTE else
  if decide (s = of_string "<") then Some Predicate.OpLT else
  if decide (s = of_string "<=") then Some Predicate.OpLTE else
  if decide (s = of_string "==") then Some Predicate.OpEQ else
  if decide (s = of_string "!=") then Some Predicate.OpNE else None.

Section Console.
Context {R : Type} `{IRouter R} (MaxPackageSize : Z).

Definition handlePut (c : Client R) (parts : list bytes) : option (Client R * list shown) :=
  match parts with
  | _ :: key :: _ :: _ =>
      '(c, r) ← SendPut MaxPackageSize c key (Join (drop 2 parts));
      Some (c, [match r with Error e => Failed e | Ok _ => Written_ok end])
  | _ => Some (c, [Usage])
  end.

Definition handleGet (c : Client R) (parts : list bytes) : option (Client R * list shown) :=
  match parts with
  | _ :: key :: _ =>
      '(c, r) ← SendGet MaxPackageSize c key;
      Some (c, [match r with Error e => Failed e | Ok value => Got value end])
  | _ => Some (c, [Usage])
  end.

Definition handleDelete (c : Client R) (parts : list bytes) : option (Client R * list shown) :=
  match parts with
  | _ :: key :: _ =>
      '(c, r) ← SendDelete MaxPackageSize c key;
      Some (c, [match r with Error e => Failed e | Ok _ => Written_ok end])
  | _ => Some (c, [Usage])
  end.

(** The request of a SCAN line, or what is shown instead. *)
Definition scan_request (parts : list bytes) : shown + ScanRequest :=
  match parts with
  | _ :: start :: end_ :: rest =>
      match rest with
      | field :: op :: operand =>
          if decide (operand = []) then inl ShortPredicate else
          match parseOp op with
          | None => inl (BadOperator op)
          | Some o => inr (mkScanRequest (dashToEmpty start) (dashToEmpty end_) (Predicate.mkPredicate field o (Join operand)))
          end
      | [_] => inl ShortPredicate
      | [] => inr (mkScanRequest (dashToEmpty start) (dashToEmpty end_) (Predicate.mkPredicate [] Predicate.OpNone []))
      end
  | _ => inl Usage
  end.

Definition handleScan (c : Client R) (parts : list bytes) : option (Client R * list shown) :=
  match scan_request parts with
  | inl s => Some (c, [s])
  | inr req =>
      '(c, r) ← SendScan MaxPackageSize c req;
      Some (c, [match r with Error e => Failed e | Ok entries => Hits entries end])
  end.

Definition executeCommand (c : Client R) (line : bytes) : option (Client R * list shown) :=
  let parts := Fields line in
  match parts with
  | [] => Some (c, [])
  | cmd :: _ =>
      if lower_is cmd "put" then handlePut c parts else
      if lower_is cmd "get" then handleGet c parts else
      if lower_is cmd "delete" then handleDelete c parts else
      if lower_is cmd "scan" then handleScan c parts else
      if lower_is cmd "help" then Some (c, [Help]) else Some (c, [Unknown])
  end.

(** The loop over standard input.  [ReadString] fails at the end of the input,
    also when a last line without a newline is there.  Every turn takes a byte. *)
Fixpoint Run_loop (fuel : nat) (c : Client R) (input : bytes) : option (Client R * list shown) :=
  match fuel, cut_byte newline input with
  | S fuel', Some (line, rest) =>
      let line := TrimSpace (line ++ [newline]) in
      if decide (line = []) then Run_loop fuel' c rest else
      if lower_is line "quit" || lower_is line "exit" then Some (c, [Bye]) else
      '(c, out) ← executeCommand c line;
      '(c, more) ← Run_loop fuel' c rest;
      Some (c, out ++ more)
  | _, _ => Some (c, [ReadFailed])
  end.
Definition Run (c : Client R) (input : bytes) : option (Client R * list shown) := Run_loop (S (length input)) c input.

(** *** main.go *)

(** [runCommandLineMode] on the arguments after the program's name. *)
Definition runCommandLineMode (c : Client R) (args : list bytes) : option (Client R * list shown) :=
  match args with
  | [] => Some (c, [Usage])
  | cmd :: rest =>
      if decide (cmd = of_string "put") then
        match rest with
        | key :: value :: _ =>
            '(c, r) ← SendPut MaxPackageSize c key value;
            Some (c, [match r with Error e => Failed e | Ok _ => Written_ok end])
        | _ => Some (c, [Usage])
        end
      else if decide (cmd = of_string "get") then
        match rest with
        | key :: _ =>
            '(c, r) ← SendGet MaxPackageSize c key;
            Some (c, [match r with Error e => Failed e | Ok value => Got value end])
        | _ => Some (c, [Usage])
        end
      else if decide (cmd = of_string "delete") then
        match rest with
        | key :: _ =>
            '(c, r) ← SendDelete MaxPackageSize c key;
            Some (c, [match r with Error e => Failed e | Ok _ => Written_ok end])
        | _ => Some (c, [Usage])
        end
      else Some (c, [Usage])
  end.

Definition main (c : Client R) (args : list bytes) (input : bytes) : option (Client R * list shown) :=
  match args with [] => Run c input | _ => runCommandLineMode c args end.

(** The address [main] would read is never reached: with any argument the client
    is in its command-line mode. *)
Lemma address_argument_is_no_command c addr input :
  addr <> of_string "put" -> addr <> of_string "get" -> addr <> of_string "delete" -> main c [addr] input = Some (c, [Usage]).
Proof. intros H1 H2 H3. simpl. by rewrite !decide_False. Qed.

End Console.

(** ** Text and words *)

Lemma first_byte_low c lo hi n : Utf8.first_byte c = Some (lo, hi, n) -> 128 <= lo.
Proof. unfold Utf8.first_byte. intros H. repeat case_match; simplify_eq; lia. Qed.

(** An ASCII byte ends what is before it. *)
Lemma DecodeRune_app s b t : s <> [] -> bval b < 128 -> Utf8.DecodeRune (s ++ b :: t) = Utf8.DecodeRune s.
Proof.
  intros Hs Hb. unfold Utf8.cont.
  assert (forall lo hi n c, Utf8.first_byte c = Some (lo, hi, n) -> between lo hi (bval b) = false) as Hlo.
  { intros lo hi n c E%first_byte_low. destruct (between_spec lo hi (bval b)); [lia|done]. }
  assert (Utf8.cont b = false) as Hc by (unfold Utf8.cont; destruct (between_spec 128 191 (bval b)); [lia|done]).
  destruct s as [|b0 [|b1 [|b2 [|b3 s]]]]; [done|..]; cbn [app Utf8.DecodeRune];
    (destruct (bval b0 <? 128); [done|]); destruct (Utf8.first_byte (bval b0)) as [[[lo hi] n]|] eqn:E; try done;
    rewrite ?(Hlo _ _ _ _ E); try done; (destruct (negb _); [done|]);
    destruct n as [|[|[|[|[|n]]]]]; try done; rewrite ?Hc, ?andb_false_r; try done.
  by destruct t; rewrite ?Hc.
Qed.

Lemma DecodeRune_width s : s <> [] -> (1 <= (Utf8.DecodeRune s).2 <= length s)%nat.
Proof.
  intros Hs. destruct s as [|b0 s]; [done|]. unfold Utf8.DecodeRune. destruct (bval b0 <? 128); [simpl; lia|].
  destruct (Utf8.first_byte (bval b0)) as [[[lo hi] n]|]; [|simpl; lia].
  destruct s as [|b1 [|b2 [|b3 s]]]; [simpl; lia|..]; (destruct (negb _); [simpl; lia|]);
    destruct n as [|[|[|[|[|n]]]]]; try (simpl; lia); destruct (Utf8.cont b2) ; try (simpl; lia);
    destruct (Utf8.cont b3); simpl; lia.
Qed.

Lemma runes_fuel f s : (length s <= f)%nat -> runes f s = decode s.
Proof.
  enough (forall g f s, (length s <= g)%nat -> (length s <= f)%nat -> runes f s = runes g s) as Hg.
  { intros Hf. by apply Hg. }
  clear f s. induction g as [|g IH]; intros f s Hn Hf.
  - destruct s; [by destruct f|simpl in Hn; lia].
  - destruct s as [|b s]; [by destruct f|]. destruct f as [|f]; [simpl in Hf; lia|]. cbn [runes].
    pose proof (DecodeRune_width (b :: s) ltac:(done)) as Hw. destruct (Utf8.DecodeRune (b :: s)) as [r k]. cbn [snd] in Hw.
    f_equal. apply IH; rewrite length_drop; lia.
Qed.

Lemma decode_step s : s <> [] ->
  decode s = ((Utf8.DecodeRune s).1, take (Utf8.DecodeRune s).2 s) :: decode (drop (Utf8.DecodeRune s).2 s).
Proof.
  intros Hs. pose proof (DecodeRune_width s Hs) as Hw. unfold decode at 1.
  destruct s as [|b s]; [done|]. cbn [length runes]. destruct (Utf8.DecodeRune (b :: s)) as [r k]. cbn [fst snd] in *.
  f_equal. apply runes_fuel. rewrite length_drop. simpl in *. lia.
Qed.

Lemma decode_ind (P : bytes -> Prop) :
  P [] -> (forall s, s <> [] -> P (drop (Utf8.DecodeRune s).2 s) -> P s) -> forall s, P s.
Proof.
  intros H0 Hstep s. remember (length s) as n eqn:Hn. revert s Hn.
  induction (lt_wf n) as [n _ IH]. intros s ->. destruct (decide (s = [])) as [->|Hs]; [done|].
  apply Hstep; [done|]. pose proof (DecodeRune_width s Hs). eapply IH; [|done]. rewrite length_drop. destruct s; [done|]. simpl in *. lia.
Qed.

Lemma decode_app s b t : bval b < 128 -> decode (s ++ b :: t) = decode s ++ (bval b, [b]) :: decode t.
Proof.
  intros Hb. induction s as [|s Hs IH] using decode_ind.
  - cbn [app]. rewrite decode_step by done. cbn [Utf8.DecodeRune].
    destruct (Z.ltb_spec (bval b) 128); [|lia]. by cbn.
  - rewrite (decode_step (s ++ _)) by (by destruct s). rewrite DecodeRune_app by done. rewrite (decode_step s) at 1 by done.
    pose proof (DecodeRune_width s Hs). rewrite take_app_le, drop_app_le by lia. rewrite IH. done.
Qed.

Lemma encode_decode s : encode (decode s) = s.
Proof.
  unfold encode. induction s as [|s Hs IH] using decode_ind; [done|].
  rewrite decode_step by done. cbn. rewrite IH. apply take_drop.
Qed.

Lemma decode_nonempty s : s <> [] -> decode s <> [].
Proof. intros Hs. by rewrite decode_step. Qed.

(** A word of the command line: not empty, no white space. *)
Definition nonspace (p : Z * bytes) : Prop := IsSpace p.1 = false.
Definition word (w : bytes) : Prop := w <> [] /\ Forall nonspace (decode w).

Lemma words_check ws :
  forallb (fun w => negb (bool_decide (w = [])) && forallb (fun p => negb (IsSpace p.1)) (decode w)) ws = true -> Forall word ws.
Proof.
  intros Hws. apply Forall_forall. intros w Hin. rewrite forallb_forall in Hws. specialize (Hws w ltac:(by apply list_elem_of_In)).
  apply andb_true_iff in Hws as [Hne%negb_true_iff%bool_decide_eq_false Hf]. split; [done|].
  apply Forall_forall. intros q Hq. rewrite forallb_forall in Hf. apply negb_true_iff, Hf. by apply list_elem_of_In.
Qed.

Lemma word_no_newline w : word w -> newline ∉ w.
Proof.
  intros [_ Hw] (x & y & ->)%list_elem_of_split. rewrite decode_app in Hw by (vm_compute; reflexivity).
  apply Forall_app in Hw as [_ [Hn _]%Forall_cons]. by vm_compute in Hn.
Qed.

Lemma Join_cons w ws : ws <> [] -> Join (w :: ws) = w ++ space :: Join ws.
Proof. by destruct ws. Qed.

Lemma Join_no_newline ws : Forall word ws -> newline ∉ Join ws.
Proof.
  induction 1 as [|w ws Hw Hws IH]; [apply not_elem_of_nil|]. destruct ws as [|w' ws].
  - by apply word_no_newline.
  - rewrite Join_cons by done. rewrite elem_of_app, elem_of_cons. intros [?|[?|?]]; [by eapply word_no_newline|done|done].
Qed.

Lemma decode_space w t : decode (w ++ space :: t) = decode w ++ (32, [space]) :: decode t.
Proof. apply decode_app. vm_compute. reflexivity. Qed.

Lemma fields_word l rest acc : Forall nonspace l -> fields_loop (l ++ rest) acc = fields_loop rest (acc ++ encode l).
Proof.
  intros Hl. revert acc. induction Hl as [|[r b] l Hp _ IH]; intros acc; cbn [app encode fmap list_fmap concat]; [by rewrite app_nil_r|].
  cbn [fields_loop]. rewrite Hp. rewrite IH. by rewrite <- app_assoc.
Qed.

(** Joining words and splitting again. *)
Lemma Fields_Join ws : Forall word ws -> Fields (Join ws) = ws.
Proof.
  unfold Fields. induction 1 as [|w ws [Hne Hw] Hws IH]; [done|]. destruct ws as [|w' ws].
  - cbn [Join]. rewrite <- (app_nil_r (decode w)), fields_word by done. rewrite encode_decode. cbn. by rewrite decide_False.
  - rewrite Join_cons by done. rewrite decode_space, fields_word, encode_decode by done. cbn [fields_loop app].
    change (IsSpace 32) with true. cbn iota. rewrite decide_False by done. by rewrite IH.
Qed.

Lemma Join_ends ws : ws <> [] -> Forall word ws ->
  exists p l q k, decode (Join ws) = p :: l /\ nonspace p /\ decode (Join ws) = k ++ [q] /\ nonspace q.
Proof.
  intros Hne. induction 1 as [|w ws [Hw Hns] Hws IH]; [done|].
  assert (exists p l, decode w = p :: l /\ nonspace p) as (p & l & E & Hp).
  { pose proof (decode_nonempty w Hw). destruct (decode w); [done|]. apply Forall_cons in Hns as [? _]. eauto. }
  assert (exists q k, decode w = k ++ [q] /\ nonspace q) as (q & k & E' & Hq).
  { destruct (decode w) as [|x y _] using rev_ind; [done|]. apply Forall_app in Hns as [_ [? _]%Forall_cons]. eauto. }
  destruct ws as [|w' ws]; [by exists p, l, q, k|].
  destruct IH as (_ & _ & q' & k' & _ & _ & E2 & Hq'); [done|].
  rewrite Join_cons, decode_space by done. rewrite E2. exists p, (l ++ (32, [space]) :: k' ++ [q']), q', (decode w ++ (32, [space]) :: k').
  rewrite E. repeat split; try done. by rewrite <- app_assoc.
Qed.

Lemma TrimSpace_Join ws : ws <> [] -> Forall word ws -> TrimSpace (Join ws ++ [newline]) = Join ws.
Proof.
  intros Hne Hws. unfold TrimSpace. rewrite decode_app by (vm_compute; reflexivity).
  destruct (Join_ends ws Hne Hws) as (p & l & q & k & E & Hp & E' & Hq).
  rewrite E. cbn [app drop_spaces]. rewrite Hp. rewrite app_comm_cons, <- E, E'.
  rewrite <- app_assoc, reverse_app. change (decode []) with (@nil (Z * bytes)).
  change (reverse ([q] ++ [(bval newline, [newline])])) with [(bval newline, [newline]); q].
  cbn [app drop_spaces]. change (IsSpace (bval newline, [newline]).1) with true. cbn iota. rewrite Hq.
  rewrite reverse_cons, reverse_involutive, <- E'. apply encode_decode.
Qed.

(** ** Typing a call *)

Definition bound_text (b : bytes) : bytes := if decide (b = []) then of_string "-" else b.

Definition op_text (op : Z) : bytes :=
  if op =? Predicate.OpGT then of_string ">" else if op =? Predicate.OpGTE then of_string ">=" else
  if op =? Predicate.OpLT then of_string "<" else if op =? Predicate.OpLTE then of_string "<=" else
  if op =? Predicate.OpEQ then of_string "==" else of_string "!=".

(** The words of the predicate of a scan. *)
Definition typed_pred (p : Predicate.Predicate) (parts : list bytes) : Prop :=
  (p = Predicate.mkPredicate [] Predicate.OpNone [] /\ parts = []) \/
  (1 <= Predicate.OpOf p <= 6 /\ exists ws, ws <> [] /\ Predicate.Operand p = Join ws /\
     parts = Predicate.Field p :: op_text (Predicate.OpOf p) :: ws).

(** The words a user types for a call. *)
Definition typed (o : call) (parts : list bytes) : Prop :=
  Forall word parts /\
  match o with
  | CPut k v => exists ws, ws <> [] /\ v = Join ws /\ parts = of_string "put" :: k :: ws
  | CGet k => parts = [of_string "get"; k]
  | CDelete k => parts = [of_string "delete"; k]
  | CScan req =>
      Start req <> of_string "-" /\ End_ req <> of_string "-" /\
      exists ps, typed_pred (Pred req) ps /\
        parts = of_string "scan" :: bound_text (Start req) :: bound_text (End_ req) :: ps
  end.

(** What is shown for an answer. *)
Definition show (r : reply) : shown :=
  match r with
  | Written (Ok _) => Written_ok
  | Value (Ok v) => Got v
  | Entries (Ok es) => Hits es
  | Written (Error e) | Value (Error e) | Entries (Error e) => Failed e
  end.

Lemma dash_bound b : b <> of_string "-" -> dashToEmpty (bound_text b) = b.
Proof. intros Hb. unfold dashToEmpty, bound_text. destruct (decide (b = [])) as [->|]; [done|]. by rewrite decide_False. Qed.

Lemma parseOp_text op : 1 <= op <= 6 -> parseOp (op_text op) = Some op.
Proof.
  intros Hop. assert (op = 1 \/ op = 2 \/ op = 3 \/ op = 4 \/ op = 5 \/ op = 6) as Hc by lia.
  by repeat (destruct Hc as [->|Hc]); [..|subst op].
Qed.

Lemma typed_scan req parts : typed (CScan req) parts -> scan_request parts = inr req.
Proof.
  intros (_ & Hs & He & ps & Hps & ->). destruct req as [start end_ [field op operand]]. cbn [Start End_ Pred] in *.
  cbn [scan_request]. destruct Hps as [[[= -> -> ->] ->]|(Hop & ws & Hws & Ho & ->)]; rewrite !dash_bound by done; [done|].
  cbn [Predicate.Operand Predicate.OpOf Predicate.Field] in *. subst operand. rewrite decide_False by done. by rewrite parseOp_text.
Qed.

Section Script.
Context {M : Type} `{IMemTableLaws M} `{Raft.RaftConfig} {F : Type} (MaxPackageSize : Z).

(** A typed line makes the call it stands for, and shows the answer. *)
Lemma executeCommand_typed (c : Client (Router M F)) o parts :
  typed o parts ->
  executeCommand MaxPackageSize c (Join parts) = '(c, r) ← do_call MaxPackageSize c o; Some (c, [show r]).
Proof.
  intros Ht. unfold executeCommand. rewrite Fields_Join by apply Ht. pose proof Ht as [_ Ho].
  destruct o as [k v|k|k|req]; cbn [do_call] in *.
  - destruct Ho as (ws & Hws & -> & ->). change (lower_is (of_string "put") "put") with true. cbn iota.
    unfold handlePut. destruct ws as [|w ws]; [done|]. cbn [drop].
    destruct (SendPut _ _ _ _) as [[c' [u|e]]|]; done.
  - subst parts. change (lower_is (of_string "get") "put") with false. change (lower_is (of_string "get") "get") with true. cbn iota.
    cbn [handleGet]. by destruct (SendGet _ _ _) as [[c' [u|e]]|].
  - subst parts. change (lower_is (of_string "delete") "put") with false. change (lower_is (of_string "delete") "get") with false.
    change (lower_is (of_string "delete") "delete") with true. cbn iota.
    cbn [handleDelete]. by destruct (SendDelete _ _ _) as [[c' [u|e]]|].
  - pose proof (typed_scan _ _ Ht) as Hreq. destruct Ho as (_ & _ & ps & _ & ->).
    change (lower_is (of_string "scan") "put") with false. change (lower_is (of_string "scan") "get") with false.
    change (lower_is (of_string "scan") "delete") with false. change (lower_is (of_string "scan") "scan") with true. cbn iota.
    unfold handleScan. rewrite Hreq. by destruct (SendScan _ _ _) as [[c' [u|e]]|].
Qed.

(** A line of two words or more is no leave-taking. *)
Lemma two_words_stay w ws name : ws <> [] -> bool_decide (32 ∈ bval <$> of_string name) = false ->
  lower_is (Join (w :: ws)) name = false.
Proof.
  intros Hws Hn%bool_decide_eq_false. apply bool_decide_eq_false. intros E. apply Hn. rewrite <- E. rewrite Join_cons, decode_space by done.
  rewrite !fmap_app. apply elem_of_app. right. left.
Qed.

Lemma typed_shape o parts : typed o parts -> exists w ws, parts = w :: ws /\ ws <> [].
Proof.
  intros [_ Ho]. destruct o as [k v|k|k|req].
  - destruct Ho as (ws & _ & _ & ->). eauto.
  - subst. eauto.
  - subst. eauto.
  - destruct Ho as (_ & _ & ps & _ & ->). eauto.
Qed.

(** The input: a line per call, then [quit]. *)
Definition script (lines : list (call * list bytes)) : bytes :=
  concat ((fun l => Join l.2 ++ [newline]) <$> lines) ++ of_string "quit" ++ [newline].

Lemma script_cons o parts lines :
  script ((o, parts) :: lines) = Join parts ++ newline :: script lines.
Proof. unfold script. cbn [fmap list_fmap concat snd]. by rewrite <- !app_assoc. Qed.

(** One line of the loop. *)
Lemma Run_typed fuel (c : Client (Router M F)) o parts rest :
  typed o parts ->
  Run_loop MaxPackageSize (S fuel) c (Join parts ++ newline :: rest) =
    '(c, r) ← do_call MaxPackageSize c o;
    '(c, more) ← Run_loop MaxPackageSize fuel c rest; Some (c, show r :: more).
Proof.
  intros Ht. destruct (typed_shape o parts Ht) as (w & ws & -> & Hws). pose proof Ht as [Hwords _].
  cbn [Run_loop]. rewrite cut_byte_app by by apply Join_no_newline. rewrite TrimSpace_Join by done.
  rewrite decide_False; [|rewrite Join_cons by done; by destruct w].
  rewrite !two_words_stay by (done || (vm_compute; reflexivity)). cbn [orb].
  rewrite executeCommand_typed with (o := o) by done.
  destruct (do_call _ _ _) as [[c' r]|]; cbn [mbind option_bind]; [|done].
  by destruct (Run_loop _ _ _ _) as [[c'' more]|].
Qed.

Lemma Run_quit fuel (c : Client (Router M F)) : Run_loop MaxPackageSize (S fuel) c (script []) = Some (c, [Bye]).
Proof. reflexivity. Qed.

(** A request stays on its connection. *)
Lemma do_call_connID (c c' : Client (Router M F)) o x : do_call MaxPackageSize c o = Some (c', x) -> connID c' = connID c.
Proof.
  rewrite do_call_request. unfold request. destruct (send _) as [packet|e]; [|by intros [= <- _]].
  destruct (exchange _ _ _ _) as [[s reply]|]; [|done]. cbn [mbind option_bind].
  destruct (readResponse MaxPackageSize reply) as [[[? payload] ?]|e]; [|by intros [= <- _]].
  cbn [mbind option_bind]. destruct (finish o payload); cbn; [by intros [= <- _]|done].
Qed.

(** On any server the console makes the calls of its script, in order, and shows
    the answers. *)
Lemma Run_script p (m : MsgHandle (Router M F)) i lines fuel :
  (length (script lines) < fuel)%nat -> Forall (fun l => typed l.1 l.2) lines ->
  Run_loop MaxPackageSize fuel (mkClient m i) (script lines) =
    '(m', replies) ← Session.run MaxPackageSize p m ((fun l => Call i l.1) <$> lines);
    Some (mkClient m' i, (show <$> replies) ++ [Bye]).
Proof.
  revert fuel m. induction lines as [|[o parts] lines IH]; intros fuel m Hf Ht; (destruct fuel as [|fuel]; [lia|]).
  { by rewrite Run_quit. }
  apply Forall_cons in Ht as [Ht Hts]. rewrite script_cons in *. rewrite length_app in Hf. cbn [length] in Hf.
  rewrite Run_typed with (o := o) by done. cbn [fmap list_fmap Session.run fst].
  destruct (do_call _ _ o) as [[[m1 j] x]|] eqn:Hdo; cbn [mbind option_bind server]; [|done].
  apply do_call_connID in Hdo. cbn in Hdo. subst j. rewrite IH by (lia || done).
  by destruct (Session.run _ _ _ _) as [[m' rs]|].
Qed.

End Script.

Section Shipped.
Context {M : Type} `{IMemTableLaws M} `{Raft.RaftConfig} (MaxPackageSize : Z).
Hypothesis small_replies : 0 < MaxPackageSize -> 8 <= MaxPackageSize.


End Shipped.

(** ** Sample: the commands of a short session, with a deletion and a scan *)
Section Sample.
#[local] Existing Instances Partitioned.sample_math Partitioned.sample_math_laws MemTable.sample_list MemTable.sample_list_laws
  Recovery.sample_storage Recovery.sample_raft Recovery.sample_ops Recovery.sample_laws.

Definition sample_pred : Predicate.Predicate := Predicate.mkPredicate (of_string "az") Predicate.OpGT (of_string "9.9").
Definition sample_json : bytes := of_string "{" ++ quote :: of_string "az" ++ quote :: of_string ":10}".
Definition sample_lines : list (call * list bytes) :=
  [(CPut (of_string "a") (of_string "x y"), [of_string "put"; of_string "a"; of_string "x"; of_string "y"]);
   (CPut (of_string "b") sample_json, [of_string "put"; of_string "b"; sample_json]);
   (CDelete (of_string "a"), [of_string "delete"; of_string "a"]);
   (CScan (mkScanRequest [] (of_string "c") sample_pred),
    [of_string "scan"; of_string "-"; of_string "c"; of_string "az"; of_string ">"; of_string "9.9"])].

Lemma sample_typed : Forall (fun l => typed l.1 l.2) sample_lines.
Proof.
  repeat (apply Forall_cons; split); [..|by apply Forall_nil]; (split; [apply words_check; vm_compute; reflexivity|]).
  - exists [of_string "x"; of_string "y"]. by vm_compute.
  - by exists [sample_json].
  - reflexivity.
  - split; [by vm_compute|]. split; [by vm_compute|]. exists [of_string "az"; of_string ">"; of_string "9.9"]. split; [|reflexivity].
    right. split; [vm_compute; split; discriminate|]. by exists [of_string "9.9"].
Qed.

Lemma sample_lines_ok :
  shipped_ok 4096 (Engine.memTable (KV.storage Recovery.sample_server)) ∅ ((fun l => Call 1 l.1) <$> sample_lines).
Proof.
  split; [split; [eval_size|split; [eval_closed|vm_compute; reflexivity]]|]. intros m1 E1. vm_compute in E1. injection E1 as <-.
  split; [split; [eval_size|split; [eval_closed|vm_compute; reflexivity]]|]. intros m2 E2. vm_compute in E2. injection E2 as <-.
  split; [split; [eval_size|eval_call]|]. intros m3 E3. vm_compute in E3. injection E3 as <-.
  split; [split; [eval_size|eval_call]|done].
Qed.


End Sample.

End Console.
