(* ===== verification/Bench.v ===== *)
(** The load generator of [benchmark/runner.go] and [benchmark/stats.go]: its own
    copy of the client's protocol, the keys it makes, the operations it picks, the
    phase that fills the store, and what it counts. *)
From Stdlib Require Import SpecFloat.
From S2P Require Import Prelude Bytes Strconv Credit SkipList Bloom SSTable MemTable Engine StorageWAL RaftWAL Raft Wire Proto Json Predicate Network Service Recovery Client Session Console.
Import Credits Partitioned SSTable MemTable Scan Dispatch Routing Recovery Link Client Session.
#[local] Existing Instances BanNet.Message_IMessage Utils.Message_IMessage.

Module Bench.

(** ** benchmark/stats.go *)

(** Durations are nanoseconds, an [int64]. *)
Record Stats := mkStats { latencies : list Z; totalOps : Z; totalErrs : Z }.
Definition NewStats : Stats := mkStats [] 0 0.

Definition Record_op (s : Stats) (duration : Z) (failed : bool) : Stats :=
  mkStats (latencies s ++ [duration]) (totalOps s + 1) (totalErrs s + if failed then 1 else 0).

(** The sum wraps, the division truncates. *)
Definition AvgLatency (s : Stats) : Z :=
  match latencies s with
  | [] => 0
  | l => Z.quot (foldl (fun sum d => int64_of (wrap64 (sum + d))) 0 l) (zlen l)
  end.

Definition MaxLatency (s : Stats) : Z := foldl (fun max l => if max <? l then l else max) 0 (latencies s).

(** ** Keys *)

Definition hex_digit (d : Z) : byte := byte_of (if d <? 10 then 48 + d else 87 + d).
Fixpoint hex_digits (fuel : nat) (n : Z) : bytes :=
  match fuel with
  | O => []
  | S f => if n <? 16 then [hex_digit n] else hex_digits f (n / 16) ++ [hex_digit (n mod 16)]
  end.

(** [fmt.Sprintf("%0*x", keySize, idx)] of an index that is not negative: a width
    beyond a million is refused, a negative one pads with blanks on the right. *)
Definition makeKey (idx keySize : Z) : bytes :=
  let s := hex_digits 16 idx in
  if (keySize <? -1000000) || (1000000 <? keySize) then of_string "%!(BADWIDTH)" ++ s else
  if keySize <? 0 then s ++ replicate (Z.to_nat (- keySize - zlen s)) (byte_of 32) else
  replicate (Z.to_nat (keySize - zlen s)) (byte_of 48) ++ s.

(** ** benchmark/runner.go *)

Record Cfg := mkCfg { KeySize : Z; ValueSize : Z; KeyCount : Z; ReadPercent : Z; Mode : string }.

Inductive op := Put | Get | Delete.

(** [r] is the random number below 100; [ReadPercent] is [int64(ReadRatio*100)]. *)
Definition chooseOp (cfg : Cfg) (r : Z) : op :=
  if String.eqb (Mode cfg) "put" then Put else
  if String.eqb (Mode cfg) "get" then Get else
  if String.eqb (Mode cfg) "delete" then Delete else
  if String.eqb (Mode cfg) "mixed" then (if r <? ReadPercent cfg then Get else Put) else Put.

Section Bench.
Context {R : Type} `{IRouter R} (MaxPackageSize : Z).

(** [recv]: the payload, and what follows on the connection. *)
Definition recv (conn : bytes) : result (bytes * bytes) :=
  let? (header, conn) := read_full BanNet.GetHeadLen conn in
  let? tempMsg := BanNet.UnPack MaxPackageSize header in
  let? conn :=
    if 0 <? BanNet.IDLen tempMsg
    then let? (_, conn) := read_full (BanNet.IDLen tempMsg) conn in Ok conn else Ok conn in
  if 0 <? BanNet.DataLen tempMsg then read_full (BanNet.DataLen tempMsg) conn else Ok ([], conn).

(** [send] and [recv] on a connection without earlier answers. *)
Definition roundtrip (c : Client R) (msgID data : bytes) : option (Client R * result bytes) :=
  match BanNet.Pack (Utils.NewMessage2 msgID data) with
  | Error e => Some (c, Error e)
  | Ok packed =>
      '(s, reply) ← exchange MaxPackageSize (server c) (connID c) packed;
      Some (mkClient s (connID c), let? (resp, _) := recv reply in Ok resp)
  end.

Definition parseStatus (payload : bytes) : option (result (bytes * bytes)) :=
  match payload with
  | [] => Some (Error (Err "empty payload"))
  | b :: _ =>
      let statusLen := bval b in
      if zlen payload <? 1 + statusLen then Some (Error (Err "truncated status")) else
      status ← slice 1 (1 + statusLen) payload;
      rest ← slice (1 + statusLen) (zlen payload) payload;
      Some (Ok (status, rest))
  end.

(** The end of [put] and [del]. *)
Definition expect_ok (resp : bytes) : option (result unit) :=
  r ← parseStatus resp;
  Some match r with
       | Error _ => Error (Err "server error")
       | Ok (status, _) => if bool_decide (status = Proto.KV.StatusOK) then Ok tt else Error (Err "server error")
       end.

Definition put (c : Client R) (key value : bytes) : option (Client R * result unit) :=
  let data := Utils.ByteBuilder [le_enc 4 (zlen key); le_enc 4 (zlen value); key; value] in
  '(c, r) ← roundtrip c MsgPut data;
  match r with Error e => Some (c, Error e) | Ok resp => e ← expect_ok resp; Some (c, e) end.

Definition get_value (resp : bytes) : option (result bytes) :=
  r ← parseStatus resp;
  match r with
  | Error _ => Some (Error (Err "key not found"))
  | Ok (status, rest) =>
      if negb (bool_decide (status = Proto.KV.StatusOK)) then Some (Error (Err "key not found")) else
      if zlen rest <? 4 then Some (Error (Err "short response")) else
      valueLen ← le32_at 0 rest;
      if zlen rest <? 4 + valueLen then Some (Error (Err "incomplete value")) else
      v ← slice 4 ((4 + valueLen) mod 2 ^ 32) rest; Some (Ok v)
  end.

Definition get (c : Client R) (key : bytes) : option (Client R * result bytes) :=
  '(c, r) ← roundtrip c MsgGet (Utils.ByteBuilder [le_enc 4 (zlen key); key]);
  match r with Error e => Some (c, Error e) | Ok resp => v ← get_value resp; Some (c, v) end.

Definition del (c : Client R) (key : bytes) : option (Client R * result unit) :=
  '(c, r) ← roundtrip c MsgDelete (Utils.ByteBuilder [le_enc 4 (zlen key); key]);
  match r with Error e => Some (c, Error e) | Ok resp => e ← expect_ok resp; Some (c, e) end.

Definition failed {A} (r : result A) : bool := match r with Ok _ => false | Error _ => true end.

(** One turn of [workerLoop]: the random index and number, the time it took;
    without [stats] (the warm-up) nothing is counted. *)
Definition worker_turn (cfg : Cfg) (c : Client R) (stats : option Stats) (keyIdx r lat : Z) : option (Client R * option Stats) :=
  let key := makeKey keyIdx (KeySize cfg) in
  '(c, opErr) ←
    match chooseOp cfg r with
    | Put => '(c, e) ← put c key (replicate (Z.to_nat (ValueSize cfg)) (byte_of 0)); Some (c, failed e)
    | Get => '(c, e) ← get c key; Some (c, failed e)
    | Delete => '(c, e) ← del c key; Some (c, failed e)
    end;
  Some (c, (fun s => Record_op s lat opErr) <$> stats).

(** One event of [prePopulate]: a worker that cannot connect, or one that has
    taken the next index off the channel and stores its key. *)
Inductive fill := DialFailed | Store (worker idx lat : Z).

Fixpoint prePopulate (cfg : Cfg) (m : MsgHandle R) (s : Stats) (evs : list fill) : option (MsgHandle R * Stats) :=
  match evs with
  | [] => Some (m, s)
  | DialFailed :: rest => prePopulate cfg m (Record_op s 0 true) rest
  | Store w i lat :: rest =>
      '(c, e) ← put (mkClient m w) (makeKey i (KeySize cfg)) (replicate (Z.to_nat (ValueSize cfg)) (byte_of 0));
      prePopulate cfg (server c) (Record_op s lat (failed e)) rest
  end.

(** Whether it fails, and whether [Run] does after the measured phase. *)
Definition prePopulate_err (s : Stats) : bool := 0 <? totalErrs s.
Definition float64_of (n : Z) : Float.float64 := binary_normalize 53 1024 n 0 false.
Definition maxErrRate : Float.float64 := Float.round10 false 1 (-2).
Definition Run_err (s : Stats) : bool :=
  (totalOps s =? 0) ||
  ((0 <? totalErrs s) && SFltb maxErrRate (SFdiv 53 1024 (float64_of (totalErrs s)) (float64_of (totalOps s)))).

(** *** The same protocol as the client library *)

Lemma recv_client conn :
  recv conn = let? (_, data, rest) := Client.readResponse MaxPackageSize conn in Ok (data, rest).
Proof.
  unfold recv, Client.readResponse.
  destruct (read_full BanNet.GetHeadLen conn) as [[header conn1]|]; [|done]. cbn [rbind].
  destruct (BanNet.UnPack MaxPackageSize header) as [m|]; [|done]. cbn [rbind].
  destruct (0 <? BanNet.IDLen m); [destruct (read_full (BanNet.IDLen m) conn1) as [[i conn2]|]; [|done]|];
    cbn [rbind]; (destruct (0 <? BanNet.DataLen m); [|done]); by destruct (read_full (BanNet.DataLen m) _) as [[? ?]|].
Qed.

Lemma roundtrip_client c msgID data : roundtrip c msgID data = Client.request MaxPackageSize c (Utils.NewMessage2 msgID data).
Proof.
  unfold roundtrip, Client.request, Client.send. destruct (BanNet.Pack _) as [p|e]; [|done].
  destruct (exchange _ _ _ p) as [[s reply]|]; [|done]. cbn [mbind option_bind]. rewrite recv_client.
  by destruct (Client.readResponse MaxPackageSize reply) as [[[? ?] ?]|].
Qed.

(** A result without the text of its error. *)
Definition outcome {A} (r : result A) : option A := match r with Ok a => Some a | Error _ => None end.
Definition same {A} (x y : option (Client R * result A)) : Prop := prod_map id outcome <$> x = prod_map id outcome <$> y.

Lemma parseStatus_client p : (outcome <$> parseStatus p) = (outcome <$> Proto.KV.parseStatus p).
Proof.
  unfold parseStatus, Proto.KV.parseStatus. destruct p as [|b p]; [done|]. cbv zeta. destruct (_ <? _); [done|].
  destruct (slice 1 _ _); [|done]. by destruct (slice _ _ _).
Qed.

Lemma status_client p : exists r1 r2, parseStatus p = Some r1 /\ Proto.KV.parseStatus p = Some r2 /\ outcome r1 = outcome r2.
Proof.
  destruct (Proto.KV.parseStatus_total p) as [r2 H2]. pose proof (parseStatus_client p) as E. rewrite H2 in E.
  destruct (parseStatus p) as [r1|]; [|done]. exists r1, r2. split_and!; [done|done|]. by injection E.
Qed.

Lemma expect_ok_client p : (outcome <$> expect_ok p) = (outcome <$> Client.check_status p).
Proof.
  unfold expect_ok, Client.check_status. destruct (status_client p) as ([[s r]|e] & r2 & -> & -> & E); cbn [mbind option_bind].
  - destruct r2; [by simplify_eq/=|done].
  - by destruct r2.
Qed.

Lemma get_value_client p : (outcome <$> get_value p) = (outcome <$> Proto.KV.parseGetResponse p).
Proof.
  unfold get_value, Proto.KV.parseGetResponse. destruct (status_client p) as ([[s r]|e] & r2 & -> & -> & E); cbn [mbind option_bind].
  - destruct r2 as [[? ?]|]; [|done]. simplify_eq/=. destruct (negb _); [done|]. destruct (_ <? 4); [done|].
    destruct (le32_at 0 _); [|done]. cbn [mbind option_bind]. destruct (_ <? _); [done|]. by destruct (slice _ _ _).
  - by destruct r2.
Qed.

(** The same request, and payloads taken for the same. *)
Lemma same_finish {A} (q : option (Client R * result bytes)) (f g : bytes -> option (result A)) :
  (forall p, (outcome <$> f p) = (outcome <$> g p)) ->
  same ('(c, r) ← q; match r with Error e => Some (c, Error e) | Ok p => x ← f p; Some (c, x) end)
       ('(c, r) ← q; match r with Error e => Some (c, Error e) | Ok p => x ← g p; Some (c, x) end).
Proof.
  intros Hfg. unfold same. destruct q as [[c [p|e]]|]; [|done..]. cbn [mbind option_bind].
  specialize (Hfg p). destruct (f p), (g p); cbn in *; congruence.
Qed.

(** the load generator measures what clients get: its own copy of the
    protocol does to the server what the client library does, whatever the
    server answers, and fails exactly when the library fails; only the texts of
    the errors differ. *)
Theorem bench_agrees_with_client (c : Client R) (key value : bytes) :
  same (put c key value) (Client.SendPut MaxPackageSize c key value) /\
  same (get c key) (Client.SendGet MaxPackageSize c key) /\
  same (del c key) (Client.SendDelete MaxPackageSize c key).
Proof.
  unfold put, get, del. rewrite !roundtrip_client. split_and!; apply same_finish; intros p.
  - apply expect_ok_client.
  - apply get_value_client.
  - apply expect_ok_client.
Qed.

End Bench.

(** *** The statistics *)

Lemma max_fold l acc : acc <= foldl (fun max x => if max <? x then x else max) acc l /\ Forall (fun x => x <= foldl (fun max x => if max <? x then x else max) acc l) l.
Proof.
  revert acc. induction l as [|x l IH]; intros acc; [split; [cbn; lia|constructor]|]. cbn [foldl].
  destruct (Z.ltb_spec acc x); destruct (IH (if acc <? x then x else acc)) as [H1 H2];
    destruct (Z.ltb_spec acc x); try lia; (split; [lia|constructor; [lia|done]]).
Qed.

Lemma zsum_cons d l : zsum (d :: l) = d + zsum l.
Proof. done. Qed.

Lemma sum_fold l acc :
  0 <= acc -> Forall (fun d => 0 <= d) l -> acc + zsum l < 2 ^ 63 ->
  foldl (fun sum d => int64_of (wrap64 (sum + d))) acc l = acc + zsum l.
Proof.
  intros Ha Hl. revert acc Ha. induction Hl as [|d l Hd Hl IH]; intros acc Ha Hs; [cbn; lia|].
  rewrite zsum_cons in *. cbn [foldl]. pose proof (zsum_nonneg l Hl).
  rewrite int64_of_wrap, int64_of_small by (unfold i64; lia). rewrite IH by lia. lia.
Qed.

(** The reported average lies between zero and the reported maximum. *)
Lemma average_below_maximum s :
  Forall (fun d => 0 <= d) (latencies s) -> zsum (latencies s) < 2 ^ 63 -> 0 <= AvgLatency s <= MaxLatency s.
Proof.
  intros Hl Hs. unfold AvgLatency, MaxLatency. destruct (max_fold (latencies s) 0) as [Hm0 Hm].
  destruct (latencies s) as [|d l] eqn:E; [cbn; lia|].
  assert (0 < zlen (d :: l)) as Hpos by (rewrite zlen_cons; pose proof (zlen_nonneg l); lia). rewrite <- E in *. clear E.
  rewrite sum_fold by (done || lia). set (mx := foldl _ _ _) in *.
  assert (0 <= zsum (latencies s) <= zlen (latencies s) * mx) as Hb.
  { clearbody mx. clear Hs Hpos. induction (latencies s) as [|x xs IH]; [done|]. apply Forall_cons in Hl as [? Hl]. apply Forall_cons in Hm as [? Hm].
    rewrite zlen_cons, zsum_cons. specialize (IH Hl Hm). lia. }
  rewrite Z.add_0_l, Z.quot_div_nonneg by lia. split; [apply Z.div_pos; lia|]. apply Z.div_le_upper_bound; lia.
Qed.

(** One error in a hundred is tolerated, one in ninety-nine is not. *)
Example error_rate : Run_err (mkStats [] 100 1) = false /\ Run_err (mkStats [] 99 1) = true.
Proof. vm_compute. done. Qed.

(** *** The keys *)

Definition hex_value (b : byte) : Z := if bval b <? 58 then bval b - 48 else bval b - 87.
Definition hex_number (s : bytes) : Z := foldl (fun acc b => 16 * acc + hex_value b) 0 s.

Lemma hex_value_digit d : 0 <= d < 16 -> hex_value (hex_digit d) = d.
Proof.
  intros Hd. unfold hex_value, hex_digit. destruct (Z.ltb_spec d 10); rewrite bval_byte_of, Z.mod_small by lia.
  - destruct (Z.ltb_spec (48 + d) 58); lia.
  - destruct (Z.ltb_spec (87 + d) 58); lia.
Qed.

Lemma hex_number_digits fuel n : 0 <= n < 16 ^ Z.of_nat fuel -> hex_number (hex_digits fuel n) = n.
Proof.
  revert n. induction fuel as [|f IH]; intros n Hn; [cbn in *; lia|].
  cbn [hex_digits]. rewrite Nat2Z.inj_succ, Z.pow_succ_r in Hn by lia. unfold hex_number in *. destruct (Z.ltb_spec n 16).
  - cbn. rewrite hex_value_digit by lia. lia.
  - rewrite foldl_app, IH.
    + cbn. rewrite hex_value_digit by (apply Z.mod_pos_bound; lia). rewrite (Z.div_mod n 16) at 3 by lia. lia.
    + split; [apply Z.div_pos; lia|]. apply Z.div_lt_upper_bound; lia.
Qed.

Lemma hex_number_zeros k s : hex_number (replicate k (byte_of 48) ++ s) = hex_number s.
Proof. unfold hex_number. induction k as [|k IH]; [done|]. exact IH. Qed.

(** Keys of a sensible width tell their indexes apart, and are as long as asked
    for when the index fits: [KeyCount] distinct keys. *)
Theorem makeKey_distinct (keySize i j : Z) :
  0 <= keySize <= 1000000 -> 0 <= i < 2 ^ 63 -> 0 <= j < 2 ^ 63 ->
  zlen (makeKey i keySize) = Z.max keySize (zlen (hex_digits 16 i)) /\
  (makeKey i keySize = makeKey j keySize -> i = j).
Proof.
  intros Hk Hi Hj.
  assert (forall x, makeKey x keySize = replicate (Z.to_nat (keySize - zlen (hex_digits 16 x))) (byte_of 48) ++ hex_digits 16 x) as E.
  { intros x. unfold makeKey. destruct (Z.ltb_spec keySize (-1000000)), (Z.ltb_spec 1000000 keySize), (Z.ltb_spec keySize 0); try lia. done. }
  rewrite !E. split.
  - rewrite zlen_app. unfold zlen at 1. rewrite length_replicate. lia.
  - intros Heq%(f_equal hex_number). by rewrite !hex_number_zeros, !hex_number_digits in Heq by (cbn; lia).
Qed.

(** *** Filling the store *)
Section Fill.
Context {M : Type} `{IMemTableLaws M} `{Raft.RaftConfig} {F : Type} (MaxPackageSize : Z).
Hypothesis small_replies : 0 < MaxPackageSize -> 8 <= MaxPackageSize.

Definition zeros (cfg : Cfg) : bytes := replicate (Z.to_nat (ValueSize cfg)) (byte_of 0).
Definition key_of (cfg : Cfg) (i : Z) : bytes := makeKey i (KeySize cfg).

(** The puts of workers that all could connect: who, which index, how long. *)
Definition stores (evs : list (Z * Z * Z)) : list fill := (fun e => Store e.1.1 e.1.2 e.2) <$> evs.
Definition puts (cfg : Cfg) (evs : list (Z * Z * Z)) : list Session.event :=
  (fun e => Call e.1.1 (CPut (key_of cfg e.1.2) (zeros cfg))) <$> evs.

(** [put] and [get] succeed with the library's. *)
Lemma put_written (c c' : Client (Router M F)) key value :
  Client.SendPut MaxPackageSize c key value = Some (c', Ok tt) -> put MaxPackageSize c key value = Some (c', Ok tt).
Proof.
  intros E. pose proof (bench_agrees_with_client MaxPackageSize c key value) as (Hp & _). unfold same in Hp. rewrite E in Hp.
  destruct (put MaxPackageSize c key value) as [[c1 [[]|]]|]; cbn in Hp; by simplify_eq.
Qed.

Lemma get_found (c c' : Client (Router M F)) key value :
  Client.SendGet MaxPackageSize c key = Some (c', Ok value) -> get MaxPackageSize c key = Some (c', Ok value).
Proof.
  intros E. pose proof (bench_agrees_with_client MaxPackageSize c key value) as (_ & Hg & _). unfold same in Hg. rewrite E in Hg.
  destruct (get MaxPackageSize c key) as [[c1 [|]]|]; cbn in Hg; by simplify_eq.
Qed.

(** [rest] is what happens after the phase. *)
Lemma fill_spec cfg m p (r : Router M F) ops c s evs rest :
  serves m p r -> serving r ops c -> session_ok MaxPackageSize (mem r) (puts cfg evs ++ rest) ->
  exists m' r' c' s', prePopulate MaxPackageSize cfg m s (stores evs) = Some (m', s') /\
    totalErrs s' = totalErrs s /\ totalOps s' = totalOps s + zlen evs /\
    serves m' p r' /\ serving r' (ops ++ session_log (puts cfg evs)) c' /\ session_ok MaxPackageSize (mem r') rest /\
    (forall key, all c' key = if decide (key ∈ (fun e => key_of cfg e.1.2) <$> evs) then Some (Some (zeros cfg)) else all c key).
Proof.
  revert m r ops c s. induction evs as [|[[w i] d] evs IH]; intros m r ops c s Hm Hr Hok.
  - exists m, r, c, s. rewrite app_nil_r. split_and!; try done. rewrite zlen_nil. lia.
  - destruct Hok as [Hok Hrest].
    destruct (do_call_spec MaxPackageSize small_replies m p r ops c w _ Hm Hr Hok) as (m1 & r1 & Hrun & Hm1 & Hr1 & Haft).
    destruct (IH m1 r1 _ _ (Record_op s d false) Hm1 Hr1 (Hrest _ Haft)) as (m' & r' & c' & s' & Hrun' & He & Ho & Hm' & Hr' & Hrest' & Hc').
    exists m', r', c', s'. cbn [do_call answer_call snd] in Hrun.
    destruct (Client.SendPut _ _ _ _) as [[c1 x]|] eqn:Ep; [|done]. cbn [mbind option_bind] in Hrun. simplify_eq. apply put_written in Ep.
    cbn [stores fmap list_fmap prePopulate fst snd] in *. fold (zeros cfg) (key_of cfg i). rewrite Ep. cbn [mbind option_bind server failed].
    cbn [totalErrs totalOps Record_op] in *. rewrite zlen_cons.
    split_and!; [exact Hrun'|lia|lia|done|by rewrite <- app_assoc in Hr'|done|].
    intros key. rewrite Hc'. cbn [answer_call fst write all fmap list_fmap].
    destruct (decide (key ∈ (fun e => key_of cfg e.1.2) <$> evs)) as [Hin|Hin].
    + by rewrite decide_True by by right.
    + destruct (decide (key_of cfg i = key)) as [<-|Hne]; [by rewrite decide_True by by left|].
      rewrite decide_False; [done|]. intros [->|?]%elem_of_cons; done.
Qed.

(** After [prePopulate] every key of the benchmark is in the store: whichever
    worker takes which index and in whatever order the puts reach the server, no
    error is counted, one operation per key is, and a get of any of the keys the
    measured phase picks from finds the zeros that were stored. *)
Theorem populate_fills_every_key (cfg : Cfg) m p (r : Router M F) ops c (evs : list (Z * Z * Z)) :
  serves m p r -> serving r ops c -> session_ok MaxPackageSize (mem r) (puts cfg evs) ->
  (fun e => e.1.2) <$> evs ≡ₚ seqZ 0 (KeyCount cfg) ->
  exists m' s', prePopulate MaxPackageSize cfg m NewStats (stores evs) = Some (m', s') /\
    prePopulate_err s' = false /\ totalOps s' = Z.max 0 (KeyCount cfg) /\
    forall w i, 0 <= i < KeyCount cfg -> size_ok MaxPackageSize (zlen (Proto.KV.encodeKey (key_of cfg i))) ->
      size_ok MaxPackageSize (zlen (Proto.KV.getResponse (zeros cfg))) ->
      exists c', get MaxPackageSize (mkClient m' w) (key_of cfg i) = Some (c', Ok (zeros cfg)).
Proof.
  intros Hm Hr Hok Hperm.
  destruct (fill_spec cfg m p r ops c NewStats evs [] Hm Hr) as (m' & r' & c' & s' & Hrun & He & Ho & Hm' & Hr' & _ & Hc'); [by rewrite app_nil_r|].
  exists m', s'. split; [done|]. split; [unfold prePopulate_err; by rewrite He|]. split.
  { rewrite Ho. cbn. apply Permutation_length in Hperm. rewrite length_fmap, length_seqZ in Hperm. unfold zlen. lia. }
  intros w i Hi Hk Hv.
  assert (all c' (key_of cfg i) = Some (Some (zeros cfg))) as Hall.
  { rewrite Hc', decide_True; [done|]. apply list_elem_of_fmap.
    assert (i ∈ ((fun e => e.1.2) <$> evs : list Z)) as (e & -> & He')%list_elem_of_fmap by (rewrite Hperm; apply elem_of_seqZ; lia).
    by exists e. }
  destruct (do_call_spec MaxPackageSize small_replies m' p r' _ c' w (CGet (key_of cfg i)) Hm' Hr') as (m2 & r2 & Hget & _).
  { apply (get_ok MaxPackageSize _ c'); [apply Hr'|done|]. intros v E. rewrite Hall in E. by simplify_eq. }
  cbn [do_call answer_call snd] in Hget. rewrite Hall in Hget.
  destruct (Client.SendGet _ _ _) as [[c2 x]|] eqn:Eg; [|done]. cbn [mbind option_bind] in Hget. simplify_eq.
  eexists. by apply get_found.
Qed.

End Fill.

(** ** Sample: two workers fill a store of two keys *)
Section Sample.
#[local] Existing Instances Partitioned.sample_math Partitioned.sample_math_laws MemTable.sample_list MemTable.sample_list_laws
  Recovery.sample_storage Recovery.sample_raft Recovery.sample_ops Recovery.sample_laws.

Definition sample_cfg : Cfg := mkCfg 3 2 2 50 "mixed".

Lemma populate_fills_every_key_witness : exists m' s',
  prePopulate 4096 sample_cfg sample_handle NewStats (stores [(1, 1, 5); (2, 0, 7)]) = Some (m', s') /\ totalOps s' = 2 /\
  exists c', get 4096 (mkClient m' 9) (of_string "001") = Some (c', Ok [byte_of 0; byte_of 0]).
Proof.
  destruct (populate_fills_every_key 4096 ltac:(intros _; vm_compute; discriminate) sample_cfg sample_handle 0
    (NewRouter Recovery.sample_server tt) [] (mkContent (fun _ => None) []) [(1, 1, 5); (2, 0, 7)]) as (m' & s' & Hrun & _ & Ho & Hget).
  - split; [done|]. intros id Hid. repeat (apply elem_of_cons in Hid as [-> |Hid]; [by vm_compute|]). by apply elem_of_nil in Hid.
  - split; [exact I|exact Recovery.sample_standalone].
  - pose proof Recovery.sample_promises as P0. cbn [session_ok puts fmap list_fmap fst snd]. next_call P0 P1. next_call P1 P2. done.
  - cbn. apply perm_swap.
  - exists m', s'. split; [exact Hrun|]. split; [exact Ho|]. apply (Hget 9 1); [vm_compute; intuition discriminate|eval_size..].
Defined.

End Sample.
End Bench.

(** ** The open-loop phase of [benchmark/ingest/main.go] *)
Module OpenLoop.

(** [parseRates]: rates in Hz, at least one of them and all positive. *)
Definition comma : byte := byte_of 44.

Fixpoint parse_rates (parts : list bytes) : result (list Z) :=
  match parts with
  | [] => Ok []
  | p :: rest =>
      match ParseInt (Console.TrimSpace p) with
      | None => Error (Err "invalid syntax")
      | Some v => if v <=? 0 then Error (Err "rate must be > 0") else let? vs := parse_rates rest in Ok (v :: vs)
      end
  end.
Definition parseRates (s : bytes) : result (list Z) := parse_rates (Split comma s).

(** Nanoseconds between two samples. *)
Definition interval (rateHz : Z) : Z := 1000000000 / rateHz.

Lemma parse_rates_positive parts l : parse_rates parts = Ok l -> length l = length parts /\ Forall (fun v => 0 < v) l.
Proof.
  revert l. induction parts as [|p parts IH]; intros l; cbn [parse_rates]; [by intros [= <-]|].
  destruct (ParseInt _) as [v|]; [|done]. destruct (Z.leb_spec v 0); [done|].
  destruct (parse_rates parts) as [vs|]; [|done]. intros [= <-]. destruct (IH vs eq_refl). split; [cbn; congruence|by constructor].
Qed.

(** No rate makes the pacing divide by zero. *)
Lemma parseRates_positive s l : parseRates s = Ok l -> l <> [] /\ Forall (fun v => 0 < v) l.
Proof.
  intros [Hl Hp]%parse_rates_positive. split; [|done]. intros ->. cbn in Hl.
  assert (forall t cur, length (Split_go comma t cur) <> 0%nat) as H by (induction t as [|b t IH]; intros cur; cbn; [done|by destruct (decide _)]).
  by apply (H s []).
Qed.

Example rates_default : parseRates (of_string "1000, 200000") = Ok [1000; 200000].
Proof. vm_compute. reflexivity. Qed.

(** The samples are their sequence numbers.  [busy] is the one the consumer is
    storing; [stored] has what it put into the engine, in order. *)
Record loop := mkLoop {
  q : list Z; busy : option Z; produced : Z; dropped : Z; written : Z; closed : bool; stored : list Z }.
Definition init : loop := mkLoop [] None 0 0 0 false [].

Section OpenLoop.
Context (qDepth : Z).

(** One turn of the producer: [select] with [default] on the channel, which takes
    the sample when the consumer waits for one or the buffer has room. *)
Definition produce (l : loop) : loop :=
  let seq := produced l in
  match busy l, q l with
  | None, [] => mkLoop [] (Some seq) (produced l + 1) (dropped l) (written l) false (stored l)
  | _, _ =>
      if zlen (q l) <? qDepth
      then mkLoop (q l ++ [seq]) (busy l) (produced l + 1) (dropped l) (written l) false (stored l)
      else mkLoop (q l) (busy l) (produced l + 1) (dropped l + 1) (written l) false (stored l)
  end.

(** A turn of the producer may also find the consumer between two receives. *)
Definition produce_behind (l : loop) : loop :=
  if zlen (q l) <? qDepth
  then mkLoop (q l ++ [produced l]) (busy l) (produced l + 1) (dropped l) (written l) false (stored l)
  else mkLoop (q l) (busy l) (produced l + 1) (dropped l + 1) (written l) false (stored l).

Inductive lstep (l : loop) : loop -> Prop :=
  | l_produce : closed l = false -> lstep l (produce l)
  | l_produce_behind : closed l = false -> lstep l (produce_behind l)
  | l_close : closed l = false -> lstep l (mkLoop (q l) (busy l) (produced l) (dropped l) (written l) true (stored l))
  | l_take s rest : busy l = None -> q l = s :: rest ->
      lstep l (mkLoop rest (Some s) (produced l) (dropped l) (written l) (closed l) (stored l))
  | l_put s : busy l = Some s ->
      lstep l (mkLoop (q l) None (produced l) (dropped l) (written l + 1) (closed l) (stored l ++ [s])).

(** The consumer's loop has ended. *)
Definition finished (l : loop) : Prop := closed l = true /\ q l = [] /\ busy l = None.

(** Everything that was not dropped, in the order it was produced. *)
Definition kept (l : loop) : list Z := stored l ++ option_list (busy l) ++ q l.

Definition ascending (n : Z) (l : list Z) : Prop := StronglySorted Z.lt l /\ Forall (fun s => 0 <= s < n) l.

Record loop_ok (l : loop) : Prop := {
  lo_count : produced l = dropped l + zlen (kept l);
  lo_written : written l = zlen (stored l);
  lo_order : ascending (produced l) (kept l);
  lo_queue : zlen (q l) <= Z.max 0 qDepth;
}.

Lemma ascending_snoc n l : 0 <= n -> ascending n l -> ascending (n + 1) (l ++ [n]).
Proof.
  intros Hn [Hs Hb]. split.
  - induction Hs as [|x l Hs IH Hx]; [repeat constructor|]. apply Forall_cons in Hb as [Hx0 Hb]. cbn. constructor; [by apply IH|].
    apply Forall_app. split; [done|]. repeat constructor. lia.
  - apply Forall_app. split; [|repeat constructor; lia]. eapply Forall_impl; [exact Hb|]. cbn. lia.
Qed.

Lemma ascending_weaken n l : ascending n l -> ascending (n + 1) l.
Proof. intros [Hs Hb]. split; [done|]. eapply Forall_impl; [exact Hb|]. cbn. lia. Qed.

(** A sample kept at the end, and one dropped. *)
Lemma keep_ok l l' :
  loop_ok l -> 0 <= dropped l -> kept l' = kept l ++ [produced l] -> produced l' = produced l + 1 -> dropped l' = dropped l ->
  written l' = written l -> stored l' = stored l -> zlen (q l') <= Z.max 0 qDepth -> loop_ok l'.
Proof.
  intros [H1 H2 H3 H4] Hd Hk Hp Hdr Hw Hs Hq. pose proof (zlen_nonneg (kept l)). split.
  - rewrite Hk, zlen_app, zlen_cons, zlen_nil. lia.
  - congruence.
  - rewrite Hk, Hp. apply ascending_snoc; [lia|done].
  - done.
Qed.

Lemma produce_behind_ok l : loop_ok l -> 0 <= dropped l -> loop_ok (produce_behind l) /\ 0 <= dropped (produce_behind l).
Proof.
  intros Hl Hd. pose proof Hl as [H1 H2 H3 H4]. unfold produce_behind. destruct (Z.ltb_spec (zlen (q l)) qDepth).
  - split; [|done]. apply (keep_ok l); try done.
    + unfold kept. cbn. by rewrite !app_assoc.
    + cbn. rewrite zlen_app, zlen_cons, zlen_nil. lia.
  - split; [|cbn; lia]. split; cbn; [|done|by apply ascending_weaken|done]. unfold kept in *. cbn. lia.
Qed.

Lemma produce_ok l : loop_ok l -> 0 <= dropped l -> loop_ok (produce l) /\ 0 <= dropped (produce l).
Proof.
  intros Hl Hd. pose proof (produce_behind_ok l Hl Hd) as Hb. unfold produce.
  destruct (busy l) as [s|] eqn:Eb; [by unfold produce_behind in Hb; rewrite Eb in Hb|].
  destruct (q l) as [|s rest] eqn:Eq; [|by unfold produce_behind in Hb; rewrite Eb, Eq in Hb].
  split; [|done]. apply (keep_ok l); try done; [|cbn; rewrite zlen_nil; lia]. unfold kept. rewrite Eb, Eq. cbn. by rewrite app_nil_r.
Qed.

Lemma lstep_ok l l' : lstep l l' -> loop_ok l /\ 0 <= dropped l -> loop_ok l' /\ 0 <= dropped l'.
Proof.
  intros Hs [Hl Hd]. pose proof Hl as [H1 H2 H3 H4]. destruct Hs as [?|?|?|s rest Eb Eq|s Eb].
  - by apply produce_ok.
  - by apply produce_behind_ok.
  - done.
  - unfold kept in *. rewrite Eb, Eq in *. split; [|done]. split; cbn in *; try done. rewrite zlen_cons in H4. pose proof (zlen_nonneg rest). lia.
  - unfold kept in *. rewrite Eb in *. cbn in *. split; [|done].
    assert (forall x, (stored l ++ [s]) ++ x = stored l ++ s :: x) as E by (intros x; by rewrite <- app_assoc).
    split; unfold kept; cbn; rewrite ?E; try done. rewrite zlen_app, zlen_cons, zlen_nil. lia.
Qed.

(** The report of the phase is honest: at its end, however producer and consumer
    interleave, the samples produced are those written and those dropped, none
    lost or counted twice; the engine got a strictly ascending subsequence of
    them; and the queue never held more than its depth. *)
Theorem open_loop_accounts (l : loop) :
  rtc lstep init l ->
  zlen (q l) <= Z.max 0 qDepth /\ ascending (produced l) (stored l) /\
  (finished l -> produced l = written l + dropped l).
Proof.
  intros Hr. assert (loop_ok l /\ 0 <= dropped l) as [[H1 H2 [H3 H4] H5] _].
  { eapply (rtc_invariant lstep (fun l => loop_ok l /\ 0 <= dropped l)); [|exact Hr|].
    - intros x y ? ?. by eapply lstep_ok.
    - split; [|done]. split; [done|done|split; constructor|cbn; rewrite zlen_nil; lia]. }
  split; [done|]. unfold kept in *. split.
  - split; [by eapply StronglySorted_app_1_l|]. by apply Forall_app in H4 as [? _].
  - intros (_ & Eq & Eb). rewrite Eq, Eb in H1. cbn in H1. rewrite app_nil_r in H1. lia.
Qed.

End OpenLoop.
End OpenLoop.
