(* ===== verification/BenchRun.v ===== *)
(** A whole run of the load generator ([Run] of [benchmark/runner.go]): filling,
    warming up and measuring, with the workers of a phase and the memtable's
    goroutines interleaved in any order, against the server. *)
From S2P Require Import Prelude Bytes Engine StorageWAL RaftWAL Raft Wire Proto Json Predicate Network Service Recovery Client Session Bench.
From S2P Require Import Credit SkipList Bloom SSTable MemTable.
Import Credits Partitioned SSTable MemTable Dispatch Routing Recovery Link Client Session Bench.
#[local] Existing Instances BanNet.Message_IMessage Utils.Message_IMessage.

Module BenchRun.
Section Run.
Context {M : Type} `{IMemTableLaws M} `{Raft.RaftConfig} {F : Type} (MaxPackageSize : Z).

(** ** A phase *)

(** What a turn of [workerLoop] finds: whether the time is up and the phase
    stopped, the random numbers, how long the call takes. *)
Record turn := mkTurn { in_time : bool; stopped : bool; rnd : Z; r100 : Z; lat : Z }.

(** A worker that dials, one that makes a turn, a pass of a goroutine of the
    memtable. *)
Inductive event := Dialed (w : Z) (ok : bool) | Turn (w : Z) (t : turn) | Working (j : work).

(** [live] has the connections of the workers in their loops; without [stats]
    nothing is counted. *)
Record phase_state := mkPhase { handle : MsgHandle (Router M F); stats : option Stats; live : list Z }.

(** [rand.Int] of a bound that is not positive panics. *)
Definition random_index (cfg : Cfg) (x : Z) : option Z := if KeyCount cfg <=? 0 then None else Some (x mod KeyCount cfg).

Definition workerLoop_turn (cfg : Cfg) (st : phase_state) (w : Z) (t : turn) : option phase_state :=
  if negb (in_time t) || stopped t then Some (mkPhase (handle st) (stats st) (filter (fun x => x <> w) (live st))) else
  keyIdx ← random_index cfg (rnd t);
  '(c, s) ← worker_turn MaxPackageSize cfg (mkClient (handle st) w) (stats st) keyIdx (r100 t) (lat t);
  Some (mkPhase (server c) s (live st)).

(** [p] is the router's object.  A turn of a worker that is not in its loop is
    none. *)
Definition phase_step (p : nat) (cfg : Cfg) (st : phase_state) (ev : event) : option phase_state :=
  match ev with
  | Dialed w true => Some (mkPhase (handle st) (stats st) (w :: live st))
  | Dialed w false => Some (mkPhase (handle st) ((fun s => Record_op s 0 true) <$> stats st) (live st))
  | Turn w t => if decide (w ∈ live st) then workerLoop_turn cfg st w t else Some st
  | Working j => m ← background p (handle st) j; Some (mkPhase m (stats st) (live st))
  end.

Fixpoint phase (p : nat) (cfg : Cfg) (st : phase_state) (evs : list event) : option phase_state :=
  match evs with
  | [] => Some st
  | ev :: rest => st ← phase_step p cfg st ev; phase p cfg st rest
  end.

Definition runPhase (p : nat) (cfg : Cfg) (m : MsgHandle (Router M F)) (s : option Stats) (evs : list event) : option phase_state :=
  phase p cfg (mkPhase m s []) evs.

(** ** The run *)

Definition fills (cfg : Cfg) : bool :=
  String.eqb (Mode cfg) "get" || String.eqb (Mode cfg) "mixed" || String.eqb (Mode cfg) "delete".

(** The verdict on the statistics of the measured phase. *)
Definition verdict (s : Stats) : result Stats :=
  if totalOps s =? 0 then Error (Err "benchmark executed 0 operations") else
  if Run_err s then Error (Err "benchmark error rate exceeds threshold") else Ok s.

Definition Run (p : nat) (cfg : Cfg) (Warmup : Z) (m : MsgHandle (Router M F)) (filling : list fill) (warm measured : list event)
    : option (MsgHandle (Router M F) * result Stats) :=
  '(m, bad) ← (if fills cfg then '(m, s) ← prePopulate MaxPackageSize cfg m NewStats filling; Some (m, prePopulate_err s) else Some (m, false));
  if (bad : bool) then Some (m, Error (Err "pre-populate failed")) else
  m ← (if 0 <? Warmup then st ← runPhase p cfg m None warm; Some (handle st) else Some m);
  st ← runPhase p cfg m (Some NewStats) measured;
  Some (handle st, verdict (default NewStats (stats st))).

(** ** What is asked of the server *)

Definition index_of (cfg : Cfg) (t : turn) : Z := rnd t mod KeyCount cfg.

Definition call_of (cfg : Cfg) (t : turn) : call :=
  let key := key_of cfg (index_of cfg t) in
  match chooseOp cfg (r100 t) with
  | Put => CPut key (zeros cfg)
  | Get => CGet key
  | Delete => CDelete key
  end.

(** The session of a phase that starts with the workers [lv] in their loops. *)
Fixpoint session_of (cfg : Cfg) (lv : list Z) (evs : list event) : list Session.event :=
  match evs with
  | [] => []
  | Dialed w ok :: rest => session_of cfg (if ok then w :: lv else lv) rest
  | Turn w t :: rest =>
      if decide (w ∈ lv) then
        if negb (in_time t) || stopped t then session_of cfg (filter (fun x => x <> w) lv) rest
        else Call w (call_of cfg t) :: session_of cfg lv rest
      else session_of cfg lv rest
  | Working j :: rest => Background j :: session_of cfg lv rest
  end.

Definition is_call (e : Session.event) : bool := match e with Call _ _ => true | Background _ => false end.
Definition is_failed_dial (e : event) : bool := match e with Dialed _ false => true | _ => false end.
Definition calls (evs : list Session.event) : Z := zlen (filter (fun e => is_call e = true) evs).
Definition failed_dials (evs : list event) : Z := zlen (filter (fun e => is_failed_dial e = true) evs).

(** *** No operation fails *)

Definition reads (cfg : Cfg) : bool := String.eqb (Mode cfg) "get" || String.eqb (Mode cfg) "mixed".

Lemma reads_fills cfg : reads cfg = true -> fills cfg = true.
Proof. unfold reads, fills. by intros ->. Qed.

(** In a mode that reads, every key that can be picked has a value. *)
Definition present (cfg : Cfg) (c : content) : Prop :=
  reads cfg = true -> forall i, 0 <= i < KeyCount cfg -> exists v, all c (key_of cfg i) = Some (Some v).

Lemma chooseOp_mode cfg r :
  match chooseOp cfg r with Get => reads cfg = true | Delete => reads cfg = false | Put => True end.
Proof.
  unfold chooseOp, reads. destruct (String.eqb (Mode cfg) "put"); [done|].
  destruct (String.eqb (Mode cfg) "get"); [done|].
  destruct (String.eqb_spec (Mode cfg) "delete") as [->|_]; [done|].
  destruct (String.eqb (Mode cfg) "mixed"); [|done]. by destruct (_ <? _).
Qed.

Lemma index_range cfg t : 0 < KeyCount cfg -> 0 <= index_of cfg t < KeyCount cfg.
Proof. apply Z.mod_pos_bound. Qed.

Lemma present_after cfg c t : 0 < KeyCount cfg -> present cfg c -> present cfg (answer_call c (call_of cfg t)).1.
Proof.
  intros Hk Hp Hr i Hi. pose proof (chooseOp_mode cfg (r100 t)) as Hm. unfold call_of in *.
  destruct (chooseOp cfg (r100 t)); cbn [answer_call fst]; [|by apply Hp|congruence].
  cbn [write all]. destruct (decide (_ = _)); [by eexists|by apply Hp].
Qed.

Lemma put_deleted (c c' : Client (Router M F)) key :
  Client.SendDelete MaxPackageSize c key = Some (c', Ok tt) -> del MaxPackageSize c key = Some (c', Ok tt).
Proof.
  intros E. pose proof (bench_agrees_with_client MaxPackageSize c key []) as (_ & _ & Hd). unfold same in Hd. rewrite E in Hd.
  destruct (del MaxPackageSize c key) as [[c1 [[]|]]|]; cbn in Hd; by simplify_eq.
Qed.

Hypothesis small_replies : 0 < MaxPackageSize -> 8 <= MaxPackageSize.

Lemma worker_turn_spec cfg m p (r : Router M F) ops c w t s :
  0 < KeyCount cfg -> serves m p r -> serving r ops c -> present cfg c -> call_ok MaxPackageSize (mem r) (call_of cfg t) ->
  exists m' r', worker_turn MaxPackageSize cfg (mkClient m w) s (index_of cfg t) (r100 t) (lat t)
      = Some (mkClient m' w, (fun s => Record_op s (lat t) false) <$> s) /\
    serves m' p r' /\ serving r' (ops ++ call_log (call_of cfg t)) (answer_call c (call_of cfg t)).1 /\
    mem_after (mem r) (call_of cfg t) (mem r').
Proof.
  intros Hk Hm Hr Hp Hok. destruct (do_call_spec MaxPackageSize small_replies m p r ops c w _ Hm Hr Hok) as (m' & r' & Hrun & Hrest).
  exists m', r'. split; [|done]. clear Hrest Hok. unfold worker_turn. fold (key_of cfg (index_of cfg t)) (zeros cfg).
  pose proof (chooseOp_mode cfg (r100 t)) as Hmode. unfold call_of in Hrun.
  destruct (chooseOp cfg (r100 t)); cbn [do_call answer_call snd] in Hrun.
  - destruct (Client.SendPut _ _ _ _) as [[c1 x]|] eqn:E; [|done]. cbn [mbind option_bind] in Hrun. simplify_eq.
    by rewrite (put_written _ _ _ _ _ E).
  - destruct (Hp Hmode (index_of cfg t) (index_range cfg t Hk)) as [v Hv]. rewrite Hv in Hrun.
    destruct (Client.SendGet _ _ _) as [[c1 x]|] eqn:E; [|done]. cbn [mbind option_bind] in Hrun. simplify_eq.
    by rewrite (get_found _ _ _ _ _ E).
  - destruct (Client.SendDelete _ _ _) as [[c1 x]|] eqn:E; [|done]. cbn [mbind option_bind] in Hrun. simplify_eq.
    by rewrite (put_deleted _ _ _ E).
Qed.

(** The statistics after [n] operations that succeeded and [d] workers that got no
    connection. *)
Definition counted (s s' : option Stats) (n d : Z) : Prop :=
  match s, s' with
  | Some s, Some s' => totalOps s' = totalOps s + n + d /\ totalErrs s' = totalErrs s + d
  | None, None => True
  | _, _ => False
  end.

Lemma counted_record s s' n d l b :
  counted ((fun s => Record_op s l b) <$> s) s' n d -> counted s s' (if b then n else 1 + n) (if b then 1 + d else d).
Proof. destruct s as [s|], s' as [s'|], b; cbn; try done; lia. Qed.

Lemma calls_call w o l : calls (Call w o :: l) = 1 + calls l.
Proof. unfold calls. by rewrite filter_cons, decide_True, zlen_cons. Qed.

Lemma failed_dials_cons ev evs : failed_dials (ev :: evs) = if is_failed_dial ev then 1 + failed_dials evs else failed_dials evs.
Proof. unfold failed_dials. rewrite filter_cons. destruct (is_failed_dial ev); [by rewrite decide_True, zlen_cons|by rewrite decide_False]. Qed.

Lemma phase_spec cfg p evs rest : 0 < KeyCount cfg -> forall m (r : Router M F) ops c s lv,
  serves m p r -> serving r ops c -> present cfg c -> session_ok MaxPackageSize (mem r) (session_of cfg lv evs ++ rest) ->
  exists m' r' ops' c' s' lv', phase p cfg (mkPhase m s lv) evs = Some (mkPhase m' s' lv') /\
    serves m' p r' /\ serving r' ops' c' /\ present cfg c' /\ session_ok MaxPackageSize (mem r') rest /\
    counted s s' (calls (session_of cfg lv evs)) (failed_dials evs).
Proof.
  intros Hk. induction evs as [|ev evs IH]; intros m r ops c s lv Hm Hr Hp Hok.
  { exists m, r, ops, c, s, lv. split_and!; try done. destruct s; [|done]. cbn [counted session_of]. change (calls []) with 0. change (failed_dials []) with 0. lia. }
  rewrite failed_dials_cons.
  destruct ev as [w [|]|w t|j]; cbn [phase phase_step session_of is_failed_dial] in *.
  - cbn [mbind option_bind handle stats live]. by apply (IH m r ops c).
  - cbn [mbind option_bind handle stats live].
    destruct (IH m r ops c ((fun s => Record_op s 0 true) <$> s) lv Hm Hr Hp Hok) as (m' & r' & ops' & c' & s' & lv' & Hrun & Hm' & Hr' & Hp' & Hok' & Hc).
    exists m', r', ops', c', s', lv'. split_and!; try done. by apply counted_record in Hc.
  - cbn [live]. destruct (decide (w ∈ lv)); [|by apply (IH m r ops c)].
    unfold workerLoop_turn. cbn [handle stats live]. destruct (_ || _); [by apply (IH m r ops c)|].
    unfold random_index. rewrite (proj2 (Z.leb_gt _ _)) by done. cbn [mbind option_bind]. fold (index_of cfg t).
    destruct Hok as [Hok Hrest]. destruct (worker_turn_spec cfg m p r ops c w t s Hk Hm Hr Hp Hok) as (m1 & r1 & -> & Hm1 & Hr1 & Ha).
    cbn [mbind option_bind server]. specialize (Hrest _ Ha).
    destruct (IH m1 r1 _ _ ((fun s => Record_op s (lat t) false) <$> s) lv Hm1 Hr1 (present_after cfg c t Hk Hp) Hrest) as (m' & r' & ops' & c' & s' & lv' & Hrun & Hm' & Hr' & Hp' & Hok' & Hc).
    exists m', r', ops', c', s', lv'. split_and!; try done. rewrite calls_call. by apply counted_record in Hc.
  - destruct Hok as [Hok Hrest]. cbn [handle].
    destruct (background_spec m p r ops c j Hm Hr Hok) as (m1 & r1 & h & -> & Hm1 & Hr1 & Ha). cbn [mbind option_bind stats live].
    destruct (IH m1 r1 ops _ s lv Hm1 Hr1 Hp (Hrest _ Ha)) as (m' & r' & ops' & c' & s' & lv' & Hrun & Hm' & Hr' & Hp' & Hok' & Hc).
    exists m', r', ops', c', s', lv'. by split_and!.
Qed.

(** What the filling phase asks. *)
Definition filling_of (cfg : Cfg) (filling : list (Z * Z * Z)) : list Session.event := if fills cfg then puts cfg filling else [].
Definition warm_of (cfg : Cfg) (Warmup : Z) (warm : list event) : list Session.event := if 0 <? Warmup then session_of cfg [] warm else [].

(** a run against a server that works: whichever operations the random numbers
    choose in whichever mode, and however workers, flushes and compactions
    interleave, no operation fails, neither the gets of keys nor the deletes of
    keys that are gone: the counters hold one operation per call and one error
    per worker that got no connection, and nothing else.  So with all workers
    connected the run passes exactly when there was a call to count. *)
Theorem benchmark_run_counts (cfg : Cfg) (Warmup : Z) m p (r : Router M F) ops c (filling : list (Z * Z * Z)) (warm measured : list event)
    (Hk : 0 < KeyCount cfg) (Hm : serves m p r) (Hr : serving r ops c)
    (Hall : (fun e => e.1.2) <$> filling ≡ₚ seqZ 0 (KeyCount cfg))
    (Hok : session_ok MaxPackageSize (mem r) (filling_of cfg filling ++ warm_of cfg Warmup warm ++ session_of cfg [] measured)) :
  exists m' s, Run p cfg Warmup m (stores filling) warm measured = Some (m', verdict s) /\
    totalOps s = calls (session_of cfg [] measured) + failed_dials measured /\ totalErrs s = failed_dials measured /\
    (failed_dials measured = 0 -> verdict s = if calls (session_of cfg [] measured) =? 0 then Error (Err "benchmark executed 0 operations") else Ok s).
Proof.
  (* filling *)
  assert (exists m1 r1 ops1 c1, (if fills cfg then '(m, s) ← prePopulate MaxPackageSize cfg m NewStats (stores filling); Some (m, prePopulate_err s) else Some (m, false))
      = Some (m1, false) /\ serves m1 p r1 /\ serving r1 ops1 c1 /\ present cfg c1 /\
      session_ok MaxPackageSize (mem r1) (warm_of cfg Warmup warm ++ session_of cfg [] measured)) as (m1 & r1 & ops1 & c1 & Hfill & Hm1 & Hr1 & Hp1 & Hok1).
  { unfold filling_of in Hok. destruct (fills cfg) eqn:Ef.
    - destruct (fill_spec MaxPackageSize small_replies cfg m p r ops c NewStats filling _ Hm Hr Hok) as (m' & r' & c' & s' & Hrun & He & _ & Hm' & Hr' & Hrest & Hc').
      exists m', r', (ops ++ session_log (puts cfg filling)), c'. rewrite Hrun. cbn [mbind option_bind]. unfold prePopulate_err. rewrite He.
      split_and!; try done. intros _ i Hi. exists (zeros cfg). rewrite Hc', decide_True; [done|]. apply list_elem_of_fmap.
      assert (i ∈ ((fun e => e.1.2) <$> filling : list Z)) as (e & -> & He')%list_elem_of_fmap by (rewrite Hall; apply elem_of_seqZ; lia). by exists e.
    - exists m, r, ops, c. split_and!; try done. intros Hread. by rewrite reads_fills in Ef. }
  unfold Run. rewrite Hfill. cbn [mbind option_bind].
  (* warming up *)
  assert (exists m2 r2 ops2 c2, (if 0 <? Warmup then st ← runPhase p cfg m1 None warm; Some (handle st) else Some m1) = Some m2 /\
      serves m2 p r2 /\ serving r2 ops2 c2 /\ present cfg c2 /\ session_ok MaxPackageSize (mem r2) (session_of cfg [] measured ++ []))
    as (m2 & r2 & ops2 & c2 & -> & Hm2 & Hr2 & Hp2 & Hok2).
  { rewrite app_nil_r. unfold warm_of in Hok1. destruct (0 <? Warmup); [|by exists m1, r1, ops1, c1].
    destruct (phase_spec cfg p warm _ Hk m1 r1 ops1 c1 None [] Hm1 Hr1 Hp1 Hok1) as (m' & r' & ops' & c' & s' & lv' & Hrun & Hm' & Hr' & Hp' & Hok' & _).
    exists m', r', ops', c'. unfold runPhase. by rewrite Hrun. }
  (* measuring *)
  cbn [mbind option_bind].
  destruct (phase_spec cfg p measured [] Hk m2 r2 ops2 c2 (Some NewStats) [] Hm2 Hr2 Hp2 Hok2) as (m3 & r3 & ops3 & c3 & s3 & lv & Hrun & _ & _ & _ & _ & Hc).
  unfold runPhase. rewrite Hrun. cbn [mbind option_bind handle stats]. destruct s3 as [s|]; [|done]. destruct Hc as [Ho He]. cbn in Ho, He.
  exists m3, s. cbn [default]. split_and!; [done|lia|lia|]. intros Hd. rewrite Hd in *. unfold verdict, Run_err. rewrite Ho, He, !Z.add_0_r. by destruct (_ =? 0).
Qed.

End Run.

(** ** Sample: two keys are stored, one worker reads one and writes the other *)
Section Sample.
#[local] Existing Instances Partitioned.sample_math Partitioned.sample_math_laws MemTable.sample_list MemTable.sample_list_laws
  Recovery.sample_storage Recovery.sample_raft Recovery.sample_ops Recovery.sample_laws.

Definition sample_measured : list (@event (Live.Live SkipList.table) _) :=
  [Dialed 3 true; Turn 3 (mkTurn true false 1 20 4); Turn 3 (mkTurn true false 6 80 3); Turn 3 (mkTurn false false 0 0 0)].

Lemma benchmark_run_counts_witness : exists m' s,
  Run 4096 0 sample_cfg 0 sample_handle (stores [(1, 1, 5); (2, 0, 7)]) [] sample_measured = Some (m', Ok s) /\ totalOps s = 2 /\ totalErrs s = 0.
Proof.
  destruct (benchmark_run_counts 4096 ltac:(intros _; vm_compute; discriminate) sample_cfg 0 sample_handle 0
    (NewRouter Recovery.sample_server tt) [] (mkContent (fun _ => None) []) [(1, 1, 5); (2, 0, 7)] [] sample_measured) as (m' & s & Hrun & Ho & He & Hv).
  - reflexivity.
  - split; [done|]. intros id Hid. repeat (apply elem_of_cons in Hid as [-> |Hid]; [by vm_compute|]). by apply elem_of_nil in Hid.
  - split; [exact I|exact Recovery.sample_standalone].
  - cbn. apply perm_swap.
  - pose proof Recovery.sample_promises as P0.
    change (filling_of _ _ ++ _) with [Call 1 (CPut (of_string "001") (zeros sample_cfg)); Call 2 (CPut (of_string "000") (zeros sample_cfg));
      Call 3 (CGet (of_string "001")); Call 3 (CPut (of_string "000") (zeros sample_cfg))].
    cbn [session_ok]. next_call P0 P1. next_call P1 P2. clear P0 P1.
    match goal with |- call_ok ?s ?m0 ?o /\ _ => assert (call_ok s m0 o) as Hok end.
    { apply (get_ok 4096 _ _ _ P2); [eval_size|]. intros v Hv. vm_compute in Hv. injection Hv as <-. eval_size. }
    split; [exact Hok|]. intros m5 E5. pose proof (mem_after_promises 4096 _ _ _ _ P2 Hok E5) as P3. destruct E5 as [x E5]. next_table E5.
    next_call P3 P4. done.
  - exists m', s. rewrite Hrun, Hv by reflexivity. split; [reflexivity|]. split; [exact Ho|exact He].
Defined.

End Sample.
End BenchRun.
