(* ===== verification/Latency.v ===== *)
(** The statistics of [benchmark/stats.go] beyond the counters: the percentiles,
    whose index is the product of a count and a fraction in binary64, cut to an
    integer. *)
From Stdlib Require Import SpecFloat.
From S2P Require Import Prelude Bytes Predicate Bench.
Import Float Bench.

Module Latency.

(** ** benchmark/stats.go *)

(** [int(f)]: towards zero; what does not fit gives the least integer. *)
Definition float_int (f : float64) : Z :=
  match f with
  | S754_zero _ => 0
  | S754_finite s m e =>
      let v := if 0 <=? e then Zpos m * 2 ^ e else Zpos m / 2 ^ (- e) in
      if v <? 2 ^ 63 then (if s then - v else v) else - 2 ^ 63
  | _ => - 2 ^ 63
  end.

(** [None] is an index out of range. *)
Definition percentile (s : Stats) (p : float64) : option Z :=
  match latencies s with
  | [] => Some 0
  | l =>
      let sorted := merge_sort Z.le l in
      let idx := float_int (SFmul 53 1024 (of_int (zlen sorted)) p) in
      let idx := if zlen sorted <=? idx then zlen sorted - 1 else idx in
      if idx <? 0 then None else sorted !! Z.to_nat idx
  end.

Definition P50 (s : Stats) : option Z := percentile s (round10 false 50 (-2)).
Definition P95 (s : Stats) : option Z := percentile s (round10 false 95 (-2)).
Definition P99 (s : Stats) : option Z := percentile s (round10 false 99 (-2)).

(** [Duration.Seconds] of nanoseconds. *)
Definition Seconds (d : Z) : float64 :=
  SFadd 53 1024 (of_int (Z.quot d 1000000000)) (SFdiv 53 1024 (of_int (Z.rem d 1000000000)) (of_int 1000000000)).

(** [Start] and [Stop] give the times. *)
Definition QPS (s : Stats) (startTime endTime : Z) : float64 :=
  let d := endTime - startTime in
  if d =? 0 then S754_zero false else SFdiv 53 1024 (of_int (totalOps s)) (Seconds d).

Definition SuccessRate (s : Stats) : float64 :=
  let total := totalOps s in
  if total =? 0 then S754_zero false else
  SFmul 53 1024 (SFdiv 53 1024 (of_int (total - totalErrs s)) (of_int total)) (of_int 100).

(** ** Rounding a product *)

(** [M] shifted right by [j] bits: what is left, and whether bits were lost. *)
Definition shifted (M j : Z) (st : shr_record) : Prop :=
  shr_m st = M / 2 ^ j /\ (shr_r st || shr_s st = false <-> M mod 2 ^ j = 0).

Lemma shr_1_spec M j st : 0 <= M -> 0 <= j -> shifted M j st -> shifted M (j + 1) (shr_1 st).
Proof.
  intros HM Hj. destruct st as [m r s]. unfold shifted. cbn [shr_m shr_r shr_s]. intros [-> Hrs].
  assert (0 < 2 ^ j) as Hp by (by apply Z.pow_pos_nonneg).
  rewrite Z.pow_add_r by lia. change (2 ^ 1) with 2. rewrite Z.rem_mul_r, <- Z.div_div by lia.
  pose proof (Z.div_pos M (2 ^ j) HM Hp) as Hq. pose proof (Z.mod_pos_bound M (2 ^ j) Hp) as Hr.
  set (q := M / 2 ^ j) in *. set (t := M mod 2 ^ j) in *. clearbody q t.
  destruct q as [|[p|p|]|p]; cbn [shr_1 shr_m shr_r shr_s]; [..|lia].
  - split; [done|]. change (0 mod 2) with 0. rewrite Z.mul_0_r, Z.add_0_r, <- Hrs. by destruct r, s.
  - split; [apply (Z.div_unique_pos _ 2 _ 1); lia|]. assert (Zpos p~1 mod 2 = 1) as ->
      by (symmetry; apply (Z.mod_unique_pos _ 2 (Zpos p) 1); lia). split; [done|lia].
  - split; [apply (Z.div_unique_pos _ 2 _ 0); lia|]. assert (Zpos p~0 mod 2 = 0) as ->
      by (symmetry; apply (Z.mod_unique_pos _ 2 (Zpos p) 0); lia).
    rewrite Z.mul_0_r, Z.add_0_r, <- Hrs. by destruct r, s.
  - split; [done|]. change (1 mod 2) with 1. split; [done|lia].
Qed.

Lemma iter_shr M p j st : 0 <= M -> 0 <= j -> shifted M j st -> shifted M (j + Zpos p) (SpecFloat.iter_pos shr_1 p st).
Proof.
  intros HM. revert j st. induction p as [p IH|p IH|]; intros j st Hj Hst; cbn [SpecFloat.iter_pos].
  - replace (j + Zpos p~1) with (j + 1 + Zpos p + Zpos p) by lia. apply IH; [lia|]. apply IH; [lia|]. by apply shr_1_spec.
  - replace (j + Zpos p~0) with (j + Zpos p + Zpos p) by lia. apply IH; [lia|]. by apply IH.
  - by apply shr_1_spec.
Qed.

Lemma digits_unique p d : 2 ^ (d - 1) <= Zpos p < 2 ^ d -> 0 < d -> Zpos (digits2_pos p) = d.
Proof.
  intros [H1 H2] Hd. pose proof (digits2_bound p) as [B1 B2]. set (k := Zpos (digits2_pos p)) in *.
  destruct (Z.lt_trichotomy k d) as [Hlt|[?|Hgt]]; [|done|]; exfalso.
  - assert (2 ^ k <= 2 ^ (d - 1)) by (apply Z.pow_le_mono_r; lia). lia.
  - assert (2 ^ d <= 2 ^ (k - 1)) by (apply Z.pow_le_mono_r; lia). lia.
Qed.

(** Rounding a mantissa of more than 53 digits: the quotient, or the next integer
    when bits were lost. *)
Lemma round_aux_spec p e k :
  Zpos (digits2_pos p) = 53 + k -> 0 < k -> -1000 <= e + k <= 0 ->
  exists m e2 v, binary_round_aux 53 1024 false (Zpos p) e loc_Exact = S754_finite false m e2 /\
    e + k <= e2 <= e + k + 1 /\ Zpos m * 2 ^ (e2 - (e + k)) = v /\
    (v = Zpos p / 2 ^ k \/ (v = Zpos p / 2 ^ k + 1 /\ Zpos p mod 2 ^ k <> 0)).
Proof.
  intros Hd Hk He. unfold binary_round_aux, shr_fexp at 1. cbn [Zdigits2 shr_record_of_loc]. rewrite Hd.
  replace (fexp 53 1024 (53 + k + e) - e) with k by (unfold fexp, emin; lia).
  destruct k as [|k|k]; [lia| |lia]. cbn [shr].
  pose proof (iter_shr (Zpos p) k 0 (Build_shr_record (Zpos p) false false)) as Hs.
  destruct Hs as [Hm Hrs]; [lia|lia|split; cbn [shr_m shr_r shr_s]; [by rewrite Z.div_1_r|by rewrite Z.mod_1_r]|].
  rewrite Z.add_0_l in *. set (st := SpecFloat.iter_pos shr_1 k _) in *. clearbody st.
  pose proof (digits2_bound p) as [B1 B2]. rewrite Hd in B1, B2.
  assert (0 < 2 ^ Zpos k) as Hpk by (apply Z.pow_pos_nonneg; lia).
  assert (2 ^ 52 <= Zpos p / 2 ^ Zpos k < 2 ^ 53) as Hq.
  { replace (53 + Zpos k - 1) with (52 + Zpos k) in B1 by lia. rewrite Z.pow_add_r in B1, B2 by lia. split.
    - apply Z.div_le_lower_bound; lia.
    - apply Z.div_lt_upper_bound; lia. }
  set (v := round_nearest_even (shr_m st) (loc_of_shr_record st)).
  assert (v = Zpos p / 2 ^ Zpos k \/ (v = Zpos p / 2 ^ Zpos k + 1 /\ Zpos p mod 2 ^ Zpos k <> 0)) as Hv.
  { unfold v. rewrite Hm. destruct st as [m0 [] []]; cbn [loc_of_shr_record round_nearest_even shr_r shr_s orb] in *; rewrite <- Hrs.
    - by right.
    - case_match; [by left|by right].
    - by left.
    - by left. }
  clearbody v. assert (2 ^ 52 <= v <= 2 ^ 53) as Hvb by lia. destruct v as [|v|v]; [lia| |lia].
  unfold shr_fexp. cbn [Zdigits2 shr_record_of_loc].
  destruct (Z.eq_dec (Zpos v) (2 ^ 53)) as [E|E].
  - rewrite (digits_unique v 54) by lia. replace (fexp 53 1024 (54 + (e + Zpos k)) - (e + Zpos k)) with 1 by (unfold fexp, emin; lia).
    cbn [shr SpecFloat.iter_pos]. destruct v as [v|v|]; [lia| |lia]. cbn [shr_1 shr_m]. destruct (Z.leb_spec (e + Zpos k + 1) (1024 - 53)); [|lia].
    exists v, (e + Zpos k + 1), (Zpos v~0). replace (e + Zpos k + 1 - (e + Zpos k)) with 1 by lia. split_and!; [done|lia|lia|lia|done].
  - rewrite (digits_unique v 53) by lia. replace (fexp 53 1024 (53 + (e + Zpos k)) - (e + Zpos k)) with 0 by (unfold fexp, emin; lia).
    cbn [shr shr_m]. destruct (Z.leb_spec (e + Zpos k) (1024 - 53)); [|lia].
    exists v, (e + Zpos k), (Zpos v). rewrite Z.sub_diag. split_and!; [done|lia|lia|lia|done].
Qed.

(** Cutting a float of value [v / 2^s]. *)
Lemma float_int_spec m e s v :
  0 <= s -> - s <= e -> Zpos m * 2 ^ (e + s) = v -> v < 2 ^ 63 ->
  let i := float_int (S754_finite false m e) in 0 <= i /\ i * 2 ^ s <= v < (i + 1) * 2 ^ s.
Proof.
  intros Hs He Hv Hb. cbn [float_int]. assert (0 < 2 ^ s) as Hp by (apply Z.pow_pos_nonneg; lia).
  set (j := if 0 <=? e then Zpos m * 2 ^ e else Zpos m / 2 ^ (- e)).
  assert (0 <= j /\ j * 2 ^ s <= v < (j + 1) * 2 ^ s) as Hj.
  { unfold j. destruct (Z.leb_spec 0 e).
    - rewrite Z.pow_add_r in Hv by lia. assert (0 < 2 ^ e) by (apply Z.pow_pos_nonneg; lia). nia.
    - assert (2 ^ s = 2 ^ (e + s) * 2 ^ (- e)) as E by (rewrite <- Z.pow_add_r by lia; f_equal; lia).
      assert (0 < 2 ^ (e + s)) by (apply Z.pow_pos_nonneg; lia). assert (0 < 2 ^ (- e)) by (apply Z.pow_pos_nonneg; lia).
      pose proof (Z.div_mod (Zpos m) (2 ^ (- e)) ltac:(lia)). pose proof (Z.mod_pos_bound (Zpos m) (2 ^ (- e)) ltac:(lia)).
      pose proof (Z.div_pos (Zpos m) (2 ^ (- e)) ltac:(lia) ltac:(lia)). set (q := Zpos m / 2 ^ (- e)) in *. set (r := Zpos m mod 2 ^ (- e)) in *.
      clearbody q r. rewrite E. split; [done|]. nia. }
  cbv zeta. clearbody j. destruct (Z.ltb_spec j (2 ^ 63)); [done|nia].
Qed.

(** The product of a count and a fraction, cut: between its floor and its
    ceiling. *)
Lemma product_int n p e :
  0 < n < 2 ^ 52 -> Zpos (digits2_pos p) = 53 -> -200 <= e <= -52 ->
  let i := float_int (SFmul 53 1024 (of_int n) (S754_finite false p e)) in
  0 <= i /\ n * Zpos p < (i + 1) * 2 ^ (- e) /\ (i - 1) * 2 ^ (- e) < n * Zpos p.
Proof.
  intros Hn Hp He. destruct n as [|n|n]; [lia| |lia]. cbn [of_int].
  destruct (round_small false n) as (m & -> & Hm); [lia|]. pose proof (digits2_bound n) as [N1 N2].
  set (d := Zpos (digits2_pos n)) in *. assert (1 <= d) by (unfold d; lia).
  assert (d <= 52) as Hd. { destruct (Z.le_gt_cases d 52); [done|]. assert (2 ^ 52 <= 2 ^ (d - 1)) by (apply Z.pow_le_mono_r; lia). lia. }
  clearbody d. cbn [SFmul xorb]. pose proof (digits2_bound p) as [P1 P2]. rewrite Hp in P1, P2. change (53 - 1) with 52 in P1.
  assert (2 ^ 52 <= Zpos m < 2 ^ 53) as Hmb.
  { replace (2 ^ 52) with (2 ^ (d - 1) * 2 ^ (53 - d)) by (rewrite <- Z.pow_add_r by lia; f_equal; lia).
    replace (2 ^ 53) with (2 ^ d * 2 ^ (53 - d)) by (rewrite <- Z.pow_add_r by lia; f_equal; lia).
    assert (0 < 2 ^ (53 - d)) by (apply Z.pow_pos_nonneg; lia). nia. }
  pose proof (digits2_bound (m * p)) as [M1 M2]. set (D := Zpos (digits2_pos (m * p))) in *.
  assert (2 ^ 104 <= Zpos (m * p) < 2 ^ 106) as HM.
  { rewrite Pos2Z.inj_mul. change (2 ^ 104) with (2 ^ 52 * 2 ^ 52). change (2 ^ 106) with (2 ^ 53 * 2 ^ 53). nia. }
  assert (105 <= D <= 106) as HD.
  { split.
    - destruct (Z.le_gt_cases 105 D); [done|]. assert (2 ^ D <= 2 ^ 104) by (apply Z.pow_le_mono_r; lia). lia.
    - destruct (Z.le_gt_cases D 106); [done|]. assert (2 ^ 106 <= 2 ^ (D - 1)) by (apply Z.pow_le_mono_r; lia). lia. }
  destruct (round_aux_spec (m * p) (d - 53 + e) (D - 53)) as (m2 & e2 & v & -> & He2 & Hv & Hq); [unfold D; lia|lia|lia|].
  set (k := D - 53) in *. set (s := - (d - 53 + e + k)) in *.
  assert (0 < 2 ^ k) as Hk by (apply Z.pow_pos_nonneg; lia). assert (0 < 2 ^ s) as Hs by (apply Z.pow_pos_nonneg; lia).
  assert (0 < 2 ^ (- e)) as Hw by (apply Z.pow_pos_nonneg; lia). assert (0 < 2 ^ (53 - d)) as Hu by (apply Z.pow_pos_nonneg; lia).
  assert (2 ^ s * 2 ^ k = 2 ^ (53 - d) * 2 ^ (- e)) as Hsk by (rewrite <- !Z.pow_add_r by lia; f_equal; lia).
  assert (Zpos (m * p) = Zpos n * Zpos p * 2 ^ (53 - d)) as HMn by (rewrite Pos2Z.inj_mul, Hm; lia).
  assert ((v - 1) * 2 ^ k < Zpos (m * p) < (v + 1) * 2 ^ k /\ (v * 2 ^ k <= Zpos (m * p) \/ Zpos (m * p) < v * 2 ^ k)) as Hvb.
  { pose proof (Z.div_mod (Zpos (m * p)) (2 ^ k) ltac:(lia)). pose proof (Z.mod_pos_bound (Zpos (m * p)) (2 ^ k) Hk). nia. }
  assert (v < 2 ^ 63) as Hv63.
  { assert (2 ^ 106 = 2 ^ (106 - k) * 2 ^ k) as E by (rewrite <- Z.pow_add_r by lia; f_equal; lia).
    assert (2 ^ (106 - k) <= 2 ^ 54) by (apply Z.pow_le_mono_r; lia). nia. }
  destruct (float_int_spec m2 e2 s v) as (Hi & Hlo & Hhi); [lia|lia|by rewrite <- Hv; f_equal; f_equal; lia|done|].
  cbv zeta in *. set (i := float_int _) in *. clearbody i k s. clear Hq Hv Hm M1 M2 P1 P2 N1 N2.
  set (M := Zpos (m * p)) in *. set (u := 2 ^ (53 - d)) in *. set (w := 2 ^ (- e)) in *. set (b := 2 ^ k) in *. set (a := 2 ^ s) in *.
  clearbody M u w b a. split; [done|]. split.
  - apply (Z.mul_lt_mono_pos_r u); [done|]. rewrite <- HMn. nia.
  - apply (Z.mul_lt_mono_pos_r u); [done|]. rewrite <- HMn. nia.
Qed.


(** ** Ranks *)

Lemma sorted_mono l i j x y : StronglySorted Z.le l -> (i <= j)%nat -> l !! i = Some x -> l !! j = Some y -> x <= y.
Proof.
  intros Hs. revert i j. induction Hs as [|a l Hs IH Hall]; intros i j Hij Hi Hj; [done|].
  destruct i as [|i], j as [|j]; cbn in *; [|..|lia|]; simplify_eq.
  - done.
  - rewrite Forall_forall in Hall. apply Hall. by eapply list_elem_of_lookup_2.
  - apply (IH i j); [lia|done|done].
Qed.

(** The samples that are not above [x]. *)
Definition up_to (x : Z) (l : list Z) : Z := zlen (filter (fun y => y <= x) l).

Lemma rank l i x : StronglySorted Z.le l -> l !! i = Some x -> Z.of_nat i + 1 <= up_to x l.
Proof.
  intros Hs Hi. unfold up_to. rewrite <- (take_drop (S i) l), filter_app, zlen_app, filter_all.
  - pose proof (lookup_lt_Some _ _ _ Hi). unfold zlen at 1. rewrite length_take. pose proof (zlen_nonneg (filter (fun y => y <= x) (drop (S i) l))). lia.
  - intros y Hy. apply list_elem_of_lookup_1 in Hy as [j Hj]. apply lookup_take_Some in Hj as [Hj Hlt]. apply (sorted_mono l j i); [done|lia|done|done].
Qed.

(** An index that is cut to the last one when it is too large. *)
Lemma index_spec n p e :
  0 < n < 2 ^ 52 -> Zpos (digits2_pos p) = 53 -> -200 <= e <= -52 ->
  exists i j, (if n <=? float_int (SFmul 53 1024 (of_int n) (S754_finite false p e)) then n - 1
               else float_int (SFmul 53 1024 (of_int n) (S754_finite false p e))) = j /\
    j = Z.min i (n - 1) /\ 0 <= i /\ n * Zpos p < (i + 1) * 2 ^ (- e) /\ (i - 1) * 2 ^ (- e) < n * Zpos p.
Proof.
  intros Hn Hp He. destruct (product_int n p e) as (Hi & Hlo & Hhi); [done..|]. set (i := float_int _) in *. clearbody i.
  exists i, (Z.min i (n - 1)). split_and!; try done. destruct (Z.leb_spec n i); lia.
Qed.

(** What a percentile is: the sample at some place of the sorted list, the place
    being the product cut, or the last one. *)
Lemma percentile_spec s p e :
  latencies s <> [] -> zlen (latencies s) < 2 ^ 52 -> Zpos (digits2_pos p) = 53 -> -200 <= e <= -52 ->
  exists i j x, percentile s (S754_finite false p e) = Some x /\ merge_sort Z.le (latencies s) !! Z.to_nat j = Some x /\
    j = Z.min i (zlen (latencies s) - 1) /\ 0 <= i /\
    zlen (latencies s) * Zpos p < (i + 1) * 2 ^ (- e) /\ (i - 1) * 2 ^ (- e) < zlen (latencies s) * Zpos p.
Proof.
  intros Hne Hn Hp He. unfold percentile. cbv zeta. destruct (latencies s) as [|a l] eqn:El; [done|]. rewrite <- El in *. clear El a l.
  assert (zlen (merge_sort Z.le (latencies s)) = zlen (latencies s)) as -> by (unfold zlen; by rewrite (Permutation_length (merge_sort_Permutation Z.le _))).
  assert (0 < zlen (latencies s)) as Hpos by (destruct (latencies s); [done|rewrite zlen_cons; pose proof (zlen_nonneg l); lia]).
  destruct (index_spec (zlen (latencies s)) p e) as (i & j & -> & Hj & Hi & Hlo & Hhi); [lia|done|done|].
  destruct (Z.ltb_spec j 0); [lia|].
  destruct (lookup_lt_is_Some_2 (merge_sort Z.le (latencies s)) (Z.to_nat j)) as [x Hx].
  { rewrite (Permutation_length (merge_sort_Permutation Z.le _)). unfold zlen in *. lia. }
  exists i, j, x. by split_and!.
Qed.

Lemma sorted_latencies s : StronglySorted Z.le (merge_sort Z.le (latencies s)).
Proof. apply StronglySorted_merge_sort; [apply _|]. intros x y. lia. Qed.

Lemma up_to_sorted x l : up_to x (merge_sort Z.le l) = up_to x l.
Proof. unfold up_to, zlen. by rewrite (merge_sort_Permutation Z.le l). Qed.

Lemma percentile_below_max s j x : merge_sort Z.le (latencies s) !! j = Some x -> x <= MaxLatency s.
Proof.
  intros Hx. apply list_elem_of_lookup_2 in Hx. rewrite (merge_sort_Permutation Z.le) in Hx.
  destruct (max_fold (latencies s) 0) as [_ Hm]. rewrite Forall_forall in Hm. by apply Hm.
Qed.

(** the percentiles of a report mean what they say: of up to 2^40 samples, none of
    the three panics, P50 <= P95 <= P99 <= the maximum, and at least 50, 95 and 99
    percent of the samples are not above them, in spite of an index computed in
    binary64. *)
Theorem percentiles_ranked (s : Stats) (Hne : latencies s <> []) (Hn : zlen (latencies s) < 2 ^ 40) :
  exists a b c, P50 s = Some a /\ P95 s = Some b /\ P99 s = Some c /\ a <= b <= c /\ c <= MaxLatency s /\
    50 * zlen (latencies s) <= 100 * up_to a (latencies s) /\
    95 * zlen (latencies s) <= 100 * up_to b (latencies s) /\
    99 * zlen (latencies s) <= 100 * up_to c (latencies s).
Proof.
  assert (0 < zlen (latencies s)) as Hpos by (destruct (latencies s); [done|rewrite zlen_cons; pose proof (zlen_nonneg l); lia]).
  assert (round10 false 50 (-2) = S754_finite false 4503599627370496 (-53)) as E50 by (vm_compute; reflexivity).
  assert (round10 false 95 (-2) = S754_finite false 8556839292003942 (-53)) as E95 by (vm_compute; reflexivity).
  assert (round10 false 99 (-2) = S754_finite false 8917127262193582 (-53)) as E99 by (vm_compute; reflexivity).
  unfold P50, P95, P99. rewrite E50, E95, E99.
  destruct (percentile_spec s 4503599627370496 (-53)) as (i1 & j1 & a & -> & Ha & Hj1 & Hi1 & L1 & U1); [done|lia|done|lia|].
  destruct (percentile_spec s 8556839292003942 (-53)) as (i2 & j2 & b & -> & Hb & Hj2 & Hi2 & L2 & U2); [done|lia|done|lia|].
  destruct (percentile_spec s 8917127262193582 (-53)) as (i3 & j3 & c & -> & Hc & Hj3 & Hi3 & L3 & U3); [done|lia|done|lia|].
  pose proof (sorted_latencies s) as Hs. change (2 ^ (- -53)) with 9007199254740992 in *. change (2 ^ 40) with 1099511627776 in *.
  pose proof (rank _ _ _ Hs Ha) as Ra. pose proof (rank _ _ _ Hs Hb) as Rb. pose proof (rank _ _ _ Hs Hc) as Rc.
  rewrite up_to_sorted in Ra, Rb, Rc. set (n := zlen (latencies s)) in *. clearbody n.
  exists a, b, c. split_and!; [done|done|done| | |by eapply percentile_below_max|lia..].
  - apply (sorted_mono _ (Z.to_nat j1) (Z.to_nat j2) _ _ Hs); [lia|done|done].
  - apply (sorted_mono _ (Z.to_nat j2) (Z.to_nat j3) _ _ Hs); [lia|done|done].
Qed.

Lemma percentiles_ranked_witness :
  let s := mkStats [7; 1; 5; 3; 9; 2] 6 0 in
  exists a b c, P50 s = Some a /\ P95 s = Some b /\ P99 s = Some c /\ a <= b <= c /\ c <= MaxLatency s /\
    50 * 6 <= 100 * up_to a (latencies s) /\ 95 * 6 <= 100 * up_to b (latencies s) /\ 99 * 6 <= 100 * up_to c (latencies s).
Proof. apply (percentiles_ranked (mkStats [7; 1; 5; 3; 9; 2] 6 0)); [discriminate|reflexivity]. Defined.

Example percentiles_sample :
  let s := mkStats [7; 1; 5; 3; 9; 2] 6 0 in
  P50 s = Some 5 /\ P95 s = Some 9 /\ P99 s = Some 9 /\ SuccessRate s = of_int 100 /\ QPS s 0 2000000000 = of_int 3.
Proof. split_and!; vm_compute; reflexivity. Qed.

End Latency.
