(* ===== verification/IngestBench.v ===== *)
(** The ingestion benchmark [benchmark/ingest/main.go]: the engine driven at full
    speed and at a fixed rate, in the process, and what its results say about the
    engine's contents. *)
From Stdlib Require Import SpecFloat.
From S2P Require Import Prelude Bytes Strconv Predicate Credit SkipList Bloom SSTable MemTable Engine Recovery Bench Latency.
Import Float Engine Bench OpenLoop Latency.

Module IngestBench.

(** ** Samples *)

(** [fmt.Sprintf("imu:dev0:%020d", seq)] of a number that is not negative. *)
Definition sample_key (seq : Z) : bytes :=
  let s := FormatInt seq in of_string "imu:dev0:" ++ replicate (Z.to_nat (20 - zlen s)) (byte_of 48) ++ s.

Lemma parse_zeros k s : parse_digits 0 (replicate k (byte_of 48) ++ s) = parse_digits 0 s.
Proof. induction k as [|k IH]; [done|]. exact IH. Qed.

Lemma sample_key_inj i j : 0 <= i < 2 ^ 63 -> 0 <= j < 2 ^ 63 -> sample_key i = sample_key j -> i = j.
Proof.
  intros Hi Hj E%app_inv_head. apply (f_equal (parse_digits 0)) in E. rewrite !parse_zeros in E. unfold FormatInt in E.
  destruct (Z.ltb_spec i 0), (Z.ltb_spec j 0); [lia..|]. rewrite !parse_digits_digits in E by (cbn; lia). by injection E.
Qed.

(** ** Results *)

Record Result := mkResult {
  Label : bytes; RateHz : Z; Duration : Z; Produced : Z; Dropped : Z; Written : Z; Throughput : float64; MeanLat : Z;
  P50 : Z; P99 : Z; P999 : Z; P9999 : Z; Max : Z; HeapPeak : Z; SysPeak : Z; InflightPeak : Z }.

(** [memSampler]: a tick reads the heap, the memory of the process and the bytes
    in flight; the peaks start at zero. *)
Record peaks := mkPeaks { heapPeak : Z; sysPeak : Z; inflightPeak : Z }.
Definition memSampler_tick (p : peaks) (heap sys inflight : Z) : peaks :=
  mkPeaks (if heapPeak p <? heap then heap else heapPeak p) (if sysPeak p <? sys then sys else sysPeak p)
    (if inflightPeak p <? wrap64 inflight then wrap64 inflight else inflightPeak p).
Definition memSampler (ticks : list (Z * Z * Z)) : peaks :=
  foldl (fun p t => memSampler_tick p t.1.1 t.1.2 t.2) (mkPeaks 0 0 0) ticks.

(** [pct]; [None] is an index out of range. *)
Definition pct (sorted : list Z) (p : float64) : option Z :=
  match sorted with
  | [] => Some 0
  | _ =>
      let idx := float_int (SFmul 53 1024 (of_int (zlen sorted)) p) in
      let idx := if zlen sorted <=? idx then zlen sorted - 1 else idx in
      if idx <? 0 then None else sorted !! Z.to_nat idx
  end.

(** [time.Second] is [10^9]. *)
Definition mean_latency (tput : float64) : Z :=
  if SFltb (of_int 0) tput then float_int (SFdiv 53 1024 (of_int 1000000000) tput) else 0.

(** ** The engine under a phase *)
Section Ingest.
Context {M : Type} `{IMemTableLaws M} (valueSize : Z).

Definition value : bytes := replicate (Z.to_nat valueSize) (byte_of 0).

(** [setupEngine]: an engine over a new memtable. *)
Definition setupEngine (memTable : M) : Engine M := NewEngine memTable.

(** [engine.Put] of a sample, the result dropped. *)
Definition ingest (e : Engine M) (seq : Z) : option (Engine M) := '(e, _) ← Engine.Put e (sample_key seq) (Some value); Some e.

(** A put goes on when the pool has the credit. *)
Definition fits (e : Engine M) (seq : Z) : Prop := mt_Fits (memTable e) (entry_bytes (sample_key seq, Some value)) = true.

(** *** [runSaturation] *)

(** The counters, and what is left of the 1024 puts before the clock is read. *)
Record saturation := mkSaturation { engine : Engine M; seq : Z; written : Z; todo : nat; over : bool }.

Inductive sstep (s : saturation) : saturation -> Prop :=
  | s_round : todo s = 0%nat -> over s = false -> sstep s (mkSaturation (engine s) (seq s) (written s) 1024 false)
  | s_deadline : todo s = 0%nat -> over s = false -> sstep s (mkSaturation (engine s) (seq s) (written s) 0 true)
  | s_put n e : todo s = S n -> fits (engine s) (seq s) -> ingest (engine s) (seq s) = Some e ->
      sstep s (mkSaturation e (seq s + 1) (written s + 1) n (over s))
  | s_work j e : work_ok (memTable (engine s)) j -> Work (engine s) j = Some e -> sstep s (mkSaturation e (seq s) (written s) (todo s) (over s)).

Definition start_saturation (m : M) : saturation := mkSaturation (setupEngine m) 0 0 0 false.

Definition runSaturation (s : saturation) (elapsed : Z) (p : peaks) : Result :=
  let tput := SFdiv 53 1024 (of_int (written s)) (Seconds elapsed) in
  mkResult (of_string "saturated") 0 elapsed (written s) 0 (written s) tput (mean_latency tput) 0 0 0 0 0
    (heapPeak p) (sysPeak p) (inflightPeak p).

(** *** [runOpenLoop] *)

(** Producer and queue are those of [OpenLoop], where a put is all that changes
    [stored]; here it is the engine's put, and its latency is kept. *)
Record open_run := mkRun { lp : loop; eng : Engine M; lats : list Z }.

Inductive ostep (qDepth : Z) (s : open_run) : open_run -> Prop :=
  | o_loop l : lstep qDepth (lp s) l -> stored l = stored (lp s) -> ostep qDepth s (mkRun l (eng s) (lats s))
  | o_put seq e lat : busy (lp s) = Some seq -> fits (eng s) seq -> ingest (eng s) seq = Some e ->
      ostep qDepth s (mkRun (mkLoop (q (lp s)) None (produced (lp s)) (dropped (lp s)) (OpenLoop.written (lp s) + 1) (closed (lp s)) (stored (lp s) ++ [seq]))
        e (lats s ++ [lat]))
  | o_work j e : work_ok (memTable (eng s)) j -> Work (eng s) j = Some e -> ostep qDepth s (mkRun (lp s) e (lats s)).

Definition start_run (m : M) : open_run := mkRun OpenLoop.init (setupEngine m) [].

Definition runOpenLoop (rateHz : Z) (s : open_run) (elapsed : Z) (p : peaks) : option Result :=
  let sorted := merge_sort Z.le (lats s) in
  p50 ← pct sorted (round10 false 50 (-2)); p99 ← pct sorted (round10 false 99 (-2));
  p999 ← pct sorted (round10 false 999 (-3)); p9999 ← pct sorted (round10 false 9999 (-4)); max ← pct sorted (of_int 1);
  Some (mkResult (FormatInt rateHz ++ of_string "Hz") rateHz elapsed (produced (lp s)) (dropped (lp s)) (OpenLoop.written (lp s))
    (SFdiv 53 1024 (of_int (OpenLoop.written (lp s))) (Seconds elapsed)) 0 p50 p99 p999 p9999 max (heapPeak p) (sysPeak p) (inflightPeak p)).

(** ** What the engine holds *)

(** Exactly the samples [l], and nothing else. *)
Definition holds (e : Engine M) (l : list Z) : Prop :=
  exists c, promises (memTable e) c /\ forall key, all c key = if decide (key ∈ sample_key <$> l) then Some (Some value) else None.

Lemma holds_put e l seq e' : holds e l -> fits e seq -> ingest e seq = Some e' -> holds e' (l ++ [seq]).
Proof.
  intros (c & Hc & Hall) Hf. unfold ingest, Engine.Put. destruct (ml_put (memTable e) c (sample_key seq) (Some value) Hc Hf) as (m' & -> & Hm').
  cbn [mbind option_bind]. intros [= <-]. exists (write c (sample_key seq) (Some value)). split; [done|]. intros key. cbn [write all].
  rewrite Hall, fmap_app. destruct (decide (sample_key seq = key)) as [<-|Hne]; [by rewrite decide_True by (apply elem_of_app; right; by left)|].
  destruct (decide (key ∈ sample_key <$> l)) as [Hin|Hin].
  - by rewrite decide_True by (apply elem_of_app; by left).
  - rewrite decide_False; [done|]. intros [?|?%list_elem_of_singleton]%elem_of_app; congruence.
Qed.

Lemma holds_work e l j e' : holds e l -> work_ok (memTable e) j -> Work e j = Some e' -> holds e' l.
Proof.
  intros (c & Hc & Hall) Hj. unfold Work. destruct (ml_work _ c j Hc Hj) as (m' & h & -> & Hm'). cbn [mbind option_bind]. intros [= <-].
  by exists (mkContent (all c) h).
Qed.

Lemma holds_get e l seq : holds e l -> 0 <= seq < 2 ^ 63 -> Forall (fun s => 0 <= s < 2 ^ 63) l ->
  exists e', Engine.Get e (sample_key seq) = Some (e', if decide (seq ∈ l) then Ok value else Error (Err "Key not found")).
Proof.
  intros (c & Hc & Hall) Hs Hl. unfold Engine.Get. destruct (ml_get _ c (sample_key seq) Hc) as (m' & -> & _). cbn [mbind option_bind].
  rewrite Hall. eexists. do 2 f_equal. destruct (decide (seq ∈ l)) as [Hin|Hin].
  - by rewrite decide_True by by apply list_elem_of_fmap_2.
  - rewrite decide_False; [done|]. intros (s & E & Hs')%list_elem_of_fmap. rewrite Forall_forall in Hl. apply sample_key_inj in E; [|done|by apply Hl]. congruence.
Qed.

Definition empty : content := mkContent (fun _ => None) [].

Lemma holds_setup m : promises m empty -> holds (setupEngine m) [].
Proof. intros Hm. exists empty. by split. Qed.

(** *** Full speed *)

(** The samples below [seq], each put once. *)
Record saturation_ok (s : saturation) : Prop := {
  so_count : written s = seq s;
  so_pos : 0 <= seq s;
  so_rounds : exists n, seq s + Z.of_nat (todo s) = 1024 * n;
  so_over : over s = true -> todo s = 0%nat;
  so_holds : holds (engine s) (seqZ 0 (seq s));
}.

Lemma sstep_ok s s' : sstep s s' -> saturation_ok s -> saturation_ok s'.
Proof.
  intros Hs [H1 H2 [n H3] H4 H5]. destruct Hs as [Ht Ho|Ht Ho|k e Ht Hf He|j e Hj He].
  - split; cbn; try done. exists (n + 1). rewrite Ht in H3. lia.
  - split; cbn; try done. exists n. by rewrite Ht in H3.
  - split; cbn [written seq todo over engine]; try lia; [by exists n; rewrite Ht in H3; lia|intros Ho; rewrite H4 in Ht by done; discriminate|].
    rewrite seqZ_app by lia. change (seqZ (0 + seq s) 1) with [seq s]. by eapply holds_put.
  - split; cbn; try done; [by exists n|]. by eapply holds_work.
Qed.

(** a saturated run reports what the engine holds: when the deadline has passed,
    the samples written are 1024 per reading of the clock, each is found with its
    value, and no other sample is. *)
Theorem saturation_counts (m : M) (s : saturation) elapsed p
    (Hm : promises m empty) (Hrun : rtc sstep (start_saturation m) s) (Hover : over s = true) :
  let res := runSaturation s elapsed p in
  Produced res = Written res /\ Dropped res = 0 /\ (exists n, Written res = 1024 * n) /\
  (Written res < 2 ^ 63 -> forall i, 0 <= i < 2 ^ 63 ->
     exists e, Engine.Get (engine s) (sample_key i) = Some (e, if decide (i < Written res) then Ok value else Error (Err "Key not found"))).
Proof.
  assert (saturation_ok s) as [H1 H2 [n H3] H4 H5].
  { eapply (rtc_invariant sstep saturation_ok); [intros a b; apply sstep_ok|exact Hrun|].
    split; cbn; try done; [by exists 0|by apply holds_setup]. }
  cbn [runSaturation Produced Written Dropped]. split; [done|]. split; [done|]. split; [exists n; rewrite H4 in H3 by done; lia|].
  intros Hlt i Hi. destruct (holds_get (engine s) _ i H5 Hi) as [e He].
  { rewrite Forall_forall. intros x Hx%elem_of_seqZ. lia. }
  exists e. rewrite He. do 2 f_equal. rewrite H1. destruct (decide (i ∈ seqZ 0 (seq s))) as [Hin|Hin]; rewrite elem_of_seqZ in Hin.
  - by rewrite decide_True by lia.
  - by rewrite decide_False by lia.
Qed.

(** *** A fixed rate *)

Record run_ok (qDepth : Z) (s : open_run) : Prop := {
  ro_loop : rtc (lstep qDepth) OpenLoop.init (lp s);
  ro_holds : holds (eng s) (stored (lp s));
  ro_lats : length (lats s) = length (stored (lp s));
}.

Lemma ostep_ok qDepth s s' : ostep qDepth s s' -> run_ok qDepth s -> run_ok qDepth s'.
Proof.
  intros Hs [H1 H2 H3]. destruct Hs as [l Hl He|sq e lat Hb Hf He|j e Hj He].
  - split; cbn [lp eng lats]; [by eapply rtc_r|by rewrite He|by rewrite He].
  - split; cbn [lp eng lats stored]; [eapply rtc_r; [exact H1|]; by apply l_put|by eapply holds_put|by rewrite !length_app, H3].
  - split; cbn [lp eng lats]; [done|by eapply holds_work|done].
Qed.

Lemma start_run_ok qDepth m : promises m empty -> run_ok qDepth (start_run m).
Proof. intros Hm. split; [apply rtc_refl|by apply holds_setup|done]. Qed.

(** The percentile at the place [j]. *)
Lemma pct_spec l p e :
  l <> [] -> zlen l < 2 ^ 52 -> Zpos (digits2_pos p) = 53 -> -200 <= e <= -52 ->
  exists i j x, pct l (S754_finite false p e) = Some x /\ l !! Z.to_nat j = Some x /\ j = Z.min i (zlen l - 1) /\ 0 <= i /\
    zlen l * Zpos p < (i + 1) * 2 ^ (- e) /\ (i - 1) * 2 ^ (- e) < zlen l * Zpos p.
Proof.
  intros Hne Hn Hp He. unfold pct. cbv zeta. assert (0 < zlen l) as Hpos by (destruct l as [|a l]; [done|rewrite zlen_cons; pose proof (zlen_nonneg l); lia]).
  destruct (index_spec (zlen l) p e) as (i & j & -> & Hj & Hi & Hlo & Hhi); [lia|done|done|].
  destruct l as [|a l]; [done|]. destruct (Z.ltb_spec j 0); [lia|].
  destruct (lookup_lt_is_Some_2 (a :: l) (Z.to_nat j)) as [x Hx]; [unfold zlen in *; lia|]. exists i, j, x. by split_and!.
Qed.

(** The five reported places of a sorted list. *)
Lemma percentiles_in_order l :
  l <> [] -> zlen l < 2 ^ 40 -> StronglySorted Z.le l ->
  exists a b c d mx, pct l (round10 false 50 (-2)) = Some a /\ pct l (round10 false 99 (-2)) = Some b /\ pct l (round10 false 999 (-3)) = Some c /\
    pct l (round10 false 9999 (-4)) = Some d /\ pct l (of_int 1) = Some mx /\
    (a <= b <= c /\ c <= d <= mx) /\ mx ∈ l /\ Forall (fun x => x <= mx) l /\ 9999 * zlen l <= 10000 * up_to d l.
Proof.
  intros Hne Hn Hs. assert (0 < zlen l) as Hpos by (destruct l as [|x l]; [done|rewrite zlen_cons; pose proof (zlen_nonneg l); lia]).
  assert (round10 false 50 (-2) = S754_finite false 4503599627370496 (-53)) as -> by (vm_compute; reflexivity).
  assert (round10 false 99 (-2) = S754_finite false 8917127262193582 (-53)) as -> by (vm_compute; reflexivity).
  assert (round10 false 999 (-3) = S754_finite false 8998192055486251 (-53)) as -> by (vm_compute; reflexivity).
  assert (round10 false 9999 (-4) = S754_finite false 9006298534815518 (-53)) as -> by (vm_compute; reflexivity).
  assert (of_int 1 = S754_finite false 4503599627370496 (-52)) as -> by (vm_compute; reflexivity).
  destruct (pct_spec l 4503599627370496 (-53)) as (i1 & j1 & a & -> & Ha & Hj1 & Hi1 & L1 & U1); [done|lia|done|lia|].
  destruct (pct_spec l 8917127262193582 (-53)) as (i2 & j2 & b & -> & Hb & Hj2 & Hi2 & L2 & U2); [done|lia|done|lia|].
  destruct (pct_spec l 8998192055486251 (-53)) as (i3 & j3 & c & -> & Hc & Hj3 & Hi3 & L3 & U3); [done|lia|done|lia|].
  destruct (pct_spec l 9006298534815518 (-53)) as (i4 & j4 & d & -> & Hd & Hj4 & Hi4 & L4 & U4); [done|lia|done|lia|].
  destruct (pct_spec l 4503599627370496 (-52)) as (i5 & j5 & mx & -> & Hm & Hj5 & Hi5 & L5 & U5); [done|lia|done|lia|].
  change (2 ^ (- -53)) with 9007199254740992 in *. change (2 ^ (- -52)) with 4503599627370496 in *. change (2 ^ 40) with 1099511627776 in *.
  pose proof (rank _ _ _ Hs Hd) as Rd. exists a, b, c, d, mx.
  assert (j5 = zlen l - 1) as E5 by lia. split_and!; try done.
  - apply (sorted_mono l (Z.to_nat j1) (Z.to_nat j2)); [done|lia|done|done].
  - apply (sorted_mono l (Z.to_nat j2) (Z.to_nat j3)); [done|lia|done|done].
  - apply (sorted_mono l (Z.to_nat j3) (Z.to_nat j4)); [done|lia|done|done].
  - apply (sorted_mono l (Z.to_nat j4) (Z.to_nat j5)); [done|lia|done|done].
  - by eapply list_elem_of_lookup_2.
  - rewrite Forall_forall. intros x [k Hk]%list_elem_of_lookup_1. pose proof (lookup_lt_Some _ _ _ Hk).
    apply (sorted_mono l k (Z.to_nat j5)); [done|unfold zlen in *; lia|done|done].
  - lia.
Qed.

(** the report of a rate is honest: at the end of the phase, however producer,
    consumer and the memtable's goroutines interleave, the samples produced are
    those written and those dropped; exactly the written ones are found in the
    engine, with their values; and of up to 2^40 latencies the four percentiles
    are in order, below a maximum that is one, and at least 99.99 percent of the
    samples are not above the last of them. *)
Theorem open_loop_reports (qDepth rateHz elapsed : Z) (m : M) (s : open_run) p
    (Hm : promises m empty) (Hrun : rtc (ostep qDepth) (start_run m) s) (Hfin : finished (lp s)) (Hn : produced (lp s) < 2 ^ 40) :
  exists res, runOpenLoop rateHz s elapsed p = Some res /\ Produced res = Written res + Dropped res /\
    (forall i, 0 <= i < Produced res -> exists e,
       Engine.Get (eng s) (sample_key i) = Some (e, if decide (i ∈ stored (lp s)) then Ok value else Error (Err "Key not found"))) /\
    zlen (stored (lp s)) = Written res /\
    (Written res <> 0 -> P50 res <= P99 res <= P999 res /\ P999 res <= P9999 res <= Max res /\
       Max res ∈ lats s /\ Forall (fun x => x <= Max res) (lats s) /\
       9999 * Written res <= 10000 * up_to (P9999 res) (lats s)).
Proof.
  assert (run_ok qDepth s) as [H1 H2 H3].
  { eapply (rtc_invariant (ostep qDepth) (run_ok qDepth)); [intros a b; apply ostep_ok|exact Hrun|by apply start_run_ok]. }
  assert (loop_ok qDepth (lp s) /\ 0 <= dropped (lp s)) as [[L1 L2 [L3 L4] L5] L6].
  { eapply (rtc_invariant (lstep qDepth) (fun l => loop_ok qDepth l /\ 0 <= dropped l)); [|exact H1|].
    - intros x y ? ?. by eapply lstep_ok.
    - split; [|done]. split; [done|done|split; constructor|cbn; rewrite zlen_nil; lia]. }
  destruct Hfin as (_ & Fq & Fb). unfold kept in *. rewrite Fq, Fb in *. cbn [option_list app] in *. rewrite app_nil_r in *.
  assert (Forall (fun i => 0 <= i < 2 ^ 63) (stored (lp s))) as Hrange by (eapply Forall_impl; [exact L4|]; cbn; intros; lia).
  assert (zlen (lats s) = OpenLoop.written (lp s)) as Hlat by (unfold zlen in *; lia).
  set (l := merge_sort Z.le (lats s)).
  assert (zlen l = OpenLoop.written (lp s)) as Hlen by (unfold zlen in *; unfold l; rewrite (Permutation_length (merge_sort_Permutation Z.le _)); lia).
  assert (forall i, 0 <= i < produced (lp s) -> exists e, Engine.Get (eng s) (sample_key i) =
    Some (e, if decide (i ∈ stored (lp s)) then Ok value else Error (Err "Key not found"))) as Hget.
  { intros i Hi. apply (holds_get (eng s) (stored (lp s)) i H2); [lia|done]. }
  unfold runOpenLoop. fold l. destruct (decide (l = [])) as [E|E].
  { rewrite E. cbn [pct mbind option_bind]. eexists. split; [done|]. cbn. split_and!; [lia|done|lia|]. intros Hw. rewrite E in Hlen. done. }
  destruct (percentiles_in_order l E) as (a & b & c & d & mx & -> & -> & -> & -> & -> & [Ho1 Ho2] & Hmx & Hall & Hr); [lia| |].
  { apply StronglySorted_merge_sort; [apply _|]. intros x y. lia. }
  cbn [mbind option_bind]. eexists. split; [done|]. cbn [Produced Written Dropped P50 P99 P999 P9999 Max]. split_and!; [lia|done|lia|].
  intros _. split; [done|]. split; [done|]. unfold l in Hmx, Hall, Hr.
  rewrite (merge_sort_Permutation Z.le) in Hmx, Hall. rewrite up_to_sorted in Hr. fold l in Hr. by rewrite <- Hlen.
Qed.

End Ingest.

(** ** Sample: a queue without room, two samples, one of them dropped *)
Section Sample.
#[local] Existing Instances Partitioned.sample_math Partitioned.sample_math_laws MemTable.MemTable.sample_list MemTable.MemTable.sample_list_laws
  Recovery.sample_storage Recovery.sample_ops Recovery.sample_laws.

Definition sample_run : open_run := Eval vm_compute in
  match ingest 2 (setupEngine Recovery.sample_live) 0 with
  | Some e => mkRun (mkLoop [] None 2 1 1 true [0]) e [7]
  | None => start_run Recovery.sample_live
  end.

Lemma sample_runs : rtc (ostep 2 0) (start_run Recovery.sample_live) sample_run.
Proof.
  eapply rtc_l; [apply (o_loop 2 0 _ (produce 0 OpenLoop.init)); [by apply l_produce|done]|].
  eapply rtc_l; [apply (o_loop 2 0 _ (produce 0 (produce 0 OpenLoop.init))); [by apply l_produce|done]|].
  eapply rtc_l; [apply (o_loop 2 0 _ (mkLoop [] (Some 0) 2 1 0 true [])); [by apply (l_close 0 (mkLoop [] (Some 0) 2 1 0 false []))|done]|].
  eapply rtc_l; [|apply rtc_refl]. apply (o_put 2 0 (mkRun (mkLoop [] (Some 0) 2 1 0 true []) (setupEngine Recovery.sample_live) []) 0 (eng sample_run) 7);
    [done|by vm_compute|by vm_compute].
Qed.

Lemma open_loop_reports_witness :
  exists res, runOpenLoop 50 sample_run 40000000 (memSampler [(5, 6, 17); (3, 9, 0)]) = Some res /\ Produced res = 2 /\ Dropped res = 1 /\ Written res = 1 /\
    Max res = 7 /\ HeapPeak res = 5 /\ SysPeak res = 9 /\ InflightPeak res = 17 /\
    exists e, Engine.Get (eng sample_run) (sample_key 1) = Some (e, Error (Err "Key not found")).
Proof.
  destruct (open_loop_reports 2 0 50 40000000 Recovery.sample_live sample_run (memSampler [(5, 6, 17); (3, 9, 0)]))
    as (res & Hres & Hp & Hget & _); [apply Recovery.sample_promises|apply sample_runs|done|reflexivity|].
  exists res. split; [exact Hres|]. vm_compute in Hres. injection Hres as <-. do 7 (split; [reflexivity|]). apply (Hget 1). split; [discriminate|reflexivity].
Defined.

End Sample.
End IngestBench.
