(* ===== verification/GrpcBench.v ===== *)
(** The load generator of the gRPC service ([grpc_benchmark/runner.go] and
    [stats.go]): the keys, the operations, both phases, the counters, and when it
    fails.  Its statistics are those of [benchmark/stats.go], copied; the calls are
    those of [Grpc.v], whose outcomes the transport and the server decide. *)
From S2P Require Import Prelude Bytes Predicate Grpc Bench Latency.
Import Float Grpc.

Module GrpcBench.

(** ** stats.go *)

Definition Stats : Type := Bench.Stats.
Definition NewStats : Stats := Bench.mkStats [] 0 0.

(** The counters are atomic and the list has a lock. *)
Definition Record_op (s : Stats) (duration : Z) (failed : bool) : Stats :=
  Bench.mkStats (Bench.latencies s ++ [duration]) (Bench.totalOps s + 1) (Bench.totalErrs s + (if failed then 1 else 0)).

Definition AvgLatency (s : Stats) : Z := Bench.AvgLatency s.
Definition MaxLatency (s : Stats) : Z := Bench.MaxLatency s.
Definition percentile (s : Stats) (p : float64) : option Z := Latency.percentile s p.
Definition QPS (s : Stats) (startTime endTime : Z) : float64 := Latency.QPS s startTime endTime.
Definition SuccessRate (s : Stats) : float64 := Latency.SuccessRate s.

(** ** runner.go *)

Record Config := mkConfig {
  Workers : Z; KeySize : Z; ValueSize : Z; KeyCount : Z; ReadPercent : Z; Mode : string; Warmup : Z }.

Definition makeKey (idx keySize : Z) : bytes := Bench.makeKey idx keySize.

Inductive op := Put | Get | Delete.

(** [r] is the random number below 100; [ReadPercent] is [int64(ReadRatio*100)]. *)
Definition chooseOp (cfg : Config) (r : Z) : op :=
  if String.eqb (Mode cfg) "put" then Put else
  if String.eqb (Mode cfg) "get" then Get else
  if String.eqb (Mode cfg) "delete" then Delete else
  if String.eqb (Mode cfg) "mixed" then (if r <? ReadPercent cfg then Get else Put) else Put.

(** What the client's method makes of the outcome of its call: whether it failed. *)
Definition op_failed (o : op) (out : outcome) : bool :=
  match o with
  | Put | Delete => match client_write out with Ok _ => false | Error _ => true end
  | Get => match client_get out with Ok _ => false | Error _ => true end
  end.

(** [rand.Int] of a bound that is not positive panics. *)
Definition random_index (cfg : Config) (x : Z) : option Z := if KeyCount cfg <=? 0 then None else Some (x mod KeyCount cfg).

(** A turn of [workerLoop]: the time is not up, the phase has not been stopped; what
    the random numbers are, how long the call takes and how it ends. *)
Record turn := mkTurn { in_time : bool; stopped : bool; rnd : Z; r100 : Z; lat : Z; out : outcome }.

(** The turns of one worker: what it records, until it leaves.  [None] is a panic. *)
Fixpoint workerLoop (cfg : Config) (stats : option Stats) (turns : list turn) : option (option Stats) :=
  match turns with
  | [] => Some stats
  | t :: rest =>
      if negb (in_time t) || stopped t then Some stats else
      keyIdx ← random_index cfg (rnd t);
      let opErr := op_failed (chooseOp cfg (r100 t)) (out t) in
      workerLoop cfg ((fun s => Record_op s (lat t) opErr) <$> stats) rest
  end.

(** A worker of [runPhase]: [None] is one that got no client and leaves at once. *)
Definition worker := option (list turn).

(** The workers one after the other: what they record does not depend on how they
    interleave but for the order of the latencies. *)
Fixpoint runPhase (cfg : Config) (stats : option Stats) (workers : list worker) : option (option Stats) :=
  match workers with
  | [] => Some stats
  | None :: rest => runPhase cfg stats rest
  | Some turns :: rest => stats ← workerLoop cfg stats turns; runPhase cfg stats rest
  end.

(** [prePopulate]: a worker without a client takes nothing off the channel and
    records nothing; the others store indexes in any order. *)
Inductive fill := NoClient | Store (idx lat : Z) (out : outcome).

Fixpoint fill_phase (s : Stats) (evs : list fill) : Stats :=
  match evs with
  | [] => s
  | NoClient :: rest => fill_phase s rest
  | Store _ lat out :: rest => fill_phase (Record_op s lat (op_failed Put out)) rest
  end.

Definition prePopulate (evs : list fill) : result Stats :=
  let s := fill_phase NewStats evs in
  if 0 <? Bench.totalErrs s then Error (Err "errors during pre-population") else Ok s.

(** [Run]: the statistics of the measured phase. *)
Definition Run (cfg : Config) (evs : list fill) (warm measured : list worker) : option (result Stats) :=
  let fills := String.eqb (Mode cfg) "get" || String.eqb (Mode cfg) "mixed" || String.eqb (Mode cfg) "delete" in
  match (if fills then prePopulate evs else Ok NewStats) with
  | Error e => Some (Error (Err "pre-populate failed"))
  | Ok _ =>
      _ ← (if 0 <? Warmup cfg then runPhase cfg None warm else Some None);
      stats ← runPhase cfg (Some NewStats) measured;
      Some (match stats with Some s => Ok s | None => Ok NewStats end)
  end.

(** ** What it counts *)

(** The turns a worker makes: those before the first that finds the time up or the
    phase stopped. *)
Fixpoint made (turns : list turn) : list turn :=
  match turns with
  | [] => []
  | t :: rest => if negb (in_time t) || stopped t then [] else t :: made rest
  end.

Definition calls (workers : list worker) : list turn := concat ((fun w => made (default [] w)) <$> workers).
Definition failures (cfg : Config) (ts : list turn) : list turn := filter (fun t => op_failed (chooseOp cfg (r100 t)) (out t) = true) ts.

(** [s'] has the calls [ts] on top of [s]. *)
Definition counts (cfg : Config) (s : Stats) (ts : list turn) (s' : Stats) : Prop :=
  Bench.totalOps s' = Bench.totalOps s + zlen ts /\
  Bench.totalErrs s' = Bench.totalErrs s + zlen (failures cfg ts) /\
  Bench.latencies s' = Bench.latencies s ++ (lat <$> ts).

Lemma counts_nil cfg s : counts cfg s [] s.
Proof. unfold counts. rewrite !zlen_nil, !Z.add_0_r, app_nil_r. done. Qed.

Lemma counts_app cfg s ts s1 us s2 : counts cfg s ts s1 -> counts cfg s1 us s2 -> counts cfg s (ts ++ us) s2.
Proof.
  intros (H1 & H2 & H3) (G1 & G2 & G3). unfold counts, failures in *. rewrite G1, G2, G3, H1, H2, H3, filter_app, !zlen_app, fmap_app.
  rewrite app_assoc. split_and!; [lia|lia|done].
Qed.

Lemma workerLoop_counts cfg s turns :
  0 < KeyCount cfg -> exists s', workerLoop cfg (Some s) turns = Some (Some s') /\ counts cfg s (made turns) s'.
Proof.
  intros Hk. revert s. induction turns as [|t turns IH]; intros s; cbn [workerLoop made]; [exists s; split; [done|apply counts_nil]|].
  destruct (negb _ || _); [exists s; split; [done|apply counts_nil]|].
  unfold random_index. rewrite (proj2 (Z.leb_gt _ _)) by done. cbn [mbind option_bind fmap option_fmap option_map].
  destruct (IH (Record_op s (lat t) (op_failed (chooseOp cfg (r100 t)) (out t)))) as (s' & -> & Hc). exists s'. split; [done|].
  apply (counts_app cfg s [t] (Record_op s (lat t) (op_failed (chooseOp cfg (r100 t)) (out t)))); [|done].
  unfold counts, failures. rewrite filter_cons, filter_nil. cbn [Record_op Bench.totalOps Bench.totalErrs Bench.latencies fmap list_fmap].
  destruct (op_failed _ _); cbn [decide]; [rewrite decide_True by done|rewrite decide_False by done]; split_and!; done.
Qed.

Lemma runPhase_counts cfg s workers :
  0 < KeyCount cfg -> exists s', runPhase cfg (Some s) workers = Some (Some s') /\ counts cfg s (calls workers) s'.
Proof.
  intros Hk. unfold calls. revert s. induction workers as [|[turns|] workers IH]; intros s; cbn [runPhase fmap list_fmap concat default].
  - exists s. split; [done|apply counts_nil].
  - destruct (workerLoop_counts cfg s turns Hk) as (s1 & -> & H1). cbn [mbind option_bind]. destruct (IH s1) as (s' & -> & H2).
    exists s'. split; [done|]. by eapply counts_app.
  - cbn [made app]. apply IH.
Qed.

Lemma warmup_runs cfg workers : 0 < KeyCount cfg -> exists r, runPhase cfg None workers = Some r.
Proof.
  intros Hk. induction workers as [|[turns|] workers IH]; cbn [runPhase]; [by eexists| |done].
  assert (workerLoop cfg None turns = Some None) as ->; [|done].
  induction turns as [|t turns IHt]; [done|]. cbn [workerLoop]. destruct (negb _ || _); [done|].
  unfold random_index. rewrite (proj2 (Z.leb_gt _ _)) by done. exact IHt.
Qed.

(** the report counts every call, and nothing else can fail the run: for a positive
    number of keys, once the filling phase has passed, [Run] returns without an
    error whatever happens to the calls, with one operation and one latency per
    call made and one error per call that failed; and the filling phase passes when
    no worker got a client, although nothing is stored then. *)
Theorem grpc_benchmark_reports (cfg : Config) (evs : list fill) (warm measured : list worker) (s0 : Stats)
    (Hk : 0 < KeyCount cfg) (Hfill : prePopulate evs = Ok s0) :
  (exists s, Run cfg evs warm measured = Some (Ok s) /\ counts cfg NewStats (calls measured) s) /\
  (forall n, prePopulate (replicate n NoClient) = Ok NewStats).
Proof.
  split.
  - unfold Run. rewrite Hfill. destruct (runPhase_counts cfg NewStats measured Hk) as (s & Hs & Hc). exists s. split; [|done].
    assert (forall b : bool, (if b then Ok s0 else Ok NewStats) = Ok (if b then s0 else NewStats)) as -> by (by intros []).
    destruct (0 <? Warmup cfg); [destruct (warmup_runs cfg warm Hk) as [r ->]|]; cbn [mbind option_bind]; by rewrite Hs.
  - intros n. unfold prePopulate. assert (fill_phase NewStats (replicate n NoClient) = NewStats) as -> by (by induction n).
    done.
Qed.

(** Without keys to choose from the first turn panics. *)
Lemma no_keys_panics cfg stats t rest :
  KeyCount cfg <= 0 -> in_time t = true -> stopped t = false -> workerLoop cfg stats (t :: rest) = None.
Proof. intros Hk Hi Hs. cbn [workerLoop]. rewrite Hi, Hs. unfold random_index. by rewrite (proj2 (Z.leb_le _ _)). Qed.

(** ** Sample: every call fails, and the run succeeds *)
Lemma grpc_benchmark_reports_witness :
  exists s, Run (mkConfig 1 2 4 10 50 "put" 0) [] [] [Some [mkTurn true false 3 0 5 (inl (Err "unavailable")); mkTurn false false 0 0 0 (inl EOF)]]
      = Some (Ok s) /\ Bench.totalOps s = 1 /\ Bench.totalErrs s = 1.
Proof.
  set (ws := [Some [mkTurn true false 3 0 5 (inl (Err "unavailable")); mkTurn false false 0 0 0 (inl EOF)]]).
  destruct (grpc_benchmark_reports (mkConfig 1 2 4 10 50 "put" 0) [] [] ws NewStats) as [(s & Hrun & H1 & H2 & _) _]; [reflexivity|reflexivity|].
  exists s. split; [exact Hrun|]. split; [exact H1|exact H2].
Defined.

End GrpcBench.
