(* ===== verification/Config.v ===== *)
(** The configuration: the defaults, the command-line index of the node, the
    run mode and their validation.  The file read over the defaults
    ([GlobalConfig.Init]) is a function on configurations, which [ConfigFile.v]
    gives; [strconv.ParseInt] with base 0 and the [flag] package's treatment of an
    [int] flag are written out, the fields of paths hold what [filepath.Join]
    computed. *)
From Stdlib Require Import QArith.
From S2P Require Import Prelude Bytes Strconv.
#[local] Open Scope Z_scope.

Module Config.

(** ** strconv.ParseInt(s, 0, 64) *)

Inductive num_error : Type := syntaxErr | rangeErr.

(** The letter in lower case: [c | ('x' - 'X')]. *)
Definition lower (b : byte) : Z := Z.lor (bval b) 32.

Definition digit_of (b : byte) : option Z :=
  let v := bval b in
  if (48 <=? v) && (v <=? 57) then Some (v - 48)
  else if (97 <=? lower b) && (lower b <=? 122) then Some (lower b - 97 + 10)
  else None.

(** The base a prefix chooses and what follows the prefix. *)
Definition base_of (s : bytes) : Z * bytes :=
  match s with
  | z :: s1 =>
      if bval z =? 48 then
        match s1 with
        | c :: (_ :: _) as s2 =>
            if lower c =? 98 then (2, tail s1)
            else if lower c =? 111 then (8, tail s1)
            else if lower c =? 120 then (16, tail s1)
            else (8, s1)
        | _ => (8, s1)
        end
      else (10, s)
  | [] => (10, [])
  end.

(** The digits of [ParseUint]: the value and whether an underscore occurred. *)
Fixpoint uint_loop (base : Z) (n : Z) (underscores : bool) (s : bytes) : num_error + (Z * bool) :=
  match s with
  | [] => inr (n, underscores)
  | c :: s' =>
      if bval c =? 95 then uint_loop base n true s'
      else
        match digit_of c with
        | None => inl syntaxErr
        | Some d =>
            if base <=? d then inl syntaxErr
            else if (2 ^ 64 - 1) / base + 1 <=? n then inl rangeErr
            else if 2 ^ 64 <=? n * base + d then inl rangeErr
            else uint_loop base (n * base + d) underscores s'
        end
  end.

(** [strconv.underscoreOK]: underscores stand between digits or after a prefix. *)
Inductive seen : Type := saw_start | saw_digit | saw_underscore | saw_other.
Global Instance seen_eq_dec : EqDecision seen.
Proof. solve_decision. Defined.

Fixpoint underscore_loop (hex : bool) (i : seen) (s : bytes) : bool :=
  match s with
  | [] => negb (bool_decide (i = saw_underscore))
  | c :: s' =>
      if ((48 <=? bval c) && (bval c <=? 57)) || (hex && (97 <=? lower c) && (lower c <=? 102))
      then underscore_loop hex saw_digit s'
      else if bval c =? 95 then
        if bool_decide (i = saw_digit) then underscore_loop hex saw_underscore s' else false
      else if bool_decide (i = saw_underscore) then false
      else underscore_loop hex saw_other s'
  end.

Definition underscoreOK (s : bytes) : bool :=
  match s with
  | z :: c :: s' =>
      if (bval z =? 48) && ((lower c =? 98) || (lower c =? 111) || (lower c =? 120))
      then underscore_loop (lower c =? 120) saw_digit s'
      else underscore_loop false saw_start s
  | _ => underscore_loop false saw_start s
  end.

Definition ParseUint0 (s : bytes) : num_error + Z :=
  match s with
  | [] => inl syntaxErr
  | _ =>
      let '(base, body) := base_of s in
      match uint_loop base 0 false body with
      | inl e => inl e
      | inr (n, underscores) => if underscores && negb (underscoreOK s) then inl syntaxErr else inr n
      end
  end.

(** The value [ParseInt] returns, next to its error. *)
Definition ParseInt0 (s : bytes) : Z * option num_error :=
  let '(neg, body) :=
    match s with
    | b :: s' => if bval b =? 45 then (true, s') else if bval b =? 43 then (false, s') else (false, s)
    | [] => (false, [])
    end in
  let clamp (un : Z) (e : option num_error) :=
    if negb neg && (2 ^ 63 <=? un) then (2 ^ 63 - 1, Some rangeErr)
    else if neg && (2 ^ 63 <? un) then (- 2 ^ 63, Some rangeErr)
    else (if neg : bool then - un else un, e) in
  match ParseUint0 body with
  | inl syntaxErr => (0, Some syntaxErr)
  | inl rangeErr => clamp (2 ^ 64 - 1) None
  | inr un => clamp un None
  end.

Example parse_plain : ParseInt0 (of_string "12") = (12, None). Proof. reflexivity. Qed.
Example parse_hex : ParseInt0 (of_string "-0x_1F") = (- 31, None). Proof. reflexivity. Qed.
Example parse_octal : ParseInt0 (of_string "010") = (8, None). Proof. reflexivity. Qed.
Example parse_zero : ParseInt0 (of_string "0") = (0, None). Proof. reflexivity. Qed.
Example parse_text : ParseInt0 (of_string "two") = (0, Some syntaxErr). Proof. reflexivity. Qed.
Example parse_large : ParseInt0 (of_string "99999999999999999999") = (2 ^ 63 - 1, Some rangeErr). Proof. reflexivity. Qed.

(** ** The command line *)

(** [strings.HasPrefix(s, p)] and what follows the prefix. *)
Definition trim_prefix (p s : bytes) : option bytes :=
  if decide (take (length p) s = p) then Some (drop (length p) s) else None.

Definition me_arg : bytes := of_string "-me".
Definition me_eq : bytes := of_string "-me=".

(** The arguments [ParseFlags] looks at: [-me] with the one after it, and [-me=...]. *)
Fixpoint meFlagArgs (args : list bytes) : list bytes :=
  match args with
  | [] => []
  | arg :: rest =>
      if decide (arg = me_arg) then
        match rest with
        | [] => [arg]
        | value :: rest' => arg :: value :: meFlagArgs rest'
        end
      else
        match trim_prefix me_eq arg with
        | Some _ => arg :: meFlagArgs rest
        | None => meFlagArgs rest
        end
  end.

(** [fs.Parse] for the single flag [-me]: the value the flag holds afterwards.
    Setting an [int] flag stores what [ParseInt] returned before the error is
    looked at; an error ends the parsing. *)
Fixpoint fs_Parse (meFlag : Z) (args : list bytes) : Z * option num_error :=
  match args with
  | [] => (meFlag, None)
  | arg :: rest =>
      if decide (arg = me_arg) then
        match rest with
        | [] => (meFlag, Some syntaxErr)
        | value :: rest' =>
            match ParseInt0 value with
            | (v, None) => fs_Parse v rest'
            | (v, Some e) => (v, Some e)
            end
        end
      else
        match trim_prefix me_eq arg with
        | None => (meFlag, Some syntaxErr)
        | Some value =>
            match ParseInt0 value with
            | (v, None) => fs_Parse v rest
            | (v, Some e) => (v, Some e)
            end
        end
  end.

(** ** The configuration *)

Definition ModeStandalone : bytes := of_string "standalone".
Definition ModeRaft : bytes := of_string "raft".

Record GlobalConfig := mkConfig {
  Name : bytes; Port : Z; Host : bytes; Version : bytes;
  WALPath : bytes; SSTablePath : bytes; MaxMemTableSize : Z; MaxCompactionSize : Z;
  MemTableMaxInflightBytes : Z; MaxConn : Z; MaxPackageSize : Z;
  WorkerPoolSize : Z; MaxWorkerTaskLen : Z; MaxMsgChanLen : Z;
  MaxMemTableP : Q; MaxMemTableLevel : Z;
  Mode : bytes; Peers : list bytes; Me : Z;
  RaftSnapshotThreshold : Z; RaftSnapshotKeepEntries : Z }.

Definition set_Mode (g : GlobalConfig) (mode : bytes) : GlobalConfig :=
  mkConfig (Name g) (Port g) (Host g) (Version g) (WALPath g) (SSTablePath g) (MaxMemTableSize g) (MaxCompactionSize g)
    (MemTableMaxInflightBytes g) (MaxConn g) (MaxPackageSize g) (WorkerPoolSize g) (MaxWorkerTaskLen g) (MaxMsgChanLen g)
    (MaxMemTableP g) (MaxMemTableLevel g) mode (Peers g) (Me g) (RaftSnapshotThreshold g) (RaftSnapshotKeepEntries g).
Definition set_Me (g : GlobalConfig) (me : Z) : GlobalConfig :=
  mkConfig (Name g) (Port g) (Host g) (Version g) (WALPath g) (SSTablePath g) (MaxMemTableSize g) (MaxCompactionSize g)
    (MemTableMaxInflightBytes g) (MaxConn g) (MaxPackageSize g) (WorkerPoolSize g) (MaxWorkerTaskLen g) (MaxMsgChanLen g)
    (MaxMemTableP g) (MaxMemTableLevel g) (Mode g) (Peers g) me (RaftSnapshotThreshold g) (RaftSnapshotKeepEntries g).

(** [logDir] and [walPath] are the two paths the defaults hold; fields the code
    leaves out are zero. *)
Definition defaultGlobalConfig (logDir walPath : bytes) : GlobalConfig := {|
  Name := of_string "Raft"; Port := 8080; Host := of_string "localhost"; Version := of_string "1.0.0";
  MaxConn := 1000; MaxPackageSize := Z.shiftl 16 20; WorkerPoolSize := 10; MaxWorkerTaskLen := 10000; MaxMsgChanLen := 100;
  MaxMemTableP := 1 # 2; MaxMemTableLevel := 32; MaxMemTableSize := 1024; MemTableMaxInflightBytes := Z.shiftl 64 20;
  WALPath := walPath; SSTablePath := logDir; Peers := [of_string "localhost:8080"]; Me := 0;
  RaftSnapshotThreshold := 1000; RaftSnapshotKeepEntries := 100; MaxCompactionSize := 0; Mode := [] |}.

(** A panic is [inl] with its message. *)
Definition resolveMode (g : GlobalConfig) : bytes + GlobalConfig :=
  if decide (Mode g = ModeStandalone \/ Mode g = ModeRaft) then inr g
  else if decide (Mode g = []) then inr (set_Mode g (if 1 <? zlen (Peers g) then ModeRaft else ModeStandalone))
  else inl (of_string "invalid mode: " ++ Mode g).

(** The index after the flag and the environment variable [RAFT_ME] (empty when unset). *)
Definition flag_me (args : list bytes) (g : GlobalConfig) : GlobalConfig :=
  let meFlag := (fs_Parse (-1) (meFlagArgs args)).1 in
  if 0 <=? meFlag then set_Me g meFlag else g.

Definition env_me (meEnv : bytes) (g : GlobalConfig) : GlobalConfig :=
  if Me g <? 0 then
    if decide (meEnv = []) then g
    else match ParseInt meEnv with Some meInt => set_Me g meInt | None => g end
  else g.

Definition ParseFlags (args : list bytes) (meEnv : bytes) (g : GlobalConfig) : bytes + GlobalConfig :=
  match resolveMode (env_me meEnv (flag_me args g)) with
  | inl p => inl p
  | inr g =>
      if decide (Mode g = ModeStandalone) then inr g
      else if (Me g <? 0) || (zlen (Peers g) <=? Me g) then inl (of_string "invalid me value")
      else inr g
  end.

(** [Init] overlays the configuration file, if there is one. *)
Definition NewGlobalConfig (Init : GlobalConfig -> GlobalConfig) (logDir walPath : bytes) (args : list bytes)
    (meEnv : bytes) : bytes + GlobalConfig :=
  ParseFlags args meEnv (Init (defaultGlobalConfig logDir walPath)).

(** ** The index on the command line *)

(** An argument that neither is the flag nor holds it. *)
Definition unrelated (arg : bytes) : Prop := arg <> me_arg /\ trim_prefix me_eq arg = None.

Lemma meFlagArgs_skip pre args : Forall unrelated pre -> meFlagArgs (pre ++ args) = meFlagArgs args.
Proof.
  induction 1 as [|a pre [Ha Hp] _ IH]; [done|]. simpl. by rewrite decide_False, Hp by done.
Qed.

Lemma flag_given pre value post :
  Forall unrelated pre -> Forall unrelated post ->
  meFlagArgs (pre ++ me_arg :: value :: post) = [me_arg; value].
Proof.
  intros Hpre Hpost. rewrite meFlagArgs_skip by done.
  transitivity (me_arg :: value :: meFlagArgs (post ++ [])); [by rewrite app_nil_r|].
  by rewrite meFlagArgs_skip by done.
Qed.

Lemma fs_Parse_pair me value : (fs_Parse me [me_arg; value]).1 = (ParseInt0 value).1.
Proof. cbn [fs_Parse]. rewrite decide_True by done. by destruct (ParseInt0 value) as [v [e|]]. Qed.

(** Decimal text reads back under base 0 as well: it has no leading zero. *)
Lemma uint_loop_app base n u a b :
  uint_loop base n u (a ++ b) =
    match uint_loop base n u a with inl e => inl e | inr (n', u') => uint_loop base n' u' b end.
Proof.
  revert n u; induction a as [|c a IH]; intros n u; simpl; [done|].
  repeat (case_match_eq; try done); by rewrite IH.
Qed.

Lemma digit_of_digit d : 0 <= d < 10 -> digit_of (digit d) = Some d /\ bval (digit d) = 48 + d.
Proof.
  intros Hd. unfold digit_of, digit. rewrite bval_byte_of, Z.mod_small by lia. split; [|done].
  destruct (Z.leb_spec 48 (48 + d)), (Z.leb_spec (48 + d) 57); try lia. simpl. f_equal. lia.
Qed.

Lemma uint_loop_digit n d :
  0 <= n -> 0 <= d < 10 -> 10 * n + d < 2 ^ 64 -> uint_loop 10 n false [digit d] = inr (10 * n + d, false).
Proof.
  intros Hn Hd Hb. cbn [uint_loop]. destruct (digit_of_digit d Hd) as [-> ->].
  destruct (Z.eqb_spec (48 + d) 95); [lia|]. destruct (Z.leb_spec 10 d); [lia|].
  change ((2 ^ 64 - 1) / 10 + 1) with 1844674407370955162.
  destruct (Z.leb_spec 1844674407370955162 n); [lia|].
  replace (n * 10 + d) with (10 * n + d) by lia.
  by destruct (Z.leb_spec (2 ^ 64) (10 * n + d)); [lia|].
Qed.

Lemma uint_loop_digits fuel n :
  0 <= n < 10 ^ Z.of_nat fuel -> n < 2 ^ 63 -> uint_loop 10 0 false (digits fuel n) = inr (n, false).
Proof.
  revert n; induction fuel as [|f IH]; intros n Hn Hb; [simpl in *; repeat f_equal; lia|].
  cbn [digits]. rewrite Nat2Z.inj_succ, Z.pow_succ_r in Hn by lia.
  destruct (Z.ltb_spec n 10).
  - rewrite uint_loop_digit by lia. done.
  - pose proof (Z.mod_pos_bound n 10). pose proof (Z.div_mod n 10).
    rewrite uint_loop_app, IH by lia. rewrite uint_loop_digit by lia. repeat f_equal. lia.
Qed.

Lemma digits_nonzero fuel n :
  0 < n < 10 ^ Z.of_nat fuel -> exists c ds, digits fuel n = c :: ds /\ 49 <= bval c <= 57.
Proof.
  revert n; induction fuel as [|f IH]; intros n Hn; [simpl in *; lia|].
  cbn [digits]. rewrite Nat2Z.inj_succ, Z.pow_succ_r in Hn by lia.
  destruct (Z.ltb_spec n 10).
  - exists (digit n), []. destruct (digit_of_digit n) as [_ ->]; [lia|]. split; [done|lia].
  - pose proof (Z.mod_pos_bound n 10). pose proof (Z.div_mod n 10).
    destruct (IH (n / 10)) as (c & ds & -> & Hc); [lia|]. by exists c, (ds ++ [digit (n mod 10)]).
Qed.

Lemma ParseInt0_FormatInt n : 0 <= n < 2 ^ 63 -> ParseInt0 (FormatInt n) = (n, None).
Proof.
  intros Hn. destruct (decide (n = 0)) as [->|H0]; [reflexivity|].
  unfold FormatInt. destruct (Z.ltb_spec n 0); [lia|].
  destruct (digits_nonzero 20 n) as (c & ds & E & Hc); [simpl; lia|].
  pose proof (uint_loop_digits 20 n ltac:(simpl; lia) ltac:(lia)) as Hloop.
  unfold ParseInt0, ParseUint0, base_of. rewrite E in *.
  destruct (Z.eqb_spec (bval c) 45), (Z.eqb_spec (bval c) 43), (Z.eqb_spec (bval c) 48); try lia.
  rewrite Hloop. cbn. destruct (Z.leb_spec (2 ^ 63) n); [lia|done].
Qed.

(** ** The configuration a node starts with *)

Lemma resolveMode_cases g :
  match resolveMode g with
  | inl _ => Mode g <> ModeStandalone /\ Mode g <> ModeRaft /\ Mode g <> []
  | inr g' => exists mode, g' = set_Mode g mode /\ (Mode g = mode \/ Mode g = []) /\
               (mode = ModeStandalone \/ mode = ModeRaft) /\
               (Mode g = [] -> mode = ModeRaft <-> 1 < zlen (Peers g))
  end.
Proof.
  unfold resolveMode. destruct (decide _) as [H|H]; [|destruct (decide _) as [E|E]].
  - exists (Mode g). split; [by destruct g|]. split; [auto|]. split; [done|].
    intros E. rewrite E in H. by destruct H.
  - eexists. split; [done|]. split; [by right|]. destruct (Z.ltb_spec 1 (zlen (Peers g))).
    + split; [by right|]. intros _. split; auto.
    + split; [by left|]. intros _. split; [done|lia].
  - tauto.
Qed.

(** C40: A node never starts with a configuration it cannot run: [ParseFlags]
    either panics or leaves the mode and the index as its only changes, with the
    mode standalone or raft (inferred from the number of peers when the file has
    none) and, under raft, an index inside the peer list; the index is the
    flag's when that is not negative, else the configured one when that is not
    negative, else the one of [RAFT_ME]. *)
Theorem config_valid args meEnv g g' :
  ParseFlags args meEnv g = inr g' ->
  let flag := (fs_Parse (-1) (meFlagArgs args)).1 in
  g' = set_Me (set_Mode g (Mode g')) (Me g') /\
  (Mode g' = ModeStandalone \/ Mode g' = ModeRaft /\ 0 <= Me g' < zlen (Peers g')) /\
  (Mode g <> [] -> Mode g' = Mode g) /\
  (Mode g = [] -> Mode g' = ModeRaft <-> 1 < zlen (Peers g)) /\
  (0 <= flag -> Me g' = flag) /\
  (flag < 0 -> 0 <= Me g -> Me g' = Me g) /\
  (flag < 0 -> Me g < 0 -> Me g' = default (Me g) (ParseInt meEnv)).
Proof.
  intros H flag. unfold ParseFlags in H.
  set (g1 := env_me meEnv (flag_me args g)) in H.
  assert (exists me, g1 = set_Me g me /\ (0 <= flag -> me = flag) /\ (flag < 0 -> 0 <= Me g -> me = Me g) /\
            (flag < 0 -> Me g < 0 -> me = default (Me g) (ParseInt meEnv))) as (me & Hg1 & Hm1 & Hm2 & Hm3).
  { subst g1. unfold env_me, flag_me. fold flag. destruct (Z.leb_spec 0 flag).
    - destruct (Z.ltb_spec (Me (set_Me g flag)) 0) as [Hc|_]; [simpl in Hc; lia|]. exists flag.
      repeat split; intros; lia.
    - destruct (Z.ltb_spec (Me g) 0).
      + exists (default (Me g) (ParseInt meEnv)).
        destruct (decide (meEnv = [])) as [->|]; [|destruct (ParseInt meEnv)];
          (split; [by destruct g|]); repeat split; intros; (lia || done).
      + exists (Me g). split; [by destruct g|]. repeat split; intros; lia. }
  pose proof (resolveMode_cases g1) as Hr. destruct (resolveMode g1) as [p|g2]; [done|].
  destruct Hr as (mode & -> & Ho & Hk & Hi). subst g1. rewrite Hg1 in *. simpl in *.
  assert (g' = set_Mode (set_Me g me) mode /\ (mode = ModeStandalone \/ mode = ModeRaft /\ 0 <= me < zlen (Peers g)))
    as [-> Hs].
  { destruct (decide (mode = ModeStandalone)); [injection H as <-; auto|].
    destruct (Z.ltb_spec me 0), (Z.leb_spec (zlen (Peers g)) me); try done. injection H as <-.
    destruct Hk; auto. }
  simpl. split; [done|]. split; [done|]. split; [by destruct Ho|]. done.
Qed.

(** A cluster of three whose node is chosen on the command line, its index also
    in the environment. *)
Definition sample_config : GlobalConfig :=
  mkConfig [] 0 [] [] [] [] 0 0 0 0 0 0 0 0 0 0 [] [of_string "a:1"; of_string "b:1"; of_string "c:1"] 0 0 0.

Lemma config_valid_witness :
  let g' := set_Me (set_Mode sample_config ModeRaft) 2 in
  ParseFlags [of_string "-v"; of_string "-me"; of_string "2"] (of_string "1") sample_config = inr g' /\
  Mode g' = ModeRaft /\ 0 <= Me g' < zlen (Peers g').
Proof.
  intros g'.
  assert (ParseFlags [of_string "-v"; of_string "-me"; of_string "2"] (of_string "1") sample_config = inr g') as H
    by (vm_compute; reflexivity).
  destruct (config_valid _ _ _ _ H) as (_ & [Hs|Hr] & _).
  - vm_compute in Hs. discriminate Hs.
  - split; [exact H|exact Hr].
Defined.

(** A node given its decimal index anywhere on the command line takes it. *)
Lemma me_flag_chooses_node pre post n meEnv g :
  Forall unrelated pre -> Forall unrelated post -> 0 <= n < 2 ^ 63 -> n < zlen (Peers g) -> Mode g = ModeRaft ->
  ParseFlags (pre ++ me_arg :: FormatInt n :: post) meEnv g = inr (set_Me g n).
Proof.
  intros Hpre Hpost Hn Hp Hm. unfold ParseFlags, flag_me. rewrite flag_given, fs_Parse_pair, ParseInt0_FormatInt by done.
  simpl. destruct (Z.leb_spec 0 n); [|lia]. unfold env_me. simpl.
  destruct (Z.ltb_spec n 0); [lia|]. unfold resolveMode. simpl. rewrite decide_True by auto. simpl.
  rewrite Hm. rewrite decide_False by done. by destruct (Z.ltb_spec n 0), (Z.leb_spec (zlen (Peers g)) n); try lia.
Qed.

(** An index that is not a number is read as 0: the node starts as the first of
    its cluster, whatever the file and the environment say. *)
Lemma bad_flag_takes_node_zero pre post value meEnv g :
  Forall unrelated pre -> Forall unrelated post -> ParseInt0 value = (0, Some syntaxErr) ->
  0 < zlen (Peers g) -> Mode g = ModeRaft ->
  ParseFlags (pre ++ me_arg :: value :: post) meEnv g = inr (set_Me g 0).
Proof.
  intros Hpre Hpost Hv Hp Hm. unfold ParseFlags, flag_me. rewrite flag_given, fs_Parse_pair, Hv by done.
  simpl. unfold env_me, resolveMode. simpl. rewrite Hm. rewrite decide_True by auto. simpl.
  rewrite Hm, decide_False by done. simpl. by destruct (Z.leb_spec (zlen (Peers g)) 0); try lia.
Qed.

(** The environment names no node unless the configuration was given a negative
    index: the default is 0. *)
Lemma environment_ignored_by_default logDir walPath meEnv :
  env_me meEnv (defaultGlobalConfig logDir walPath) = defaultGlobalConfig logDir walPath.
Proof. reflexivity. Qed.

End Config.
