(* ===== verification/ConfigFile.v ===== *)
(** Where the configuration comes from ([config/global.go]): the search for the
    log directory, the search for the configuration file, and [json.Unmarshal] of
    the file over the defaults.  A path is the list of its components; what is on
    disk is given by the functions [Stat] and [ReadFile]. *)
From Stdlib Require Import QArith SpecFloat.
From S2P Require Import Prelude Bytes Strconv Json Predicate Service Config.
Import Json Config.
#[local] Open Scope Z_scope.

Module ConfigFile.

(** ** [defaultLogDir] *)

Definition slash : byte := byte_of 47.

(** [filepath.Join] of the root, the components of a directory and a name. *)
Definition Join (dir : list bytes) (name : bytes) : bytes :=
  concat ((fun c => slash :: c) <$> (dir ++ [name])).

Definition go_mod : bytes := of_string "go.mod".
Definition log_name : bytes := of_string "log".

(** The loop over a directory and its parents; the last component comes first. *)
Fixpoint search (Stat : bytes -> bool) (rdir : list bytes) : bytes :=
  if Stat (Join (reverse rdir) go_mod) then Join (reverse rdir) log_name
  else match rdir with
       | [] => log_name
       | _ :: parent => search Stat parent
       end.

(** [wd] is [os.Getwd]; [None] is its error. *)
Definition defaultLogDir (Stat : bytes -> bool) (wd : option (list bytes)) : bytes :=
  match wd with
  | None => log_name
  | Some wd => search Stat (reverse wd)
  end.

(** [filepath.Join(logDir, name)]. *)
Definition in_dir (logDir name : bytes) : bytes := logDir ++ slash :: name.

(** The log directory lies next to the nearest [go.mod] at or above the working
    directory, and is a relative [log] when there is none; the search ends. *)
Theorem log_dir_nearest (Stat : bytes -> bool) (wd : list bytes) :
  (exists dir below, wd = dir ++ below /\ Stat (Join dir go_mod) = true /\ defaultLogDir Stat (Some wd) = Join dir log_name /\
     forall dir' below', wd = dir' ++ below' -> (length dir < length dir')%nat -> Stat (Join dir' go_mod) = false) \/
  (defaultLogDir Stat (Some wd) = log_name /\ forall dir below, wd = dir ++ below -> Stat (Join dir go_mod) = false).
Proof.
  cbn [defaultLogDir]. induction wd as [|c wd IH] using rev_ind.
  - change (search Stat (reverse [])) with (if Stat (Join [] go_mod) then Join [] log_name else log_name).
    destruct (Stat (Join [] go_mod)) eqn:E.
    + left. exists [], []. split_and!; try done. intros dir' below' Hd Hl. destruct dir'; [cbn in Hl; lia|done].
    + right. split; [done|]. intros dir below Hd. by destruct dir.
  - rewrite reverse_snoc. cbn [search]. rewrite reverse_cons, reverse_involutive.
    assert (forall dir below, wd ++ [c] = dir ++ below -> dir = wd ++ [c] \/ exists below', wd = dir ++ below') as Hsplit.
    { intros dir below Hd. destruct below as [|b below _] using rev_ind; [left; by rewrite app_nil_r in Hd|].
      right. rewrite app_assoc in Hd. apply app_inj_tail in Hd as [-> _]. by eexists. }
    destruct (Stat (Join (wd ++ [c]) go_mod)) eqn:E.
    + left. exists (wd ++ [c]), []. rewrite app_nil_r. split_and!; try done.
      intros dir' below' [->|[below ->]]%Hsplit Hl; [lia|]. rewrite !length_app in Hl. lia.
    + destruct IH as [(dir & below & -> & Hs & Hr & Hn)|[Hr Hn]].
      * left. exists dir, (below ++ [c]). rewrite app_assoc. split_and!; try done.
        intros dir' below' [->|[below2 Hd]]%Hsplit Hl; [done|by eapply Hn].
      * right. split; [done|]. intros dir below [->|[below2 Hd]]%Hsplit; [done|by eapply Hn].
Qed.

(** ** [json.Unmarshal] into the configuration *)

(** Assignments to the fields. *)
Definition set_Name (g : GlobalConfig) (x : bytes) : GlobalConfig :=
  mkConfig x (Port g) (Host g) (Version g) (WALPath g) (SSTablePath g) (MaxMemTableSize g) (MaxCompactionSize g)
    (MemTableMaxInflightBytes g) (MaxConn g) (MaxPackageSize g) (WorkerPoolSize g) (MaxWorkerTaskLen g)
    (MaxMsgChanLen g) (MaxMemTableP g) (MaxMemTableLevel g) (Mode g) (Peers g) (Me g) (RaftSnapshotThreshold g)
    (RaftSnapshotKeepEntries g).
Definition set_Port (g : GlobalConfig) (x : Z) : GlobalConfig :=
  mkConfig (Name g) x (Host g) (Version g) (WALPath g) (SSTablePath g) (MaxMemTableSize g) (MaxCompactionSize g)
    (MemTableMaxInflightBytes g) (MaxConn g) (MaxPackageSize g) (WorkerPoolSize g) (MaxWorkerTaskLen g)
    (MaxMsgChanLen g) (MaxMemTableP g) (MaxMemTableLevel g) (Mode g) (Peers g) (Me g) (RaftSnapshotThreshold g)
    (RaftSnapshotKeepEntries g).
Definition set_Host (g : GlobalConfig) (x : bytes) : GlobalConfig :=
  mkConfig (Name g) (Port g) x (Version g) (WALPath g) (SSTablePath g) (MaxMemTableSize g) (MaxCompactionSize g)
    (MemTableMaxInflightBytes g) (MaxConn g) (MaxPackageSize g) (WorkerPoolSize g) (MaxWorkerTaskLen g)
    (MaxMsgChanLen g) (MaxMemTableP g) (MaxMemTableLevel g) (Mode g) (Peers g) (Me g) (RaftSnapshotThreshold g)
    (RaftSnapshotKeepEntries g).
Definition set_Version (g : GlobalConfig) (x : bytes) : GlobalConfig :=
  mkConfig (Name g) (Port g) (Host g) x (WALPath g) (SSTablePath g) (MaxMemTableSize g) (MaxCompactionSize g)
    (MemTableMaxInflightBytes g) (MaxConn g) (MaxPackageSize g) (WorkerPoolSize g) (MaxWorkerTaskLen g)
    (MaxMsgChanLen g) (MaxMemTableP g) (MaxMemTableLevel g) (Mode g) (Peers g) (Me g) (RaftSnapshotThreshold g)
    (RaftSnapshotKeepEntries g).
Definition set_WALPath (g : GlobalConfig) (x : bytes) : GlobalConfig :=
  mkConfig (Name g) (Port g) (Host g) (Version g) x (SSTablePath g) (MaxMemTableSize g) (MaxCompactionSize g)
    (MemTableMaxInflightBytes g) (MaxConn g) (MaxPackageSize g) (WorkerPoolSize g) (MaxWorkerTaskLen g)
    (MaxMsgChanLen g) (MaxMemTableP g) (MaxMemTableLevel g) (Mode g) (Peers g) (Me g) (RaftSnapshotThreshold g)
    (RaftSnapshotKeepEntries g).
Definition set_SSTablePath (g : GlobalConfig) (x : bytes) : GlobalConfig :=
  mkConfig (Name g) (Port g) (Host g) (Version g) (WALPath g) x (MaxMemTableSize g) (MaxCompactionSize g)
    (MemTableMaxInflightBytes g) (MaxConn g) (MaxPackageSize g) (WorkerPoolSize g) (MaxWorkerTaskLen g)
    (MaxMsgChanLen g) (MaxMemTableP g) (MaxMemTableLevel g) (Mode g) (Peers g) (Me g) (RaftSnapshotThreshold g)
    (RaftSnapshotKeepEntries g).
Definition set_MaxMemTableSize (g : GlobalConfig) (x : Z) : GlobalConfig :=
  mkConfig (Name g) (Port g) (Host g) (Version g) (WALPath g) (SSTablePath g) x (MaxCompactionSize g)
    (MemTableMaxInflightBytes g) (MaxConn g) (MaxPackageSize g) (WorkerPoolSize g) (MaxWorkerTaskLen g)
    (MaxMsgChanLen g) (MaxMemTableP g) (MaxMemTableLevel g) (Mode g) (Peers g) (Me g) (RaftSnapshotThreshold g)
    (RaftSnapshotKeepEntries g).
Definition set_MaxCompactionSize (g : GlobalConfig) (x : Z) : GlobalConfig :=
  mkConfig (Name g) (Port g) (Host g) (Version g) (WALPath g) (SSTablePath g) (MaxMemTableSize g) x
    (MemTableMaxInflightBytes g) (MaxConn g) (MaxPackageSize g) (WorkerPoolSize g) (MaxWorkerTaskLen g)
    (MaxMsgChanLen g) (MaxMemTableP g) (MaxMemTableLevel g) (Mode g) (Peers g) (Me g) (RaftSnapshotThreshold g)
    (RaftSnapshotKeepEntries g).
Definition set_MemTableMaxInflightBytes (g : GlobalConfig) (x : Z) : GlobalConfig :=
  mkConfig (Name g) (Port g) (Host g) (Version g) (WALPath g) (SSTablePath g) (MaxMemTableSize g) (MaxCompactionSize g)
    x (MaxConn g) (MaxPackageSize g) (WorkerPoolSize g) (MaxWorkerTaskLen g) (MaxMsgChanLen g) (MaxMemTableP g)
    (MaxMemTableLevel g) (Mode g) (Peers g) (Me g) (RaftSnapshotThreshold g) (RaftSnapshotKeepEntries g).
Definition set_MaxConn (g : GlobalConfig) (x : Z) : GlobalConfig :=
  mkConfig (Name g) (Port g) (Host g) (Version g) (WALPath g) (SSTablePath g) (MaxMemTableSize g) (MaxCompactionSize g)
    (MemTableMaxInflightBytes g) x (MaxPackageSize g) (WorkerPoolSize g) (MaxWorkerTaskLen g) (MaxMsgChanLen g)
    (MaxMemTableP g) (MaxMemTableLevel g) (Mode g) (Peers g) (Me g) (RaftSnapshotThreshold g)
    (RaftSnapshotKeepEntries g).
Definition set_MaxPackageSize (g : GlobalConfig) (x : Z) : GlobalConfig :=
  mkConfig (Name g) (Port g) (Host g) (Version g) (WALPath g) (SSTablePath g) (MaxMemTableSize g) (MaxCompactionSize g)
    (MemTableMaxInflightBytes g) (MaxConn g) x (WorkerPoolSize g) (MaxWorkerTaskLen g) (MaxMsgChanLen g)
    (MaxMemTableP g) (MaxMemTableLevel g) (Mode g) (Peers g) (Me g) (RaftSnapshotThreshold g)
    (RaftSnapshotKeepEntries g).
Definition set_WorkerPoolSize (g : GlobalConfig) (x : Z) : GlobalConfig :=
  mkConfig (Name g) (Port g) (Host g) (Version g) (WALPath g) (SSTablePath g) (MaxMemTableSize g) (MaxCompactionSize g)
    (MemTableMaxInflightBytes g) (MaxConn g) (MaxPackageSize g) x (MaxWorkerTaskLen g) (MaxMsgChanLen g)
    (MaxMemTableP g) (MaxMemTableLevel g) (Mode g) (Peers g) (Me g) (RaftSnapshotThreshold g)
    (RaftSnapshotKeepEntries g).
Definition set_MaxWorkerTaskLen (g : GlobalConfig) (x : Z) : GlobalConfig :=
  mkConfig (Name g) (Port g) (Host g) (Version g) (WALPath g) (SSTablePath g) (MaxMemTableSize g) (MaxCompactionSize g)
    (MemTableMaxInflightBytes g) (MaxConn g) (MaxPackageSize g) (WorkerPoolSize g) x (MaxMsgChanLen g)
    (MaxMemTableP g) (MaxMemTableLevel g) (Mode g) (Peers g) (Me g) (RaftSnapshotThreshold g)
    (RaftSnapshotKeepEntries g).
Definition set_MaxMsgChanLen (g : GlobalConfig) (x : Z) : GlobalConfig :=
  mkConfig (Name g) (Port g) (Host g) (Version g) (WALPath g) (SSTablePath g) (MaxMemTableSize g) (MaxCompactionSize g)
    (MemTableMaxInflightBytes g) (MaxConn g) (MaxPackageSize g) (WorkerPoolSize g) (MaxWorkerTaskLen g) x
    (MaxMemTableP g) (MaxMemTableLevel g) (Mode g) (Peers g) (Me g) (RaftSnapshotThreshold g)
    (RaftSnapshotKeepEntries g).
Definition set_MaxMemTableP (g : GlobalConfig) (x : Q) : GlobalConfig :=
  mkConfig (Name g) (Port g) (Host g) (Version g) (WALPath g) (SSTablePath g) (MaxMemTableSize g) (MaxCompactionSize g)
    (MemTableMaxInflightBytes g) (MaxConn g) (MaxPackageSize g) (WorkerPoolSize g) (MaxWorkerTaskLen g)
    (MaxMsgChanLen g) x (MaxMemTableLevel g) (Mode g) (Peers g) (Me g) (RaftSnapshotThreshold g)
    (RaftSnapshotKeepEntries g).
Definition set_MaxMemTableLevel (g : GlobalConfig) (x : Z) : GlobalConfig :=
  mkConfig (Name g) (Port g) (Host g) (Version g) (WALPath g) (SSTablePath g) (MaxMemTableSize g) (MaxCompactionSize g)
    (MemTableMaxInflightBytes g) (MaxConn g) (MaxPackageSize g) (WorkerPoolSize g) (MaxWorkerTaskLen g)
    (MaxMsgChanLen g) (MaxMemTableP g) x (Mode g) (Peers g) (Me g) (RaftSnapshotThreshold g)
    (RaftSnapshotKeepEntries g).
Definition set_Peers (g : GlobalConfig) (x : list bytes) : GlobalConfig :=
  mkConfig (Name g) (Port g) (Host g) (Version g) (WALPath g) (SSTablePath g) (MaxMemTableSize g) (MaxCompactionSize g)
    (MemTableMaxInflightBytes g) (MaxConn g) (MaxPackageSize g) (WorkerPoolSize g) (MaxWorkerTaskLen g)
    (MaxMsgChanLen g) (MaxMemTableP g) (MaxMemTableLevel g) (Mode g) x (Me g) (RaftSnapshotThreshold g)
    (RaftSnapshotKeepEntries g).
Definition set_RaftSnapshotThreshold (g : GlobalConfig) (x : Z) : GlobalConfig :=
  mkConfig (Name g) (Port g) (Host g) (Version g) (WALPath g) (SSTablePath g) (MaxMemTableSize g) (MaxCompactionSize g)
    (MemTableMaxInflightBytes g) (MaxConn g) (MaxPackageSize g) (WorkerPoolSize g) (MaxWorkerTaskLen g)
    (MaxMsgChanLen g) (MaxMemTableP g) (MaxMemTableLevel g) (Mode g) (Peers g) (Me g) x
    (RaftSnapshotKeepEntries g).
Definition set_RaftSnapshotKeepEntries (g : GlobalConfig) (x : Z) : GlobalConfig :=
  mkConfig (Name g) (Port g) (Host g) (Version g) (WALPath g) (SSTablePath g) (MaxMemTableSize g) (MaxCompactionSize g)
    (MemTableMaxInflightBytes g) (MaxConn g) (MaxPackageSize g) (WorkerPoolSize g) (MaxWorkerTaskLen g)
    (MaxMsgChanLen g) (MaxMemTableP g) (MaxMemTableLevel g) (Mode g) (Peers g) (Me g) (RaftSnapshotThreshold g)
    x.

(** A value of the wrong kind, or out of range, leaves the field; the error is
    reported once the whole file has been read. *)
Definition decode_text (raw old : bytes) : bytes :=
  match parse raw with Some (Str body) => default old (unquote body) | _ => old end.
Definition decode_int (raw : bytes) (old : Z) : Z :=
  match parse raw with Some (Num t) => default old (ParseInt t) | _ => old end.
Definition decode_uint32 (raw : bytes) (old : Z) : Z :=
  match parse raw with
  | Some (Num t) => match parse_digits 0 t with Some n => if n <? 2 ^ 32 then n else old | None => old end
  | _ => old
  end.

Definition float_Q (f : Float.float64) : Q :=
  match f with
  | S754_finite s m e =>
      let n := if s : bool then Zneg m else Zpos m in
      if 0 <=? e then n * 2 ^ e # 1 else n # Z.to_pos (2 ^ (- e))
  | _ => 0
  end.
Definition decode_float (raw : bytes) (old : Q) : Q :=
  match parse raw with Some (Num t) => default old (float_Q <$> Float.ParseFloat t) | _ => old end.

(** A slice takes the length of the array; an element that is no string keeps
    what was there. *)
Definition decode_list (raw : bytes) (old : list bytes) : list bytes :=
  match parse raw with
  | Some (Arr elems) => imap (fun i e => decode_text e (default [] (old !! i))) elems
  | Some Null => []
  | _ => old
  end.

(** The fields by their names without case; [TcpServer], an interface, takes
    nothing from a file. *)
Definition schema : list (string * (bytes -> GlobalConfig -> GlobalConfig)) := [
  ("NAME", fun raw g => set_Name g (decode_text raw (Name g)));
  ("PORT", fun raw g => set_Port g (decode_int raw (Port g)));
  ("HOST", fun raw g => set_Host g (decode_text raw (Host g)));
  ("VERSION", fun raw g => set_Version g (decode_text raw (Version g)));
  ("WALPATH", fun raw g => set_WALPath g (decode_text raw (WALPath g)));
  ("SSTABLEPATH", fun raw g => set_SSTablePath g (decode_text raw (SSTablePath g)));
  ("MAXMEMTABLESIZE", fun raw g => set_MaxMemTableSize g (decode_int raw (MaxMemTableSize g)));
  ("MAXCOMPACTIONSIZE", fun raw g => set_MaxCompactionSize g (decode_int raw (MaxCompactionSize g)));
  ("MEMTABLEMAXINFLIGHTBYTES", fun raw g => set_MemTableMaxInflightBytes g (decode_int raw (MemTableMaxInflightBytes g)));
  ("MAXCONN", fun raw g => set_MaxConn g (decode_int raw (MaxConn g)));
  ("MAXPACKAGESIZE", fun raw g => set_MaxPackageSize g (decode_uint32 raw (MaxPackageSize g)));
  ("WORKERPOOLSIZE", fun raw g => set_WorkerPoolSize g (decode_uint32 raw (WorkerPoolSize g)));
  ("MAXWORKERTASKLEN", fun raw g => set_MaxWorkerTaskLen g (decode_uint32 raw (MaxWorkerTaskLen g)));
  ("MAXMSGCHANLEN", fun raw g => set_MaxMsgChanLen g (decode_uint32 raw (MaxMsgChanLen g)));
  ("MAXMEMTABLEP", fun raw g => set_MaxMemTableP g (decode_float raw (MaxMemTableP g)));
  ("MAXMEMTABLELEVEL", fun raw g => set_MaxMemTableLevel g (decode_int raw (MaxMemTableLevel g)));
  ("MODE", fun raw g => set_Mode g (decode_text raw (Mode g)));
  ("PEERS", fun raw g => set_Peers g (decode_list raw (Peers g)));
  ("ME", fun raw g => set_Me g (decode_int raw (Me g)));
  ("RAFTSNAPSHOTTHRESHOLD", fun raw g => set_RaftSnapshotThreshold g (decode_int raw (RaftSnapshotThreshold g)));
  ("RAFTSNAPSHOTKEEPENTRIES", fun raw g => set_RaftSnapshotKeepEntries g (decode_int raw (RaftSnapshotKeepEntries g)))].

(** One member; a name that is no field's is passed over. *)
Definition named (s : string) (p : bytes * bytes) : bool :=
  bool_decide (Service.Cmd.foldName <$> unquote p.1 = Some (of_string s)).
Definition set_field (g : GlobalConfig) (p : bytes * bytes) : GlobalConfig :=
  match List.find (fun f => named f.1 p) schema with
  | Some f => f.2 p.2 g
  | None => g
  end.

(** A file that is no JSON, or no object, changes nothing. *)
Definition Unmarshal (data : bytes) (g : GlobalConfig) : GlobalConfig :=
  match parse data with
  | Some (Obj members) => foldl set_field g members
  | _ => g
  end.

(** ** [Init] *)

Definition paths : list bytes :=
  [of_string "config/config.json"; of_string "../config/config.json"; of_string "../../config/config.json"; of_string "config.json"].

(** The first path that can be read. *)
Definition Init (ReadFile : bytes -> option bytes) (g : GlobalConfig) : GlobalConfig :=
  match head (omap ReadFile paths) with
  | Some data => Unmarshal data g
  | None => g
  end.

(** [var G = NewGlobalConfig()]. *)
Definition G (Stat : bytes -> bool) (ReadFile : bytes -> option bytes) (wd : option (list bytes)) (args : list bytes)
    (meEnv : bytes) : bytes + GlobalConfig :=
  let logDir := defaultLogDir Stat wd in
  NewGlobalConfig (Init ReadFile) logDir (in_dir logDir (of_string "wal.log")) args meEnv.

(** ** What a file decides *)

(** The file has a member for the field. *)
Definition names (s : string) (data : bytes) : Prop :=
  exists members p, parse data = Some (Obj members) /\ p ∈ members /\ named s p = true.

(** Only the field's own entry of the table changes it. *)
Definition own_entry {A} (get : GlobalConfig -> A) (s : string) : Prop :=
  Forall (fun f => f.1 = s \/ forall raw g, get (f.2 raw g) = get g) schema.

Lemma unnamed_kept {A} (get : GlobalConfig -> A) s data g : own_entry get s -> ~ names s data -> get (Unmarshal data g) = get g.
Proof.
  intros Hown Hno. unfold Unmarshal. destruct (parse data) as [[| | | | |members]|] eqn:Ep; try done.
  assert (forall p, p ∈ members -> named s p = false) as Hn.
  { intros p Hp. destruct (named s p) eqn:E; [|done]. destruct Hno. by exists members, p. }
  clear Ep Hno. revert g. induction members as [|p members IH]; intros g; [done|]. cbn [foldl]. rewrite IH by (intros q ?; apply Hn; by right).
  unfold set_field. destruct (List.find _ schema) as [f|] eqn:Ef; [|done]. apply List.find_some in Ef as [Hin Hnamed].
  unfold own_entry in Hown. rewrite Forall_forall in Hown. destruct (Hown f) as [E|Hkeep]; [by apply list_elem_of_In| |by apply Hkeep].
  rewrite E, Hn in Hnamed by by left. done.
Qed.

Ltac own_entry_tac :=
  unfold own_entry, schema;
  repeat (apply Forall_cons; split; [first [left; reflexivity | right; intros raw g; reflexivity]|]); apply Forall_nil; exact I.

Lemma Mode_own : own_entry Mode "MODE".
Proof. own_entry_tac. Qed.
Lemma Peers_own : own_entry Peers "PEERS".
Proof. own_entry_tac. Qed.

(** Whatever the command line and the environment say, a node whose file, if it
    finds one, names neither the mode nor the peers starts, and runs alone. *)
Theorem file_without_cluster_runs_alone Stat (ReadFile : bytes -> option bytes) wd args meEnv :
  (forall path data, ReadFile path = Some data -> ~ names "MODE" data /\ ~ names "PEERS" data) ->
  exists g, G Stat ReadFile wd args meEnv = inr g /\ Mode g = ModeStandalone /\ Peers g = [of_string "localhost:8080"].
Proof.
  intros Hfile. unfold G, NewGlobalConfig. set (d := defaultGlobalConfig _ _).
  assert (Mode (Init ReadFile d) = [] /\ Peers (Init ReadFile d) = [of_string "localhost:8080"]) as [Hm Hp].
  { unfold Init. destruct (head (omap ReadFile paths)) as [data|] eqn:E; [|done].
    assert (data ∈ omap ReadFile paths) as Hin by (destruct (omap ReadFile paths); simplify_eq/=; by left).
    apply list_elem_of_omap in Hin as (path & _ & Hd). destruct (Hfile _ _ Hd) as [H1 H2].
    split; [by rewrite (unnamed_kept Mode _ _ _ Mode_own H1)|by rewrite (unnamed_kept Peers _ _ _ Peers_own H2)]. }
  set (g := Init ReadFile d) in *. unfold ParseFlags.
  assert (exists me, env_me meEnv (flag_me args g) = set_Me g me) as [me ->].
  { unfold env_me, flag_me. destruct (_ <=? _); repeat case_match_eq; try (by eexists); exists (Me g); by destruct g. }
  unfold resolveMode. cbn [set_Me Mode Peers]. rewrite Hm, Hp. rewrite decide_False by (by intros [|]). rewrite decide_True by done.
  change (1 <? zlen [of_string "localhost:8080"]) with false. cbn iota. cbn [set_Mode Mode]. rewrite decide_True by done.
  eexists. split; [done|]. split; [done|exact Hp].
Qed.

(** ** The file that comes with the program *)

(** JSON text, with a prime for every quote. *)
Definition json (s : string) : bytes := (fun b => if bool_decide (bval b = 39) then quote else b) <$> of_string s.

Definition shipped : bytes := json "{ 'Mode': 'standalone', 'MaxMemTableSize': 10000, 'WALPath': '../../log/wal.log', 'SSTablePath': '../../log',
  'Host': '127.0.0.1', 'Port': 8080, 'Name': 'BanDB', 'MaxConn': 100, 'MaxPackageSize': 16777216, 'WorkPoolSize': 100,
  'MaxWorkPoolTaskLen': 100, 'MaxMsgChanLen': 100, 'MaxCompactionSize': 4, 'MaxMemTableP': 0.5, 'MaxMemTableLevel': 32,
  'RaftSnapshotThreshold': 1000, 'RaftSnapshotKeepEntries': 100 }".

(** Found two directories up, it gives a node of its own; the two pool settings
    it misspells keep their defaults. *)
Example shipped_configuration :
  let disk path := if bool_decide (path = of_string "../../config/config.json") then Some shipped else None in
  exists g, G (fun _ => false) disk None [of_string "server"] [] = inr g /\
    Mode g = ModeStandalone /\ Port g = 8080 /\ MaxConn g = 100 /\ MaxCompactionSize g = 4 /\ MaxMemTableSize g = 10000 /\
    MaxPackageSize g = 16777216 /\ SSTablePath g = of_string "../../log" /\ (MaxMemTableP g == 1 # 2)%Q /\
    MemTableMaxInflightBytes g = Z.shiftl 64 20 /\ WorkerPoolSize g = 10 /\ MaxWorkerTaskLen g = 10000.
Proof. eexists. split; [vm_compute; reflexivity|]. vm_compute. repeat split. Qed.

(** The fields are found without regard to case, a value of the wrong kind is
    passed over, and a null in a list keeps the default. *)
Example odd_configuration :
  let g := Unmarshal (json "{ 'port': 'x', 'PORT': 99, 'maxconn': -1, 'MaxPackageSize': -1, 'Peers': [null, 'b:1'] }") (defaultGlobalConfig [] []) in
  Port g = 99 /\ MaxConn g = -1 /\ MaxPackageSize g = Z.shiftl 16 20 /\ Peers g = [of_string "localhost:8080"; of_string "b:1"].
Proof. vm_compute. repeat split. Qed.

End ConfigFile.
